(** * The CFITSIO block cache (buffers.c): a shallow embedding and its properties

    The C file keeps a process-wide pool of [NIOBUF] I/O buffers of
    [IOBUFLEN] bytes each, shared by every open FITS file.  The embedding
    keeps the five parallel global arrays of the source as five lists,
    the [FITSfile] structures as a store indexed by file identifier (the
    pointer value of the source), and threads the whole thing through a
    state monad whose failure case stands for behaviour the C standard
    leaves undefined (an array index out of range, a [memcpy] outside its
    buffer, a null owner dereferenced). *)

From Stdlib Require Import ZArith List Lia Bool.
From Stdlib Require Import Strings.Byte.
From stdpp Require Import base tactics option list list_numbers.

Open Scope Z_scope.

(** ** Constants of fitsio.h and fitsio2.h *)

(** Modelled from the spec: the header fitsio2.h is not part of the
    sources at hand; the spec fixes [L = 2880], [N = 40] and the direct
    I/O cutoff [M = 5760]. *)
Definition IOBUFLEN : Z := 2880.
Definition NIOBUF : Z := 40.
Definition MINDIRECT : Z := 5760.

(** Modelled from the spec: the error codes and flags of fitsio.h, with
    the values the CFITSIO headers give them. *)
Definition TOO_MANY_FILES : Z := 103.
Definition WRITE_ERROR : Z := 106.
Definition END_OF_FILE : Z := 107.
Definition READ_ERROR : Z := 108.
Definition NEG_FILE_POS : Z := 304.
Definition REPORT_EOF : Z := 0.
Definition IGNORE_EOF : Z := 1.
Definition IMAGE_HDU : Z := 0.
Definition ASCII_TBL : Z := 1.
Definition BINARY_TBL : Z := 2.
Definition DATA_UNDEFINED : Z := -1.

(** ** Data model *)

(** The fields of [FITSfile] that buffers.c reads or writes.  [curbuf] is
    an [int]: [-1] means that the file has no current buffer. *)
Record FITSfile : Type := mkFITSfile {
  filesize : Z;
  logfilesize : Z;
  bytepos : Z;
  io_pos : Z;
  curbuf : Z;
  curhdu : Z;
  hdutype : Z;
  datastart : Z;
  rowlength : Z
}.

(** A [fitsfile] handle: the caller's HDU number and the pointer to the
    shared [FITSfile]. *)
Record fitsfile : Type := mkfitsfile {
  HDUposition : Z;
  Fptr : nat
}.

(** The globals of buffers.c, the store of [FITSfile] structures, and
    the state of the platform driver (one disk image and one OS position
    per file).  [io_faults] lists the outcome of the driver's next
    transfers ([true] = the transfer fails); [wlog] records, oldest
    first, every transfer the driver has written to a disk. *)
Record world : Type := mkWorld {
  iobuffer : list (list byte);
  bufptr : list (option nat);
  bufrecnum : list Z;
  dirty : list bool;
  ageindex : list Z;
  ageinit : bool;
  files : nat -> FITSfile;
  disk : nat -> list byte;
  ospos : nat -> Z;
  io_faults : list bool;
  wlog : list (nat * Z * list byte)
}.

Definition set_iobuffer (v : list (list byte)) (w : world) : world :=
  mkWorld v (bufptr w) (bufrecnum w) (dirty w) (ageindex w) (ageinit w)
          (files w) (disk w) (ospos w) (io_faults w) (wlog w).
Definition set_bufptr (v : list (option nat)) (w : world) : world :=
  mkWorld (iobuffer w) v (bufrecnum w) (dirty w) (ageindex w) (ageinit w)
          (files w) (disk w) (ospos w) (io_faults w) (wlog w).
Definition set_bufrecnum (v : list Z) (w : world) : world :=
  mkWorld (iobuffer w) (bufptr w) v (dirty w) (ageindex w) (ageinit w)
          (files w) (disk w) (ospos w) (io_faults w) (wlog w).
Definition set_dirty (v : list bool) (w : world) : world :=
  mkWorld (iobuffer w) (bufptr w) (bufrecnum w) v (ageindex w) (ageinit w)
          (files w) (disk w) (ospos w) (io_faults w) (wlog w).
Definition set_ages (v : list Z) (i : bool) (w : world) : world :=
  mkWorld (iobuffer w) (bufptr w) (bufrecnum w) (dirty w) v i
          (files w) (disk w) (ospos w) (io_faults w) (wlog w).
Definition set_files (v : nat -> FITSfile) (w : world) : world :=
  mkWorld (iobuffer w) (bufptr w) (bufrecnum w) (dirty w) (ageindex w)
          (ageinit w) v (disk w) (ospos w) (io_faults w) (wlog w).
Definition set_driver (d : nat -> list byte) (p : nat -> Z) (fl : list bool)
    (lg : list (nat * Z * list byte)) (w : world) : world :=
  mkWorld (iobuffer w) (bufptr w) (bufrecnum w) (dirty w) (ageindex w)
          (ageinit w) (files w) d p fl lg.

(** Functional update of a store indexed by file identifier. *)
Definition upd {A : Type} (m : nat -> A) (F : nat) (v : A) : nat -> A :=
  fun G => if Nat.eqb G F then v else m G.

Definition with_filesize (v : Z) (f : FITSfile) : FITSfile :=
  mkFITSfile v (logfilesize f) (bytepos f) (io_pos f) (curbuf f) (curhdu f)
             (hdutype f) (datastart f) (rowlength f).
Definition with_logfilesize (v : Z) (f : FITSfile) : FITSfile :=
  mkFITSfile (filesize f) v (bytepos f) (io_pos f) (curbuf f) (curhdu f)
             (hdutype f) (datastart f) (rowlength f).
Definition with_bytepos (v : Z) (f : FITSfile) : FITSfile :=
  mkFITSfile (filesize f) (logfilesize f) v (io_pos f) (curbuf f) (curhdu f)
             (hdutype f) (datastart f) (rowlength f).
Definition with_io_pos (v : Z) (f : FITSfile) : FITSfile :=
  mkFITSfile (filesize f) (logfilesize f) (bytepos f) v (curbuf f) (curhdu f)
             (hdutype f) (datastart f) (rowlength f).
Definition with_curbuf (v : Z) (f : FITSfile) : FITSfile :=
  mkFITSfile (filesize f) (logfilesize f) (bytepos f) (io_pos f) v (curhdu f)
             (hdutype f) (datastart f) (rowlength f).

(** [Fptr->field = v] for one field of one file. *)
Definition upd_file (F : nat) (g : FITSfile -> FITSfile) (w : world) : world :=
  set_files (upd (files w) F (g (files w F))) w.

(** ** C arrays as lists *)

(** [a[i]] as an rvalue: undefined outside the array. *)
Definition rd {A : Type} (l : list A) (i : Z) : option A :=
  if Z.ltb i 0 then None else l !! Z.to_nat i.

(** [a[i] = x]: undefined outside the array. *)
Definition wr {A : Type} (l : list A) (i : Z) (x : A) : option (list A) :=
  if Z.ltb i 0 then None
  else if Z.ltb i (Z.of_nat (length l)) then Some (<[Z.to_nat i := x]> l)
  else None.

(** [memcpy(buf + off, src, n)] into a buffer [buf]: defined when the
    [n] bytes exist in [src] and fit in [buf]. *)
Definition memcpy_to (buf : list byte) (off : Z) (src : list byte) (n : Z)
    : option (list byte) :=
  if (Z.leb 0 n && Z.leb 0 off && Z.leb (off + n) (Z.of_nat (length buf))
      && Z.leb n (Z.of_nat (length src)))%bool
  then Some (take (Z.to_nat off) buf ++ take (Z.to_nat n) src
             ++ drop (Z.to_nat (off + n)) buf)
  else None.

(** [memcpy(dst, buf + off, n)] out of a buffer [buf]. *)
Definition memcpy_from (buf : list byte) (off n : Z) : option (list byte) :=
  if (Z.leb 0 n && Z.leb 0 off && Z.leb (off + n) (Z.of_nat (length buf)))%bool
  then Some (take (Z.to_nat n) (drop (Z.to_nat off) buf))
  else None.

(** [cptr += n] on the caller's buffer. *)
Definition advance (cptr : list byte) (n : Z) : list byte :=
  drop (Z.to_nat n) cptr.

(** ** The state monad of the embedding *)

Definition M (A : Type) : Type := world -> option (A * world).

Definition ret {A : Type} (a : A) : M A := fun w => Some (a, w).

Definition bind {A B : Type} (m : M A) (k : A -> M B) : M B :=
  fun w => match m w with
           | Some (a, w') => k a w'
           | None => None
           end.

Definition undefined {A : Type} : M A := fun _ => None.

Definition gets {A : Type} (f : world -> A) : M A := fun w => Some (f w, w).

Definition modify (f : world -> world) : M unit := fun w => Some (tt, f w).

(** A partial observation of the world: undefined where [f] is. *)
Definition reads {A : Type} (f : world -> option A) : M A :=
  fun w => match f w with Some a => Some (a, w) | None => None end.

Definition lift {A : Type} (o : option A) : M A :=
  fun w => match o with Some a => Some (a, w) | None => None end.

Notation "'do' x <- m ; k" := (bind m (fun x => k))
  (at level 10, x pattern, m at level 100, k at level 200).
Notation "'exec' m ; k" := (bind m (fun _ => k))
  (at level 10, m at level 100, k at level 200).
Notation "'opt' x <- o ; k" :=
  (match o with Some x => k | None => None end)
  (at level 10, x pattern, o at level 100, k at level 200).

(** The fields of a file, read through its pointer. *)
Definition file_of (F : nat) : M FITSfile := gets (fun w => files w F).

(** A status-threading loop over a list of indices: the body receives the
    loop index and the current status and returns the new status. *)
Fixpoint for_status (l : list Z) (body : Z -> Z -> M Z) (status : Z) : M Z :=
  match l with
  | [] => ret status
  | ii :: rest => do status' <- body ii status; for_status rest body status'
  end.

(** ** The platform I/O driver *)

(** The bytes of a disk image after [data] is written at offset [p]: a
    write that starts past the end leaves a hole of zero bytes. *)
Definition pwrite (content : list byte) (p : Z) (data : list byte) : list byte :=
  match data with
  | [] => content
  | _ => take (Z.to_nat p) content
         ++ replicate (Z.to_nat p - length content)%nat x00
         ++ data
         ++ drop (Z.to_nat p + length data)%nat content
  end.

(** Modelled from the spec: the driver's [seek(file, offset)], which only
    moves the OS-level position; a seek to a negative offset fails and
    leaves the position where it was (the callers ignore the result). *)
Definition ffseek (F : nat) (pos : Z) : M unit :=
  modify (fun w => if Z.ltb pos 0 then w
                   else set_driver (disk w) (upd (ospos w) F pos)
                                   (io_faults w) (wlog w) w).

(** The next outcome of the fault oracle. *)
Definition next_fault (fl : list bool) : bool * list bool :=
  match fl with
  | [] => (false, [])
  | b :: rest => (b, rest)
  end.

(** Modelled from the spec: the driver's [write(file, n, src)], called
    through [ffwrite(Fptr, nbytes, buffer, status)].  The driver takes no
    status: the transfer is attempted whatever the status is.  A failing
    transfer reports WRITE_ERROR and leaves the disk alone; a successful
    one puts the bytes at the OS position, moves that position and
    passes the status through unchanged. *)
Definition ffwrite (F : nat) (nbytes : Z) (src : list byte) (status : Z) : M Z :=
  fun w =>
    if (Z.ltb nbytes 0 || Z.ltb (Z.of_nat (length src)) nbytes)%bool then None
    else
      let (bad, rest) := next_fault (io_faults w) in
      if bad : bool
      then Some (WRITE_ERROR, set_driver (disk w) (ospos w) rest (wlog w) w)
      else
        let data := take (Z.to_nat nbytes) src in
        Some (status,
              set_driver (upd (disk w) F (pwrite (disk w F) (ospos w F) data))
                         (upd (ospos w) F (ospos w F + nbytes))
                         rest
                         (wlog w ++ [(F, ospos w F, data)]) w).

(** Modelled from the spec: the driver's [read(file, n, dst)], called
    through [ffread(Fptr, nbytes, buffer, status)].  The driver takes no
    status: the transfer is attempted whatever the status is.  It
    returns the new status and, when the transfer took place, the bytes
    that the C code finds in [buffer] afterwards; a transfer that would
    run past the end of the disk image fails with READ_ERROR. *)
Definition ffread (F : nat) (nbytes : Z) (status : Z) : M (Z * option (list byte)) :=
  fun w =>
    if Z.ltb nbytes 0 then None
    else
      let (bad, rest) := next_fault (io_faults w) in
      if (bad || Z.ltb (Z.of_nat (length (disk w F))) (ospos w F + nbytes))%bool
      then Some ((READ_ERROR, None),
                 set_driver (disk w) (ospos w) rest (wlog w) w)
      else
        Some ((status,
               Some (take (Z.to_nat nbytes) (drop (Z.to_nat (ospos w F)) (disk w F)))),
              set_driver (disk w) (upd (ospos w) F (ospos w F + nbytes))
                         rest (wlog w) w).

(** Modelled from the spec: [flush_sys(file)]; the disk image of the
    model is always up to date, so nothing changes. *)
Definition ffflushx (F : nat) : M unit := ret tt.

(** ** Access to the global arrays from inside the monad *)

Definition rdM {A : Type} (arr : world -> list A) (i : Z) : M A :=
  reads (fun w => rd (arr w) i).

Definition put_iobuffer (i : Z) (buf : list byte) : M unit :=
  fun w => opt l <- wr (iobuffer w) i buf; Some (tt, set_iobuffer l w).

Definition put_bufptr (i : Z) (p : option nat) : M unit :=
  fun w => opt l <- wr (bufptr w) i p; Some (tt, set_bufptr l w).

Definition put_bufrecnum (i : Z) (r : Z) : M unit :=
  fun w => opt l <- wr (bufrecnum w) i r; Some (tt, set_bufrecnum l w).

Definition put_dirty (i : Z) (d : bool) : M unit :=
  fun w => opt l <- wr (dirty w) i d; Some (tt, set_dirty l w).

(** The fill value of a fresh record: blanks in an ASCII table, zeros
    elsewhere. *)
Definition fill_byte (hdu : Z) : byte :=
  if Z.eqb hdu ASCII_TBL then x20 else x00.

(** [memset(iobuffer[nbuff], c, IOBUFLEN)]. *)
Definition memset_iobuffer (nbuff : Z) (c : byte) : M unit :=
  put_iobuffer nbuff (replicate (Z.to_nat IOBUFLEN) c).

(** The [static char zeros[IOBUFLEN]] of [ffbfwt]. *)
Definition zeros : list byte := replicate (Z.to_nat IOBUFLEN) x00.

(** ** ffwhbf: which buffer to reuse *)

(** The search loop of [ffwhbf] over the positions [iis] of the age
    index: [Some (Some ibuff)] when the loop returns [ibuff], [Some None]
    when it runs to its end. *)
Fixpoint ffwhbf_search (w : world) (iis : list Z) : option (option Z) :=
  match iis with
  | [] => Some None
  | ii :: rest =>
      opt ibuff <- rd (ageindex w) ii;
      opt owner <- rd (bufptr w) ibuff;
      match owner with
      | None => Some (Some ibuff)
      | Some G =>
          if Z.eqb (curbuf (files w G)) ibuff
          then ffwhbf_search w rest
          else Some (Some ibuff)
      end
  end.

(** The first call fills the age index with [0 .. NIOBUF-1]. *)
Definition ffwhbf_init (w : world) : world :=
  if ageinit w then w else set_ages (seqZ 0 NIOBUF) true w.

Definition ffwhbf (fptr : fitsfile) : M Z :=
  fun w =>
    let w1 := ffwhbf_init w in
    opt found <- ffwhbf_search w1 (seqZ 0 NIOBUF);
    match found with
    | Some ibuff => Some (ibuff, w1)
    | None => Some (curbuf (files w1 (Fptr fptr)), w1)
    end.

(** ** ffcurbuf *)

Definition ffcurbuf (nbuff : Z) : M (option nat) :=
  do owner <- rdM bufptr nbuff;
  match owner with
  | Some G =>
      do Gf <- file_of G;
      if Z.eqb (curbuf Gf) nbuff then ret (Some G) else ret None
  | None => ret None
  end.

(** ** ffbfwt: write one buffer back *)

(** The inner [for] loop of the past-EOF branch: among the buffers of
    [F] holding a record in [[minrec, irec)], keep the lowest. *)
Fixpoint ffbfwt_lowest (w : world) (F : nat) (minrec : Z) (iis : list Z)
    (irec ibuff : Z) : option (Z * Z) :=
  match iis with
  | [] => Some (irec, ibuff)
  | ii :: rest =>
      opt owner <- rd (bufptr w) ii;
      match owner with
      | Some G =>
          if Nat.eqb G F then
            opt r <- rd (bufrecnum w) ii;
            if (Z.leb minrec r && Z.ltb r irec)%bool
            then ffbfwt_lowest w F minrec rest r ii
            else ffbfwt_lowest w F minrec rest irec ibuff
          else ffbfwt_lowest w F minrec rest irec ibuff
      | None => ffbfwt_lowest w F minrec rest irec ibuff
      end
  end.

(** [for (jj = 0; jj < nloop; jj++) ffwrite(Fptr, IOBUFLEN, zeros, status)]. *)
Definition ffbfwt_fill (F : nat) (nloop : Z) (status : Z) : M Z :=
  for_status (seqZ 0 nloop) (fun _ st => ffwrite F IOBUFLEN zeros st) status.

(** One turn of the [while] loop of the past-EOF branch; it returns the
    buffer it wrote and the status. *)
Definition ffbfwt_append (F : nat) (nbuff : Z) (status : Z) : M (Z * Z) :=
  do Ff <- file_of F;
  let minrec := Z.quot (filesize Ff) IOBUFLEN in
  do irec0 <- rdM bufrecnum nbuff;
  do low <- reads (fun w => ffbfwt_lowest w F minrec (seqZ 0 NIOBUF) irec0 nbuff);
  let irec := fst low in
  let ibuff := snd low in
  let filepos := irec * IOBUFLEN in
  do status1 <-
    (if Z.ltb (filesize Ff) filepos then
       let nloop := Z.quot (filepos - filesize Ff) IOBUFLEN in
       do st <- ffbfwt_fill F nloop status;
       exec modify (upd_file F (with_filesize filepos));
       ret st
     else ret status);
  do buf <- rdM iobuffer ibuff;
  do status2 <- ffwrite F IOBUFLEN buf status1;
  exec put_dirty ibuff false;
  do Ff' <- file_of F;
  exec modify (upd_file F (with_filesize (filesize Ff' + IOBUFLEN)));
  ret (ibuff, status2).

(** The [while (ibuff != nbuff)] loop. *)
Fixpoint ffbfwt_extend (fuel : nat) (F : nat) (nbuff ibuff : Z) (status : Z)
    : M Z :=
  if Z.eqb ibuff nbuff then ret status
  else match fuel with
       | O => undefined
       | S fuel' =>
           do r <- ffbfwt_append F nbuff status;
           ffbfwt_extend fuel' F nbuff (fst r) (snd r)
       end.

(** The loop moves the end of the file past at least one more record in
    each turn and stops once the requested record is written: it takes no
    more turns than there are records from the end of the file to the
    requested one. *)
Definition extend_fuel (rec size : Z) : nat :=
  S (Z.to_nat (rec - Z.quot size IOBUFLEN)).

Definition ffbfwt (nbuff : Z) (status : Z) : M Z :=
  do owner <- rdM bufptr nbuff;
  match owner with
  | None => undefined
  | Some F =>
      do rec <- rdM bufrecnum nbuff;
      let filepos := rec * IOBUFLEN in
      do Ff <- file_of F;
      if Z.leb filepos (filesize Ff) then
        exec (if Z.eqb (io_pos Ff) filepos then ret tt else ffseek F filepos);
        do buf <- rdM iobuffer nbuff;
        do status1 <- ffwrite F IOBUFLEN buf status;
        exec modify (upd_file F (with_io_pos (filepos + IOBUFLEN)));
        do Ff' <- file_of F;
        exec (if Z.eqb filepos (filesize Ff')
              then modify (upd_file F (with_filesize (filesize Ff' + IOBUFLEN)))
              else ret tt);
        exec put_dirty nbuff false;
        ret status1
      else
        exec (if Z.eqb (io_pos Ff) (filesize Ff) then ret tt
              else ffseek F (filesize Ff));
        do status1 <- ffbfwt_extend (extend_fuel rec (filesize Ff)) F nbuff
                                    NIOBUF status;
        do Ff' <- file_of F;
        exec modify (upd_file F (with_io_pos (filesize Ff')));
        ret status1
  end.

(** ** ffflsh and ffbfeof *)

Definition ffflsh (fptr : fitsfile) (clearbuf : Z) (status : Z) : M Z :=
  do status1 <-
    for_status (seqZ 0 NIOBUF) (fun ii st =>
      do owner <- rdM bufptr ii;
      match owner with
      | Some G =>
          if Nat.eqb G (Fptr fptr) then
            do d <- rdM dirty ii;
            do st1 <- (if d : bool then ffbfwt ii st else ret st);
            exec (if Z.eqb clearbuf 0 then ret tt else put_bufptr ii None);
            ret st1
          else ret st
      | None => ret st
      end) status;
  exec ffflushx (Fptr fptr);
  ret status1.

Definition ffbfeof (fptr : fitsfile) (status : Z) : M Z :=
  exec for_status (seqZ 0 NIOBUF) (fun ii st =>
      do owner <- rdM bufptr ii;
      match owner with
      | Some G =>
          if Nat.eqb G (Fptr fptr) then
            do r <- rdM bufrecnum ii;
            do Ff <- file_of (Fptr fptr);
            exec (if Z.leb (filesize Ff) (r * IOBUFLEN)
                  then put_bufptr ii None else ret tt);
            ret st
          else ret st
      | None => ret st
      end) status;
  ret status.

(** ** ffflus *)

(** [ffghdn] (the number of the current HDU), [ffchdu] (close the
    current HDU) and [ffgext] (reopen it) belong to the HDU layer and
    are taken as parameters; the HDU type that [ffgext] stores is not
    used.  The messages of [ffpmsg] are not modelled. *)
Definition ffflus (ffghdn : fitsfile -> M Z)
    (ffchdu : fitsfile -> Z -> M Z) (ffgext : fitsfile -> Z -> Z -> M Z)
    (fptr : fitsfile) (status : Z) : M Z :=
  if Z.ltb 0 status then ret status
  else
    do hdunum <- ffghdn fptr;
    do status1 <- ffchdu fptr status;
    do status2 <- ffflsh fptr 0 status1;
    ffgext fptr (hdunum - 1) status2.

(** ** fits_get_num_files *)

(** The inner loop: is [bufptr[ii]] equal to some [bufptr[jj]], [jj < ii]? *)
Fixpoint seen_before (w : world) (p : option nat) (jjs : list Z) : option bool :=
  match jjs with
  | [] => Some false
  | jj :: rest =>
      opt q <- rd (bufptr w) jj;
      if bool_decide (p = q) then Some true else seen_before w p rest
  end.

Fixpoint count_files (w : world) (iis : list Z) (nfiles : Z) : option Z :=
  match iis with
  | [] => Some nfiles
  | ii :: rest =>
      opt p <- rd (bufptr w) ii;
      match p with
      | None => count_files w rest nfiles
      | Some _ =>
          opt dup <- seen_before w p (seqZ 0 ii);
          count_files w rest (if dup : bool then nfiles else nfiles + 1)
      end
  end.

Definition fits_get_num_files : M Z :=
  reads (fun w => count_files w (seqZ 0 NIOBUF) 0).

(** ** The operations that may call the HDU navigator *)

(** The loop that finds a buffer in the age index, [ffldrc]:
    [for (ibuff = 0; ibuff < NIOBUF; ibuff++) if (ageindex[ibuff] == nbuff) break;]
    run on the part of the age index from [ibuff] on. *)
Fixpoint age_position (ages : list Z) (nbuff ibuff : Z) : Z :=
  match ages with
  | [] => ibuff
  | a :: rest => if Z.eqb a nbuff then ibuff else age_position rest nbuff (ibuff + 1)
  end.

(** [for (ibuff++; ibuff < NIOBUF; ibuff++) ageindex[ibuff - 1] = ageindex[ibuff];]
    over the indices [iis] that the loop variable takes. *)
Fixpoint age_shift (ages : list Z) (iis : list Z) : option (list Z) :=
  match iis with
  | [] => Some ages
  | ibuff :: rest =>
      opt a <- rd ages ibuff;
      opt ages' <- wr ages (ibuff - 1) a;
      age_shift ages' rest
  end.

(** The label [updatebuf] of [ffldrc] and what follows it.  [ibuff] is
    the position of the hit in the age index, negative after a miss. *)
Definition ffldrc_updatebuf (F : nat) (nbuff ibuff : Z) (status : Z) : M Z :=
  exec modify (upd_file F (with_curbuf nbuff));
  do ages <- gets ageindex;
  let pos := if Z.ltb ibuff 0 then age_position ages nbuff 0 else ibuff in
  do shifted <- lift (age_shift ages (seqZ (pos + 1) (NIOBUF - (pos + 1))));
  do ages' <- lift (wr shifted (NIOBUF - 1) nbuff);
  exec modify (fun w => set_ages ages' (ageinit w) w);
  ret status.

(** The search of [ffldrc] through the age index, youngest first:
    [Some (Some (ibuff, nbuff))] on a hit. *)
Fixpoint ffldrc_search (w : world) (F : nat) (record : Z) (ibuffs : list Z)
    : option (option (Z * Z)) :=
  match ibuffs with
  | [] => Some None
  | ibuff :: rest =>
      opt nbuff <- rd (ageindex w) ibuff;
      opt owner <- rd (bufptr w) nbuff;
      match owner with
      | Some G =>
          if Nat.eqb G F then
            opt r <- rd (bufrecnum w) nbuff;
            if Z.eqb record r then Some (Some (ibuff, nbuff))
            else ffldrc_search w F record rest
          else ffldrc_search w F record rest
      | None => ffldrc_search w F record rest
      end
  end.

Section Core.

(** The collaborators outside buffers.c are parameters of the
    development: the HDU navigator [ffmahd(fptr, hdunum, NULL, status)],
    the header rescanner [ffrdef(fptr, status)], and [ffgtcl], which
    reports the type code of a column. *)
Variable ffmahd : fitsfile -> Z -> Z -> M Z.
Variable ffrdef : fitsfile -> Z -> M Z.
Variable ffgtcl : fitsfile -> Z -> Z -> M (Z * Z).

(** [if (fptr->HDUposition != (fptr->Fptr)->curhdu) ffmahd(...)]. *)
Definition sync_hdu (fptr : fitsfile) (status : Z) : M Z :=
  do Ff <- file_of (Fptr fptr);
  if Z.eqb (HDUposition fptr) (curhdu Ff) then ret status
  else ffmahd fptr (HDUposition fptr + 1) status.

(** *** ffldrc *)

Definition ffldrc (fptr : fitsfile) (record : Z) (err_mode : Z) (status : Z)
    : M Z :=
  let F := Fptr fptr in
  do status0 <- sync_hdu fptr status;
  do hit <- reads (fun w => ffldrc_search w F record (reverse (seqZ 0 NIOBUF)));
  match hit with
  | Some (ibuff, nbuff) => ffldrc_updatebuf F nbuff ibuff status0
  | None =>
      let rstart := record * IOBUFLEN in
      do Ff <- file_of F;
      if (Z.eqb err_mode 0 && Z.leb (logfilesize Ff) rstart)%bool
      then ret END_OF_FILE
      else
        do nbuff <- ffwhbf fptr;
        if Z.ltb nbuff 0 then ret TOO_MANY_FILES
        else
          do d <- rdM dirty nbuff;
          do status1 <- (if d : bool then ffbfwt nbuff status0 else ret status0);
          do Ff1 <- file_of F;
          do status2 <-
            (if Z.leb (filesize Ff1) rstart then
               exec memset_iobuffer nbuff (fill_byte (hdutype Ff1));
               exec modify (upd_file F (with_logfilesize
                              (Z.max (logfilesize Ff1) (rstart + IOBUFLEN))));
               exec put_dirty nbuff true;
               ret status1
             else
               exec (if Z.eqb (io_pos Ff1) rstart then ret tt
                     else ffseek F rstart);
               do r <- ffread F IOBUFLEN status1;
               exec (match snd r with
                     | Some bytes => put_iobuffer nbuff bytes
                     | None => ret tt
                     end);
               exec modify (upd_file F (with_io_pos (rstart + IOBUFLEN)));
               ret (fst r));
          exec put_bufptr nbuff (Some F);
          exec put_bufrecnum nbuff record;
          ffldrc_updatebuf F nbuff (-1) status2
  end.

(** *** ffmbyt *)

Definition ffmbyt (fptr : fitsfile) (pos : Z) (err_mode : Z) (status : Z)
    : M Z :=
  let F := Fptr fptr in
  if Z.ltb 0 status then ret status
  else if Z.ltb pos 0 then ret NEG_FILE_POS
  else
    do status0 <- sync_hdu fptr status;
    let record := Z.quot pos IOBUFLEN in
    do Ff <- file_of F;
    do cur <- rdM bufrecnum (curbuf Ff);
    do status1 <- (if Z.eqb record cur then ret status0
                   else ffldrc fptr record err_mode status0);
    exec (if Z.ltb 0 status1 then ret tt
          else modify (upd_file F (with_bytepos pos)));
    ret status1.

(** *** ffpbyt *)

(** The [while (ntodo)] loop of the buffered branch of [ffpbyt]. *)
Fixpoint ffpbyt_loop (fuel : nat) (fptr : fitsfile) (ntodo : Z)
    (cptr : list byte) (bufpos nspace : Z) (status : Z) : M Z :=
  let F := Fptr fptr in
  if Z.eqb ntodo 0 then ret status
  else match fuel with
       | O => undefined
       | S fuel' =>
           let nwrite := Z.min ntodo nspace in
           do Ff <- file_of F;
           do buf <- rdM iobuffer (curbuf Ff);
           do buf' <- lift (memcpy_to buf bufpos cptr nwrite);
           exec put_iobuffer (curbuf Ff) buf';
           let ntodo' := ntodo - nwrite in
           let cptr' := advance cptr nwrite in
           exec modify (upd_file F (with_bytepos (bytepos Ff + nwrite)));
           exec put_dirty (curbuf Ff) true;
           if Z.eqb ntodo' 0 then ret status
           else
             do Ff1 <- file_of F;
             do status1 <- ffldrc fptr (Z.quot (bytepos Ff1) IOBUFLEN)
                                  IGNORE_EOF status;
             ffpbyt_loop fuel' fptr ntodo' cptr' 0 IOBUFLEN status1
       end.

(** The direct branch of [ffpbyt], for [nbytes >= MINDIRECT]. *)
Definition ffpbyt_direct (fptr : fitsfile) (nbytes : Z) (buffer : list byte)
    (status : Z) : M Z :=
  let F := Fptr fptr in
  do Ff <- file_of F;
  let nbuff := curbuf Ff in
  let filepos0 := bytepos Ff in
  do recstart <- rdM bufrecnum nbuff;
  let recend := Z.quot (filepos0 + nbytes - 1) IOBUFLEN in
  let bufpos := filepos0 - recstart * IOBUFLEN in
  let nspace := IOBUFLEN - bufpos in
  do head <-
    (if Z.eqb nspace 0 then ret (nbytes, buffer, filepos0)
     else
       do buf <- rdM iobuffer nbuff;
       do buf' <- lift (memcpy_to buf bufpos buffer nspace);
       exec put_iobuffer nbuff buf';
       exec put_dirty nbuff true;
       ret (nbytes - nspace, advance buffer nspace, filepos0 + nspace));
  let '(ntodo, cptr, filepos) := head in
  do status1 <-
    for_status (seqZ 0 NIOBUF) (fun ii st =>
      do owner <- rdM bufptr ii;
      match owner with
      | Some G =>
          if Nat.eqb G F then
            do r <- rdM bufrecnum ii;
            if (Z.leb recstart r && Z.leb r recend)%bool then
              do d <- rdM dirty ii;
              do st1 <- (if d : bool then ffbfwt ii st else ret st);
              exec put_bufptr ii None;
              ret st1
            else ret st
          else ret st
      | None => ret st
      end) status;
  do Ff1 <- file_of F;
  exec (if Z.eqb (io_pos Ff1) filepos then ret tt else ffseek F filepos);
  let nwrite := Z.quot (ntodo - 1) IOBUFLEN * IOBUFLEN in
  do status2 <- ffwrite F nwrite cptr status1;
  let ntodo' := ntodo - nwrite in
  let cptr' := advance cptr nwrite in
  exec modify (upd_file F (with_io_pos (filepos + nwrite)));
  do Ff2 <- file_of F;
  do status3 <-
    (if Z.leb (filesize Ff2) (io_pos Ff2) then
       exec modify (upd_file F (with_filesize (io_pos Ff2)));
       exec memset_iobuffer nbuff (fill_byte (hdutype Ff2));
       ret status2
     else
       do r <- ffread F IOBUFLEN status2;
       exec (match snd r with
             | Some bytes => put_iobuffer nbuff bytes
             | None => ret tt
             end);
       exec modify (upd_file F (with_io_pos (io_pos Ff2 + IOBUFLEN)));
       ret (fst r));
  do buf <- rdM iobuffer nbuff;
  do buf' <- lift (memcpy_to buf 0 cptr' ntodo');
  exec put_iobuffer nbuff buf';
  exec put_dirty nbuff true;
  exec put_bufrecnum nbuff recend;
  exec put_bufptr nbuff (Some F);
  do Ff3 <- file_of F;
  exec modify (upd_file F (with_logfilesize
                 (Z.max (logfilesize Ff3) ((recend + 1) * IOBUFLEN))));
  exec modify (upd_file F (with_bytepos (filepos + nwrite + ntodo')));
  ret status3.

Definition ffpbyt (fptr : fitsfile) (nbytes : Z) (buffer : list byte)
    (status : Z) : M Z :=
  if Z.ltb 0 status then ret status
  else
    do status0 <- sync_hdu fptr status;
    if Z.leb MINDIRECT nbytes then ffpbyt_direct fptr nbytes buffer status0
    else
      do Ff <- file_of (Fptr fptr);
      do cur <- rdM bufrecnum (curbuf Ff);
      let bufpos := bytepos Ff - cur * IOBUFLEN in
      let nspace := IOBUFLEN - bufpos in
      ffpbyt_loop (S (Z.to_nat nbytes)) fptr nbytes buffer bufpos nspace status0.

(** *** ffgbyt *)

(** The [while (ntodo)] loop of the buffered branch of [ffgbyt]; [out]
    is what the loop has copied into the caller's buffer so far. *)
Fixpoint ffgbyt_loop (fuel : nat) (fptr : fitsfile) (ntodo : Z)
    (out : list byte) (bufpos nspace : Z) (status : Z) : M (Z * list byte) :=
  let F := Fptr fptr in
  if Z.eqb ntodo 0 then ret (status, out)
  else match fuel with
       | O => undefined
       | S fuel' =>
           let nread := Z.min ntodo nspace in
           do Ff <- file_of F;
           do buf <- rdM iobuffer (curbuf Ff);
           do chunk <- lift (memcpy_from buf bufpos nread);
           let ntodo' := ntodo - nread in
           let out' := out ++ chunk in
           exec modify (upd_file F (with_bytepos (bytepos Ff + nread)));
           if Z.eqb ntodo' 0 then ret (status, out')
           else
             do Ff1 <- file_of F;
             do status1 <- ffldrc fptr (Z.quot (bytepos Ff1) IOBUFLEN)
                                  REPORT_EOF status;
             ffgbyt_loop fuel' fptr ntodo' out' 0 IOBUFLEN status1
       end.

(** The direct branch of [ffgbyt], for [nbytes >= MINDIRECT]. *)
Definition ffgbyt_direct (fptr : fitsfile) (nbytes : Z) (status : Z)
    : M (Z * list byte) :=
  let F := Fptr fptr in
  do Ff <- file_of F;
  let filepos := bytepos Ff in
  do recstart <- rdM bufrecnum (curbuf Ff);
  let recend := Z.quot (filepos + nbytes - 1) IOBUFLEN in
  do status1 <-
    for_status (seqZ 0 NIOBUF) (fun ii st =>
      do d <- rdM dirty ii;
      if d : bool then
        do owner <- rdM bufptr ii;
        match owner with
        | Some G =>
            if Nat.eqb G F then
              do r <- rdM bufrecnum ii;
              if (Z.leb recstart r && Z.leb r recend)%bool
              then ffbfwt ii st
              else ret st
            else ret st
        | None => ret st
        end
      else ret st) status;
  do Ff1 <- file_of F;
  exec (if Z.eqb (io_pos Ff1) filepos then ret tt else ffseek F filepos);
  do r <- ffread F nbytes status1;
  exec modify (upd_file F (with_io_pos (filepos + nbytes)));
  ret (fst r, match snd r with Some bytes => bytes | None => [] end).

Definition ffgbyt (fptr : fitsfile) (nbytes : Z) (status : Z)
    : M (Z * list byte) :=
  if Z.ltb 0 status then ret (status, [])
  else
    do status0 <- sync_hdu fptr status;
    if Z.leb MINDIRECT nbytes then ffgbyt_direct fptr nbytes status0
    else
      do Ff <- file_of (Fptr fptr);
      do cur <- rdM bufrecnum (curbuf Ff);
      let bufpos := bytepos Ff - cur * IOBUFLEN in
      let nspace := IOBUFLEN - bufpos in
      ffgbyt_loop (S (Z.to_nat nbytes)) fptr nbytes [] bufpos nspace status0.

(** *** ffpbytoff and ffgbytoff *)

(** The local variables that the group loops carry from one group to the
    next.  [ioptr] is kept as an offset into [iobuffer[bcurrent]]; [cptr]
    is the part of the caller's buffer not yet consumed ([ffpbytoff]) or
    the bytes delivered so far ([ffgbytoff]). *)
Record cursor : Type := mkCursor {
  bcurrent : Z;
  record : Z;
  nspace : Z;
  ioptr : Z;
  cptr : list byte;
  cstatus : Z
}.

(** [memcpy(ioptr, cptr, n); cptr += n] of [ffpbytoff]. *)
Definition put_group_bytes (c : cursor) (n : Z) : M cursor :=
  do buf <- rdM iobuffer (bcurrent c);
  do buf' <- lift (memcpy_to buf (ioptr c) (cptr c) n);
  exec put_iobuffer (bcurrent c) buf';
  ret (mkCursor (bcurrent c) (record c) (nspace c) (ioptr c)
                (advance (cptr c) n) (cstatus c)).

(** [memcpy(cptr, ioptr, n); cptr += n] of [ffgbytoff]. *)
Definition get_group_bytes (c : cursor) (n : Z) : M cursor :=
  do buf <- rdM iobuffer (bcurrent c);
  do chunk <- lift (memcpy_from buf (ioptr c) n);
  ret (mkCursor (bcurrent c) (record c) (nspace c) (ioptr c)
                (cptr c ++ chunk) (cstatus c)).

(** [record = rec; ffldrc(fptr, record, mode, status);
     bcurrent = curbuf; ioptr = iobuffer[bcurrent] + off; nspace = sp]. *)
Definition next_record (fptr : fitsfile) (mode : Z) (c : cursor)
    (rec off sp : Z) : M cursor :=
  do st <- ffldrc fptr rec mode (cstatus c);
  do Ff <- file_of (Fptr fptr);
  ret (mkCursor (curbuf Ff) rec sp off (cptr c) st).

(** The body of [for (ii = 1; ii < ngroups; ii++)] in [ffpbytoff]. *)
Definition ffpbytoff_group (fptr : fitsfile) (gsize offset : Z) (c : cursor)
    : M cursor :=
  let nwrite := Z.min gsize (nspace c) in
  do c1 <- put_group_bytes c nwrite;
  do c2 <-
    (if Z.ltb nwrite gsize then
       exec put_dirty (bcurrent c1) true;
       do c' <- next_record fptr IGNORE_EOF c1 (record c1 + 1) 0 (nspace c1);
       let nwrite' := gsize - nwrite in
       do c'' <- put_group_bytes c' nwrite';
       ret (mkCursor (bcurrent c'') (record c'')
                     (IOBUFLEN - offset - nwrite')
                     (ioptr c'' + (offset + nwrite')) (cptr c'') (cstatus c''))
     else
       ret (mkCursor (bcurrent c1) (record c1)
                     (nspace c1 - (offset + nwrite))
                     (ioptr c1 + (offset + nwrite)) (cptr c1) (cstatus c1)));
  if Z.leb (nspace c2) 0 then
    exec put_dirty (bcurrent c2) true;
    let rec := record c2 + Z.quot (IOBUFLEN - nspace c2) IOBUFLEN in
    let bufpos := Z.rem (- nspace c2) IOBUFLEN in
    next_record fptr IGNORE_EOF c2 rec bufpos (IOBUFLEN - bufpos)
  else ret c2.

(** The body of [for (ii = 1; ii < ngroups; ii++)] in [ffgbytoff]. *)
Definition ffgbytoff_group (fptr : fitsfile) (gsize offset : Z) (c : cursor)
    : M cursor :=
  let nread := Z.min gsize (nspace c) in
  do c1 <- get_group_bytes c nread;
  do c2 <-
    (if Z.ltb nread gsize then
       do c' <- next_record fptr REPORT_EOF c1 (record c1 + 1) 0 (nspace c1);
       let nread' := gsize - nread in
       do c'' <- get_group_bytes c' nread';
       ret (mkCursor (bcurrent c'') (record c'')
                     (IOBUFLEN - offset - nread')
                     (ioptr c'' + (offset + nread')) (cptr c'') (cstatus c''))
     else
       ret (mkCursor (bcurrent c1) (record c1)
                     (nspace c1 - (offset + nread))
                     (ioptr c1 + (offset + nread)) (cptr c1) (cstatus c1)));
  if Z.leb (nspace c2) 0 then
    let rec := record c2 + Z.quot (IOBUFLEN - nspace c2) IOBUFLEN in
    let bufpos := Z.rem (- nspace c2) IOBUFLEN in
    next_record fptr REPORT_EOF c2 rec bufpos (IOBUFLEN - bufpos)
  else ret c2.

(** [n] turns of a group loop. *)
Fixpoint group_loop (body : cursor -> M cursor) (n : nat) (c : cursor)
    : M cursor :=
  match n with
  | O => ret c
  | S n' => do c' <- body c; group_loop body n' c'
  end.

(** The cursor that both functions set up before their loop. *)
Definition group_start (fptr : fitsfile) (buffer : list byte) (status : Z)
    : M cursor :=
  do Ff <- file_of (Fptr fptr);
  let bcur := curbuf Ff in
  do rec <- rdM bufrecnum bcur;
  let bufpos := bytepos Ff - rec * IOBUFLEN in
  ret (mkCursor bcur rec (IOBUFLEN - bufpos) bufpos buffer status).

Definition ffpbytoff (fptr : fitsfile) (gsize ngroups offset : Z)
    (buffer : list byte) (status : Z) : M Z :=
  if Z.ltb 0 status then ret status
  else
    do status0 <- sync_hdu fptr status;
    do c0 <- group_start fptr buffer status0;
    do c <- group_loop (ffpbytoff_group fptr gsize offset)
                       (Z.to_nat (ngroups - 1)) c0;
    let nwrite := Z.min gsize (nspace c) in
    do c1 <- put_group_bytes c nwrite;
    do c2 <-
      (if Z.ltb nwrite gsize then
         exec put_dirty (bcurrent c1) true;
         do c' <- next_record fptr IGNORE_EOF c1 (record c1 + 1) 0 (nspace c1);
         put_group_bytes c' (gsize - nwrite)
       else ret c1);
    exec put_dirty (bcurrent c2) true;
    do Ff <- file_of (Fptr fptr);
    exec modify (upd_file (Fptr fptr)
                   (with_bytepos (bytepos Ff + ngroups * gsize
                                  + (ngroups - 1) * offset)));
    ret (cstatus c2).

Definition ffgbytoff (fptr : fitsfile) (gsize ngroups offset : Z)
    (status : Z) : M (Z * list byte) :=
  if Z.ltb 0 status then ret (status, [])
  else
    do status0 <- sync_hdu fptr status;
    do c0 <- group_start fptr [] status0;
    do c <- group_loop (ffgbytoff_group fptr gsize offset)
                       (Z.to_nat (ngroups - 1)) c0;
    let nread := Z.min gsize (nspace c) in
    do c1 <- get_group_bytes c nread;
    do c2 <-
      (if Z.ltb nread gsize then
         do c' <- next_record fptr REPORT_EOF c1 (record c1 + 1) 0 (nspace c1);
         get_group_bytes c' (gsize - nread)
       else ret c1);
    do Ff <- file_of (Fptr fptr);
    exec modify (upd_file (Fptr fptr)
                   (with_bytepos (bytepos Ff + ngroups * gsize
                                  + (ngroups - 1) * offset)));
    ret (cstatus c2, cptr c2).

(** *** ffgrsz *)

(** The result is the status and the value stored through [ndata]; the
    early return leaves [*ndata] unassigned ([None]). *)
Definition ffgrsz (fptr : fitsfile) (status : Z) : M (Z * option Z) :=
  let F := Fptr fptr in
  do Ff <- file_of F;
  do early <-
    (if negb (Z.eqb (HDUposition fptr) (curhdu Ff)) then
       do st <- ffmahd fptr (HDUposition fptr + 1) status; ret (false, st)
     else if Z.eqb (datastart Ff) DATA_UNDEFINED then
       do st <- ffrdef fptr status; ret (Z.ltb 0 st, st)
     else ret (false, status));
  if fst early : bool then ret (snd early, None)
  else
    let status0 := snd early in
    do nfiles <- fits_get_num_files;
    do Ff1 <- file_of F;
    if Z.eqb (hdutype Ff1) IMAGE_HDU then
      do tc <- ffgtcl fptr 2 status0;
      let bytesperpixel := Z.quot (snd tc) 10 in
      if Z.eqb bytesperpixel 0 then undefined
      else ret (fst tc,
                Some (Z.quot ((NIOBUF - nfiles) * IOBUFLEN) bytesperpixel))
    else
      let ndata := Z.quot ((NIOBUF - nfiles) * IOBUFLEN)
                          (Z.max 1 (rowlength Ff1)) in
      ret (status0, Some (Z.max 1 ndata)).

End Core.


(** ** The table and pixel helpers *)

(** Modelled from the spec: the error codes BadRow and BadElem of the
    table helpers, with the values the CFITSIO headers give them. *)
Definition BAD_ROW_NUM : Z := 307.
Definition BAD_ELEM_NUM : Z := 308.

(** *** The type [long] *)

(** A [long] has 64 bits.  The value of an arithmetic expression of
    type [long] is its exact value brought back into the range of the
    type by the wrap-around of two's complement. *)
Definition LONG_MAX : Z := 2 ^ 63 - 1.
Definition LONG_MIN : Z := - 2 ^ 63.

Definition wrap_long (z : Z) : Z := (z + 2 ^ 63) mod 2 ^ 64 - 2 ^ 63.

Definition ladd (a b : Z) : Z := wrap_long (a + b).
Definition lsub (a b : Z) : Z := wrap_long (a - b).
Definition lmul (a b : Z) : Z := wrap_long (a * b).

(** The quotient [a / b] of two [long] values has no value when [b] is
    zero or when it does not fit ([LONG_MIN / -1]). *)
Definition ldiv_defined (a b : Z) : bool :=
  negb (Z.eqb b 0 || (Z.eqb b (-1) && Z.eqb a LONG_MIN)).

Section Helpers.

Variable ffmahd : fitsfile -> Z -> Z -> M Z.
Variable ffrdef : fitsfile -> Z -> M Z.

(** *** ffgtbb and ffptbb *)

(** The field [numrows] of the file structure is read by [ffgtbb] and
    updated by [ffptbb] only: it is passed in as an argument, and
    [ffptbb] returns its new value beside the status.  [endrow] and
    [bytepos] are computed in [long], operation by operation. *)
Definition ffgtbb (fptr : fitsfile) (numrows : Z) (firstrow firstchar nchars : Z)
    (status : Z) : M (Z * list byte) :=
  let F := Fptr fptr in
  if (Z.ltb 0 status || Z.leb nchars 0)%bool then ret (status, [])
  else if Z.ltb firstrow 1 then ret (BAD_ROW_NUM, [])
  else if Z.ltb firstchar 1 then ret (BAD_ELEM_NUM, [])
  else
    do status0 <- sync_hdu ffmahd fptr status;
    do Ff <- file_of F;
    let num := lsub (ladd firstchar nchars) 2 in
    if negb (ldiv_defined num (rowlength Ff)) then undefined
    else
      let endrow := ladd (Z.quot num (rowlength Ff)) firstrow in
      if Z.ltb numrows endrow then ret (BAD_ROW_NUM, [])
      else
        let bytepos :=
          lsub (ladd (ladd (datastart Ff)
                           (lmul (lsub firstrow 1) (rowlength Ff)))
                     firstchar) 1 in
        do status1 <- ffmbyt ffmahd fptr bytepos REPORT_EOF status0;
        ffgbyt ffmahd fptr nchars status1.

Definition ffptbb (fptr : fitsfile) (numrows : Z) (firstrow firstchar nchars : Z)
    (values : list byte) (status : Z) : M (Z * Z) :=
  let F := Fptr fptr in
  if (Z.ltb 0 status || Z.leb nchars 0)%bool then ret (status, numrows)
  else if Z.ltb firstrow 1 then ret (BAD_ROW_NUM, numrows)
  else if Z.ltb firstchar 1 then ret (BAD_ELEM_NUM, numrows)
  else
    do Ff0 <- file_of F;
    do status0 <-
      (if negb (Z.eqb (HDUposition fptr) (curhdu Ff0))
       then ffmahd fptr (HDUposition fptr + 1) status
       else if Z.ltb (datastart Ff0) 0 then ffrdef fptr status
       else ret status);
    do Ff <- file_of F;
    let bytepos :=
      lsub (ladd (ladd (datastart Ff)
                       (lmul (lsub firstrow 1) (rowlength Ff)))
                 firstchar) 1 in
    do status1 <- ffmbyt ffmahd fptr bytepos IGNORE_EOF status0;
    do status2 <- ffpbyt ffmahd fptr nchars values status1;
    do Ff1 <- file_of F;
    let num := lsub (ladd firstchar nchars) 2 in
    if negb (ldiv_defined num (rowlength Ff1)) then undefined
    else
      let endrow := ladd (Z.quot num (rowlength Ff1)) firstrow in
      ret (status2, if Z.ltb numrows endrow then endrow else numrows).

(** *** ffgi1b and ffpi1b *)

Definition ffgi1b (fptr : fitsfile) (byteloc nvals incre : Z) (status : Z)
    : M (Z * list byte) :=
  let F := Fptr fptr in
  if Z.eqb incre 1 then
    if Z.ltb nvals MINDIRECT then
      do status1 <- ffmbyt ffmahd fptr byteloc REPORT_EOF status;
      ffgbyt ffmahd fptr nvals status1
    else
      do Ff <- file_of F;
      let postemp := bytepos Ff in
      exec modify (upd_file F (with_bytepos byteloc));
      do r <- ffgbyt ffmahd fptr nvals status;
      exec modify (upd_file F (with_bytepos postemp));
      ret r
  else
    do status1 <- ffmbyt ffmahd fptr byteloc REPORT_EOF status;
    ffgbytoff ffmahd fptr 1 nvals (incre - 1) status1.

Definition ffpi1b (fptr : fitsfile) (nvals incre : Z) (values : list byte)
    (status : Z) : M Z :=
  if Z.eqb incre 1 then ffpbyt ffmahd fptr nvals values status
  else ffpbytoff ffmahd fptr 1 nvals (incre - 1) values status.

End Helpers.


(** * Specification-level definitions *)

(** ** Weakest preconditions for the monad *)

(** [wp m Q w]: the run of [m] from [w] is defined and ends in [Q]. *)
Definition wp {A : Type} (m : M A) (Q : A -> world -> Prop) (w : world) : Prop :=
  match m w with
  | Some (a, w') => Q a w'
  | None => False
  end.

(** [wlp m Q w]: if the run of [m] from [w] is defined, it ends in [Q]. *)
Definition wlp {A : Type} (m : M A) (Q : A -> world -> Prop) (w : world) : Prop :=
  match m w with
  | Some (a, w') => Q a w'
  | None => True
  end.


(** ** Well-formed pools *)

(** The five global arrays have [NIOBUF] entries. *)
Definition slots_ok (w : world) : Prop :=
  Z.of_nat (length (iobuffer w)) = NIOBUF /\
  Z.of_nat (length (bufptr w)) = NIOBUF /\
  Z.of_nat (length (bufrecnum w)) = NIOBUF /\
  Z.of_nat (length (dirty w)) = NIOBUF /\
  Z.of_nat (length (ageindex w)) = NIOBUF.

(** Every entry of the age index is a buffer number. *)
Definition ages_in_range (w : world) : Prop :=
  Forall (fun a => 0 <= a < NIOBUF) (ageindex w).

(** Until [ffwhbf] has run the age index holds zeros, as every global
    of a C program does at its start; once it has run, the age index is
    a permutation of [0 .. NIOBUF-1]. *)
Definition ages_perm (w : world) : Prop :=
  if ageinit w then Permutation (ageindex w) (seqZ 0 NIOBUF)
  else ageindex w = replicate (Z.to_nat NIOBUF) 0.

(** The age index reaches every buffer. *)
Definition ages_cover (w : world) : Prop :=
  forall nbuff, 0 <= nbuff < NIOBUF ->
    exists ibuff, 0 <= ibuff < NIOBUF /\ rd (ageindex w) ibuff = Some nbuff.

(** Every buffer that has an owner is listed in the age index.  This
    is so at process start, when no buffer has an owner, and whenever
    the age index reaches every buffer. *)
Definition owners_listed (w : world) : Prop :=
  forall nbuff F, rd (bufptr w) nbuff = Some (Some F) ->
    exists ibuff, 0 <= ibuff < NIOBUF /\ rd (ageindex w) ibuff = Some nbuff.

(** What the age discipline depends on: the sizes of the arrays and the
    age index itself. *)
Definition age_state (w : world) : (nat * nat * nat * nat) * (list Z * bool) :=
  ((length (iobuffer w), length (bufptr w), length (bufrecnum w),
    length (dirty w)), (ageindex w, ageinit w)).

(** The invariant of the age index. *)
Definition age_inv (w : world) : Prop := slots_ok w /\ ages_perm w.

(** What a step from [w] to [w'] owes the age index: the invariant, and
    an age index that stays initialised once it is. *)
Definition age_post (w w' : world) : Prop :=
  age_inv w' /\ (ageinit w = true -> ageinit w' = true).

(** Buffer [i] holds record [b] of file [F]. *)
Definition holds (w : world) (i : Z) (F : nat) (b : Z) : Prop :=
  rd (bufptr w) i = Some (Some F) /\ rd (bufrecnum w) i = Some b.

(** The caller's HDU is the current HDU of the file: the navigator is
    not needed. *)
Definition no_drift (fptr : fitsfile) (w : world) : Prop :=
  HDUposition fptr = curhdu (files w (Fptr fptr)).


(** ** The victim selector in the words of the spec *)

(** A slot that may be handed out: it is empty, or it is not the current
    block of the file that owns it. *)
Definition unpinned (w : world) (s : Z) : bool :=
  match rd (bufptr w) s with
  | Some None => true
  | Some (Some G) => negb (Z.eqb (curbuf (files w G)) s)
  | None => false
  end.

(** [choose_victim(f)]: the first unpinned slot of the age index, oldest
    first; failing that the current block of [f]; failing that, none. *)
Definition choose_victim (w : world) (F : nat) : option Z :=
  match List.find (unpinned w) (ageindex w) with
  | Some s => Some s
  | None => if Z.ltb (curbuf (files w F)) 0 then None
            else Some (curbuf (files w F))
  end.

(** ** The cache invariant *)

(** Record [b] of a disk image. *)
Definition disk_block (d : list byte) (b : Z) : list byte :=
  take (Z.to_nat IOBUFLEN) (drop (Z.to_nat (b * IOBUFLEN)) d).

(** The file structure agrees with its disk: the size is a whole number
    of records and is the length of the disk image, the driver is where
    [io_pos] says, and the logical size covers the physical one. *)
Record file_ok (w : world) (F : nat) : Prop := mk_file_ok {
  fo_size : exists m, 0 <= m /\ filesize (files w F) = m * IOBUFLEN;
  fo_disk : Z.of_nat (length (disk w F)) = filesize (files w F);
  fo_pos : ospos w F = io_pos (files w F);
  fo_log : filesize (files w F) <= logfilesize (files w F)
}.

(** The invariant of the pool.  The buffers in [skip] may differ from
    the disk although they are not marked dirty yet (the group writers
    mark a buffer when they leave it). *)
Record InvX (skip : Z -> Prop) (w : world) : Prop := mk_InvX {
  inv_slots : slots_ok w;
  inv_bufs : forall i buf, rd (iobuffer w) i = Some buf ->
                           Z.of_nat (length buf) = IOBUFLEN;
  inv_init : ageinit w = true;
  inv_ages : Permutation (ageindex w) (seqZ 0 NIOBUF);
  inv_unique : forall i j F b, holds w i F b -> holds w j F b -> i = j;
  inv_owned : forall i F b, holds w i F b ->
      0 <= b /\ (b + 1) * IOBUFLEN <= logfilesize (files w F);
  inv_clean : forall i F b, ~ skip i -> holds w i F b ->
      rd (dirty w) i = Some false ->
      (b + 1) * IOBUFLEN <= filesize (files w F)
      /\ rd (iobuffer w) i = Some (disk_block (disk w F) b);
  inv_dirty : forall i, rd (dirty w) i = Some true ->
      exists F, rd (bufptr w) i = Some (Some F);
  inv_files : forall F, file_ok w F;
  inv_faults : io_faults w = []
}.

Definition Inv : world -> Prop := InvX (fun _ => False).

(** The contents of record [b] of file [F] as the core sees it: the
    buffer that holds it if there is one, the disk otherwise. *)
Definition views (w : world) (F : nat) (b : Z) (x : list byte) : Prop :=
  (exists i, holds w i F b /\ rd (iobuffer w) i = Some x)
  \/ ((forall i, ~ holds w i F b) /\ 0 <= b
      /\ (b + 1) * IOBUFLEN <= filesize (files w F)
      /\ x = disk_block (disk w F) b).

(** Every record visible in [w] is visible, unchanged, in [w']. *)
Definition views_kept (w w' : world) : Prop :=
  forall G c x, views w G c x -> views w' G c x.

(** The pool arrays other than [dirty] are the same. *)
Definition same_pool (w w' : world) : Prop :=
  iobuffer w' = iobuffer w /\ bufptr w' = bufptr w
  /\ bufrecnum w' = bufrecnum w /\ ageindex w' = ageindex w
  /\ ageinit w' = ageinit w.

(** The fields that a writeback leaves alone. *)
Definition same_meta (f f' : FITSfile) : Prop :=
  logfilesize f' = logfilesize f /\ bytepos f' = bytepos f
  /\ curbuf f' = curbuf f /\ curhdu f' = curhdu f
  /\ hdutype f' = hdutype f /\ datastart f' = datastart f
  /\ rowlength f' = rowlength f.

(** What the past-EOF branch of [ffbfwt] sends to the driver for the
    records [m0 .. m-1] of file [F], in this order. *)
Definition ext_entries (F : nat) (d : list byte) (m0 m : Z)
    : list (nat * Z * list byte) :=
  map (fun c => (F, c * IOBUFLEN, disk_block d c)) (seqZ m0 (m - m0)).

(** The past-EOF loop of [ffbfwt] at work on file [F]: it started in
    [w] with a file of [m0] records, and in [w1] the disk has [m]
    records while the [filesize] field says [sz]. *)
Record extending (w : world) (F : nat) (m0 m sz : Z) (w1 : world) : Prop :=
  mk_extending {
  ex_pool : same_pool w w1;
  ex_dirty_len : length (dirty w1) = length (dirty w);
  ex_files : forall G, G <> F -> files w1 G = files w G;
  ex_file : files w1 F = with_filesize sz (files w F);
  ex_disks : forall G, G <> F ->
      disk w1 G = disk w G /\ ospos w1 G = ospos w G;
  ex_prefix : take (Z.to_nat (m0 * IOBUFLEN)) (disk w1 F) = disk w F;
  ex_len : Z.of_nat (length (disk w1 F)) = m * IOBUFLEN;
  ex_pos : ospos w1 F = m * IOBUFLEN;
  ex_blocks : forall c i, m0 <= c < m -> holds w i F c ->
      rd (iobuffer w) i = Some (disk_block (disk w1 F) c)
      /\ rd (dirty w1) i = Some false;
  ex_zeros : forall c, m0 <= c < m -> (forall i, ~ holds w i F c) ->
      disk_block (disk w1 F) c = zeros;
  ex_dirty : forall i, (forall c, m0 <= c < m -> ~ holds w i F c) ->
      rd (dirty w1) i = rd (dirty w) i;
  ex_faults : io_faults w1 = [];
  ex_log : wlog w1 = wlog w ++ ext_entries F (disk w1 F) m0 m
}.

(** The world after the driver has appended [data] to the disk of [F]. *)
Definition written (F : nat) (data : list byte) (w : world) : world :=
  set_driver (upd (disk w) F (disk w F ++ data))
             (upd (ospos w) F (ospos w F + IOBUFLEN)) []
             (wlog w ++ [(F, ospos w F, data)]) w.

(** [w2] is [w1] after one record was appended to the disk of [F]; the
    dirty flags may differ. *)
Record appended (F : nat) (data : list byte) (w1 w2 : world) : Prop :=
  mk_appended {
  ap_pool : same_pool w1 w2;
  ap_dirty_len : length (dirty w2) = length (dirty w1);
  ap_files : forall G, files w2 G = files w1 G;
  ap_disk : disk w2 F = disk w1 F ++ data;
  ap_disks : forall G, G <> F ->
      disk w2 G = disk w1 G /\ ospos w2 G = ospos w1 G;
  ap_pos : ospos w2 F = ospos w1 F + IOBUFLEN;
  ap_faults : io_faults w2 = [];
  ap_log : wlog w2 = wlog w1 ++ [(F, ospos w1 F, data)]
}.

(** [w1] is [w] with the driver of [F] positioned at [pos]. *)
Record moved (F : nat) (pos : Z) (w w1 : world) : Prop := mk_moved {
  mv_pool : same_pool w w1;
  mv_dirty : dirty w1 = dirty w;
  mv_files : files w1 = files w;
  mv_disk : disk w1 = disk w;
  mv_others : forall G, G <> F -> ospos w1 G = ospos w G;
  mv_pos : ospos w1 F = pos;
  mv_faults : io_faults w1 = io_faults w;
  mv_log : wlog w1 = wlog w
}.

(** [w'] is [w] after the buffer [nbuff], holding [buf], was written as
    record [b] of file [F], inside the file or right at its end. *)
Record record_written (w : world) (nbuff : Z) (F : nat) (b : Z)
    (buf : list byte) (w' : world) : Prop := mk_record_written {
  rw_pool : same_pool w w';
  rw_dirty_len : length (dirty w') = length (dirty w);
  rw_dirty : forall i, rd (dirty w') i
                       = if Z.eqb nbuff i then Some false else rd (dirty w) i;
  rw_files : forall G, G <> F -> files w' G = files w G;
  rw_file : files w' F
            = with_io_pos ((b + 1) * IOBUFLEN)
                (with_filesize (Z.max (filesize (files w F))
                                      ((b + 1) * IOBUFLEN)) (files w F));
  rw_disks : forall G, G <> F ->
      disk w' G = disk w G /\ ospos w' G = ospos w G;
  rw_disk : disk w' F = pwrite (disk w F) (b * IOBUFLEN) buf;
  rw_pos : ospos w' F = (b + 1) * IOBUFLEN;
  rw_faults : io_faults w' = [];
  rw_log : wlog w' = wlog w ++ [(F, b * IOBUFLEN, buf)]
}.

(** The contract of [ffbfwt nbuff] on a buffer that holds record [b] of
    file [F]: what is true of the world [w'] it leaves. *)
Record written_back (w : world) (nbuff : Z) (F : nat) (b : Z) (w' : world)
    : Prop := mk_written_back {
  wb_inv : Inv w';
  wb_pool : same_pool w w';
  wb_clean : rd (dirty w') nbuff = Some false;
  wb_dirty : forall i, rd (dirty w') i = rd (dirty w) i
                       \/ (rd (dirty w') i = Some false
                           /\ exists c, holds w i F c);
  wb_others : forall G, G <> F ->
      files w' G = files w G /\ disk w' G = disk w G;
  wb_meta : same_meta (files w F) (files w' F);
  wb_size : filesize (files w' F)
            = Z.max (filesize (files w F)) ((b + 1) * IOBUFLEN);
  wb_views : views_kept w w';
  wb_gap : forall c, filesize (files w F) <= c * IOBUFLEN ->
      (c + 1) * IOBUFLEN <= filesize (files w' F) ->
      (forall i, ~ holds w i F c) ->
      disk_block (disk w' F) c = zeros;
  wb_blocks : forall c i, filesize (files w F) <= c * IOBUFLEN -> c <= b ->
      holds w i F c ->
      rd (iobuffer w) i = Some (disk_block (disk w' F) c)
      /\ rd (dirty w') i = Some false;
  wb_log : wlog w'
           = wlog w ++ ext_entries F (disk w' F)
                         (Z.min (Z.quot (filesize (files w F)) IOBUFLEN) b)
                         (b + 1)
}.

(** ** Loading a record *)

(** What the invariant looks at is the same in [w] and [w']. *)
Definition same_cache (w w' : world) : Prop :=
  iobuffer w' = iobuffer w /\ bufptr w' = bufptr w
  /\ bufrecnum w' = bufrecnum w /\ dirty w' = dirty w
  /\ Permutation (ageindex w') (ageindex w) /\ ageinit w' = ageinit w
  /\ (forall G, filesize (files w' G) = filesize (files w G)
                /\ logfilesize (files w' G) = logfilesize (files w G)
                /\ io_pos (files w' G) = io_pos (files w G))
  /\ (forall G, disk w' G = disk w G) /\ (forall G, ospos w' G = ospos w G)
  /\ io_faults w' = io_faults w.

(** The fields of a file that describe its current HDU. *)
Definition same_hdu (f f' : FITSfile) : Prop :=
  curhdu f' = curhdu f /\ hdutype f' = hdutype f
  /\ datastart f' = datastart f /\ rowlength f' = rowlength f.

(** [ffwhbf] has a buffer to give to file [F]: some buffer is not
    pinned, or the file has a current buffer of its own. *)
Definition loadable (w : world) (F : nat) : Prop :=
  (exists s, In s (ageindex w) /\ unpinned w s = true)
  \/ 0 <= curbuf (files w F) < NIOBUF.

(** [w2] is [w1] after buffer [n] was given to record [b] of file [F]
    with the contents [buf] and the dirty flag [d], and made the current
    buffer of the file and the youngest of the pool. *)
Record installed (w1 : world) (n : Z) (F : nat) (b : Z) (buf : list byte)
    (d : bool) (w2 : world) : Prop := mk_installed {
  in_iobuffer : iobuffer w2 = <[Z.to_nat n := buf]> (iobuffer w1);
  in_bufptr : bufptr w2 = <[Z.to_nat n := Some F]> (bufptr w1);
  in_bufrecnum : bufrecnum w2 = <[Z.to_nat n := b]> (bufrecnum w1);
  in_dirty : dirty w2 = <[Z.to_nat n := d]> (dirty w1);
  in_ages : Permutation (ageindex w2) (ageindex w1);
  in_init : ageinit w2 = ageinit w1;
  in_files : forall G, G <> F -> files w2 G = files w1 G;
  in_size : filesize (files w2 F) = filesize (files w1 F);
  in_log : logfilesize (files w2 F)
           = (if d then Z.max (logfilesize (files w1 F)) ((b + 1) * IOBUFLEN)
              else logfilesize (files w1 F));
  in_cur : curbuf (files w2 F) = n;
  in_bytepos : bytepos (files w2 F) = bytepos (files w1 F);
  in_hdu : same_hdu (files w1 F) (files w2 F);
  in_disk : forall G, disk w2 G = disk w1 G;
  in_ospos : forall G, G <> F -> ospos w2 G = ospos w1 G;
  in_pos : ospos w2 F = io_pos (files w2 F);
  in_faults : io_faults w2 = []
}.

(** The contract of a successful [ffldrc] of record [b] of file [F]. *)
Record loaded (w : world) (F : nat) (b : Z) (w' : world) : Prop := mk_loaded {
  ld_inv : Inv w';
  ld_cur : holds w' (curbuf (files w' F)) F b;
  ld_views : views_kept w w';
  ld_holds : forall i G c, holds w' i G c ->
      (i = curbuf (files w' F) /\ G = F /\ c = b) \/ holds w i G c;
  ld_hdu : same_hdu (files w F) (files w' F);
  ld_log : logfilesize (files w F) <= logfilesize (files w' F);
  ld_size : (forall i c, holds w i F c ->
                         (c + 1) * IOBUFLEN <= filesize (files w F)) ->
            filesize (files w' F) = filesize (files w F)
}.

(** ** Seeking, writing and flushing *)

(** The current buffer of [F] does not carry the record number [b]
    unless it is a buffer of [F]. *)
Definition cur_ok (w : world) (F : nat) (b : Z) : Prop :=
  exists cur, rd (bufrecnum w) (curbuf (files w F)) = Some cur
              /\ (cur = b -> rd (bufptr w) (curbuf (files w F)) = Some (Some F)).

(** The pool and the disks are the same where the logical contents of
    the files are concerned. *)
Definition same_contents (w w' : world) : Prop :=
  iobuffer w' = iobuffer w /\ bufptr w' = bufptr w
  /\ bufrecnum w' = bufrecnum w
  /\ (forall G, filesize (files w' G) = filesize (files w G))
  /\ (forall G, disk w' G = disk w G).

(** The byte at offset [p] of file [F] as the core sees it. *)
Definition byte_at (w : world) (F : nat) (p : Z) (v : byte) : Prop :=
  exists x, views w F (p / IOBUFLEN) x
            /\ x !! Z.to_nat (p mod IOBUFLEN) = Some v.

(** [ffflsh] at work on file [F]: it started in [w] and has reached
    [wj]. *)
Record flushing (F : nat) (w wj : world) : Prop := mk_flushing {
  fl_inv : Inv wj;
  fl_views : views_kept w wj;
  fl_holds : forall i G c, holds wj i G c -> holds w i G c;
  fl_gap : forall c, filesize (files w F) <= c * IOBUFLEN ->
      (c + 1) * IOBUFLEN <= filesize (files wj F) ->
      (forall i, ~ holds w i F c) ->
      disk_block (disk wj F) c = zeros;
  fl_bound : forall B, filesize (files w F) <= B ->
      (forall i c, holds w i F c -> (c + 1) * IOBUFLEN <= B) ->
      filesize (files wj F) <= B;
  fl_hdu : forall G, same_hdu (files w G) (files wj G)
}.

(** ** Strided transfers *)

(** The file offset of byte [n] of the caller's buffer: the groups of
    [gsize] bytes lie [gap] bytes apart, the first one at [pos]. *)
Definition stream_off (pos gsize gap n : Z) : Z :=
  pos + n + (n / gsize) * gap.

(** The first [N] bytes of [src] are where they belong in file [F]. *)
Definition stream_written (w : world) (F : nat) (pos gsize gap : Z)
    (src : list byte) (N : Z) : Prop :=
  forall n, 0 <= n < N ->
    exists v, src !! Z.to_nat n = Some v
              /\ byte_at w F (stream_off pos gsize gap n) v.

(** The cursor [c] of a group loop stands at offset [p] of the file. *)
Record cursor_at (fptr : fitsfile) (p : Z) (c : cursor) (w : world)
    : Prop := mk_cursor_at {
  cu_status : cstatus c = 0;
  cu_pos : record c * IOBUFLEN + ioptr c = p;
  cu_ioptr : 0 <= ioptr c;
  cu_cur : curbuf (files w (Fptr fptr)) = bcurrent c;
  cu_holds : holds w (bcurrent c) (Fptr fptr) (record c);
  cu_drift : no_drift fptr w
}.

(** [ffpbytoff] at work: the cursor stands at offset [p], the first [N]
    bytes of [src] are in the file and the rest is still to be written.
    The current buffer may not be marked as modified yet. *)
Record writing (fptr : fitsfile) (pos gsize gap : Z) (src : list byte)
    (bp p N : Z) (c : cursor) (w : world) : Prop := mk_writing {
  wr_at : cursor_at fptr p c w;
  wr_inv : InvX (eq (bcurrent c)) w;
  wr_cptr : cptr c = drop (Z.to_nat N) src;
  wr_done : stream_written w (Fptr fptr) pos gsize gap src N;
  wr_bytepos : bytepos (files w (Fptr fptr)) = bp
}.

(** [ffgbytoff] at work on a file that holds all of [src]: the cursor
    stands at offset [p] and the first [N] bytes have been delivered. *)
Record reading (fptr : fitsfile) (pos gsize gap : Z) (src : list byte)
    (bp p N : Z) (c : cursor) (w : world) : Prop := mk_reading {
  re_at : cursor_at fptr p c w;
  re_inv : Inv w;
  re_cptr : cptr c = take (Z.to_nat N) src;
  re_all : stream_written w (Fptr fptr) pos gsize gap src
                          (Z.of_nat (length src));
  re_bytepos : bytepos (files w (Fptr fptr)) = bp
}.

(** ** Failing transfers *)

(** The part of the pool that no transfer touches. *)
Definition same_core (w w' : world) : Prop :=
  iobuffer w' = iobuffer w /\ bufptr w' = bufptr w
  /\ bufrecnum w' = bufrecnum w /\ length (dirty w') = length (dirty w).

(** Every buffer of the pool has the length of a record. *)
Definition bufs_ok (w : world) : Prop :=
  forall i buf, rd (iobuffer w) i = Some buf ->
                Z.of_nat (length buf) = IOBUFLEN.

(** The number of failing outcomes among the first [j] entries of the
    fault oracle [fl]; an oracle that has run out reports no failure. *)
Fixpoint failed (j : nat) (fl : list bool) : nat :=
  match j, fl with
  | S j', bad :: rest => ((if bad : bool then 1 else 0) + failed j' rest)%nat
  | _, _ => 0%nat
  end.

(** The bookkeeping of the write calls of a run that started in [w0]
    with status [st0]: [j] calls have been made, each has taken one
    outcome from the oracle, those that succeeded are in the log, and
    the status is WRITE_ERROR if one of them failed and [st0]
    otherwise. *)
Definition driven (w0 : world) (st0 : Z) (j : nat) (st : Z) (w : world)
    : Prop :=
  io_faults w = drop j (io_faults w0)
  /\ (length (wlog w) + failed j (io_faults w0) = length (wlog w0) + j)%nat
  /\ st = (if Nat.eqb (failed j (io_faults w0)) 0 then st0 else WRITE_ERROR).

(** The number of write calls that [ffbfwt] makes for record [b] of a
    file of [m] records: one when the record lies in the file or at its
    end, one for every record from the end of the file to [b]
    otherwise. *)
Definition transfers (m b : Z) : nat :=
  if Z.leb b m then 1%nat else Z.to_nat (b + 1 - m).

(** ** The operations of the core, as one type *)

Inductive operation : Type :=
| op_ffmbyt (fptr : fitsfile) (pos err_mode status : Z)
| op_ffpbyt (fptr : fitsfile) (nbytes : Z) (buffer : list byte) (status : Z)
| op_ffpbytoff (fptr : fitsfile) (gsize ngroups offset : Z)
               (buffer : list byte) (status : Z)
| op_ffgbyt (fptr : fitsfile) (nbytes status : Z)
| op_ffgbytoff (fptr : fitsfile) (gsize ngroups offset status : Z)
| op_ffldrc (fptr : fitsfile) (record err_mode status : Z)
| op_ffwhbf (fptr : fitsfile)
| op_ffcurbuf (nbuff : Z)
| op_ffflus (fptr : fitsfile) (status : Z)
| op_ffflsh (fptr : fitsfile) (clearbuf status : Z)
| op_ffbfeof (fptr : fitsfile) (status : Z)
| op_ffbfwt (nbuff status : Z)
| op_ffgrsz (fptr : fitsfile) (status : Z)
| op_fits_get_num_files
| op_ffgtbb (fptr : fitsfile) (numrows firstrow firstchar nchars status : Z)
| op_ffptbb (fptr : fitsfile) (numrows firstrow firstchar nchars : Z)
            (values : list byte) (status : Z)
| op_ffgi1b (fptr : fitsfile) (byteloc nvals incre status : Z)
| op_ffpi1b (fptr : fitsfile) (nvals incre : Z) (values : list byte)
            (status : Z).

Definition run_op (ffmahd : fitsfile -> Z -> Z -> M Z)
    (ffrdef : fitsfile -> Z -> M Z)
    (ffgtcl : fitsfile -> Z -> Z -> M (Z * Z))
    (ffghdn : fitsfile -> M Z) (ffchdu : fitsfile -> Z -> M Z)
    (ffgext : fitsfile -> Z -> Z -> M Z) (o : operation) : M unit :=
  match o with
  | op_ffmbyt fptr pos err_mode status =>
      exec ffmbyt ffmahd fptr pos err_mode status; ret tt
  | op_ffpbyt fptr nbytes buffer status =>
      exec ffpbyt ffmahd fptr nbytes buffer status; ret tt
  | op_ffpbytoff fptr gsize ngroups offset buffer status =>
      exec ffpbytoff ffmahd fptr gsize ngroups offset buffer status; ret tt
  | op_ffgbyt fptr nbytes status =>
      exec ffgbyt ffmahd fptr nbytes status; ret tt
  | op_ffgbytoff fptr gsize ngroups offset status =>
      exec ffgbytoff ffmahd fptr gsize ngroups offset status; ret tt
  | op_ffldrc fptr record err_mode status =>
      exec ffldrc ffmahd fptr record err_mode status; ret tt
  | op_ffwhbf fptr => exec ffwhbf fptr; ret tt
  | op_ffcurbuf nbuff => exec ffcurbuf nbuff; ret tt
  | op_ffflus fptr status =>
      exec ffflus ffghdn ffchdu ffgext fptr status; ret tt
  | op_ffflsh fptr clearbuf status => exec ffflsh fptr clearbuf status; ret tt
  | op_ffbfeof fptr status => exec ffbfeof fptr status; ret tt
  | op_ffbfwt nbuff status => exec ffbfwt nbuff status; ret tt
  | op_ffgrsz fptr status =>
      exec ffgrsz ffmahd ffrdef ffgtcl fptr status; ret tt
  | op_fits_get_num_files => exec fits_get_num_files; ret tt
  | op_ffgtbb fptr numrows firstrow firstchar nchars status =>
      exec ffgtbb ffmahd fptr numrows firstrow firstchar nchars status; ret tt
  | op_ffptbb fptr numrows firstrow firstchar nchars values status =>
      exec ffptbb ffmahd ffrdef fptr numrows firstrow firstchar nchars values
                  status;
      ret tt
  | op_ffgi1b fptr byteloc nvals incre status =>
      exec ffgi1b ffmahd fptr byteloc nvals incre status; ret tt
  | op_ffpi1b fptr nvals incre values status =>
      exec ffpi1b ffmahd fptr nvals incre values status; ret tt
  end.

(** ** Concrete worlds *)

(** The process at its start: every global of buffers.c is zero, no
    file has a current buffer, the disks are as given. *)
Definition boot (fs : nat -> FITSfile) (ds : nat -> list byte) : world :=
  mkWorld (replicate (Z.to_nat NIOBUF) (replicate (Z.to_nat IOBUFLEN) x00))
          (replicate (Z.to_nat NIOBUF) None)
          (replicate (Z.to_nat NIOBUF) 0)
          (replicate (Z.to_nat NIOBUF) false)
          (replicate (Z.to_nat NIOBUF) 0)
          false fs ds (fun _ => 0) [] [].

(** A new, empty image file with no current buffer. *)
Definition new_file : FITSfile := mkFITSfile 0 0 0 0 (-1) 0 IMAGE_HDU 0 0.

(** A process with empty files only. *)
Definition boot0 : world := boot (fun _ => new_file) (fun _ => []).

(** The handle of file 0, on its current HDU. *)
Definition f0 : fitsfile := mkfitsfile 0 0%nat.

(** Collaborators that are never needed in the scenarios: a navigator
    and a rescanner that do nothing, and a column 2 of bytes (TBYTE). *)
Definition nav0 : fitsfile -> Z -> Z -> M Z := fun _ _ st => ret st.
Definition rdef0 : fitsfile -> Z -> M Z := fun _ st => ret st.
Definition gtcl_byte : fitsfile -> Z -> Z -> M (Z * Z) :=
  fun _ _ st => ret (st, 11).

(** The HDU layer of the scenarios: the current HDU is reported, and
    closing and reopening it do nothing. *)
Definition ghdn0 : fitsfile -> M Z := fun fptr => ret (HDUposition fptr + 1).
Definition chdu0 : fitsfile -> Z -> M Z := fun _ st => ret st.
Definition gext0 : fitsfile -> Z -> Z -> M Z := fun _ _ st => ret st.

(** The same world with the fault oracle [fl]. *)
Definition with_faults (fl : list bool) (w : world) : world :=
  set_driver (disk w) (ospos w) fl (wlog w) w.

(** The world that a run reaches, [w] itself if the run is undefined. *)
Definition after {A : Type} (m : M A) (w : world) : world :=
  match m w with
  | Some (_, w') => w'
  | None => w
  end.

(** The result of a run. *)
Definition result {A : Type} (m : M A) (w : world) : option A :=
  match m w with
  | Some (a, _) => Some a
  | None => None
  end.

(** A fresh process in which file 0 has loaded its record 2, which lies
    past the end of the (empty) file: buffer 0 is dirty. *)
Definition one_block_past_eof : world :=
  after (ffldrc nav0 f0 2 IGNORE_EOF 0) boot0.

(** A fresh process after its first load of record 0 of file 0. *)
Definition first_load : world :=
  after (ffldrc nav0 f0 0 IGNORE_EOF 0) boot0.

(** The process once [ffwhbf] has filled the age index; no buffer is in
    use yet. *)
Definition ready (fs : nat -> FITSfile) (ds : nat -> list byte) : world :=
  ffwhbf_init (boot fs ds).

Definition ready0 : world := ready (fun _ => new_file) (fun _ => []).

(** File 0, empty on disk, has loaded its record 3 and then its record
    1: buffers 0 and 1 are dirty and both lie past the end of the file. *)
Definition two_blocks_past_eof : world :=
  after (ffldrc nav0 f0 1 IGNORE_EOF 0)
        (after (ffldrc nav0 f0 3 IGNORE_EOF 0) ready0).

(** An ASCII table whose disk image is 2980 bytes long, a hundred bytes
    more than one record. *)
Definition ragged_file : FITSfile :=
  mkFITSfile 2980 2980 0 0 (-1) 0 ASCII_TBL 0 0.

(** File 0 is this table and has loaded its record 3, which lies past
    the end of the file: buffer 0 is dirty and filled with blanks. *)
Definition ragged_past_eof : world :=
  after (ffldrc nav0 f0 3 IGNORE_EOF 0)
        (boot (fun _ => ragged_file) (fun _ => replicate 2980 "a"%byte)).

(** An ASCII table of one record on disk. *)
Definition ascii_file : FITSfile :=
  mkFITSfile IOBUFLEN IOBUFLEN 0 0 (-1) 0 ASCII_TBL 0 0.

(** A record that holds the byte [c] throughout. *)
Definition block_of (c : byte) : list byte := replicate (Z.to_nat IOBUFLEN) c.

(** File 0 is an ASCII table of one record, which it has loaded. *)
Definition ascii_table : world :=
  after (ffldrc nav0 f0 0 REPORT_EOF 0)
        (ready (fun _ => ascii_file) (fun _ => block_of "a")).

(** Seek to record [k], write one record of data, flush. *)
Definition write_block_and_flush (ffmahd : fitsfile -> Z -> Z -> M Z)
    (fptr : fitsfile) (k : Z) (data : list byte) (clearbuf : Z) : M Z :=
  do st1 <- ffmbyt ffmahd fptr (k * IOBUFLEN) IGNORE_EOF 0;
  do st2 <- ffpbyt ffmahd fptr IOBUFLEN data st1;
  ffflsh fptr clearbuf st2.

(** Seek, write the groups, seek back, read the groups. *)
Definition strided_trip (ffmahd : fitsfile -> Z -> Z -> M Z)
    (fptr : fitsfile) (pos gsize ngroups gap : Z) (src : list byte)
    : M (Z * list byte) :=
  do st1 <- ffmbyt ffmahd fptr pos IGNORE_EOF 0;
  do st2 <- ffpbytoff ffmahd fptr gsize ngroups gap src st1;
  do st3 <- ffmbyt ffmahd fptr pos REPORT_EOF st2;
  ffgbytoff ffmahd fptr gsize ngroups gap st3.

(** File 0, empty on disk, has loaded its record 0. *)
Definition loaded0 : world := after (ffldrc nav0 f0 0 IGNORE_EOF 0) ready0.

(** The round trip of the spec on file 0:
    seek, write, flush with [clear], seek, read. *)
Definition round_trip (pos : Z) (bytes : list byte) : M (Z * list byte) :=
  do st1 <- ffmbyt nav0 f0 pos IGNORE_EOF 0;
  do st2 <- ffpbyt nav0 f0 (Z.of_nat (length bytes)) bytes st1;
  do st3 <- ffflsh f0 1 st2;
  do st4 <- ffmbyt nav0 f0 pos IGNORE_EOF st3;
  ffgbyt nav0 f0 (Z.of_nat (length bytes)) st4.

(** Files [0 .. n-1] each load their record 0. *)
Fixpoint open_files (n : nat) (status : Z) : M Z :=
  match n with
  | O => ret status
  | S n' =>
      do st <- open_files n' status;
      ffldrc nav0 (mkfitsfile 0 n') 0 IGNORE_EOF st
  end.

(** Forty open image files: every buffer is the current buffer of a
    different file. *)
Definition forty_files : world := after (open_files 40 0) boot0.


(** ** Further specification-level definitions *)

(** The state of the loop of [ffbfeof] before slot [ii]: the buffers of
    file [F] below [ii] whose record starts at or after the end of the
    file have lost their owner, nothing else has changed. *)
Record eof_dropped (F : nat) (w : world) (ii : Z) (w' : world) : Prop :=
  mk_eof_dropped {
  ed_len : length (bufptr w') = length (bufptr w);
  ed_holds : forall i G c,
      holds w' i G c <->
      holds w i G c
      /\ ~ (i < ii /\ G = F /\ filesize (files w F) <= c * IOBUFLEN);
  ed_above : forall i, ii <= i -> rd (bufptr w') i = rd (bufptr w) i;
  ed_iobuffer : iobuffer w' = iobuffer w;
  ed_bufrecnum : bufrecnum w' = bufrecnum w;
  ed_dirty : dirty w' = dirty w;
  ed_ages : ageindex w' = ageindex w /\ ageinit w' = ageinit w;
  ed_files : files w' = files w;
  ed_driver : disk w' = disk w /\ ospos w' = ospos w
              /\ io_faults w' = io_faults w /\ wlog w' = wlog w
}.

(** The age index [ages'] is [ages] with the buffer [n] moved to its
    young end: the other buffers keep their order. *)
Definition made_youngest (n : Z) (ages ages' : list Z) : Prop :=
  exists pre suf, ages = pre ++ n :: suf /\ ages' = pre ++ suf ++ [n].

(** ** Contiguous transfers *)

(** The bytes [src] are in file [F] from offset [pos] on, as the core
    sees the file. *)
Definition range_at (w : world) (F : nat) (pos : Z) (src : list byte) : Prop :=
  forall t v, src !! t = Some v -> byte_at w F (pos + Z.of_nat t) v.

(** Every byte of every file that is visible in [w] is the same in
    [w'], the bytes [lo .. hi-1] of file [F] apart. *)
Definition kept_outside (w w' : world) (F : nat) (lo hi : Z) : Prop :=
  forall G q v, G <> F \/ q < lo \/ hi <= q ->
                byte_at w G q v -> byte_at w' G q v.

(** Every byte of every file that is visible in [w] is the same in [w']. *)
Definition bytes_kept (w w' : world) : Prop :=
  forall G q v, byte_at w G q v -> byte_at w' G q v.

(** The position of the file lies in the record of its current buffer,
    or right at the end of that record. *)
Definition positioned (fptr : fitsfile) (w : world) : Prop :=
  exists r,
    holds w (curbuf (files w (Fptr fptr))) (Fptr fptr) r
    /\ r * IOBUFLEN <= bytepos (files w (Fptr fptr)) <= (r + 1) * IOBUFLEN.

(** The buffered loop of [ffpbyt] at work: it started in [w0] at offset
    [pos], has written the first [N] bytes of [src], and stands at
    offset [bufpos] of the current buffer. *)
Record putting (fptr : fitsfile) (pos : Z) (src : list byte) (w0 : world)
    (N bufpos : Z) (w : world) : Prop := mk_putting {
  pt_inv : Inv w;
  pt_drift : no_drift fptr w;
  pt_cur : exists r,
      holds w (curbuf (files w (Fptr fptr))) (Fptr fptr) r
      /\ r * IOBUFLEN + bufpos = pos + N;
  pt_bufpos : 0 <= bufpos <= IOBUFLEN;
  pt_bytepos : bytepos (files w (Fptr fptr)) = pos + N;
  pt_done : range_at w (Fptr fptr) pos (take (Z.to_nat N) src);
  pt_kept : kept_outside w0 w (Fptr fptr) pos (pos + Z.of_nat (length src))
}.

(** The buffered loop of [ffgbyt] at work on a file that holds [src]
    from offset [pos] on. *)
Record getting (fptr : fitsfile) (pos : Z) (src : list byte) (w0 : world)
    (N bufpos : Z) (w : world) : Prop := mk_getting {
  gt_inv : Inv w;
  gt_drift : no_drift fptr w;
  gt_cur : exists r,
      holds w (curbuf (files w (Fptr fptr))) (Fptr fptr) r
      /\ r * IOBUFLEN + bufpos = pos + N;
  gt_bufpos : 0 <= bufpos <= IOBUFLEN;
  gt_bytepos : bytepos (files w (Fptr fptr)) = pos + N;
  gt_all : range_at w (Fptr fptr) pos src;
  gt_kept : bytes_kept w0 w
}.

(** Seek, write, seek back, read. *)
Definition write_read_trip (ffmahd : fitsfile -> Z -> Z -> M Z)
    (fptr : fitsfile) (pos : Z) (src : list byte) : M (Z * list byte) :=
  do st1 <- ffmbyt ffmahd fptr pos IGNORE_EOF 0;
  do st2 <- ffpbyt ffmahd fptr (Z.of_nat (length src)) src st1;
  do st3 <- ffmbyt ffmahd fptr pos REPORT_EOF st2;
  ffgbyt ffmahd fptr (Z.of_nat (length src)) st3.

(** Seek, write, flush. *)
Definition write_and_flush (ffmahd : fitsfile -> Z -> Z -> M Z)
    (fptr : fitsfile) (pos : Z) (src : list byte) (clearbuf : Z) : M Z :=
  do st1 <- ffmbyt ffmahd fptr pos IGNORE_EOF 0;
  do st2 <- ffpbyt ffmahd fptr (Z.of_nat (length src)) src st1;
  ffflsh fptr clearbuf st2.

(** ** The helpers *)

(** Seek, write the pixels with [ffpi1b], read them back with [ffgi1b]. *)
Definition pixel_trip (ffmahd : fitsfile -> Z -> Z -> M Z)
    (fptr : fitsfile) (pos incre : Z) (src : list byte) : M (Z * list byte) :=
  do st1 <- ffmbyt ffmahd fptr pos IGNORE_EOF 0;
  do st2 <- ffpi1b ffmahd fptr (Z.of_nat (length src)) incre src st1;
  ffgi1b ffmahd fptr pos (Z.of_nat (length src)) incre st2.

(** Write a string of bytes into a table with [ffptbb], read it back
    with [ffgtbb] and the number of rows that [ffptbb] has left. *)
Definition table_trip (ffmahd : fitsfile -> Z -> Z -> M Z)
    (ffrdef : fitsfile -> Z -> M Z) (fptr : fitsfile)
    (numrows firstrow firstchar : Z) (src : list byte)
    : M ((Z * list byte) * Z) :=
  do r <- ffptbb ffmahd ffrdef fptr numrows firstrow firstchar
                 (Z.of_nat (length src)) src 0;
  do res <- ffgtbb ffmahd fptr (snd r) firstrow firstchar
                   (Z.of_nat (length src)) (fst r);
  ret (res, snd r).

(** The offset in the file of byte [firstchar] of row [firstrow] of the
    table of file [f]. *)
Definition table_offset (f : FITSfile) (firstrow firstchar : Z) : Z :=
  datastart f + (firstrow - 1) * rowlength f + firstchar - 1.

(** The description of the current HDU is the same for every file. *)
Definition same_hdus (w w' : world) : Prop :=
  forall G, same_hdu (files w G) (files w' G).

(** A binary table of rows of 80 bytes whose data start at offset
    [IOBUFLEN]; nothing is on disk yet. *)
Definition table_file : FITSfile :=
  mkFITSfile 0 0 0 0 (-1) 0 BINARY_TBL IOBUFLEN 80.

(** File 0 is this table and has loaded its record 0. *)
Definition table0 : world :=
  after (ffldrc nav0 f0 0 IGNORE_EOF 0)
        (ready (fun _ => table_file) (fun _ => [])).

(** ** Direct transfers *)

(** [w4] is [w1] after the direct branch of [ffpbyt] has sent [data] to
    offset [p] of file [F] and has prepared buffer [n] with the
    contents [base] of the record that follows: the pool is untouched
    but for that buffer, the file has grown where the write went beyond
    its end, and the driver stands where [io_pos] says. *)
Record direct_written (w1 : world) (n : Z) (F : nat) (p : Z)
    (data base : list byte) (w4 : world) : Prop := mk_direct_written {
  dw_iobuffer : iobuffer w4 = <[Z.to_nat n := base]> (iobuffer w1);
  dw_bufptr : bufptr w4 = bufptr w1;
  dw_bufrecnum : bufrecnum w4 = bufrecnum w1;
  dw_dirty : dirty w4 = dirty w1;
  dw_ages : ageindex w4 = ageindex w1;
  dw_init : ageinit w4 = ageinit w1;
  dw_files : forall G, G <> F ->
    files w4 G = files w1 G /\ disk w4 G = disk w1 G
    /\ ospos w4 G = ospos w1 G;
  dw_disk : disk w4 F = pwrite (disk w1 F) p data;
  dw_size : filesize (files w4 F)
            = Z.max (filesize (files w1 F)) (p + Z.of_nat (length data));
  dw_meta : same_meta (files w1 F) (files w4 F);
  dw_pos : ospos w4 F = io_pos (files w4 F);
  dw_faults : io_faults w4 = [];
  dw_base : Z.of_nat (length base) = IOBUFLEN
}.

(** [w'] is [w4] after buffer [n] was filled with [buf], marked as
    modified and given to record [b] of file [F], whose position
    becomes [bp]. *)
Record adopted (w4 : world) (n : Z) (F : nat) (b : Z) (buf : list byte)
    (bp : Z) (w' : world) : Prop := mk_adopted {
  ad_iobuffer : iobuffer w' = <[Z.to_nat n := buf]> (iobuffer w4);
  ad_bufptr : bufptr w' = <[Z.to_nat n := Some F]> (bufptr w4);
  ad_bufrecnum : bufrecnum w' = <[Z.to_nat n := b]> (bufrecnum w4);
  ad_dirty : dirty w' = <[Z.to_nat n := true]> (dirty w4);
  ad_ages : ageindex w' = ageindex w4;
  ad_init : ageinit w' = ageinit w4;
  ad_files : forall G, G <> F -> files w' G = files w4 G;
  ad_size : filesize (files w' F) = filesize (files w4 F);
  ad_log : logfilesize (files w' F)
           = Z.max (logfilesize (files w4 F)) ((b + 1) * IOBUFLEN);
  ad_bytepos : bytepos (files w' F) = bp;
  ad_iopos : io_pos (files w' F) = io_pos (files w4 F);
  ad_cur : curbuf (files w' F) = curbuf (files w4 F);
  ad_hdu : same_hdu (files w4 F) (files w' F);
  ad_disk : disk w' = disk w4;
  ad_ospos : ospos w' = ospos w4;
  ad_faults : io_faults w' = io_faults w4
}.

(** An image of three records on disk, every byte of which is ["a"]. *)
Definition three_file : FITSfile :=
  mkFITSfile (3 * IOBUFLEN) (3 * IOBUFLEN) 0 0 (-1) 0 IMAGE_HDU 0 0.

Definition three_ready : world :=
  ready (fun _ => three_file)
        (fun _ => replicate (Z.to_nat (3 * IOBUFLEN)) "a"%byte).

(** File 0 is this image and has loaded its record 0. *)
Definition three_blocks : world :=
  after (ffldrc nav0 f0 0 REPORT_EOF 0) three_ready.

(** ** Strided transfers: what is left alone *)

(** Offset [q] lies in group [j] of a strided transfer. *)
Definition in_group (pos gsize gap j q : Z) : Prop :=
  pos + j * (gsize + gap) <= q < pos + j * (gsize + gap) + gsize.

(** Every byte of every file that is visible in [w] is the same in
    [w'], the bytes of the first [k] groups in file [F] apart. *)
Definition groups_kept (w w' : world) (F : nat) (pos gsize gap k : Z) : Prop :=
  forall G q v,
    G <> F \/ (forall j, 0 <= j < k -> ~ in_group pos gsize gap j q) ->
    byte_at w G q v -> byte_at w' G q v.

(** ** Reading past the end of the file *)

(** [w'] is [w] with file [F] standing at offset [p]: nothing else
    differs. *)
Record only_moved (w w' : world) (F : nat) (p : Z) : Prop := mk_only_moved {
  om_pool : same_pool w w';
  om_dirty : dirty w' = dirty w;
  om_disk : disk w' = disk w;
  om_ospos : ospos w' = ospos w;
  om_faults : io_faults w' = io_faults w;
  om_log : wlog w' = wlog w;
  om_files : forall G, G <> F -> files w' G = files w G;
  om_file : files w' F = with_bytepos p (files w F)
}.


(** * Basic facts *)

Lemma IOBUFLEN_pos : 0 < IOBUFLEN.
Proof. reflexivity. Qed.

Lemma NIOBUF_pos : 0 < NIOBUF.
Proof. reflexivity. Qed.

Lemma MINDIRECT_eq : MINDIRECT = 2 * IOBUFLEN.
Proof. reflexivity. Qed.

(** From here on the three sizes are used through the facts above only. *)
Global Opaque IOBUFLEN NIOBUF MINDIRECT.

(** ** Array reads and writes *)

Lemma rd_Some {A : Type} (l : list A) (i : Z) (x : A) :
  rd l i = Some x <-> 0 <= i /\ l !! Z.to_nat i = Some x.
Proof.
  unfold rd. destruct (Z.ltb_spec i 0); split.
  - discriminate.
  - intros [? _]. lia.
  - intros H0. split; [lia | exact H0].
  - intros [_ H0]. exact H0.
Qed.

Lemma rd_range {A : Type} (l : list A) (i : Z) (x : A) :
  rd l i = Some x -> 0 <= i < Z.of_nat (length l).
Proof.
  intros H. apply rd_Some in H as [H0 H1].
  apply lookup_lt_Some in H1. lia.
Qed.

Lemma rd_in_range {A : Type} (l : list A) (i : Z) :
  0 <= i < Z.of_nat (length l) -> exists x, rd l i = Some x.
Proof.
  intros H. destruct (lookup_lt_is_Some_2 l (Z.to_nat i)) as [x Hx]; [lia|].
  exists x. apply rd_Some. split; [lia | exact Hx].
Qed.

Lemma rd_None {A : Type} (l : list A) (i : Z) :
  rd l i = None <-> ~ (0 <= i < Z.of_nat (length l)).
Proof.
  split.
  - intros H Hr. destruct (rd_in_range l i Hr) as [x Hx]. congruence.
  - intros H. destruct (rd l i) eqn:E; [|reflexivity].
    apply rd_range in E. contradiction.
Qed.

Lemma wr_Some {A : Type} (l l' : list A) (i : Z) (x : A) :
  wr l i x = Some l' <->
  0 <= i < Z.of_nat (length l) /\ l' = <[Z.to_nat i := x]> l.
Proof.
  unfold wr. destruct (Z.ltb_spec i 0).
  - split; [discriminate | intros [? _]; lia].
  - destruct (Z.ltb_spec i (Z.of_nat (length l))).
    + split; [intros [= <-]; split; [lia | reflexivity] | intros [_ ->]; reflexivity].
    + split; [discriminate | intros [? _]; lia].
Qed.

Lemma wr_in_range {A : Type} (l : list A) (i : Z) (x : A) :
  0 <= i < Z.of_nat (length l) -> wr l i x = Some (<[Z.to_nat i := x]> l).
Proof. intros H. apply wr_Some. split; [exact H | reflexivity]. Qed.

Lemma wr_length {A : Type} (l l' : list A) (i : Z) (x : A) :
  wr l i x = Some l' -> length l' = length l.
Proof. intros H. apply wr_Some in H as [_ ->]. apply length_insert. Qed.

Lemma rd_insert_eq {A : Type} (l : list A) (i : Z) (x : A) :
  0 <= i < Z.of_nat (length l) -> rd (<[Z.to_nat i := x]> l) i = Some x.
Proof.
  intros H. apply rd_Some. split; [lia|].
  apply list_lookup_insert_eq. lia.
Qed.

Lemma rd_insert_ne {A : Type} (l : list A) (i j : Z) (x : A) :
  0 <= i -> i <> j -> rd (<[Z.to_nat i := x]> l) j = rd l j.
Proof.
  intros Hi Hne. unfold rd. destruct (Z.ltb_spec j 0); [reflexivity|].
  apply list_lookup_insert_ne. lia.
Qed.

Lemma rd_insert {A : Type} (l : list A) (i j : Z) (x : A) :
  0 <= i < Z.of_nat (length l) ->
  rd (<[Z.to_nat i := x]> l) j = if Z.eqb i j then Some x else rd l j.
Proof.
  intros H. destruct (Z.eqb_spec i j) as [->|Hne].
  - apply rd_insert_eq. exact H.
  - apply rd_insert_ne; lia.
Qed.

(** ** Rules for the weakest preconditions *)

Lemma wp_elim {A : Type} (m : M A) (Q : A -> world -> Prop) (w : world) :
  wp m Q w -> exists a w', m w = Some (a, w') /\ Q a w'.
Proof.
  unfold wp. destruct (m w) as [[a w']|]; [|contradiction].
  intros H. exists a, w'. split; [reflexivity | exact H].
Qed.

Lemma wp_intro {A : Type} (m : M A) (Q : A -> world -> Prop) (w : world) a w' :
  m w = Some (a, w') -> Q a w' -> wp m Q w.
Proof. unfold wp. intros -> H. exact H. Qed.

Lemma wp_wlp {A : Type} (m : M A) (Q : A -> world -> Prop) (w : world) :
  wp m Q w -> wlp m Q w.
Proof. unfold wp, wlp. destruct (m w) as [[a w']|]; [auto | contradiction]. Qed.

Lemma wlp_elim {A : Type} (m : M A) (Q : A -> world -> Prop) (w : world) a w' :
  wlp m Q w -> m w = Some (a, w') -> Q a w'.
Proof. unfold wlp. intros H E. rewrite E in H. exact H. Qed.

Lemma wlp_intro {A : Type} (m : M A) (Q : A -> world -> Prop) (w : world) :
  (forall a w', m w = Some (a, w') -> Q a w') -> wlp m Q w.
Proof. unfold wlp. intros H. destruct (m w) as [[a w']|]; [apply H; reflexivity | exact I]. Qed.

Lemma wp_mono {A : Type} (m : M A) (Q Q' : A -> world -> Prop) (w : world) :
  wp m Q w -> (forall a w', Q a w' -> Q' a w') -> wp m Q' w.
Proof. unfold wp. destruct (m w) as [[a w']|]; [auto | contradiction]. Qed.

Lemma wlp_mono {A : Type} (m : M A) (Q Q' : A -> world -> Prop) (w : world) :
  wlp m Q w -> (forall a w', Q a w' -> Q' a w') -> wlp m Q' w.
Proof. unfold wlp. destruct (m w) as [[a w']|]; auto. Qed.

Lemma wp_bind {A B : Type} (m : M A) (k : A -> M B) Q w :
  wp m (fun a w' => wp (k a) Q w') w -> wp (bind m k) Q w.
Proof. unfold wp, bind. destruct (m w) as [[a w']|]; auto. Qed.

Lemma wlp_bind {A B : Type} (m : M A) (k : A -> M B) Q w :
  wlp m (fun a w' => wlp (k a) Q w') w -> wlp (bind m k) Q w.
Proof. unfold wlp, bind. destruct (m w) as [[a w']|]; auto. Qed.

Lemma wp_bind_inv {A B : Type} (m : M A) (k : A -> M B) Q w :
  wp (bind m k) Q w -> wp m (fun a w' => wp (k a) Q w') w.
Proof. unfold wp, bind. destruct (m w) as [[a w']|]; auto. Qed.

Lemma bind_Some {A B : Type} (m : M A) (k : A -> M B) w r :
  bind m k w = Some r <-> exists a w', m w = Some (a, w') /\ k a w' = Some r.
Proof.
  unfold bind. destruct (m w) as [[a w']|].
  - split; [intros H; exists a, w'; auto | intros (a0 & w0 & [= -> ->] & H); exact H].
  - split; [discriminate | intros (a0 & w0 & H & _); discriminate].
Qed.

Lemma wp_ret {A : Type} (a : A) (Q : A -> world -> Prop) w :
  Q a w -> wp (ret a) Q w.
Proof. auto. Qed.

Lemma wlp_ret {A : Type} (a : A) (Q : A -> world -> Prop) w :
  Q a w -> wlp (ret a) Q w.
Proof. auto. Qed.

Lemma wp_gets {A : Type} (f : world -> A) (Q : A -> world -> Prop) w :
  Q (f w) w -> wp (gets f) Q w.
Proof. auto. Qed.

Lemma wlp_gets {A : Type} (f : world -> A) (Q : A -> world -> Prop) w :
  Q (f w) w -> wlp (gets f) Q w.
Proof. auto. Qed.

Lemma wp_modify (f : world -> world) (Q : unit -> world -> Prop) w :
  Q tt (f w) -> wp (modify f) Q w.
Proof. auto. Qed.

Lemma wlp_modify (f : world -> world) (Q : unit -> world -> Prop) w :
  Q tt (f w) -> wlp (modify f) Q w.
Proof. auto. Qed.

Lemma wp_file_of (F : nat) (Q : FITSfile -> world -> Prop) w :
  Q (files w F) w -> wp (file_of F) Q w.
Proof. auto. Qed.

Lemma wlp_file_of (F : nat) (Q : FITSfile -> world -> Prop) w :
  Q (files w F) w -> wlp (file_of F) Q w.
Proof. auto. Qed.

Lemma wp_lift {A : Type} (o : option A) (a : A) (Q : A -> world -> Prop) w :
  o = Some a -> Q a w -> wp (lift o) Q w.
Proof. intros -> H. exact H. Qed.

Lemma wlp_lift {A : Type} (o : option A) (Q : A -> world -> Prop) w :
  (forall a, o = Some a -> Q a w) -> wlp (lift o) Q w.
Proof. intros H. unfold wlp, lift. destruct o; auto. Qed.

Lemma wp_rdM {A : Type} (arr : world -> list A) (i : Z) (a : A) Q w :
  rd (arr w) i = Some a -> Q a w -> wp (rdM arr i) Q w.
Proof. intros E H. unfold wp, rdM, reads. rewrite E. exact H. Qed.

Lemma wlp_rdM {A : Type} (arr : world -> list A) (i : Z) Q w :
  (forall a, rd (arr w) i = Some a -> Q a w) -> wlp (rdM arr i) Q w.
Proof. intros H. unfold wlp, rdM, reads. destruct (rd (arr w) i); auto. Qed.

Lemma wp_reads {A : Type} (f : world -> option A) (a : A) Q w :
  f w = Some a -> Q a w -> wp (reads f) Q w.
Proof. intros E H. unfold wp, reads. rewrite E. exact H. Qed.

Lemma wlp_reads {A : Type} (f : world -> option A) Q w :
  (forall a, f w = Some a -> Q a w) -> wlp (reads f) Q w.
Proof. intros H. unfold wlp, reads. destruct (f w); auto. Qed.

Lemma wp_put_iobuffer i buf (Q : unit -> world -> Prop) w :
  0 <= i < Z.of_nat (length (iobuffer w)) ->
  Q tt (set_iobuffer (<[Z.to_nat i := buf]> (iobuffer w)) w) ->
  wp (put_iobuffer i buf) Q w.
Proof. intros Hi H. unfold wp, put_iobuffer. rewrite wr_in_range by exact Hi. exact H. Qed.

Lemma wp_put_bufptr i p (Q : unit -> world -> Prop) w :
  0 <= i < Z.of_nat (length (bufptr w)) ->
  Q tt (set_bufptr (<[Z.to_nat i := p]> (bufptr w)) w) ->
  wp (put_bufptr i p) Q w.
Proof. intros Hi H. unfold wp, put_bufptr. rewrite wr_in_range by exact Hi. exact H. Qed.

Lemma wp_put_bufrecnum i r (Q : unit -> world -> Prop) w :
  0 <= i < Z.of_nat (length (bufrecnum w)) ->
  Q tt (set_bufrecnum (<[Z.to_nat i := r]> (bufrecnum w)) w) ->
  wp (put_bufrecnum i r) Q w.
Proof. intros Hi H. unfold wp, put_bufrecnum. rewrite wr_in_range by exact Hi. exact H. Qed.

Lemma wp_put_dirty i d (Q : unit -> world -> Prop) w :
  0 <= i < Z.of_nat (length (dirty w)) ->
  Q tt (set_dirty (<[Z.to_nat i := d]> (dirty w)) w) ->
  wp (put_dirty i d) Q w.
Proof. intros Hi H. unfold wp, put_dirty. rewrite wr_in_range by exact Hi. exact H. Qed.

Lemma wlp_put_iobuffer i buf (Q : unit -> world -> Prop) w :
  (0 <= i < Z.of_nat (length (iobuffer w)) ->
   Q tt (set_iobuffer (<[Z.to_nat i := buf]> (iobuffer w)) w)) ->
  wlp (put_iobuffer i buf) Q w.
Proof.
  intros H. unfold wlp, put_iobuffer.
  destruct (wr (iobuffer w) i buf) eqn:E; [|exact I].
  apply wr_Some in E as [Hi ->]. auto.
Qed.

Lemma wlp_put_bufptr i p (Q : unit -> world -> Prop) w :
  (0 <= i < Z.of_nat (length (bufptr w)) ->
   Q tt (set_bufptr (<[Z.to_nat i := p]> (bufptr w)) w)) ->
  wlp (put_bufptr i p) Q w.
Proof.
  intros H. unfold wlp, put_bufptr.
  destruct (wr (bufptr w) i p) eqn:E; [|exact I].
  apply wr_Some in E as [Hi ->]. auto.
Qed.

Lemma wlp_put_bufrecnum i r (Q : unit -> world -> Prop) w :
  (0 <= i < Z.of_nat (length (bufrecnum w)) ->
   Q tt (set_bufrecnum (<[Z.to_nat i := r]> (bufrecnum w)) w)) ->
  wlp (put_bufrecnum i r) Q w.
Proof.
  intros H. unfold wlp, put_bufrecnum.
  destruct (wr (bufrecnum w) i r) eqn:E; [|exact I].
  apply wr_Some in E as [Hi ->]. auto.
Qed.

Lemma wlp_put_dirty i d (Q : unit -> world -> Prop) w :
  (0 <= i < Z.of_nat (length (dirty w)) ->
   Q tt (set_dirty (<[Z.to_nat i := d]> (dirty w)) w)) ->
  wlp (put_dirty i d) Q w.
Proof.
  intros H. unfold wlp, put_dirty.
  destruct (wr (dirty w) i d) eqn:E; [|exact I].
  apply wr_Some in E as [Hi ->]. auto.
Qed.

Lemma wlp_undefined {A : Type} (Q : A -> world -> Prop) w : wlp undefined Q w.
Proof. exact I. Qed.

(** A loop invariant for [for_status]. *)
Lemma wlp_for_status (I : Z -> world -> Prop) l body st w :
  I st w ->
  (forall ii st w, In ii l -> I st w -> wlp (body ii st) I w) ->
  wlp (for_status l body st) I w.
Proof.
  revert st w. induction l as [|ii l IH]; intros st w HI Hbody.
  - exact HI.
  - simpl. apply wlp_bind.
    eapply wlp_mono; [apply Hbody; [left; reflexivity | exact HI]|].
    intros st' w' HI'. apply IH; [exact HI'|].
    intros jj st0 w0 Hin. apply Hbody. right. exact Hin.
Qed.

Lemma wp_for_status (I : Z -> world -> Prop) l body st w :
  I st w ->
  (forall ii st w, In ii l -> I st w -> wp (body ii st) I w) ->
  wp (for_status l body st) I w.
Proof.
  revert st w. induction l as [|ii l IH]; intros st w HI Hbody.
  - exact HI.
  - simpl. apply wp_bind.
    eapply wp_mono; [apply Hbody; [left; reflexivity | exact HI]|].
    intros st' w' HI'. apply IH; [exact HI'|].
    intros jj st0 w0 Hin. apply Hbody. right. exact Hin.
Qed.

(** ** The driver *)

Lemma set_driver_id (w : world) :
  set_driver (disk w) (ospos w) (io_faults w) (wlog w) w = w.
Proof. destruct w; reflexivity. Qed.

Lemma ffseek_run (F : nat) (pos : Z) (w : world) :
  exists p, ffseek F pos w = Some (tt, set_driver (disk w) p (io_faults w) (wlog w) w).
Proof.
  unfold ffseek, modify. destruct (Z.ltb pos 0).
  - exists (ospos w). rewrite set_driver_id. reflexivity.
  - eexists. reflexivity.
Qed.

Lemma wlp_ffseek (F : nat) (pos : Z) (Q : unit -> world -> Prop) w :
  (forall p, Q tt (set_driver (disk w) p (io_faults w) (wlog w) w)) ->
  wlp (ffseek F pos) Q w.
Proof.
  intros H. destruct (ffseek_run F pos w) as [p Hp].
  unfold wlp. rewrite Hp. apply H.
Qed.

Lemma wlp_ffwrite (F : nat) (n : Z) (src : list byte) (st : Z)
    (Q : Z -> world -> Prop) w :
  (forall st' d p fl lg, (st' = st \/ st' = WRITE_ERROR) ->
                         Q st' (set_driver d p fl lg w)) ->
  wlp (ffwrite F n src st) Q w.
Proof.
  intros H. unfold wlp, ffwrite.
  destruct (_ || _)%bool; [exact I|].
  destruct (next_fault (io_faults w)) as [bad rest].
  destruct bad; apply H; [right | left]; reflexivity.
Qed.

Lemma wlp_ffread (F : nat) (n : Z) (st : Z)
    (Q : Z * option (list byte) -> world -> Prop) w :
  (forall st' got d p fl lg, (st' = st \/ st' = READ_ERROR) ->
                             Q (st', got) (set_driver d p fl lg w)) ->
  wlp (ffread F n st) Q w.
Proof.
  intros H. unfold wlp, ffread.
  destruct (Z.ltb n 0); [exact I|].
  destruct (next_fault (io_faults w)) as [bad rest].
  destruct (_ || _)%bool; apply H; [right | left]; reflexivity.
Qed.

(** ** Stepping through a monadic term *)

Ltac wlp_step :=
  match goal with
  | |- wlp (bind _ _) _ _ => apply wlp_bind
  | |- wlp (ffseek _ _) _ _ => apply wlp_ffseek; intros ?
  | |- wlp (ffwrite _ _ _ _) _ _ =>
      apply wlp_ffwrite; intros ? ? ? ? ? ?
  | |- wlp (ffread _ _ _) _ _ =>
      apply wlp_ffread; intros ? ? ? ? ? ? ?
  | |- wlp (ret _) _ _ => apply wlp_ret
  | |- wlp (gets _) _ _ => apply wlp_gets
  | |- wlp (file_of _) _ _ => apply wlp_file_of
  | |- wlp (modify _) _ _ => apply wlp_modify
  | |- wlp undefined _ _ => exact I
  | |- wlp (lift _) _ _ => apply wlp_lift; intros ? ?
  | |- wlp (rdM _ _) _ _ => apply wlp_rdM; intros ? ?
  | |- wlp (reads _) _ _ => apply wlp_reads; intros ? ?
  | |- wlp (put_iobuffer _ _) _ _ => apply wlp_put_iobuffer; intros ?
  | |- wlp (memset_iobuffer _ _) _ _ => apply wlp_put_iobuffer; intros ?
  | |- wlp (put_bufptr _ _) _ _ => apply wlp_put_bufptr; intros ?
  | |- wlp (put_bufrecnum _ _) _ _ => apply wlp_put_bufrecnum; intros ?
  | |- wlp (put_dirty _ _) _ _ => apply wlp_put_dirty; intros ?
  | |- wlp (ffflushx _) _ _ => apply wlp_ret
  | |- wlp (if ?b then _ else _) _ _ => destruct b eqn:?
  | |- wlp (match ?x with _ => _ end) _ _ => destruct x eqn:?
  | |- wlp (let '(_, _) := ?x in _) _ _ => destruct x eqn:?
  end; cbv beta.

Ltac wlp_steps := repeat wlp_step.


Lemma wp_bind_run {A B : Type} (m : M A) (k : A -> M B) Q w a w' :
  m w = Some (a, w') -> wp (k a) Q w' -> wp (bind m k) Q w.
Proof. intros E H. apply wp_bind. unfold wp at 1. rewrite E. exact H. Qed.

Lemma wp_bind_wp {A B : Type} (m : M A) (k : A -> M B) (R : A -> world -> Prop)
    Q w :
  wp m R w -> (forall a w', R a w' -> wp (k a) Q w') -> wp (bind m k) Q w.
Proof. intros H HK. apply wp_bind. eapply wp_mono; [exact H | exact HK]. Qed.

Ltac wp_step :=
  match goal with
  | |- wp (bind (ret _) _) _ _ => apply wp_bind, wp_ret
  | |- wp (bind (gets _) _) _ _ => apply wp_bind, wp_gets
  | |- wp (bind (file_of _) _) _ _ => apply wp_bind, wp_file_of
  | |- wp (bind (modify _) _) _ _ => apply wp_bind, wp_modify
  | |- wp (bind (ffflushx _) _) _ _ => apply wp_bind, wp_ret
  | |- wp (ret _) _ _ => apply wp_ret
  | |- wp (modify _) _ _ => apply wp_modify
  end; cbv beta.

Ltac wp_steps := repeat wp_step.


(** * The victim selector *)

Lemma ffwhbf_search_find (w : world) (pre suf : list Z) :
  ageindex w = pre ++ suf ->
  Forall (fun a => 0 <= a < Z.of_nat (length (bufptr w))) suf ->
  ffwhbf_search w (seqZ (Z.of_nat (length pre)) (Z.of_nat (length suf)))
  = Some (List.find (unpinned w) suf).
Proof.
  revert pre. induction suf as [|a suf IH]; intros pre Hages Hin.
  - reflexivity.
  - rewrite seqZ_cons by (simpl; lia). simpl ffwhbf_search.
    assert (Ha : rd (ageindex w) (Z.of_nat (length pre)) = Some a).
    { apply rd_Some. split; [lia|]. rewrite Hages, Nat2Z.id.
      rewrite lookup_app_r by lia. rewrite Nat.sub_diag. reflexivity. }
    rewrite Ha. inversion Hin as [|? ? Hin1 Hin2]; subst.
    destruct (rd_in_range (bufptr w) a Hin1) as [owner Ho].
    rewrite Ho. simpl List.find.
    assert (Hu : unpinned w a = match owner with
                                | Some G => negb (Z.eqb (curbuf (files w G)) a)
                                | None => true
                                end).
    { unfold unpinned. rewrite Ho. destruct owner; reflexivity. }
    rewrite Hu. clear Hu.
    assert (Hnext : ffwhbf_search w (seqZ (Z.succ (Z.of_nat (length pre)))
                                          (Z.pred (Z.of_nat (length (a :: suf)))))
                    = Some (List.find (unpinned w) suf)).
    { specialize (IH (pre ++ [a])). rewrite length_app in IH. simpl in IH.
      replace (Z.succ (Z.of_nat (length pre)))
        with (Z.of_nat (length pre + 1)) by lia.
      replace (Z.pred (Z.of_nat (length (a :: suf))))
        with (Z.of_nat (length suf)) by (simpl; lia).
      apply IH; [rewrite <- app_assoc; exact Hages | exact Hin2]. }
    destruct owner as [G|]; [|reflexivity].
    destruct (Z.eqb_spec (curbuf (files w G)) a); simpl; [exact Hnext | reflexivity].
Qed.

Lemma ffwhbf_init_slots (w : world) : slots_ok w -> slots_ok (ffwhbf_init w).
Proof.
  unfold ffwhbf_init, slots_ok. destruct (ageinit w); [auto|]. simpl.
  intros (H1 & H2 & H3 & H4 & H5).
  split; [exact H1|]. split; [exact H2|]. split; [exact H3|].
  split; [exact H4|].
  rewrite length_seqZ. pose proof NIOBUF_pos. lia.
Qed.

Lemma ffwhbf_init_ages (w : world) :
  ages_in_range w -> ages_in_range (ffwhbf_init w).
Proof.
  unfold ffwhbf_init, ages_in_range. destruct (ageinit w); [auto|]. simpl.
  intros _. apply Forall_forall. intros a Ha.
  apply elem_of_seqZ in Ha. lia.
Qed.

(** What [ffwhbf] returns, in terms of [choose_victim]: the chosen slot,
    or the (negative) [curbuf] of the file when there is none. *)
Lemma ffwhbf_spec (fptr : fitsfile) (w : world) :
  slots_ok w -> ages_in_range w ->
  ffwhbf fptr w
  = Some (match choose_victim (ffwhbf_init w) (Fptr fptr) with
          | Some s => s
          | None => curbuf (files (ffwhbf_init w) (Fptr fptr))
          end, ffwhbf_init w).
Proof.
  intros Hs Ha. unfold ffwhbf.
  pose proof (ffwhbf_init_slots w Hs) as (_ & Hp & _ & _ & Hl).
  pose proof (ffwhbf_init_ages w Ha) as Hr.
  pose proof (ffwhbf_search_find (ffwhbf_init w) [] (ageindex (ffwhbf_init w))
                eq_refl) as Hf.
  simpl length in Hf. rewrite Hl in Hf. change (Z.of_nat 0) with 0 in Hf.
  rewrite Hf; [|rewrite Hp; exact Hr].
  unfold choose_victim.
  destruct (List.find _ _); [reflexivity|].
  destruct (Z.ltb _ 0); reflexivity.
Qed.

Section SeekFrame.

Variable ffmahd : fitsfile -> Z -> Z -> M Z.

Lemma sync_hdu_no_drift (fptr : fitsfile) (status : Z) (w : world) :
  no_drift fptr w -> sync_hdu ffmahd fptr status w = Some (status, w).
Proof.
  unfold no_drift, sync_hdu, bind, file_of, gets. intros ->.
  rewrite Z.eqb_refl. reflexivity.
Qed.


End SeekFrame.


(** * The hit search of ffldrc *)

Lemma holds_dec (w : world) (i : Z) (F : nat) (b : Z) :
  holds w i F b \/ ~ holds w i F b.
Proof.
  unfold holds.
  destruct (rd (bufptr w) i) as [[G|]|] eqn:E1;
    try (right; intros [H _]; congruence).
  destruct (Nat.eq_dec G F) as [->|Hne];
    [|right; intros [H _]; congruence].
  destruct (rd (bufrecnum w) i) as [r|] eqn:E2;
    [|right; intros [_ H]; congruence].
  destruct (Z.eq_dec r b) as [->|Hne];
    [left; auto | right; intros [_ H]; congruence].
Qed.

Lemma ffldrc_search_defined (w : world) (F : nat) (b : Z) (ibuffs : list Z) :
  slots_ok w -> ages_in_range w ->
  Forall (fun i => 0 <= i < NIOBUF) ibuffs ->
  exists r, ffldrc_search w F b ibuffs = Some r.
Proof.
  intros (_ & Hp & Hr & _ & Hl) Ha Hi.
  induction Hi as [|ibuff rest Hib _ IH]; [eexists; reflexivity|].
  simpl.
  destruct (rd_in_range (ageindex w) ibuff) as [nbuff Hn]; [lia|].
  rewrite Hn.
  assert (Hnb : 0 <= nbuff < NIOBUF).
  { apply rd_Some in Hn as [_ Hn]. unfold ages_in_range in Ha.
    rewrite Forall_forall in Ha. apply Ha. eapply list_elem_of_lookup_2, Hn. }
  destruct (rd_in_range (bufptr w) nbuff) as [owner Ho]; [lia|].
  rewrite Ho. destruct owner as [G|]; [|exact IH].
  destruct (Nat.eqb G F); [|exact IH].
  destruct (rd_in_range (bufrecnum w) nbuff) as [r Hrr]; [lia|].
  rewrite Hrr. destruct (Z.eqb b r); [eexists; reflexivity | exact IH].
Qed.

Lemma ffldrc_search_hit (w : world) (F : nat) (b : Z) (ibuffs : list Z)
    (ibuff nbuff : Z) :
  ffldrc_search w F b ibuffs = Some (Some (ibuff, nbuff)) ->
  In ibuff ibuffs /\ rd (ageindex w) ibuff = Some nbuff /\ holds w nbuff F b.
Proof.
  induction ibuffs as [|i rest IH]; [discriminate|].
  simpl. destruct (rd (ageindex w) i) as [n|] eqn:En; [|discriminate].
  destruct (rd (bufptr w) n) as [owner|] eqn:Eo; [|discriminate].
  assert (Hrest : ffldrc_search w F b rest = Some (Some (ibuff, nbuff)) ->
                  (i = ibuff \/ In ibuff rest) /\
                  rd (ageindex w) ibuff = Some nbuff /\ holds w nbuff F b).
  { intros H. destruct (IH H) as (H1 & H2 & H3). auto. }
  destruct owner as [G|]; [|exact Hrest].
  destruct (Nat.eqb_spec G F) as [->|Hne]; [|exact Hrest].
  destruct (rd (bufrecnum w) n) as [r|] eqn:Er; [|discriminate].
  destruct (Z.eqb_spec b r) as [->|Hne]; [|exact Hrest].
  intros [= <- <-]. split; [left; reflexivity|]. split; [exact En|].
  split; assumption.
Qed.

Lemma ffldrc_search_miss (w : world) (F : nat) (b : Z) (ibuffs : list Z) :
  ffldrc_search w F b ibuffs = Some None ->
  forall ibuff nbuff, In ibuff ibuffs -> rd (ageindex w) ibuff = Some nbuff ->
                      ~ holds w nbuff F b.
Proof.
  induction ibuffs as [|i rest IH]; [intros _ ? ? []|].
  simpl. destruct (rd (ageindex w) i) as [n|] eqn:En; [|discriminate].
  destruct (rd (bufptr w) n) as [owner|] eqn:Eo; [|discriminate].
  assert (Hno : ~ holds w n F b ->
                ffldrc_search w F b rest = Some None ->
                forall ibuff nbuff, i = ibuff \/ In ibuff rest ->
                  rd (ageindex w) ibuff = Some nbuff -> ~ holds w nbuff F b).
  { intros Hn H ibuff nbuff [<-|Hin] Hrd.
    - rewrite En in Hrd. injection Hrd as <-. exact Hn.
    - eapply IH; eassumption. }
  destruct owner as [G|];
    [|apply Hno; intros [H _]; congruence].
  destruct (Nat.eqb_spec G F) as [->|Hne];
    [|apply Hno; intros [H _]; congruence].
  destruct (rd (bufrecnum w) n) as [r|] eqn:Er; [|discriminate].
  destruct (Z.eqb_spec b r) as [->|Hne]; [discriminate|].
  apply Hno. intros [_ H]. congruence.
Qed.

Lemma all_slots_range : Forall (fun i => 0 <= i < NIOBUF) (reverse (seqZ 0 NIOBUF)).
Proof.
  apply Forall_forall. intros i Hi.
  apply elem_of_reverse, elem_of_seqZ in Hi. lia.
Qed.

Lemma ffldrc_search_none (w : world) (F : nat) (b : Z) :
  slots_ok w -> ages_in_range w ->
  (forall i, ~ holds w i F b) ->
  ffldrc_search w F b (reverse (seqZ 0 NIOBUF)) = Some None.
Proof.
  intros Hs Ha Hno.
  destruct (ffldrc_search_defined w F b _ Hs Ha all_slots_range) as [[[i n]|] Hr];
    [|exact Hr].
  apply ffldrc_search_hit in Hr as (_ & _ & Hh). destruct (Hno n Hh).
Qed.

Lemma ffldrc_search_none_inv (w : world) (F : nat) (b : Z) :
  slots_ok w -> ages_cover w ->
  ffldrc_search w F b (reverse (seqZ 0 NIOBUF)) = Some None ->
  forall i, ~ holds w i F b.
Proof.
  intros (_ & Hp & _) Hc Hr i Hh.
  assert (Hi : 0 <= i < NIOBUF).
  { destruct Hh as [Hh _]. apply rd_range in Hh. lia. }
  destruct (Hc i Hi) as (ibuff & Hib & Hrd).
  eapply ffldrc_search_miss; [exact Hr | | exact Hrd | exact Hh].
  apply list_elem_of_In, elem_of_reverse, elem_of_seqZ. lia.
Qed.

Lemma ages_cover_listed (w : world) :
  slots_ok w -> ages_cover w -> owners_listed w.
Proof.
  intros (_ & Hp & _) Hc nbuff F Hn. apply Hc.
  apply rd_range in Hn. lia.
Qed.

Lemma ffldrc_search_none_listed (w : world) (F : nat) (b : Z) :
  owners_listed w ->
  ffldrc_search w F b (reverse (seqZ 0 NIOBUF)) = Some None ->
  forall i, ~ holds w i F b.
Proof.
  intros Hc Hr i Hh.
  destruct (Hc i F (proj1 Hh)) as (ibuff & Hib & Hrd).
  eapply ffldrc_search_miss; [exact Hr | | exact Hrd | exact Hh].
  apply list_elem_of_In, elem_of_reverse, elem_of_seqZ. lia.
Qed.

Section Selector.

Variable ffmahd : fitsfile -> Z -> Z -> M Z.

(** The run of [ffldrc] up to the call of [ffwhbf], when the record is
    in no buffer and the end-of-file guard lets the call through. *)
Lemma ffldrc_miss_unfold (fptr : fitsfile) (b mode st : Z) (w : world) :
  slots_ok w -> ages_in_range w -> no_drift fptr w ->
  (forall i, ~ holds w i (Fptr fptr) b) ->
  (mode = REPORT_EOF -> b * IOBUFLEN < logfilesize (files w (Fptr fptr))) ->
  ffldrc ffmahd fptr b mode st w
  = (do nbuff <- ffwhbf fptr;
     if Z.ltb nbuff 0 then ret TOO_MANY_FILES
     else
       do d <- rdM dirty nbuff;
       do status1 <- (if d : bool then ffbfwt nbuff st else ret st);
       do Ff1 <- file_of (Fptr fptr);
       do status2 <-
         (if Z.leb (filesize Ff1) (b * IOBUFLEN) then
            exec memset_iobuffer nbuff (fill_byte (hdutype Ff1));
            exec modify (upd_file (Fptr fptr) (with_logfilesize
                           (Z.max (logfilesize Ff1) (b * IOBUFLEN + IOBUFLEN))));
            exec put_dirty nbuff true;
            ret status1
          else
            exec (if Z.eqb (io_pos Ff1) (b * IOBUFLEN) then ret tt
                  else ffseek (Fptr fptr) (b * IOBUFLEN));
            do r <- ffread (Fptr fptr) IOBUFLEN status1;
            exec (match snd r with
                  | Some bytes => put_iobuffer nbuff bytes
                  | None => ret tt
                  end);
            exec modify (upd_file (Fptr fptr) (with_io_pos (b * IOBUFLEN + IOBUFLEN)));
            ret (fst r));
       exec put_bufptr nbuff (Some (Fptr fptr));
       exec put_bufrecnum nbuff b;
       ffldrc_updatebuf (Fptr fptr) nbuff (-1) status2) w.
Proof.
  intros Hs Ha Hnd Hno Heof. unfold ffldrc.
  unfold bind at 1. rewrite (sync_hdu_no_drift ffmahd fptr st w Hnd).
  unfold bind at 1, reads. rewrite (ffldrc_search_none w _ b Hs Ha Hno).
  unfold bind at 1, file_of, gets.
  replace (Z.eqb mode 0 && Z.leb (logfilesize (files w (Fptr fptr))) (b * IOBUFLEN))%bool
    with false; [reflexivity|].
  symmetry. apply andb_false_iff.
  destruct (Z.eqb_spec mode 0) as [E|E]; [right | left; reflexivity].
  apply Z.leb_gt. apply Heof. exact E.
Qed.

(** C5.  [ffwhbf] is [choose_victim]: on the age index as the function
    sees it (filled with [0 .. NIOBUF-1] by the very first call), it
    returns the first slot, oldest first, that is empty or is not the
    current buffer of its owner; when every slot of the age index is
    pinned it returns the file's own [curbuf]; and when that is negative
    (no current buffer: [choose_victim] has nothing to offer) a load of a
    record that is not in the pool ends with TOO_MANY_FILES. *)
Theorem ffwhbf_is_choose_victim (fptr : fitsfile) (w : world) :
  slots_ok w -> ages_in_range w ->
  let w1 := ffwhbf_init w in
  let F := Fptr fptr in
  ffwhbf fptr w = Some (match choose_victim w1 F with
                        | Some s => s
                        | None => curbuf (files w1 F)
                        end, w1)
  /\ (forall s, List.find (unpinned w1) (ageindex w1) = Some s ->
                ffwhbf fptr w = Some (s, w1))
  /\ (List.find (unpinned w1) (ageindex w1) = None ->
      ffwhbf fptr w = Some (curbuf (files w1 F), w1))
  /\ (choose_victim w1 F = None ->
      forall b mode st,
        no_drift fptr w ->
        (forall i, ~ holds w i F b) ->
        (mode = REPORT_EOF -> b * IOBUFLEN < logfilesize (files w F)) ->
        ffldrc ffmahd fptr b mode st w = Some (TOO_MANY_FILES, w1)).
Proof.
  intros Hs Ha w1 F.
  pose proof (ffwhbf_spec fptr w Hs Ha) as Hspec. fold w1 F in Hspec.
  split; [exact Hspec|].
  split; [|split].
  - intros s Hfind. rewrite Hspec. unfold choose_victim. rewrite Hfind.
    reflexivity.
  - intros Hfind. rewrite Hspec. unfold choose_victim. rewrite Hfind.
    destruct (Z.ltb _ 0); reflexivity.
  - intros Hnone b mode st Hnd Hno Heof.
    rewrite (ffldrc_miss_unfold fptr b mode st w Hs Ha Hnd Hno Heof).
    unfold bind at 1. rewrite Hspec, Hnone.
    unfold choose_victim in Hnone.
    destruct (List.find _ _); [discriminate|].
    destruct (Z.ltb (curbuf (files w1 F)) 0) eqn:E; [|discriminate].
    reflexivity.
Qed.

End Selector.

(** ** Permutations of the buffer numbers *)

Lemma perm_cover (w : world) :
  Permutation (ageindex w) (seqZ 0 NIOBUF) -> ages_cover w.
Proof.
  intros HP nbuff Hn.
  assert (Hin : nbuff ∈ ageindex w) by (rewrite HP; apply elem_of_seqZ; lia).
  apply list_elem_of_lookup in Hin as [i Hi].
  exists (Z.of_nat i). split.
  - apply lookup_lt_Some in Hi.
    apply Permutation_length in HP. rewrite length_seqZ in HP. lia.
  - apply rd_Some. split; [lia|]. rewrite Nat2Z.id. exact Hi.
Qed.

Lemma perm_in_range (w : world) :
  Permutation (ageindex w) (seqZ 0 NIOBUF) -> ages_in_range w.
Proof.
  intros HP. unfold ages_in_range. rewrite HP.
  apply Forall_forall. intros a Ha. apply elem_of_seqZ in Ha. lia.
Qed.


(** * The age index *)

(** ** Operations that leave the age index alone *)

Create HintDb age_frame.

Ltac age_done :=
  unfold age_state in *; simpl in *; rewrite ?length_insert;
  first [assumption | reflexivity | congruence].

Ltac age_call :=
  eapply wlp_mono; [solve [auto 1 with age_frame nocore]|];
  cbv beta; intros.

Ltac age_auto := repeat first [wlp_step | age_call]; try age_done.

Lemma ffbfwt_fill_age (F : nat) (nloop st : Z) (w : world) :
  wlp (ffbfwt_fill F nloop st) (fun _ w' => age_state w' = age_state w) w.
Proof.
  unfold ffbfwt_fill.
  apply (wlp_for_status (fun _ w' => age_state w' = age_state w));
    [reflexivity|].
  intros _ st0 w0 _ H0. age_auto.
Qed.
#[local] Hint Resolve ffbfwt_fill_age : age_frame.

Lemma ffbfwt_append_age (F : nat) (nbuff st : Z) (w : world) :
  wlp (ffbfwt_append F nbuff st) (fun _ w' => age_state w' = age_state w) w.
Proof. unfold ffbfwt_append. age_auto. Qed.
#[local] Hint Resolve ffbfwt_append_age : age_frame.

Lemma ffbfwt_extend_age (fuel : nat) (F : nat) (nbuff ibuff st : Z) (w : world) :
  wlp (ffbfwt_extend fuel F nbuff ibuff st)
      (fun _ w' => age_state w' = age_state w) w.
Proof.
  revert ibuff st w. induction fuel as [|fuel IH]; intros ibuff st w; simpl.
  - destruct (Z.eqb ibuff nbuff); [reflexivity | exact I].
  - destruct (Z.eqb ibuff nbuff); [reflexivity|].
    apply wlp_bind. age_call.
    eapply wlp_mono; [apply IH|]. cbv beta. intros. congruence.
Qed.
#[local] Hint Resolve ffbfwt_extend_age : age_frame.

Lemma ffbfwt_age (nbuff st : Z) (w : world) :
  wlp (ffbfwt nbuff st) (fun _ w' => age_state w' = age_state w) w.
Proof. unfold ffbfwt. age_auto. Qed.
#[local] Hint Resolve ffbfwt_age : age_frame.

Lemma ffflsh_age (fptr : fitsfile) (clearbuf st : Z) (w : world) :
  wlp (ffflsh fptr clearbuf st) (fun _ w' => age_state w' = age_state w) w.
Proof.
  unfold ffflsh. apply wlp_bind.
  eapply wlp_mono.
  - apply (wlp_for_status (fun _ w' => age_state w' = age_state w));
      [reflexivity|].
    intros ii st0 w0 _ H0. age_auto.
  - cbv beta. intros. age_auto.
Qed.

Lemma ffbfeof_age (fptr : fitsfile) (st : Z) (w : world) :
  wlp (ffbfeof fptr st) (fun _ w' => age_state w' = age_state w) w.
Proof.
  unfold ffbfeof. apply wlp_bind.
  eapply wlp_mono.
  - apply (wlp_for_status (fun _ w' => age_state w' = age_state w));
      [reflexivity|].
    intros ii st0 w0 _ H0. age_auto.
  - cbv beta. intros. age_auto.
Qed.

Lemma ffcurbuf_age (nbuff : Z) (w : world) :
  wlp (ffcurbuf nbuff) (fun _ w' => age_state w' = age_state w) w.
Proof. unfold ffcurbuf. age_auto. Qed.

Lemma fits_get_num_files_age (w : world) :
  wlp fits_get_num_files (fun _ w' => age_state w' = age_state w) w.
Proof. unfold fits_get_num_files. age_auto. Qed.

Lemma for_status_age (l : list Z) (body : Z -> Z -> M Z) (st : Z) (w : world) :
  (forall ii st0 w0,
      wlp (body ii st0) (fun _ w' => age_state w' = age_state w0) w0) ->
  wlp (for_status l body st) (fun _ w' => age_state w' = age_state w) w.
Proof.
  intros Hbody.
  apply (wlp_for_status (fun _ w' => age_state w' = age_state w));
    [reflexivity|].
  intros ii st0 w0 _ E. eapply wlp_mono; [apply Hbody|].
  cbv beta. intros. congruence.
Qed.

Lemma age_inv_state (w w' : world) :
  age_state w' = age_state w -> age_inv w -> age_inv w'.
Proof.
  unfold age_state, age_inv, slots_ok, ages_perm.
  intros [= E1 E2 E3 E4 E5 E6] ((H1 & H2 & H3 & H4 & H5) & Hp).
  rewrite E1, E2, E3, E4, E5, E6. auto 10.
Qed.

(** ** The age index after [ffwhbf] *)

Lemma ffwhbf_age (fptr : fitsfile) (w : world) :
  age_inv w ->
  wlp (ffwhbf fptr)
      (fun nbuff w' => age_inv w' /\ ageinit w' = true /\
                       (0 <= nbuff -> ~ In nbuff (ageindex w') ->
                        forall G, files w' G = files w G)) w.
Proof.
  intros [Hs Hp]. unfold wlp, ffwhbf.
  destruct (ffwhbf_search _ _) as [found|] eqn:E; [|exact I].
  assert (Hinv : age_inv (ffwhbf_init w) /\ ageinit (ffwhbf_init w) = true).
  { unfold ffwhbf_init. destruct (ageinit w) eqn:Ei.
    - split; [split; assumption | exact Ei].
    - split; [|reflexivity]. split.
      + pose proof (ffwhbf_init_slots w Hs) as H. unfold ffwhbf_init in H.
        rewrite Ei in H. exact H.
      + unfold ages_perm. simpl. reflexivity. }
  destruct Hinv as [Hinv Hi].
  assert (Hf : forall G, files (ffwhbf_init w) G = files w G).
  { intros G. unfold ffwhbf_init. destruct (ageinit w); reflexivity. }
  destruct found as [ibuff|]; auto.
Qed.

(** ** Moving a buffer to the young end *)

Lemma age_shift_length (iis : list Z) (ages ages' : list Z) :
  age_shift ages iis = Some ages' -> length ages' = length ages.
Proof.
  revert ages. induction iis as [|i iis IH]; intros ages; simpl.
  - intros [= <-]. reflexivity.
  - destruct (rd ages i) as [a|]; [|discriminate].
    destruct (wr ages (i - 1) a) as [l|] eqn:E; [|discriminate].
    intros H. apply IH in H. apply wr_length in E. congruence.
Qed.

Lemma last_default (l : list Z) (z x y : Z) :
  List.last (z :: l) x = List.last (z :: l) y.
Proof.
  revert z. induction l as [|a l IH]; intros z; [reflexivity|].
  change (List.last (a :: l) x = List.last (a :: l) y). apply IH.
Qed.

Lemma age_shift_closed (suf pre : list Z) (x : Z) :
  age_shift (pre ++ x :: suf)
            (seqZ (Z.of_nat (length pre) + 1) (Z.of_nat (length suf)))
  = Some (pre ++ suf ++ [List.last suf x]).
Proof.
  revert pre x. induction suf as [|y suf IH]; intros pre x.
  - reflexivity.
  - rewrite seqZ_cons by (simpl; lia). simpl age_shift.
    assert (Hrd : rd (pre ++ x :: y :: suf) (Z.of_nat (length pre) + 1) = Some y).
    { apply rd_Some. split; [lia|].
      replace (Z.to_nat (Z.of_nat (length pre) + 1)) with (length pre + 1)%nat by lia.
      rewrite lookup_app_r by lia.
      replace (length pre + 1 - length pre)%nat with 1%nat by lia. reflexivity. }
    rewrite Hrd.
    assert (Hwr : wr (pre ++ x :: y :: suf) (Z.of_nat (length pre) + 1 - 1) y
                  = Some ((pre ++ [y]) ++ y :: suf)).
    { apply wr_Some. split; [rewrite length_app; simpl; lia|].
      replace (Z.to_nat (Z.of_nat (length pre) + 1 - 1)) with (length pre + 0)%nat by lia.
      rewrite insert_app_r. simpl. rewrite <- app_assoc. reflexivity. }
    rewrite Hwr.
    specialize (IH (pre ++ [y]) y). rewrite length_app in IH. simpl length in IH.
    replace (Z.succ (Z.of_nat (length pre) + 1))
      with (Z.of_nat (length pre + 1) + 1) by lia.
    replace (Z.pred (Z.of_nat (S (length suf))))
      with (Z.of_nat (length suf)) by lia.
    rewrite IH. rewrite <- app_assoc. simpl.
    destruct suf as [|z suf]; [reflexivity|].
    rewrite (last_default suf z x y). reflexivity.
Qed.

Lemma age_position_spec (ages : list Z) (nbuff k : Z) :
  (exists pre suf, ages = pre ++ nbuff :: suf /\
                   age_position ages nbuff k = k + Z.of_nat (length pre))
  \/ (~ In nbuff ages /\ age_position ages nbuff k = k + Z.of_nat (length ages)).
Proof.
  revert k. induction ages as [|a ages IH]; intros k.
  - right. split; [intros [] | simpl; lia].
  - simpl. destruct (Z.eqb_spec a nbuff) as [->|Hne].
    + left. exists [], ages. split; [reflexivity | simpl; lia].
    + destruct (IH (k + 1)) as [(pre & suf & -> & Hp)|[Hn Hp]].
      * left. exists (a :: pre), suf. split; [reflexivity|].
        rewrite Hp. simpl length. lia.
      * right. split; [intros [H|H]; [congruence | contradiction]|].
        rewrite Hp. simpl length. lia.
Qed.

(** Moving the buffer found at position [pos] to the young end. *)
Lemma age_move_closed (pre suf : list Z) (x nbuff : Z) :
  Z.of_nat (length (pre ++ x :: suf)) = NIOBUF ->
  exists shifted,
    age_shift (pre ++ x :: suf)
              (seqZ (Z.of_nat (length pre) + 1)
                    (NIOBUF - (Z.of_nat (length pre) + 1))) = Some shifted
    /\ wr shifted (NIOBUF - 1) nbuff = Some (pre ++ suf ++ [nbuff]).
Proof.
  intros Hlen. rewrite length_app in Hlen. simpl length in Hlen.
  exists (pre ++ suf ++ [List.last suf x]). split.
  - replace (NIOBUF - (Z.of_nat (length pre) + 1))
      with (Z.of_nat (length suf)) by lia.
    apply age_shift_closed.
  - apply wr_Some. split; [rewrite !length_app; simpl; lia|].
    replace (Z.to_nat (NIOBUF - 1)) with (length pre + (length suf + 0))%nat by lia.
    rewrite insert_app_r, insert_app_r. reflexivity.
Qed.

(** An age index of zeros stays one when an entry moves to the end. *)
Lemma zeros_moved (pre suf : list Z) (nbuff : Z) (n : nat) :
  pre ++ nbuff :: suf = replicate n 0 ->
  pre ++ suf ++ [nbuff] = replicate n 0.
Proof.
  intros E. symmetry in E. apply replicate_as_Forall in E as [Hlen Hall].
  symmetry. apply replicate_as_Forall. split.
  - rewrite <- Hlen, !length_app. simpl. lia.
  - apply Forall_app in Hall as [H1 H2].
    apply Forall_cons in H2 as [H2 H3].
    apply Forall_app. split; [exact H1|].
    apply Forall_app. split; [exact H3|].
    apply Forall_cons. split; [exact H2 | apply Forall_nil_2].
Qed.

Lemma ffldrc_updatebuf_age (F : nat) (nbuff ibuff st : Z) (w : world) :
  age_inv w ->
  (0 <= ibuff -> rd (ageindex w) ibuff = Some nbuff) ->
  (ibuff < 0 -> ageinit w = true /\ In nbuff (ageindex w)) ->
  wlp (ffldrc_updatebuf F nbuff ibuff st) (fun _ w' => age_post w w') w.
Proof.
  intros [Hs Hp] Hhit Hmiss. unfold ffldrc_updatebuf.
  wlp_steps. simpl in *.
  rename a into shifted, H into Hsh, a0 into ages', H0 into Hwr.
  destruct Hs as (H1 & H2 & H3 & H4 & H5).
  split; [|simpl; auto].
  split.
  - unfold slots_ok. simpl. repeat (split; [assumption|]).
    apply wr_length in Hwr. apply age_shift_length in Hsh. congruence.
  - assert (Hsplit : exists pre suf,
               ageindex w = pre ++ nbuff :: suf /\
               (if Z.ltb ibuff 0 then age_position (ageindex w) nbuff 0 else ibuff)
               = Z.of_nat (length pre)).
    { destruct (Z.ltb_spec ibuff 0) as [Hneg|Hpos].
      - destruct (age_position_spec (ageindex w) nbuff 0)
          as [(pre & suf & E & Hpos)|[Hn _]].
        + exists pre, suf. split; [exact E | lia].
        + destruct Hn. apply Hmiss; assumption.
      - specialize (Hhit Hpos). apply rd_Some in Hhit as [_ Hl].
        exists (take (Z.to_nat ibuff) (ageindex w)),
               (drop (S (Z.to_nat ibuff)) (ageindex w)).
        split; [symmetry; apply take_drop_middle; exact Hl|].
        rewrite length_take. apply lookup_lt_Some in Hl. lia. }
    destruct Hsplit as (pre & suf & E & Epos).
    rewrite Epos in Hsh.
    destruct (age_move_closed pre suf nbuff nbuff) as (sh & Hsh' & Hwr').
    { rewrite <- E. exact H5. }
    rewrite E in Hsh. rewrite Hsh' in Hsh. injection Hsh as <-.
    rewrite Hwr' in Hwr. injection Hwr as <-.
    unfold ages_perm in *. simpl.
    destruct (ageinit w).
    + rewrite <- Hp, E.
      apply Permutation_app_head. symmetry. apply Permutation_cons_append.
    + apply zeros_moved. rewrite <- E. exact Hp.
Qed.

Lemma age_inv_in (w : world) (nbuff : Z) :
  age_inv w -> ageinit w = true -> 0 <= nbuff < NIOBUF -> In nbuff (ageindex w).
Proof.
  intros [_ Hp] Hi Hr. unfold ages_perm in Hp. rewrite Hi in Hp.
  apply list_elem_of_In. rewrite Hp. apply elem_of_seqZ. lia.
Qed.

Lemma age_post_refl (w : world) : age_inv w -> age_post w w.
Proof. intros H. split; auto. Qed.

Lemma age_post_trans (w w1 w2 : world) :
  age_post w w1 -> age_post w1 w2 -> age_post w w2.
Proof. intros [_ H1] [H2 H3]. split; auto. Qed.

Lemma age_post_frame (w w1 w2 : world) :
  age_post w w1 -> age_state w2 = age_state w1 -> age_post w w2.
Proof.
  intros [H1 H2] E. split; [eapply age_inv_state; eassumption|].
  unfold age_state in E. injection E as _ _ _ _ _ ->. exact H2.
Qed.

Lemma age_post_inv (w w1 w2 : world) :
  age_post w w1 -> age_state w2 = age_state w1 -> age_inv w2.
Proof. intros H E. eapply age_post_frame in E as [E _]; eassumption. Qed.

(** One hypothesis [age_post w wc] is carried along a run: [wc] is the
    last world that a call has returned. *)
Ltac ap_frame :=
  match goal with
  | HP : age_post ?w ?wc |- age_post ?w _ =>
      apply (age_post_frame w wc); [exact HP | age_done]
  end.

Ltac ap_call_frame :=
  match goal with
  | HP : age_post ?w ?wc |- wlp _ _ ?we =>
      eapply wlp_mono;
      [solve [auto 1 with age_frame nocore
             | apply for_status_age; intros; age_auto]|]; cbv beta;
      let r := fresh "r" in
      let w' := fresh "w" in
      let E := fresh "E" in
      intros r w' E;
      let HP' := fresh "HP" in
      assert (HP' : age_post w w')
        by (apply (age_post_frame w wc); [exact HP | rewrite E; age_done]);
      clear HP E
  end.

Ltac ap_call_inv L :=
  match goal with
  | HP : age_post ?w ?wc |- wlp _ _ ?we =>
      eapply wlp_mono;
      [apply L; apply (age_post_inv w wc we HP); age_done|]; cbv beta;
      let r := fresh "r" in
      let w' := fresh "w" in
      let E := fresh "E" in
      intros r w' E;
      let HP' := fresh "HP" in
      assert (HP' : age_post w w')
        by (apply (age_post_trans w we w');
            [apply (age_post_frame w wc); [exact HP | age_done] | exact E]);
      clear HP E
  end.

Section AgeInvariant.

Variable ffmahd : fitsfile -> Z -> Z -> M Z.
Variable ffrdef : fitsfile -> Z -> M Z.
Variable ffgtcl : fitsfile -> Z -> Z -> M (Z * Z).

(** The collaborators reach the pool through the operations of this
    file only, so they keep its invariant. *)
Hypothesis ffmahd_age : forall fptr n st w,
  age_inv w -> wlp (ffmahd fptr n st) (fun _ w' => age_post w w') w.
Hypothesis ffrdef_age : forall fptr st w,
  age_inv w -> wlp (ffrdef fptr st) (fun _ w' => age_post w w') w.
Hypothesis ffgtcl_age : forall fptr c st w,
  age_inv w -> wlp (ffgtcl fptr c st) (fun _ w' => age_post w w') w.

Lemma sync_hdu_age (fptr : fitsfile) (st : Z) (w : world) :
  age_inv w -> wlp (sync_hdu ffmahd fptr st) (fun _ w' => age_post w w') w.
Proof.
  intros H. unfold sync_hdu. wlp_steps; [apply age_post_refl; exact H|].
  apply ffmahd_age. exact H.
Qed.

Lemma ffwhbf_age_post (fptr : fitsfile) (w : world) :
  age_inv w ->
  wlp (ffwhbf fptr) (fun _ w' => age_post w w' /\ ageinit w' = true) w.
Proof.
  intros H. eapply wlp_mono; [apply ffwhbf_age; exact H|]. cbv beta.
  intros nbuff w' (H1 & H2 & _). split; [split; auto | exact H2].
Qed.

Lemma ffldrc_age (fptr : fitsfile) (b mode st : Z) (w : world) :
  age_inv w -> wlp (ffldrc ffmahd fptr b mode st) (fun _ w' => age_post w w') w.
Proof.
  intros Hinv. unfold ffldrc. apply wlp_bind.
  eapply wlp_mono; [apply sync_hdu_age; exact Hinv|]. cbv beta.
  intros st0 w0 HP.
  apply wlp_bind, wlp_reads. intros hit Hsearch.
  destruct hit as [[ibuff nbuff]|].
  - apply ffldrc_search_hit in Hsearch as (Hin & Hrd & _).
    eapply wlp_mono;
      [apply ffldrc_updatebuf_age; [exact (proj1 HP) | intros _; exact Hrd|]|].
    + intros Hneg. apply list_elem_of_In, elem_of_reverse, elem_of_seqZ in Hin. lia.
    + cbv beta. intros. eapply age_post_trans; eassumption.
  - apply wlp_bind, wlp_file_of.
    destruct (_ && _)%bool; [exact HP|].
    apply wlp_bind.
    eapply wlp_mono; [apply ffwhbf_age_post; exact (proj1 HP)|]. cbv beta.
    intros nbuff w1 (HP1 & Hinit1).
    pose proof (age_post_trans _ _ _ HP HP1) as HP2. clear HP.
    destruct (Z.ltb nbuff 0); [exact HP2|].
    apply wlp_bind, wlp_rdM. intros d Hd.
    assert (Hin : In nbuff (ageindex w1)).
    { apply age_inv_in; [exact (proj1 HP1) | exact Hinit1|]. apply rd_range in Hd.
      destruct HP1 as [[(_ & _ & _ & H4 & _) _] _]. lia. }
    clear HP1.
    apply wlp_bind.
    apply (wlp_mono _ (fun _ w' => age_state w' = age_state w1)).
    { destruct d; [apply ffbfwt_age | reflexivity]. }
    intros st1 w2 E2.
    assert (Hupd : forall st' w', age_state w' = age_state w1 ->
              wlp (ffldrc_updatebuf (Fptr fptr) nbuff (-1) st')
                  (fun _ w'' => age_post w w'') w').
    { intros st' w' E. eapply wlp_mono.
      - apply ffldrc_updatebuf_age.
        + eapply age_post_inv; eassumption.
        + lia.
        + intros _. unfold age_state in E. injection E as _ _ _ _ -> ->.
          split; [exact Hinit1 | exact Hin].
      - cbv beta. intros r w'' HP3.
        eapply age_post_trans; [|exact HP3].
        eapply age_post_frame; eassumption. }
    wlp_steps; apply Hupd; age_done.
Qed.

Lemma ffmbyt_age (fptr : fitsfile) (pos mode st : Z) (w : world) :
  age_inv w -> wlp (ffmbyt ffmahd fptr pos mode st) (fun _ w' => age_post w w') w.
Proof.
  intros Hinv. pose proof (age_post_refl w Hinv) as HP.
  unfold ffmbyt.
  repeat first [wlp_step | ap_frame | ap_call_inv sync_hdu_age
                | ap_call_inv ffldrc_age].
Qed.

Lemma ffpbyt_loop_age (fuel : nat) (fptr : fitsfile) (ntodo : Z)
    (cptr : list byte) (bufpos nspace st : Z) (w : world) :
  age_inv w ->
  wlp (ffpbyt_loop ffmahd fuel fptr ntodo cptr bufpos nspace st)
      (fun _ w' => age_post w w') w.
Proof.
  revert ntodo cptr bufpos nspace st w.
  induction fuel as [|fuel IH]; intros ntodo cptr bufpos nspace st w Hinv;
    pose proof (age_post_refl w Hinv) as HP; simpl.
  - destruct (Z.eqb ntodo 0); [exact HP | exact I].
  - repeat first [wlp_step | ap_frame | ap_call_inv ffldrc_age | ap_call_inv IH].
Qed.

Lemma ffgbyt_loop_age (fuel : nat) (fptr : fitsfile) (ntodo : Z)
    (out : list byte) (bufpos nspace st : Z) (w : world) :
  age_inv w ->
  wlp (ffgbyt_loop ffmahd fuel fptr ntodo out bufpos nspace st)
      (fun _ w' => age_post w w') w.
Proof.
  revert ntodo out bufpos nspace st w.
  induction fuel as [|fuel IH]; intros ntodo out bufpos nspace st w Hinv;
    pose proof (age_post_refl w Hinv) as HP; simpl.
  - destruct (Z.eqb ntodo 0); [exact HP | exact I].
  - repeat first [wlp_step | ap_frame | ap_call_inv ffldrc_age | ap_call_inv IH].
Qed.

Ltac ap_auto :=
  repeat first [wlp_step | ap_frame | ap_call_frame
                | ap_call_inv sync_hdu_age | ap_call_inv ffldrc_age
                | ap_call_inv ffpbyt_loop_age | ap_call_inv ffgbyt_loop_age].

Lemma ffpbyt_age (fptr : fitsfile) (nbytes : Z) (buffer : list byte) (st : Z)
    (w : world) :
  age_inv w ->
  wlp (ffpbyt ffmahd fptr nbytes buffer st) (fun _ w' => age_post w w') w.
Proof.
  intros Hinv. pose proof (age_post_refl w Hinv) as HP.
  unfold ffpbyt, ffpbyt_direct. ap_auto.
Qed.

Lemma ffgbyt_age (fptr : fitsfile) (nbytes st : Z) (w : world) :
  age_inv w ->
  wlp (ffgbyt ffmahd fptr nbytes st) (fun _ w' => age_post w w') w.
Proof.
  intros Hinv. pose proof (age_post_refl w Hinv) as HP.
  unfold ffgbyt, ffgbyt_direct. ap_auto.
Qed.

Lemma next_record_age (fptr : fitsfile) (mode : Z) (c : cursor) (rec off sp : Z)
    (w : world) :
  age_inv w ->
  wlp (next_record ffmahd fptr mode c rec off sp) (fun _ w' => age_post w w') w.
Proof.
  intros Hinv. pose proof (age_post_refl w Hinv) as HP.
  unfold next_record. ap_auto.
Qed.

Lemma ffpbytoff_group_age (fptr : fitsfile) (gsize offset : Z) (c : cursor)
    (w : world) :
  age_inv w ->
  wlp (ffpbytoff_group ffmahd fptr gsize offset c) (fun _ w' => age_post w w') w.
Proof.
  intros Hinv. pose proof (age_post_refl w Hinv) as HP.
  unfold ffpbytoff_group, put_group_bytes.
  repeat first [wlp_step | ap_frame | ap_call_inv next_record_age].
Qed.

Lemma ffgbytoff_group_age (fptr : fitsfile) (gsize offset : Z) (c : cursor)
    (w : world) :
  age_inv w ->
  wlp (ffgbytoff_group ffmahd fptr gsize offset c) (fun _ w' => age_post w w') w.
Proof.
  intros Hinv. pose proof (age_post_refl w Hinv) as HP.
  unfold ffgbytoff_group, get_group_bytes.
  repeat first [wlp_step | ap_frame | ap_call_inv next_record_age].
Qed.

Lemma group_loop_age (body : cursor -> M cursor) (n : nat) (c : cursor)
    (w : world) :
  (forall c0 w0, age_inv w0 -> wlp (body c0) (fun _ w' => age_post w0 w') w0) ->
  age_inv w ->
  wlp (group_loop body n c) (fun _ w' => age_post w w') w.
Proof.
  intros Hbody. revert c w. induction n as [|n IH]; intros c w Hinv;
    pose proof (age_post_refl w Hinv) as HP; simpl.
  - exact HP.
  - repeat first [wlp_step | ap_frame | ap_call_inv Hbody | ap_call_inv IH].
Qed.

Lemma ffpbytoff_loop_age (fptr : fitsfile) (gsize offset : Z) (n : nat)
    (c : cursor) (w : world) :
  age_inv w ->
  wlp (group_loop (ffpbytoff_group ffmahd fptr gsize offset) n c)
      (fun _ w' => age_post w w') w.
Proof.
  apply group_loop_age. intros. apply ffpbytoff_group_age. assumption.
Qed.

Lemma ffgbytoff_loop_age (fptr : fitsfile) (gsize offset : Z) (n : nat)
    (c : cursor) (w : world) :
  age_inv w ->
  wlp (group_loop (ffgbytoff_group ffmahd fptr gsize offset) n c)
      (fun _ w' => age_post w w') w.
Proof.
  apply group_loop_age. intros. apply ffgbytoff_group_age. assumption.
Qed.

Lemma ffpbytoff_age (fptr : fitsfile) (gsize ngroups offset : Z)
    (buffer : list byte) (st : Z) (w : world) :
  age_inv w ->
  wlp (ffpbytoff ffmahd fptr gsize ngroups offset buffer st)
      (fun _ w' => age_post w w') w.
Proof.
  intros Hinv. pose proof (age_post_refl w Hinv) as HP.
  unfold ffpbytoff, group_start, put_group_bytes.
  repeat first [wlp_step | ap_frame | ap_call_inv sync_hdu_age
                | ap_call_inv next_record_age
                | ap_call_inv ffpbytoff_loop_age].
Qed.

Lemma ffgbytoff_age (fptr : fitsfile) (gsize ngroups offset st : Z) (w : world) :
  age_inv w ->
  wlp (ffgbytoff ffmahd fptr gsize ngroups offset st)
      (fun _ w' => age_post w w') w.
Proof.
  intros Hinv. pose proof (age_post_refl w Hinv) as HP.
  unfold ffgbytoff, group_start, get_group_bytes.
  repeat first [wlp_step | ap_frame | ap_call_inv sync_hdu_age
                | ap_call_inv next_record_age
                | ap_call_inv ffgbytoff_loop_age].
Qed.

Lemma ffgrsz_age (fptr : fitsfile) (st : Z) (w : world) :
  age_inv w ->
  wlp (ffgrsz ffmahd ffrdef ffgtcl fptr st) (fun _ w' => age_post w w') w.
Proof.
  intros Hinv. pose proof (age_post_refl w Hinv) as HP.
  unfold ffgrsz, fits_get_num_files.
  repeat first [wlp_step | ap_frame | ap_call_inv ffmahd_age
                | ap_call_inv ffrdef_age | ap_call_inv ffgtcl_age].
Qed.

End AgeInvariant.


(** * The end-of-file guard of ffldrc *)

(** The run of [updatebuf]: the buffer becomes current and moves to the
    young end of the age index. *)
Lemma ffldrc_updatebuf_run (F : nat) (nbuff ibuff st : Z) (w : world) :
  Z.of_nat (length (ageindex w)) = NIOBUF ->
  (0 <= ibuff -> rd (ageindex w) ibuff = Some nbuff) ->
  (ibuff < 0 -> In nbuff (ageindex w)) ->
  exists ages',
    ffldrc_updatebuf F nbuff ibuff st w
    = Some (st, set_ages ages' (ageinit w) (upd_file F (with_curbuf nbuff) w))
    /\ Permutation ages' (ageindex w).
Proof.
  intros Hlen Hhit Hmiss.
  assert (Hsplit : exists pre suf,
             ageindex w = pre ++ nbuff :: suf /\
             (if Z.ltb ibuff 0 then age_position (ageindex w) nbuff 0 else ibuff)
             = Z.of_nat (length pre)).
  { destruct (Z.ltb_spec ibuff 0) as [Hneg|Hpos].
    - destruct (age_position_spec (ageindex w) nbuff 0)
        as [(pre & suf & E & Hpos)|[Hn _]].
      + exists pre, suf. split; [exact E | lia].
      + destruct Hn. apply Hmiss; assumption.
    - specialize (Hhit Hpos). apply rd_Some in Hhit as [_ Hl].
      exists (take (Z.to_nat ibuff) (ageindex w)),
             (drop (S (Z.to_nat ibuff)) (ageindex w)).
      split; [symmetry; apply take_drop_middle; exact Hl|].
      rewrite length_take. apply lookup_lt_Some in Hl. lia. }
  destruct Hsplit as (pre & suf & E & Epos).
  destruct (age_move_closed pre suf nbuff nbuff) as (sh & Hsh & Hwr).
  { rewrite <- E. exact Hlen. }
  exists (pre ++ suf ++ [nbuff]). split.
  - unfold ffldrc_updatebuf, bind, modify, gets, lift. simpl.
    rewrite Epos, E, Hsh, Hwr. reflexivity.
  - rewrite E. apply Permutation_app_head. symmetry.
    apply Permutation_cons_append.
Qed.

(** [ffbfwt] passes the status through or makes it WRITE_ERROR. *)
Lemma ffbfwt_fill_status (F : nat) (nloop st : Z) (w : world) :
  wlp (ffbfwt_fill F nloop st) (fun st' _ => st' = st \/ st' = WRITE_ERROR) w.
Proof.
  unfold ffbfwt_fill.
  apply (wlp_for_status (fun st' _ => st' = st \/ st' = WRITE_ERROR));
    [left; reflexivity|].
  intros _ st0 w0 _ H0. wlp_steps. intuition congruence.
Qed.

Lemma ffbfwt_append_status (F : nat) (nbuff st : Z) (w : world) :
  wlp (ffbfwt_append F nbuff st)
      (fun r _ => snd r = st \/ snd r = WRITE_ERROR) w.
Proof.
  unfold ffbfwt_append. wlp_steps.
  - eapply wlp_mono; [apply ffbfwt_fill_status|]. cbv beta. intros.
    wlp_steps. simpl. intuition congruence.
  - simpl. intuition congruence.
Qed.

Lemma ffbfwt_extend_status (fuel : nat) (F : nat) (nbuff ibuff st : Z) (w : world) :
  wlp (ffbfwt_extend fuel F nbuff ibuff st)
      (fun st' _ => st' = st \/ st' = WRITE_ERROR) w.
Proof.
  revert ibuff st w. induction fuel as [|fuel IH]; intros ibuff st w; simpl.
  - destruct (Z.eqb ibuff nbuff); [left; reflexivity | exact I].
  - destruct (Z.eqb ibuff nbuff); [left; reflexivity|].
    apply wlp_bind. eapply wlp_mono; [apply ffbfwt_append_status|].
    cbv beta. intros r w1 H1.
    eapply wlp_mono; [apply IH|]. cbv beta. intros. intuition congruence.
Qed.

Lemma ffbfwt_status (nbuff st : Z) (w : world) :
  wlp (ffbfwt nbuff st) (fun st' _ => st' = st \/ st' = WRITE_ERROR) w.
Proof.
  unfold ffbfwt. wlp_steps; try (intuition congruence).
  - eapply wlp_mono; [apply ffbfwt_extend_status|]. cbv beta. intros.
    wlp_steps. assumption.
  - eapply wlp_mono; [apply ffbfwt_extend_status|]. cbv beta. intros.
    wlp_steps. assumption.
Qed.

Lemma ffldrc_updatebuf_status (F : nat) (nbuff ibuff st : Z) (w : world) :
  wlp (ffldrc_updatebuf F nbuff ibuff st) (fun st' _ => st' = st) w.
Proof. unfold ffldrc_updatebuf. wlp_steps. reflexivity. Qed.

Section EndOfFile.

Variable ffmahd : fitsfile -> Z -> Z -> M Z.

(** C6, as amended.  A load in REPORT_EOF mode by a caller whose HDU
    is the current one of the file, entered with a status other than
    END_OF_FILE on a pool whose age index lists every buffer that has an
    owner (as it does at process start, when no buffer has one, and
    once it reaches every buffer), ends with END_OF_FILE exactly when
    no buffer holds the record and the record starts at or beyond
    [logfilesize]: in that case the call returns END_OF_FILE and changes
    nothing; a defined run that returns END_OF_FILE is such a case; and
    a record that some buffer holds is adopted (the run is defined,
    keeps the status and makes a buffer holding the record the current
    one) wherever [logfilesize] lies. *)
Theorem ffldrc_end_of_file_exactly (fptr : fitsfile) (b st : Z) (w : world) :
  slots_ok w -> ages_in_range w -> owners_listed w -> no_drift fptr w ->
  st <> END_OF_FILE ->
  let F := Fptr fptr in
  ((forall i, ~ holds w i F b) ->
   logfilesize (files w F) <= b * IOBUFLEN ->
   ffldrc ffmahd fptr b REPORT_EOF st w = Some (END_OF_FILE, w))
  /\ (forall st' w',
        ffldrc ffmahd fptr b REPORT_EOF st w = Some (st', w') ->
        st' = END_OF_FILE ->
        (forall i, ~ holds w i F b) /\ logfilesize (files w F) <= b * IOBUFLEN)
  /\ (forall i, holds w i F b ->
        exists w' j,
          ffldrc ffmahd fptr b REPORT_EOF st w = Some (st, w')
          /\ holds w' j F b /\ curbuf (files w' F) = j).
Proof.
  intros Hs Ha Hc Hnd Hst F. subst F.
  assert (Hsync : sync_hdu ffmahd fptr st w = Some (st, w))
    by (apply sync_hdu_no_drift; exact Hnd).
  destruct (ffldrc_search_defined w (Fptr fptr) b _ Hs Ha all_slots_range)
    as [hit Hsearch].
  split; [|split].
  - intros Hno Hlog. unfold ffldrc. cbv zeta.
    unfold bind at 1. rewrite Hsync.
    unfold bind at 1, reads. rewrite (ffldrc_search_none w _ b Hs Ha Hno).
    unfold bind at 1, file_of, gets.
    replace (Z.leb (logfilesize (files w (Fptr fptr))) (b * IOBUFLEN)) with true
      by (symmetry; apply Z.leb_le; exact Hlog).
    reflexivity.
  - intros st' w' Hrun Heof.
    assert (Hw : wlp (ffldrc ffmahd fptr b REPORT_EOF st)
                     (fun st' _ => st' = END_OF_FILE ->
                        (forall i, ~ holds w i (Fptr fptr) b) /\
                        logfilesize (files w (Fptr fptr)) <= b * IOBUFLEN) w);
      [|exact (wlp_elim _ _ _ _ _ Hw Hrun Heof)].
    unfold ffldrc. cbv zeta. apply wlp_bind. unfold wlp at 1. rewrite Hsync.
    apply wlp_bind, wlp_reads. intros hit' Hsearch'.
    rewrite Hsearch in Hsearch'. injection Hsearch' as <-.
    destruct hit as [[ibuff nbuff]|].
    + eapply wlp_mono; [apply ffldrc_updatebuf_status|]. cbv beta.
      intros; congruence.
    + apply wlp_bind, wlp_file_of.
      assert (Hno : forall i, ~ holds w i (Fptr fptr) b)
        by (apply ffldrc_search_none_listed; assumption).
      destruct (Z.leb_spec (logfilesize (files w (Fptr fptr))) (b * IOBUFLEN))
        as [Hle|Hgt]; simpl andb.
      { apply wlp_ret. intros _. split; assumption. }
      assert (Hfin : forall nbuff st2 w2, st2 <> END_OF_FILE ->
                wlp (ffldrc_updatebuf (Fptr fptr) nbuff (-1) st2)
                    (fun st' _ => st' = END_OF_FILE ->
                       (forall i, ~ holds w i (Fptr fptr) b) /\
                       logfilesize (files w (Fptr fptr)) <= b * IOBUFLEN) w2).
      { intros nbuff st2 w2 Hne.
        eapply wlp_mono; [apply ffldrc_updatebuf_status|]. cbv beta.
        intros; congruence. }
      apply wlp_bind. unfold wlp at 1.
      destruct (ffwhbf fptr w) as [[nbuff w1]|]; [|exact I].
      destruct (Z.ltb nbuff 0); [apply wlp_ret; discriminate|].
      apply wlp_bind, wlp_rdM. intros d Hd.
      apply wlp_bind.
      apply (wlp_mono _ (fun st' _ => st' = st \/ st' = WRITE_ERROR)).
      { destruct d; [apply ffbfwt_status | left; reflexivity]. }
      intros st1 w2 H1.
      assert (Hne1 : st1 <> END_OF_FILE)
        by (destruct H1 as [->| ->]; [exact Hst | discriminate]).
      wlp_steps; apply Hfin; try assumption;
        match goal with
        | H : _ \/ _ |- _ => destruct H as [->| ->];
                             [assumption | discriminate]
        end.
  - intros i Hi.
    destruct hit as [[ibuff nbuff]|];
      [|destruct (ffldrc_search_none_listed w _ b Hc Hsearch i Hi)].
    pose proof (ffldrc_search_hit _ _ _ _ _ _ Hsearch) as (Hin & Hrd & Hh).
    destruct Hs as (_ & _ & _ & _ & Hlen).
    destruct (ffldrc_updatebuf_run (Fptr fptr) nbuff ibuff st w Hlen
                (fun _ => Hrd))
      as (ages' & Hrun & _).
    { intros Hneg. apply list_elem_of_In, elem_of_reverse, elem_of_seqZ in Hin. lia. }
    eexists _, nbuff. split; [|split].
    + unfold ffldrc. cbv zeta. unfold bind at 1. rewrite Hsync.
      unfold bind at 1, reads. rewrite Hsearch. exact Hrun.
    + exact Hh.
    + simpl. unfold upd. rewrite Nat.eqb_refl. reflexivity.
Qed.

End EndOfFile.


(** * Writeback and failing transfers *)

(** ** The dirty flag of the buffer written back *)

Lemma ffbfwt_append_dirty (F : nat) (nbuff st : Z) (w : world) :
  wlp (ffbfwt_append F nbuff st)
      (fun r w' => rd (dirty w') (fst r) = Some false) w.
Proof.
  unfold ffbfwt_append. wlp_steps.
  - eapply wlp_mono; [apply ffbfwt_fill_age|]. cbv beta. intros.
    wlp_steps. simpl. apply rd_insert_eq. simpl in *. assumption.
  - simpl. apply rd_insert_eq. simpl in *. assumption.
Qed.

Lemma ffbfwt_extend_dirty (fuel : nat) (F : nat) (nbuff ibuff st : Z) (w : world) :
  (ibuff = nbuff -> rd (dirty w) nbuff = Some false) ->
  wlp (ffbfwt_extend fuel F nbuff ibuff st)
      (fun _ w' => rd (dirty w') nbuff = Some false) w.
Proof.
  revert ibuff st w. induction fuel as [|fuel IH]; intros ibuff st w HK; simpl.
  - destruct (Z.eqb_spec ibuff nbuff); [apply HK; assumption | exact I].
  - destruct (Z.eqb_spec ibuff nbuff); [apply HK; assumption|].
    apply wlp_bind. eapply wlp_mono; [apply ffbfwt_append_dirty|].
    cbv beta. intros r w1 H1. apply IH. intros <-. exact H1.
Qed.

Lemma ffbfwt_clears_dirty (nbuff st : Z) (w : world) :
  Z.of_nat (length (bufptr w)) = NIOBUF ->
  wlp (ffbfwt nbuff st) (fun _ w' => rd (dirty w') nbuff = Some false) w.
Proof.
  intros Hlen. unfold ffbfwt.
  apply wlp_bind, wlp_rdM. intros owner Ho.
  assert (Hne : NIOBUF <> nbuff) by (apply rd_range in Ho; lia).
  destruct owner as [F|]; [|exact I].
  wlp_steps; try (simpl in *; apply rd_insert_eq; assumption).
  - eapply wlp_mono; [apply ffbfwt_extend_dirty; intros; contradiction|].
    cbv beta. intros. wlp_steps. assumption.
  - eapply wlp_mono; [apply ffbfwt_extend_dirty; intros; contradiction|].
    cbv beta. intros. wlp_steps. assumption.
Qed.


(** * Disk images and the driver without faults *)

Lemma IOBUFLEN_nat : Z.of_nat (Z.to_nat IOBUFLEN) = IOBUFLEN.
Proof. pose proof IOBUFLEN_pos. lia. Qed.

Lemma zeros_length : Z.of_nat (length zeros) = IOBUFLEN.
Proof. unfold zeros. rewrite length_replicate. apply IOBUFLEN_nat. Qed.

Lemma quot_block (m : Z) : 0 <= m -> Z.quot (m * IOBUFLEN) IOBUFLEN = m.
Proof. intros _. apply Z.quot_mul. pose proof IOBUFLEN_pos. lia. Qed.

Lemma lookup_disk_block (d : list byte) (b : Z) (i : nat) :
  disk_block d b !! i
  = if decide (i < Z.to_nat IOBUFLEN)%nat
    then d !! (Z.to_nat (b * IOBUFLEN) + i)%nat
    else None.
Proof.
  unfold disk_block. destruct (decide _) as [Hlt|Hge].
  - rewrite lookup_take_lt by exact Hlt. apply lookup_drop.
  - apply lookup_take_ge. lia.
Qed.

Lemma disk_block_length (d : list byte) (b : Z) :
  0 <= b -> (b + 1) * IOBUFLEN <= Z.of_nat (length d) ->
  Z.of_nat (length (disk_block d b)) = IOBUFLEN.
Proof.
  intros Hb Hd. unfold disk_block. rewrite length_take, length_drop.
  pose proof IOBUFLEN_pos. nia.
Qed.

Lemma disk_block_app_l (d e : list byte) (c : Z) :
  0 <= c -> (c + 1) * IOBUFLEN <= Z.of_nat (length d) ->
  disk_block (d ++ e) c = disk_block d c.
Proof.
  intros Hc Hd. apply list_eq. intros i. rewrite !lookup_disk_block.
  destruct (decide _) as [Hlt|]; [|reflexivity].
  apply lookup_app_l. pose proof IOBUFLEN_pos. nia.
Qed.

Lemma disk_block_app_r (d e : list byte) (c : Z) :
  0 <= c -> Z.of_nat (length d) = c * IOBUFLEN ->
  Z.of_nat (length e) = IOBUFLEN ->
  disk_block (d ++ e) c = e.
Proof.
  intros Hc Hd He. unfold disk_block.
  rewrite drop_app_length' by lia. apply take_ge. lia.
Qed.

Lemma disk_block_take (d : list byte) (n : nat) (c : Z) :
  0 <= c -> (c + 1) * IOBUFLEN <= Z.of_nat n ->
  disk_block (take n d) c = disk_block d c.
Proof.
  intros Hc Hn. apply list_eq. intros i. rewrite !lookup_disk_block.
  destruct (decide _) as [Hlt|]; [|reflexivity].
  apply lookup_take_lt. pose proof IOBUFLEN_pos. nia.
Qed.

Lemma pwrite_append (d data : list byte) :
  pwrite d (Z.of_nat (length d)) data = d ++ data.
Proof.
  unfold pwrite. destruct data as [|x data]; [rewrite app_nil_r; reflexivity|].
  rewrite Nat2Z.id, take_ge by lia. rewrite Nat.sub_diag. simpl replicate.
  rewrite (drop_ge d) by lia. rewrite app_nil_r. reflexivity.
Qed.

Lemma pwrite_inplace (d data : list byte) (p : Z) :
  0 <= p -> p + Z.of_nat (length data) <= Z.of_nat (length d) ->
  pwrite d p data
  = take (Z.to_nat p) d ++ data ++ drop (Z.to_nat p + length data)%nat d.
Proof.
  intros Hp Hd. unfold pwrite. destruct data as [|x data].
  - simpl. rewrite Nat.add_0_r, take_drop. reflexivity.
  - replace (Z.to_nat p - length d)%nat with 0%nat by lia. reflexivity.
Qed.

Lemma pwrite_inplace_length (d data : list byte) (p : Z) :
  0 <= p -> p + Z.of_nat (length data) <= Z.of_nat (length d) ->
  length (pwrite d p data) = length d.
Proof.
  intros Hp Hd. rewrite pwrite_inplace by assumption.
  rewrite !length_app, length_take, length_drop. lia.
Qed.

Lemma disk_block_pwrite_same (d data : list byte) (b : Z) :
  0 <= b -> (b + 1) * IOBUFLEN <= Z.of_nat (length d) ->
  Z.of_nat (length data) = IOBUFLEN ->
  disk_block (pwrite d (b * IOBUFLEN) data) b = data.
Proof.
  intros Hb Hd Hl. pose proof IOBUFLEN_pos.
  rewrite pwrite_inplace by nia. unfold disk_block.
  rewrite drop_app_length' by (rewrite length_take; nia).
  rewrite take_app_length' by lia. reflexivity.
Qed.

Lemma disk_block_pwrite_other (d data : list byte) (b c : Z) :
  0 <= b -> 0 <= c -> c <> b ->
  (b + 1) * IOBUFLEN <= Z.of_nat (length d) ->
  Z.of_nat (length data) = IOBUFLEN ->
  disk_block (pwrite d (b * IOBUFLEN) data) c = disk_block d c.
Proof.
  intros Hb Hc Hne Hd Hl. pose proof IOBUFLEN_pos.
  rewrite pwrite_inplace by nia.
  apply list_eq. intros i. rewrite !lookup_disk_block.
  destruct (decide _) as [Hlt|]; [|reflexivity].
  destruct (Z.lt_ge_cases c b) as [Hcb|Hcb].
  - rewrite lookup_app_l by (rewrite length_take; nia).
    apply lookup_take_lt. nia.
  - assert (b + 1 <= c) by lia.
    rewrite lookup_app_r by (rewrite length_take; nia).
    rewrite lookup_app_r by (rewrite length_take; nia).
    rewrite lookup_drop. f_equal. rewrite length_take. nia.
Qed.

(** ** The driver when no transfer fails *)

Lemma ffwrite_run (F : nat) (n : Z) (src : list byte) (w : world) :
  io_faults w = [] -> 0 <= n <= Z.of_nat (length src) ->
  ffwrite F n src 0 w
  = Some (0, set_driver
               (upd (disk w) F
                    (pwrite (disk w F) (ospos w F) (take (Z.to_nat n) src)))
               (upd (ospos w) F (ospos w F + n)) []
               (wlog w ++ [(F, ospos w F, take (Z.to_nat n) src)]) w).
Proof.
  intros Hf Hn. unfold ffwrite. simpl Z.ltb. cbv iota.
  destruct (Z.ltb_spec n 0); [lia|].
  destruct (Z.ltb_spec (Z.of_nat (length src)) n); [lia|].
  simpl orb. cbv iota. rewrite Hf. reflexivity.
Qed.

Lemma ffread_run (F : nat) (n : Z) (w : world) :
  io_faults w = [] -> 0 <= n ->
  ospos w F + n <= Z.of_nat (length (disk w F)) ->
  ffread F n 0 w
  = Some ((0, Some (take (Z.to_nat n) (drop (Z.to_nat (ospos w F)) (disk w F)))),
          set_driver (disk w) (upd (ospos w) F (ospos w F + n)) [] (wlog w) w).
Proof.
  intros Hf Hn Hd. unfold ffread. simpl Z.ltb. cbv iota.
  destruct (Z.ltb_spec n 0); [lia|].
  rewrite Hf. simpl next_fault. cbv iota. simpl orb.
  destruct (Z.ltb_spec (Z.of_nat (length (disk w F))) (ospos w F + n)); [lia|].
  reflexivity.
Qed.

Lemma ffseek_to (F : nat) (pos : Z) (w : world) :
  0 <= pos ->
  ffseek F pos w
  = Some (tt, set_driver (disk w) (upd (ospos w) F pos) (io_faults w) (wlog w) w).
Proof.
  intros Hp. unfold ffseek, modify. destruct (Z.ltb_spec pos 0); [lia|].
  reflexivity.
Qed.

Lemma upd_same {A : Type} (m : nat -> A) (F : nat) (v : A) : upd m F v F = v.
Proof. unfold upd. rewrite Nat.eqb_refl. reflexivity. Qed.

Lemma upd_other {A : Type} (m : nat -> A) (F G : nat) (v : A) :
  G <> F -> upd m F v G = m G.
Proof. intros H. unfold upd. apply Nat.eqb_neq in H. rewrite H. reflexivity. Qed.

(** ** Writing record [b] of a disk of [m0] records, [b <= m0] *)

Section WriteRecord.

Variables (d data : list byte) (b m0 : Z).
Hypothesis Hb : 0 <= b <= m0.
Hypothesis Hd : Z.of_nat (length d) = m0 * IOBUFLEN.
Hypothesis Hl : Z.of_nat (length data) = IOBUFLEN.

Lemma pwrite_record_length :
  Z.of_nat (length (pwrite d (b * IOBUFLEN) data))
  = Z.max (m0 * IOBUFLEN) ((b + 1) * IOBUFLEN).
Proof.
  pose proof IOBUFLEN_pos. destruct (Z.eq_dec b m0) as [->|Hne].
  - rewrite <- Hd, pwrite_append, length_app. lia.
  - rewrite pwrite_inplace_length by nia. nia.
Qed.

Lemma pwrite_record_same :
  disk_block (pwrite d (b * IOBUFLEN) data) b = data.
Proof.
  pose proof IOBUFLEN_pos. destruct (Z.eq_dec b m0) as [->|Hne].
  - rewrite <- Hd, pwrite_append. apply disk_block_app_r; lia.
  - apply disk_block_pwrite_same; [lia | nia | exact Hl].
Qed.

Lemma pwrite_record_other (c : Z) :
  0 <= c -> c <> b -> (c + 1) * IOBUFLEN <= Z.of_nat (length d) ->
  disk_block (pwrite d (b * IOBUFLEN) data) c = disk_block d c.
Proof.
  intros Hc Hcb Hcd. pose proof IOBUFLEN_pos.
  destruct (Z.eq_dec b m0) as [->|Hne].
  - rewrite <- Hd, pwrite_append. apply disk_block_app_l; assumption.
  - apply disk_block_pwrite_other; try assumption; [lia | nia].
Qed.

End WriteRecord.


(** * The writeback protocol *)

(** ** The choice of the lowest record beyond the end of the file *)

Lemma holds_fun (w : world) (i : Z) (F G : nat) (b c : Z) :
  holds w i F b -> holds w i G c -> F = G /\ b = c.
Proof. intros [H1 H2] [H3 H4]. split; congruence. Qed.

Lemma ffbfwt_lowest_spec (w : world) (F : nat) (minrec : Z) (iis : list Z)
    (irec0 ibuff0 : Z) :
  slots_ok w ->
  Forall (fun ii => 0 <= ii < NIOBUF) iis ->
  exists irec ibuff,
    ffbfwt_lowest w F minrec iis irec0 ibuff0 = Some (irec, ibuff)
    /\ (forall ii c, In ii iis -> holds w ii F c -> minrec <= c -> irec <= c)
    /\ ((irec = irec0 /\ ibuff = ibuff0)
        \/ (In ibuff iis /\ holds w ibuff F irec /\ minrec <= irec < irec0)).
Proof.
  intros (_ & Hp & Hr & _) Hin. revert irec0 ibuff0.
  induction Hin as [|ii rest Hii _ IH]; intros irec0 ibuff0.
  - exists irec0, ibuff0. split; [reflexivity|].
    split; [intros ? ? [] | left; split; reflexivity].
  - simpl.
    destruct (rd_in_range (bufptr w) ii) as [owner Ho]; [lia|].
    destruct (rd_in_range (bufrecnum w) ii) as [r Hrr]; [lia|].
    rewrite Ho.
    assert (Hskip : (forall c, holds w ii F c -> minrec <= c -> irec0 <= c) ->
              exists irec ibuff,
                ffbfwt_lowest w F minrec rest irec0 ibuff0 = Some (irec, ibuff)
                /\ (forall jj c, ii = jj \/ In jj rest -> holds w jj F c ->
                                 minrec <= c -> irec <= c)
                /\ ((irec = irec0 /\ ibuff = ibuff0)
                    \/ ((ii = ibuff \/ In ibuff rest) /\ holds w ibuff F irec
                        /\ minrec <= irec < irec0))).
    { intros Hno. destruct (IH irec0 ibuff0) as (irec & ibuff & E & Hmin & Hcase).
      exists irec, ibuff. split; [exact E|]. split.
      - intros jj c [<-|Hj] Hh Hc; [|eapply Hmin; eassumption].
        specialize (Hno c Hh Hc).
        destruct Hcase as [[-> _]|(_ & _ & Hlt)]; lia.
      - destruct Hcase as [?|(? & ? & ?)]; [left | right]; auto. }
    destruct owner as [G|];
      [|apply Hskip; intros c [Hh _]; congruence].
    destruct (Nat.eqb_spec G F) as [->|Hne];
      [|apply Hskip; intros c [Hh _]; congruence].
    rewrite Hrr.
    destruct (Z.leb_spec minrec r) as [Hle|Hgt]; simpl andb;
      [|apply Hskip; intros c [_ Hh] Hc;
        assert (c = r) by congruence; lia].
    destruct (Z.ltb_spec r irec0) as [Hlt|Hge];
      [|apply Hskip; intros c [_ Hh] Hc;
        assert (c = r) by congruence; lia].
    destruct (IH r ii) as (irec & ibuff & E & Hmin & Hcase).
    exists irec, ibuff. split; [exact E|].
    assert (Hh : holds w ii F r) by (split; assumption).
    split.
    + intros jj c [<-|Hj] Hh' Hc; [|eapply Hmin; eassumption].
      destruct (holds_fun _ _ _ _ _ _ Hh Hh') as [_ <-].
      destruct Hcase as [[-> _]|(_ & _ & Hl)]; lia.
    + right. destruct Hcase as [[-> ->]|(Hi & Hh' & Hl)].
      * split; [left; reflexivity|]. split; [exact Hh | lia].
      * split; [right; exact Hi|]. split; [exact Hh' | lia].
Qed.

Lemma all_slots_forall : Forall (fun ii => 0 <= ii < NIOBUF) (seqZ 0 NIOBUF).
Proof. apply Forall_forall. intros i Hi. apply elem_of_seqZ in Hi. lia. Qed.

Lemma holds_range (w : world) (i : Z) (F : nat) (b : Z) :
  slots_ok w -> holds w i F b -> 0 <= i < NIOBUF.
Proof. intros (_ & Hp & _) [H _]. apply rd_range in H. lia. Qed.

(** The choice over the whole pool: the buffer of [F] with the lowest
    record at or above [minrec], the requested buffer [nbuff] if none
    lies below its record [b]. *)
Lemma ffbfwt_lowest_pool (w : world) (F : nat) (minrec b nbuff : Z) :
  slots_ok w -> holds w nbuff F b -> minrec <= b ->
  exists irec ibuff,
    ffbfwt_lowest w F minrec (seqZ 0 NIOBUF) b nbuff = Some (irec, ibuff)
    /\ holds w ibuff F irec /\ minrec <= irec <= b
    /\ (forall j c, holds w j F c -> minrec <= c -> irec <= c)
    /\ (irec = b -> ibuff = nbuff).
Proof.
  intros Hs Hn Hb.
  destruct (ffbfwt_lowest_spec w F minrec (seqZ 0 NIOBUF) b nbuff Hs
              all_slots_forall) as (irec & ibuff & E & Hmin & Hcase).
  exists irec, ibuff. split; [exact E|].
  assert (Hall : forall j c, holds w j F c -> minrec <= c -> irec <= c).
  { intros j c Hh Hc. apply (Hmin j c); [|exact Hh | exact Hc].
    apply list_elem_of_In, elem_of_seqZ.
    pose proof (holds_range w j F c Hs Hh). lia. }
  destruct Hcase as [[-> ->]|(_ & Hh & Hl)].
  - split; [exact Hn|]. split; [lia|]. split; [exact Hall | reflexivity].
  - split; [exact Hh|]. split; [lia|]. split; [exact Hall | lia].
Qed.

(** ** Appending records beyond the end of the file *)

Lemma ffwrite_appends (F : nat) (data : list byte) (w : world) :
  io_faults w = [] -> Z.of_nat (length data) = IOBUFLEN ->
  ospos w F = Z.of_nat (length (disk w F)) ->
  ffwrite F IOBUFLEN data 0 w = Some (0, written F data w).
Proof.
  intros Hf Hl Hp. rewrite ffwrite_run by (assumption || lia).
  unfold written. rewrite take_ge by lia. rewrite Hp, pwrite_append.
  reflexivity.
Qed.

Lemma same_pool_refl (w : world) : same_pool w w.
Proof. unfold same_pool. auto. Qed.

Lemma same_pool_trans (w1 w2 w3 : world) :
  same_pool w1 w2 -> same_pool w2 w3 -> same_pool w1 w3.
Proof.
  unfold same_pool. intros (A1 & A2 & A3 & A4 & A5) (B1 & B2 & B3 & B4 & B5).
  repeat split; congruence.
Qed.

Lemma written_appended (F : nat) (data : list byte) (w : world) :
  appended F data w (written F data w).
Proof.
  split; try reflexivity.
  - unfold same_pool. simpl. auto.
  - simpl. apply upd_same.
  - intros G HG. simpl. rewrite !upd_other by exact HG. auto.
  - simpl. apply upd_same.
Qed.

Lemma written_dirty_appended (F : nat) (data : list byte) (i : nat) (w : world) :
  appended F data w
    (set_dirty (<[i := false]> (dirty (written F data w))) (written F data w)).
Proof.
  split; try reflexivity.
  - unfold same_pool. simpl. auto.
  - simpl. apply length_insert.
  - simpl. apply upd_same.
  - intros G HG. simpl. rewrite !upd_other by exact HG. auto.
  - simpl. apply upd_same.
Qed.

Lemma holds_same_pool (w w' : world) (i : Z) (F : nat) (b : Z) :
  same_pool w w' -> (holds w' i F b <-> holds w i F b).
Proof. intros (_ & E1 & E2 & _). unfold holds. rewrite E1, E2. reflexivity. Qed.

Lemma ext_entries_snoc (F : nat) (d data : list byte) (m0 m : Z) :
  0 <= m0 <= m -> Z.of_nat (length d) = m * IOBUFLEN ->
  Z.of_nat (length data) = IOBUFLEN ->
  ext_entries F (d ++ data) m0 (m + 1)
  = ext_entries F d m0 m ++ [(F, m * IOBUFLEN, data)].
Proof.
  intros Hm Hd Hl. unfold ext_entries.
  replace (m + 1 - m0) with ((m - m0) + 1) by lia.
  rewrite seqZ_app by lia. rewrite map_app. f_equal.
  - apply map_ext_in. intros c Hc.
    apply list_elem_of_In, elem_of_seqZ in Hc.
    rewrite disk_block_app_l; [reflexivity | lia|].
    pose proof IOBUFLEN_pos. nia.
  - replace (m0 + (m - m0)) with m by lia.
    rewrite seqZ_cons by lia. rewrite seqZ_nil by lia. simpl.
    rewrite disk_block_app_r by (assumption || lia). reflexivity.
Qed.

(** One more record on the disk: the image of the buffer that holds
    record [m], or zeros when no buffer holds it. *)
Lemma extending_grow (w : world) (F : nat) (m0 m sz : Z) (w1 w2 : world)
    (data : list byte) :
  extending w F m0 m sz w1 -> 0 <= m0 <= m ->
  Z.of_nat (length data) = IOBUFLEN ->
  appended F data w1 w2 ->
  (forall i, holds w i F m ->
             rd (iobuffer w) i = Some data /\ rd (dirty w2) i = Some false) ->
  ((forall i, ~ holds w i F m) -> data = zeros) ->
  (forall i, rd (dirty w2) i = rd (dirty w1) i
             \/ (holds w i F m /\ rd (dirty w2) i = Some false)) ->
  extending w F m0 (m + 1) sz w2.
Proof.
  intros HE Hm Hl HA Hslot Hzero Hdirty.
  destruct HE as [E1 E2 E3 E4 E5 E6 E7 E8 E9 E10 E11 E12 E13].
  destruct HA as [A1 A2 A3 A4 A5 A6 A7 A8].
  pose proof IOBUFLEN_pos as HL.
  assert (Hold : forall c, m0 <= c < m ->
            disk_block (disk w2 F) c = disk_block (disk w1 F) c).
  { intros c Hc. rewrite A4. apply disk_block_app_l; [lia | nia]. }
  assert (Hnew : disk_block (disk w2 F) m = data).
  { rewrite A4. apply disk_block_app_r; (assumption || lia). }
  split.
  - eapply same_pool_trans; eassumption.
  - congruence.
  - intros G HG. rewrite A3. apply E3. exact HG.
  - rewrite A3. exact E4.
  - intros G HG. destruct (A5 G HG) as [-> ->]. apply E5. exact HG.
  - rewrite A4. rewrite take_app_le by nia. exact E6.
  - rewrite A4, length_app. lia.
  - rewrite A6, E8. lia.
  - intros c i Hc Hh. destruct (Z.eq_dec c m) as [->|Hne].
    + rewrite Hnew. apply Hslot. exact Hh.
    + rewrite Hold by lia. destruct (E9 c i) as [H1 H2]; [lia | exact Hh|].
      split; [exact H1|].
      destruct (Hdirty i) as [->|[_ ->]]; [exact H2 | reflexivity].
  - intros c Hc Hno. destruct (Z.eq_dec c m) as [->|Hne].
    + rewrite Hnew. apply Hzero. exact Hno.
    + rewrite Hold by lia. apply E10; [lia | exact Hno].
  - intros i Hno. destruct (Hdirty i) as [->|[Hh _]].
    + apply E11. intros c Hc. apply Hno. lia.
    + destruct (Hno m); [lia | exact Hh].
  - exact A7.
  - rewrite A8, E13, A4, E8. rewrite <- app_assoc. f_equal.
    symmetry. apply ext_entries_snoc; assumption.
Qed.

Lemma extending_filesize (w : world) (F : nat) (m0 m sz sz' : Z) (w1 : world) :
  extending w F m0 m sz w1 ->
  extending w F m0 m sz' (upd_file F (with_filesize sz') w1).
Proof.
  intros [E1 E2 E3 E4 E5 E6 E7 E8 E9 E10 E11 E12 E13].
  split; try assumption.
  - intros G HG. simpl. rewrite upd_other by exact HG. apply E3. exact HG.
  - simpl. rewrite upd_same, E4. reflexivity.
Qed.

Lemma ffbfwt_lowest_same (w w' : world) (F : nat) (minrec : Z) (iis : list Z)
    (irec ibuff : Z) :
  bufptr w' = bufptr w -> bufrecnum w' = bufrecnum w ->
  ffbfwt_lowest w' F minrec iis irec ibuff
  = ffbfwt_lowest w F minrec iis irec ibuff.
Proof.
  intros E1 E2. revert irec ibuff.
  induction iis as [|ii rest IH]; intros irec ibuff; [reflexivity|].
  simpl. rewrite E1, E2.
  destruct (rd (bufptr w) ii) as [[G|]|]; try reflexivity; [|apply IH].
  destruct (Nat.eqb G F); [|apply IH].
  destruct (rd (bufrecnum w) ii); [|reflexivity].
  destruct (_ && _)%bool; apply IH.
Qed.

Lemma ffbfwt_fill_extending (w : world) (F : nat) (m0 sz : Z) (n : nat) :
  forall k m w1,
    extending w F m0 m sz w1 -> 0 <= m0 <= m ->
    (forall c i, m <= c < m + Z.of_nat n -> ~ holds w i F c) ->
    wp (for_status (seqZ k (Z.of_nat n))
                   (fun _ st => ffwrite F IOBUFLEN zeros st) 0)
       (fun st w2 => st = 0 /\ extending w F m0 (m + Z.of_nat n) sz w2) w1.
Proof.
  induction n as [|n IH]; intros k m w1 HE Hm Hno.
  - simpl. split; [reflexivity|]. replace (m + Z.of_nat 0) with m by lia. exact HE.
  - rewrite seqZ_cons by lia. simpl for_status.
    eapply wp_bind_run.
    + apply ffwrite_appends; [apply (ex_faults _ _ _ _ _ _ HE) | apply zeros_length|].
      rewrite (ex_pos _ _ _ _ _ _ HE), (ex_len _ _ _ _ _ _ HE). reflexivity.
    + replace (Z.pred (Z.of_nat (S n))) with (Z.of_nat n) by lia.
      eapply wp_mono.
      * apply (IH (Z.succ k) (m + 1)); [|lia|].
        -- eapply extending_grow; [exact HE | exact Hm | apply zeros_length
                                   | apply written_appended | | |].
           ++ intros i Hh. destruct (Hno m i); [lia | exact Hh].
           ++ reflexivity.
           ++ intros i. left. reflexivity.
        -- intros c i Hc. apply Hno. lia.
      * cbv beta. intros st w2 [-> H2]. split; [reflexivity|].
        replace (m + Z.of_nat (S n)) with (m + 1 + Z.of_nat n) by lia. exact H2.
Qed.

(** One turn of the loop. *)
Lemma ffbfwt_append_extending (w : world) (F : nat) (m0 m : Z) (w1 : world)
    (nbuff b : Z) :
  Inv w -> holds w nbuff F b ->
  extending w F m0 m (m * IOBUFLEN) w1 -> 0 <= m0 <= m -> m <= b ->
  wp (ffbfwt_append F nbuff 0)
     (fun r w2 =>
        snd r = 0 /\
        exists irec,
          m <= irec <= b /\ holds w (fst r) F irec
          /\ (forall j c, holds w j F c -> m <= c -> irec <= c)
          /\ (irec = b <-> fst r = nbuff)
          /\ extending w F m0 (irec + 1) ((irec + 1) * IOBUFLEN) w2) w1.
Proof.
  intros HI Hn HE Hm Hb. pose proof IOBUFLEN_pos as HL.
  pose proof (ex_pool _ _ _ _ _ _ HE) as (Eio & Ebp & Ebr & _).
  unfold ffbfwt_append.
  apply wp_bind, wp_file_of.
  rewrite (ex_file _ _ _ _ _ _ HE). simpl filesize.
  rewrite quot_block by lia.
  eapply wp_bind, wp_rdM; [rewrite Ebr; exact (proj2 Hn)|].
  destruct (ffbfwt_lowest_pool w F m b nbuff (inv_slots _ _ HI) Hn Hb)
    as (irec & ibuff & Elow & Hh & Hrange & Hmin & Hnb).
  eapply wp_bind, wp_reads;
    [rewrite (ffbfwt_lowest_same w w1) by assumption; exact Elow|].
  simpl fst. simpl snd.
  (* the fill records *)
  apply (wp_bind_wp _ _
           (fun st w2 => st = 0 /\
                         extending w F m0 irec (irec * IOBUFLEN) w2)).
  { destruct (Z.ltb_spec (m * IOBUFLEN) (irec * IOBUFLEN)) as [Hlt|Hge].
    - assert (Hmi : m < irec) by nia.
      replace (Z.quot (irec * IOBUFLEN - m * IOBUFLEN) IOBUFLEN)
        with (Z.of_nat (Z.to_nat (irec - m))).
      2:{ replace (irec * IOBUFLEN - m * IOBUFLEN) with ((irec - m) * IOBUFLEN)
            by ring.
          rewrite quot_block by lia. lia. }
      unfold ffbfwt_fill.
      eapply wp_bind_wp.
      + apply (ffbfwt_fill_extending w F m0 (m * IOBUFLEN) (Z.to_nat (irec - m))
                 0 m w1 HE Hm).
        intros c i Hc Hhc. specialize (Hmin i c Hhc). lia.
      + cbv beta. intros st w2 [-> H2]. wp_steps. split; [reflexivity|].
        replace (m + Z.of_nat (Z.to_nat (irec - m))) with irec in H2 by lia.
        eapply extending_filesize. exact H2.
    - assert (irec = m) by nia. subst irec. wp_steps. auto. }
  cbv beta. intros st w2 [-> H2].
  pose proof (ex_pool _ _ _ _ _ _ H2) as (Eio2 & Ebp2 & Ebr2 & _).
  (* the buffer itself *)
  pose proof (holds_range w ibuff F irec (inv_slots _ _ HI) Hh) as Hir.
  destruct (inv_slots _ _ HI) as (Hl1 & Hl2 & Hl3 & Hl4 & Hl5).
  destruct (rd_in_range (iobuffer w) ibuff) as [buf Hbuf]; [lia|].
  pose proof (inv_bufs _ _ HI ibuff buf Hbuf) as Hblen.
  eapply wp_bind, wp_rdM; [rewrite Eio2; exact Hbuf|].
  eapply wp_bind_run.
  { apply ffwrite_appends; [apply (ex_faults _ _ _ _ _ _ H2) | exact Hblen|].
    rewrite (ex_pos _ _ _ _ _ _ H2), (ex_len _ _ _ _ _ _ H2). reflexivity. }
  eapply wp_bind, wp_put_dirty.
  { simpl. rewrite (ex_dirty_len _ _ _ _ _ _ H2). lia. }
  wp_steps. simpl fst. simpl snd. split; [reflexivity|].
  exists irec. split; [lia|]. split; [exact Hh|]. split; [exact Hmin|].
  split.
  { split; [exact Hnb|]. intros ->.
    destruct (holds_fun _ _ _ _ _ _ Hh Hn) as [_ E]. exact E. }
  simpl files.
  rewrite (ex_file _ _ _ _ _ _ H2). simpl filesize.
  replace (irec * IOBUFLEN + IOBUFLEN) with ((irec + 1) * IOBUFLEN) by ring.
  eapply extending_filesize.
  eapply extending_grow; [exact H2 | lia | exact Hblen
                          | apply written_dirty_appended | | |].
  - intros i Hi.
    assert (i = ibuff) by (eapply (inv_unique _ _ HI); eassumption). subst i.
    split; [exact Hbuf|]. simpl. apply rd_insert_eq.
    rewrite (ex_dirty_len _ _ _ _ _ _ H2). lia.
  - intros Hno. destruct (Hno ibuff Hh).
  - intros i. simpl. destruct (Z.eq_dec ibuff i) as [<-|Hne].
    + right. split; [exact Hh|]. apply rd_insert_eq.
      rewrite (ex_dirty_len _ _ _ _ _ _ H2). lia.
    + left. apply rd_insert_ne; lia.
Qed.

(** The loop: from [m] records to the requested record [b]. *)
Lemma ffbfwt_extend_extending (w : world) (F : nat) (m0 : Z) (nbuff b : Z)
    (fuel : nat) :
  Inv w -> holds w nbuff F b -> 0 <= m0 ->
  forall m w1 ibuff,
    extending w F m0 m (m * IOBUFLEN) w1 -> m0 <= m <= b ->
    ibuff <> nbuff -> (Z.to_nat (b - m) < fuel)%nat ->
    wp (ffbfwt_extend fuel F nbuff ibuff 0)
       (fun st w2 => st = 0 /\
                     extending w F m0 (b + 1) ((b + 1) * IOBUFLEN) w2) w1.
Proof.
  intros HI Hn Hm0.
  induction fuel as [|fuel IH]; intros m w1 ibuff HE Hm Hne Hfuel; [lia|].
  simpl. destruct (Z.eqb_spec ibuff nbuff) as [|_]; [contradiction|].
  eapply wp_bind_wp.
  - apply (ffbfwt_append_extending w F m0 m w1 nbuff b HI Hn HE); lia.
  - cbv beta. intros [ibuff' st'] w2 (Hst & irec & Hr & Hh & _ & Hiff & HE2).
    simpl in *. subst st'.
    destruct (Z.eq_dec irec b) as [->|Hnb].
    + assert (ibuff' = nbuff) by (apply Hiff; reflexivity). subst ibuff'.
      destruct fuel; simpl; rewrite Z.eqb_refl; split; auto.
    + apply (IH (irec + 1)); [exact HE2 | lia | | lia].
      intros ->. apply Hnb, Hiff. reflexivity.
Qed.

(** ** The contract of ffbfwt *)

Lemma with_filesize_id (f : FITSfile) : with_filesize (filesize f) f = f.
Proof. destruct f; reflexivity. Qed.

Lemma file_size_block (w : world) (F : nat) :
  file_ok w F ->
  exists m0, 0 <= m0 /\ filesize (files w F) = m0 * IOBUFLEN
             /\ Z.quot (filesize (files w F)) IOBUFLEN = m0.
Proof.
  intros [(m0 & Hm & E) _ _ _]. exists m0. rewrite E, quot_block by exact Hm.
  auto.
Qed.

(** The world at the loop entry. *)
Lemma extending_start (w : world) (F : nat) (m0 : Z) (w1 : world) :
  Inv w -> filesize (files w F) = m0 * IOBUFLEN ->
  same_pool w w1 -> dirty w1 = dirty w -> files w1 = files w ->
  disk w1 = disk w -> (forall G, G <> F -> ospos w1 G = ospos w G) ->
  ospos w1 F = m0 * IOBUFLEN -> io_faults w1 = io_faults w ->
  wlog w1 = wlog w ->
  extending w F m0 m0 (m0 * IOBUFLEN) w1.
Proof.
  intros HI Hsz Hp Hd Hf Hdk Hos Hpos Hfl Hlg.
  pose proof (fo_disk _ _ (inv_files _ _ HI F)) as Hlen.
  split; try assumption.
  - rewrite Hd. reflexivity.
  - intros G _. rewrite Hf. reflexivity.
  - rewrite Hf, <- Hsz. symmetry. apply with_filesize_id.
  - intros G HG. rewrite Hdk. split; [reflexivity | apply Hos; exact HG].
  - rewrite Hdk. apply take_ge. lia.
  - rewrite Hdk. lia.
  - intros c i Hc. lia.
  - intros c Hc. lia.
  - intros i _. rewrite Hd. reflexivity.
  - rewrite Hfl. apply (inv_faults _ _ HI).
  - rewrite Hlg. unfold ext_entries. rewrite Z.sub_diag. simpl.
    rewrite app_nil_r. reflexivity.
Qed.

Lemma file_ok_same (w w' : world) (G : nat) :
  files w' G = files w G -> disk w' G = disk w G -> ospos w' G = ospos w G ->
  file_ok w G -> file_ok w' G.
Proof.
  intros E1 E2 E3 [H1 H2 H3 H4]. split; rewrite ?E1, ?E2, ?E3; assumption.
Qed.

Lemma extending_done (w : world) (F : nat) (m0 b nbuff : Z) (w2 : world) :
  Inv w -> holds w nbuff F b -> 0 <= m0 ->
  filesize (files w F) = m0 * IOBUFLEN -> m0 < b ->
  extending w F m0 (b + 1) ((b + 1) * IOBUFLEN) w2 ->
  written_back w nbuff F b
               (upd_file F (with_io_pos ((b + 1) * IOBUFLEN)) w2).
Proof.
  intros HI Hn Hm0 Hsz Hb HE. pose proof IOBUFLEN_pos as HL.
  destruct HE as [E1 E2 E3 E4 E5 E6 E7 E8 E9 E10 E11 E12 E13].
  pose proof E1 as (Eio & Ebp & Ebr & Eag & Ein).
  set (w' := upd_file F (with_io_pos ((b + 1) * IOBUFLEN)) w2).
  assert (Hh : forall i G c, holds w' i G c <-> holds w i G c).
  { intros. unfold holds. simpl. rewrite Ebp, Ebr. reflexivity. }
  assert (HfF : files w' F
                = with_io_pos ((b + 1) * IOBUFLEN)
                    (with_filesize ((b + 1) * IOBUFLEN) (files w F))).
  { simpl. rewrite upd_same, E4. reflexivity. }
  assert (HfG : forall G, G <> F -> files w' G = files w G).
  { intros G HG. simpl. rewrite upd_other by exact HG. apply E3. exact HG. }
  assert (Hfs : forall G, filesize (files w G) <= filesize (files w' G)).
  { intros G. destruct (Nat.eq_dec G F) as [->|HG].
    - rewrite HfF. simpl. nia.
    - rewrite HfG by exact HG. lia. }
  assert (Hlog : forall G, logfilesize (files w' G) = logfilesize (files w G)).
  { intros G. destruct (Nat.eq_dec G F) as [->|HG].
    - rewrite HfF. reflexivity.
    - rewrite HfG by exact HG. reflexivity. }
  assert (Hblk : forall G c, 0 <= c ->
            (c + 1) * IOBUFLEN <= filesize (files w G) ->
            disk_block (disk w' G) c = disk_block (disk w G) c).
  { intros G c Hc Hle. simpl. destruct (Nat.eq_dec G F) as [->|HG].
    - rewrite <- E6. symmetry. apply disk_block_take; [exact Hc | lia].
    - destruct (E5 G HG) as [-> _]. reflexivity. }
  assert (Hcase : forall i G c, holds w i G c ->
            (G = F /\ m0 <= c < b + 1)
            \/ (forall c', m0 <= c' < b + 1 -> ~ holds w i F c')).
  { intros i G c Hi. destruct (Nat.eq_dec G F) as [->|HG].
    - destruct (Z.le_gt_cases m0 c) as [H1|H1];
        [destruct (Z.lt_ge_cases c (b + 1)) as [H2|H2]|].
      + left. split; [reflexivity | lia].
      + right. intros c' Hc' Hi'.
        destruct (holds_fun _ _ _ _ _ _ Hi Hi'). lia.
      + right. intros c' Hc' Hi'.
        destruct (holds_fun _ _ _ _ _ _ Hi Hi'). lia.
    - right. intros c' Hc' Hi'.
      destruct (holds_fun _ _ _ _ _ _ Hi Hi'). contradiction. }
  assert (Hviews : views_kept w w').
  { intros G c x [(i & Hi & Hx)|(Hno & Hc & Hle & ->)].
    - left. exists i. split; [apply Hh; exact Hi|]. simpl. rewrite Eio. exact Hx.
    - right. split; [intros i Hi; apply (Hno i), Hh, Hi|].
      split; [exact Hc|]. split; [specialize (Hfs G); lia|].
      symmetry. apply Hblk; assumption. }
  split.
  - (* the invariant *)
    split.
    + destruct (inv_slots _ _ HI) as (H1 & H2 & H3 & H4 & H5).
      unfold slots_ok. simpl. rewrite Eio, Ebp, Ebr, Eag, E2. auto.
    + intros i buf. simpl. rewrite Eio. apply (inv_bufs _ _ HI).
    + simpl. rewrite Ein. apply (inv_init _ _ HI).
    + simpl. rewrite Eag. apply (inv_ages _ _ HI).
    + intros i j G c Hi Hj. apply Hh in Hi, Hj.
      eapply (inv_unique _ _ HI); eassumption.
    + intros i G c Hi. apply Hh in Hi. rewrite Hlog.
      eapply (inv_owned _ _ HI); eassumption.
    + intros i G c _ Hi Hd. apply Hh in Hi. simpl in Hd.
      destruct (Hcase i G c Hi) as [[-> Hc]|Hno].
      * destruct (E9 c i Hc Hi) as [Hb1 _].
        split; [rewrite HfF; simpl; nia|].
        simpl. rewrite Eio. exact Hb1.
      * rewrite (E11 i Hno) in Hd.
        destruct (inv_clean _ _ HI i G c (fun x => x) Hi Hd) as [Hle Hbuf].
        split; [specialize (Hfs G); lia|].
        destruct (inv_owned _ _ HI i G c Hi) as [Hc _].
        rewrite Hblk by assumption. simpl. rewrite Eio. exact Hbuf.
    + intros i Hd. simpl in Hd. simpl. rewrite Ebp.
      destruct (rd (bufptr w) i) as [[G|]|] eqn:Eo.
      * eexists; reflexivity.
      * rewrite E11 in Hd; [apply (inv_dirty _ _ HI) in Hd as [G HG]; congruence|].
        intros c _ [Hp _]. congruence.
      * rewrite E11 in Hd; [apply (inv_dirty _ _ HI) in Hd as [G HG]; congruence|].
        intros c _ [Hp _]. congruence.
    + intros G. destruct (Nat.eq_dec G F) as [->|HG].
      * split.
        -- exists (b + 1). split; [lia|]. rewrite HfF. reflexivity.
        -- rewrite HfF. simpl. exact E7.
        -- rewrite HfF. simpl. exact E8.
        -- rewrite HfF. simpl.
           destruct (inv_owned _ _ HI nbuff F b Hn) as [_ Hl]. exact Hl.
      * apply (file_ok_same w); [apply HfG; exact HG | | |apply (inv_files _ _ HI)].
        -- simpl. apply E5. exact HG.
        -- simpl. apply E5. exact HG.
    + exact E12.
  - unfold same_pool. simpl. auto.
  - simpl. destruct (E9 b nbuff) as [_ H]; [lia | exact Hn | exact H].
  - intros i. simpl.
    destruct (rd (bufptr w) i) as [[G|]|] eqn:Eo.
    + destruct (rd_in_range (bufrecnum w) i) as [c Hc].
      { apply rd_range in Eo. destruct (inv_slots _ _ HI) as (_ & H2 & H3 & _). lia. }
      assert (Hi : holds w i G c) by (split; assumption).
      destruct (Hcase i G c Hi) as [[-> Hr]|Hno].
      * right. split; [apply (E9 c i Hr Hi) | exists c; exact Hi].
      * left. apply E11. exact Hno.
    + left. apply E11. intros c _ [Hp _]. congruence.
    + left. apply E11. intros c _ [Hp _]. congruence.
  - intros G HG. split; [apply HfG; exact HG | simpl; apply E5; exact HG].
  - rewrite HfF. unfold same_meta. simpl. auto 10.
  - rewrite HfF, Hsz. simpl. nia.
  - exact Hviews.
  - intros c Hc1 Hc2 Hno. simpl. apply E10; [|exact Hno].
    rewrite HfF in Hc2. simpl in Hc2. nia.
  - intros c i Hc1 Hc2 Hi. simpl. apply E9; [nia | exact Hi].
  - simpl. rewrite E13, Hsz, quot_block by exact Hm0.
    rewrite Z.min_l by lia. reflexivity.
Qed.

Lemma upd_file_same_pool (F : nat) (g : FITSfile -> FITSfile) (w : world) :
  same_pool w (upd_file F g w).
Proof. unfold same_pool. auto. Qed.

Lemma upd_file_at (F : nat) (g : FITSfile -> FITSfile) (w : world) :
  files (upd_file F g w) F = g (files w F).
Proof. simpl. apply upd_same. Qed.

Lemma upd_file_other (F G : nat) (g : FITSfile -> FITSfile) (w : world) :
  G <> F -> files (upd_file F g w) G = files w G.
Proof. intros H. simpl. apply upd_other. exact H. Qed.

Lemma seek_if_needed (w : world) (F : nat) (pos : Z) :
  file_ok w F -> 0 <= pos ->
  exists w1,
    (if Z.eqb (io_pos (files w F)) pos then ret tt else ffseek F pos) w
    = Some (tt, w1)
    /\ moved F pos w w1.
Proof.
  intros Hok Hpos. destruct (Z.eqb_spec (io_pos (files w F)) pos) as [E|E].
  - exists w. split; [reflexivity|]. split; try reflexivity.
    + apply same_pool_refl.
    + rewrite (fo_pos _ _ Hok). exact E.
  - eexists. split; [apply ffseek_to; exact Hpos|].
    split; try reflexivity.
    + unfold same_pool. simpl. auto.
    + intros G HG. simpl. apply upd_other. exact HG.
    + simpl. apply upd_same.
Qed.

Lemma record_written_back (w : world) (nbuff : Z) (F : nat) (b : Z)
    (buf : list byte) (w' : world) :
  Inv w -> holds w nbuff F b ->
  b * IOBUFLEN <= filesize (files w F) ->
  rd (iobuffer w) nbuff = Some buf ->
  record_written w nbuff F b buf w' ->
  written_back w nbuff F b w'.
Proof.
  intros HI Hn Hle Hbuf [R1 R2 R3 R4 R5 R6 R7 R8 R9 R10].
  pose proof IOBUFLEN_pos as HL.
  pose proof R1 as (Eio & Ebp & Ebr & Eag & Ein).
  destruct (file_size_block w F (inv_files _ _ HI F)) as (m0 & Hm0 & Hsz & Hq).
  pose proof (fo_disk _ _ (inv_files _ _ HI F)) as Hdl. rewrite Hsz in Hdl.
  destruct (inv_owned _ _ HI nbuff F b Hn) as [Hb0 Hblog].
  pose proof (inv_bufs _ _ HI nbuff buf Hbuf) as Hbl.
  assert (Hbm : 0 <= b <= m0) by nia.
  assert (Hh : forall i G c, holds w' i G c <-> holds w i G c).
  { intros. unfold holds. rewrite Ebp, Ebr. reflexivity. }
  assert (Hfs : forall G, filesize (files w G) <= filesize (files w' G)).
  { intros G. destruct (Nat.eq_dec G F) as [->|HG].
    - rewrite R5. simpl. lia.
    - rewrite R4 by exact HG. lia. }
  assert (Hlog : forall G, logfilesize (files w' G) = logfilesize (files w G)).
  { intros G. destruct (Nat.eq_dec G F) as [->|HG].
    - rewrite R5. reflexivity.
    - rewrite R4 by exact HG. reflexivity. }
  assert (Hblk : forall G c, 0 <= c ->
            (c + 1) * IOBUFLEN <= filesize (files w G) ->
            (G = F -> c <> b) ->
            disk_block (disk w' G) c = disk_block (disk w G) c).
  { intros G c Hc Hcle Hcb. destruct (Nat.eq_dec G F) as [->|HG].
    - rewrite R7. apply (pwrite_record_other _ _ b m0); try assumption.
      + apply Hcb. reflexivity.
      + lia.
    - destruct (R6 G HG) as [-> _]. reflexivity. }
  assert (Hviews : views_kept w w').
  { intros G c x [(i & Hi & Hx)|(Hno & Hc & Hcle & ->)].
    - left. exists i. split; [apply Hh; exact Hi|]. rewrite Eio. exact Hx.
    - right. split; [intros i Hi; apply (Hno i), Hh, Hi|].
      split; [exact Hc|]. split; [specialize (Hfs G); lia|].
      symmetry. apply Hblk; try assumption.
      intros -> ->. apply (Hno nbuff Hn). }
  split.
  - split.
    + destruct (inv_slots _ _ HI) as (H1 & H2 & H3 & H4 & H5).
      unfold slots_ok. rewrite Eio, Ebp, Ebr, Eag, R2. auto.
    + intros i x. rewrite Eio. apply (inv_bufs _ _ HI).
    + rewrite Ein. apply (inv_init _ _ HI).
    + rewrite Eag. apply (inv_ages _ _ HI).
    + intros i j G c Hi Hj. apply Hh in Hi, Hj.
      eapply (inv_unique _ _ HI); eassumption.
    + intros i G c Hi. apply Hh in Hi. rewrite Hlog.
      eapply (inv_owned _ _ HI); eassumption.
    + intros i G c _ Hi Hd. apply Hh in Hi. rewrite R3 in Hd. rewrite Eio.
      destruct (Z.eqb_spec nbuff i) as [<-|Hne].
      * destruct (holds_fun _ _ _ _ _ _ Hi Hn) as [-> ->].
        split; [rewrite R5; simpl; lia|].
        rewrite R7, Hbuf. f_equal. symmetry.
        apply (pwrite_record_same _ _ b m0); assumption.
      * destruct (inv_clean _ _ HI i G c (fun x => x) Hi Hd) as [Hcle Hx].
        split; [specialize (Hfs G); lia|].
        destruct (inv_owned _ _ HI i G c Hi) as [Hc _].
        rewrite Hblk; [exact Hx | exact Hc | exact Hcle|].
        intros -> ->. apply Hne. eapply (inv_unique _ _ HI); eassumption.
    + intros i Hd. rewrite R3 in Hd. rewrite Ebp.
      destruct (Z.eqb nbuff i); [discriminate|].
      apply (inv_dirty _ _ HI). exact Hd.
    + intros G. destruct (Nat.eq_dec G F) as [->|HG].
      * split.
        -- rewrite R5. simpl. rewrite Hsz.
           destruct (Z.max_spec (m0 * IOBUFLEN) ((b + 1) * IOBUFLEN))
             as [[_ ->]|[_ ->]]; [exists (b + 1) | exists m0]; split; auto; lia.
        -- rewrite R5, R7. simpl. rewrite Hsz.
           apply (pwrite_record_length _ _ b m0); assumption.
        -- rewrite R5. simpl. exact R8.
        -- rewrite R5. simpl.
           pose proof (fo_log _ _ (inv_files _ _ HI F)). lia.
      * apply (file_ok_same w); [apply R4; exact HG | | |apply (inv_files _ _ HI)];
          apply R6; exact HG.
    + exact R9.
  - exact R1.
  - rewrite R3, Z.eqb_refl. reflexivity.
  - intros i. rewrite R3. destruct (Z.eqb_spec nbuff i) as [<-|_].
    + right. split; [reflexivity | exists b; exact Hn].
    + left. reflexivity.
  - intros G HG. split; [apply R4; exact HG | apply R6; exact HG].
  - rewrite R5. unfold same_meta. simpl. auto 10.
  - rewrite R5. reflexivity.
  - exact Hviews.
  - intros c Hc1 Hc2 Hno. exfalso. rewrite R5 in Hc2. simpl in Hc2.
    assert (c = b) by nia. subst c. apply (Hno nbuff Hn).
  - intros c i Hc1 Hc2 Hi. assert (c = b) by nia. subst c.
    assert (i = nbuff) by (eapply (inv_unique _ _ HI); eassumption). subst i.
    split; [|rewrite R3, Z.eqb_refl; reflexivity].
    rewrite R7, Hbuf. f_equal. symmetry.
    apply (pwrite_record_same _ _ b m0); assumption.
  - rewrite R10, Hq, Z.min_r by lia. unfold ext_entries.
    replace (b + 1 - b) with 1 by lia.
    rewrite seqZ_cons by lia. rewrite seqZ_nil by lia. simpl.
    rewrite R7. rewrite (pwrite_record_same _ _ b m0) by assumption.
    reflexivity.
Qed.

(** [ffbfwt] on a well-formed pool: the run is defined, succeeds, and
    leaves a world that meets the contract. *)
Lemma ffbfwt_spec (w : world) (nbuff : Z) (F : nat) (b : Z) :
  Inv w -> holds w nbuff F b ->
  wp (ffbfwt nbuff 0) (fun st w' => st = 0 /\ written_back w nbuff F b w') w.
Proof.
  intros HI Hn. pose proof IOBUFLEN_pos as HL.
  destruct (file_size_block w F (inv_files _ _ HI F)) as (m0 & Hm0 & Hsz & Hq).
  destruct (inv_owned _ _ HI nbuff F b Hn) as [Hb0 _].
  pose proof (holds_range w nbuff F b (inv_slots _ _ HI) Hn) as Hnr.
  destruct (inv_slots _ _ HI) as (Hl1 & Hl2 & Hl3 & Hl4 & Hl5).
  unfold ffbfwt.
  eapply wp_bind, wp_rdM; [exact (proj1 Hn)|].
  eapply wp_bind, wp_rdM; [exact (proj2 Hn)|].
  apply wp_bind, wp_file_of.
  destruct (Z.leb_spec (b * IOBUFLEN) (filesize (files w F))) as [Hle|Hgt].
  - (* inside the file, or right at its end *)
    destruct (seek_if_needed w F (b * IOBUFLEN) (inv_files _ _ HI F))
      as (w1 & Hseek & [M1 M2 M3 M4 M5 M6 M7 M8]); [nia|].
    pose proof M1 as (Eio & Ebp & Ebr & Eag & Ein).
    eapply wp_bind_run; [exact Hseek|].
    destruct (rd_in_range (iobuffer w) nbuff) as [buf Hbuf]; [lia|].
    pose proof (inv_bufs _ _ HI nbuff buf Hbuf) as Hbl.
    eapply wp_bind, wp_rdM; [rewrite Eio; exact Hbuf|].
    eapply wp_bind_run.
    { apply ffwrite_run; [rewrite M7; apply (inv_faults _ _ HI) | lia]. }
    rewrite take_ge by lia.
    apply wp_bind, wp_modify. apply wp_bind, wp_file_of.
    set (sz' := Z.max (filesize (files w F)) ((b + 1) * IOBUFLEN)).
    match goal with
    | |- wp (bind _ _) _ ?wx0 => set (wx := wx0)
    end.
    assert (Efs : files wx F
                  = with_io_pos (b * IOBUFLEN + IOBUFLEN) (files w F)).
    { unfold wx. simpl. rewrite upd_same, M3. reflexivity. }
    assert (Hsize : exists w2,
              (if Z.eqb (b * IOBUFLEN) (filesize (files wx F))
               then modify (upd_file F (with_filesize
                                          (filesize (files wx F) + IOBUFLEN)))
               else ret tt) wx = Some (tt, w2) /\
              same_pool wx w2 /\ dirty w2 = dirty wx /\
              (forall G, G <> F -> files w2 G = files wx G) /\
              files w2 F = with_filesize sz' (files wx F) /\
              disk w2 = disk wx /\ ospos w2 = ospos wx /\
              io_faults w2 = io_faults wx /\ wlog w2 = wlog wx).
    { rewrite Efs. cbn [filesize with_io_pos].
      destruct (Z.eqb_spec (b * IOBUFLEN) (filesize (files w F))) as [E|E].
      - eexists. split; [reflexivity|].
        split; [apply upd_file_same_pool|].
        split; [reflexivity|]. split.
        + intros G HG. apply upd_file_other. exact HG.
        + rewrite upd_file_at. unfold sz'.
          replace (Z.max (filesize (files w F)) ((b + 1) * IOBUFLEN))
            with (filesize (files w F) + IOBUFLEN) by nia.
          rewrite ?Efs. repeat split; reflexivity.
      - eexists. split; [reflexivity|].
        split; [apply same_pool_refl|].
        split; [reflexivity|]. split; [reflexivity|].
        rewrite ?Efs. unfold sz'.
        assert (Hbm : b + 1 <= m0) by nia.
        rewrite Z.max_l by nia.
        split; [|repeat split; reflexivity]. destruct (files w F); reflexivity. }
    destruct Hsize as (w2 & Hrun2 & S1 & S2 & S3 & S4 & S5 & S6 & S7 & S8).
    eapply wp_bind_run; [exact Hrun2|].
    pose proof S1 as (Fio & Fbp & Fbr & Fag & Fin).
    unfold wx in Fio, Fbp, Fbr, Fag, Fin, S2, S3, S4, S5, S6, S7, S8.
    simpl in Fio, Fbp, Fbr, Fag, Fin, S2, S3, S4, S5, S6, S7, S8.
    rewrite upd_same in S4.
    eapply wp_bind, wp_put_dirty.
    { rewrite S2, M2. lia. }
    apply wp_ret. split; [reflexivity|].
    apply (record_written_back w nbuff F b buf); try assumption.
    split.
    + unfold same_pool. simpl. rewrite Fio, Fbp, Fbr, Fag, Fin.
      rewrite Eio, Ebp, Ebr, Eag, Ein. auto.
    + simpl. rewrite length_insert, S2, M2. reflexivity.
    + intros i. simpl. rewrite S2, M2. apply rd_insert. lia.
    + intros G HG. simpl. rewrite S3 by exact HG.
      rewrite upd_other by exact HG. rewrite M3. reflexivity.
    + simpl. rewrite S4, M3. unfold sz'.
      replace (b * IOBUFLEN + IOBUFLEN) with ((b + 1) * IOBUFLEN) by ring.
      reflexivity.
    + intros G HG. simpl. rewrite S5, S6.
      rewrite !upd_other by exact HG. rewrite M4.
      split; [reflexivity | apply M5; exact HG].
    + simpl. rewrite S5. rewrite upd_same, M4, M6. reflexivity.
    + simpl. rewrite S6. rewrite upd_same, M6. ring.
    + simpl. rewrite S7. reflexivity.
    + simpl. rewrite S8, M8, M6. reflexivity.
  - (* beyond the end of the file *)
    assert (Hmb : m0 < b) by nia.
    destruct (seek_if_needed w F (filesize (files w F)) (inv_files _ _ HI F))
      as (w1 & Hseek & [M1 M2 M3 M4 M5 M6 M7 M8]); [lia|].
    eapply wp_bind_run; [exact Hseek|].
    assert (HE : extending w F m0 m0 (m0 * IOBUFLEN) w1).
    { apply extending_start; try assumption. rewrite M6. exact Hsz. }
    eapply wp_bind_wp.
    + apply (ffbfwt_extend_extending w F m0 nbuff b _ HI Hn Hm0 m0 w1 NIOBUF HE);
        [lia | lia|].
      unfold extend_fuel. rewrite Hq. lia.
    + cbv beta. intros st w2 [-> H2].
      apply wp_bind, wp_file_of. apply wp_bind, wp_modify. apply wp_ret.
      split; [reflexivity|].
      rewrite (ex_file _ _ _ _ _ _ H2). simpl filesize.
      apply (extending_done w F m0 b nbuff w2); assumption.
Qed.


(** * [ffbfwt] is defined whatever the driver reports *)

(** ** Counting the write calls *)

Lemma failed_S (j : nat) :
  forall fl : list bool,
    failed (S j) fl
    = (failed j fl + match drop j fl with
                     | true :: _ => 1
                     | _ => 0
                     end)%nat.
Proof.
  induction j as [|j IH]; intros [|bad fl]; try reflexivity.
  - destruct bad; reflexivity.
  - change (failed (S (S j)) (bad :: fl))
      with ((if bad then 1 else 0) + failed (S j) fl)%nat.
    rewrite IH. simpl. lia.
Qed.

Lemma driven_start (w : world) (st : Z) : driven w st 0 st w.
Proof. unfold driven. simpl. rewrite drop_0. auto. Qed.

Lemma driven_frame (w0 : world) (st0 : Z) (j : nat) (st : Z) (w w' : world) :
  io_faults w' = io_faults w -> wlog w' = wlog w ->
  driven w0 st0 j st w -> driven w0 st0 j st w'.
Proof. unfold driven. intros -> ->. auto. Qed.

(** A write call is defined when the caller's buffer has the bytes; it
    changes the driver's part of the state only and is one more call in
    the bookkeeping. *)
Lemma wp_ffwrite_driven (w0 : world) (st0 : Z) (j : nat) (F : nat) (n : Z)
    (src : list byte) (st : Z) (Q : Z -> world -> Prop) (w : world) :
  0 <= n <= Z.of_nat (length src) ->
  driven w0 st0 j st w ->
  (forall st' d p fl lg,
     driven w0 st0 (S j) st' (set_driver d p fl lg w) ->
     Q st' (set_driver d p fl lg w)) ->
  wp (ffwrite F n src st) Q w.
Proof.
  intros Hn (Hf & Hl & Hst) HQ. unfold wp, ffwrite.
  destruct (Z.ltb_spec n 0) as [?|_]; [lia|].
  destruct (Z.ltb_spec (Z.of_nat (length src)) n) as [?|_]; [lia|].
  simpl orb. cbv iota.
  pose proof (failed_S j (io_faults w0)) as HS.
  assert (Hd : drop (S j) (io_faults w0) = drop 1 (io_faults w))
    by (rewrite Hf, drop_drop; f_equal; lia).
  rewrite <- Hf in HS.
  destruct (io_faults w) as [|bad rest] eqn:Efl; simpl next_fault.
  - apply HQ. unfold driven, set_driver. cbn [io_faults wlog].
    rewrite Hd, HS, Nat.add_0_r, length_app. simpl.
    split; [reflexivity|]. split; [lia | exact Hst].
  - destruct bad.
    + apply HQ. unfold driven, set_driver. cbn [io_faults wlog].
      rewrite Hd, HS. simpl.
      split; [reflexivity|]. split; [lia|].
      destruct (failed j (io_faults w0) + 1)%nat eqn:E; [lia | reflexivity].
    + apply HQ. unfold driven, set_driver. cbn [io_faults wlog].
      rewrite Hd, HS, Nat.add_0_r, length_app. simpl.
      split; [reflexivity|]. split; [lia | exact Hst].
Qed.

(** A status loop whose body is counted. *)
Lemma wp_for_status_count (I : nat -> Z -> world -> Prop) (l : list Z)
    body :
  (forall ii i st w, In ii l -> I i st w -> wp (body ii st) (I (S i)) w) ->
  forall (k : nat) st w,
    I k st w -> wp (for_status l body st) (I (k + length l)%nat) w.
Proof.
  induction l as [|ii l IH]; intros Hbody k st w HI.
  - simpl. rewrite Nat.add_0_r. exact HI.
  - simpl for_status. apply wp_bind.
    eapply wp_mono; [apply (Hbody ii k); [left; reflexivity | exact HI]|].
    intros st' w' HI'. simpl length.
    replace (k + S (length l))%nat with (S k + length l)%nat by lia.
    apply IH; [|exact HI'].
    intros jj i st0 w0 Hin. apply Hbody. right. exact Hin.
Qed.

Lemma same_core_refl (w : world) : same_core w w.
Proof. unfold same_core. auto. Qed.

Lemma ffbfwt_fill_total (w0 : world) (st0 : Z) (j : nat) (F : nat)
    (nloop st : Z) (w : world) :
  driven w0 st0 j st w ->
  wp (ffbfwt_fill F nloop st)
     (fun st1 w1 => driven w0 st0 (j + Z.to_nat nloop) st1 w1
                    /\ same_core w w1 /\ files w1 = files w) w.
Proof.
  intros HD. unfold ffbfwt_fill.
  rewrite <- (length_seqZ 0 nloop).
  apply (wp_for_status_count
           (fun i st1 w1 => driven w0 st0 i st1 w1
                            /\ same_core w w1 /\ files w1 = files w)).
  - intros _ i st1 w1 _ (H1 & H2 & H3).
    apply (wp_ffwrite_driven w0 st0 i); [|exact H1|].
    + rewrite zeros_length. pose proof IOBUFLEN_pos. lia.
    + intros st' d p fl lg H4. split; [exact H4|]. split; assumption.
  - split; [exact HD|]. split; [apply same_core_refl | reflexivity].
Qed.

Section Total.

Variables (w : world) (nbuff : Z) (F : nat) (b : Z).
Hypothesis Hs : slots_ok w.
Hypothesis Hbufs : bufs_ok w.
Hypothesis Hn : holds w nbuff F b.

Variables (w0 : world) (st0 : Z).

(** One turn of the loop writes the records from the end of the file to
    the lowest buffered one, which is not beyond the requested record,
    and moves the end of the file past it. *)
Lemma ffbfwt_append_total (m st : Z) (j : nat) (w1 : world) :
  same_core w w1 -> filesize (files w1 F) = m * IOBUFLEN -> 0 <= m <= b ->
  driven w0 st0 j st w1 ->
  wp (ffbfwt_append F nbuff st)
     (fun r w2 =>
        exists irec,
          m <= irec <= b
          /\ ((fst r = nbuff /\ irec = b) \/ (fst r <> nbuff /\ irec < b))
          /\ same_core w w2
          /\ filesize (files w2 F) = (irec + 1) * IOBUFLEN
          /\ driven w0 st0 (j + Z.to_nat (irec + 1 - m)) (snd r) w2) w1.
Proof.
  intros (Eio & Ebp & Ebr & Edl) Hsz Hm HD. pose proof IOBUFLEN_pos as HL.
  destruct Hs as (L1 & L2 & L3 & L4 & L5).
  unfold ffbfwt_append.
  apply wp_bind, wp_file_of. rewrite Hsz, quot_block by lia.
  eapply wp_bind, wp_rdM; [rewrite Ebr; exact (proj2 Hn)|].
  destruct (ffbfwt_lowest_pool w F m b nbuff Hs Hn (proj2 Hm))
    as (irec & ibuff & Elow & Hh & Hir & _ & Hfall).
  eapply wp_bind, wp_reads.
  { rewrite (ffbfwt_lowest_same w w1) by assumption. exact Elow. }
  cbn [fst snd].
  pose proof (holds_range w ibuff F irec Hs Hh) as Hr.
  destruct (rd_in_range (iobuffer w) ibuff) as [buf Hbuf]; [lia|].
  pose proof (Hbufs ibuff buf Hbuf) as Hbl.
  (* the fill records *)
  eapply wp_bind_wp with
    (R := fun st1 w2 => same_core w w2
                        /\ filesize (files w2 F) = irec * IOBUFLEN
                        /\ driven w0 st0 (j + Z.to_nat (irec - m)) st1 w2).
  { destruct (Z.ltb_spec (m * IOBUFLEN) (irec * IOBUFLEN)) as [Hlt|Hge].
    - eapply wp_bind_wp; [apply (ffbfwt_fill_total w0 st0 j); exact HD|].
      cbv beta. intros st1 w2 (HD2 & (F1 & F2 & F3 & F4) & Ef).
      apply wp_bind, wp_modify. apply wp_ret. split; [|split].
      + unfold same_core. simpl. rewrite F1, F2, F3, F4. auto.
      + rewrite upd_file_at. reflexivity.
      + replace (irec - m)
          with (Z.quot (irec * IOBUFLEN - m * IOBUFLEN) IOBUFLEN).
        * apply (driven_frame w0 st0 _ st1 w2); [reflexivity | reflexivity|].
          exact HD2.
        * replace (irec * IOBUFLEN - m * IOBUFLEN)
            with ((irec - m) * IOBUFLEN) by ring.
          apply quot_block; lia.
    - apply wp_ret. split; [unfold same_core; auto|]. split.
      + rewrite Hsz. f_equal. nia.
      + replace (Z.to_nat (irec - m)) with 0%nat by nia.
        rewrite Nat.add_0_r. exact HD. }
  cbv beta. intros st1 w2 ((F1 & F2 & F3 & F4) & Hsz2 & HD2).
  eapply wp_bind, wp_rdM; [rewrite F1; exact Hbuf|].
  eapply wp_bind_wp with
    (R := fun st2 w3 => same_core w w3
                        /\ filesize (files w3 F) = irec * IOBUFLEN
                        /\ driven w0 st0 (S (j + Z.to_nat (irec - m))) st2 w3).
  { apply (wp_ffwrite_driven w0 st0 (j + Z.to_nat (irec - m)));
      [lia | exact HD2|].
    intros st' d p fl lg HD3.
    split; [unfold same_core; simpl; auto|]. split; [exact Hsz2 | exact HD3]. }
  cbv beta. intros st2 w3 ((G1 & G2 & G3 & G4) & Hsz3 & HD3).
  apply wp_bind. apply wp_put_dirty; [lia|].
  apply wp_bind, wp_file_of. apply wp_bind, wp_modify. apply wp_ret.
  exists irec. cbn [fst snd]. split; [lia|]. split; [|split; [|split]].
  - destruct (Z.eq_dec irec b) as [E|E].
    + left. split; [apply Hfall; exact E | exact E].
    + right. split; [|lia]. intros ->.
      apply E. destruct Hh as [_ Hh]. destruct Hn as [_ Hn'].
      rewrite Hh in Hn'. congruence.
  - unfold same_core. simpl. rewrite length_insert. auto.
  - rewrite upd_file_at. simpl. rewrite Hsz3. ring.
  - replace (j + Z.to_nat (irec + 1 - m))%nat
      with (S (j + Z.to_nat (irec - m))) by lia.
    apply (driven_frame w0 st0 _ st2 w3); [reflexivity | reflexivity|].
    exact HD3.
Qed.

(** The loop ends before its fuel does, with the end of the file just
    past the requested record and one write call made for every record
    on the way. *)
Lemma ffbfwt_extend_total (fuel : nat) :
  forall (m ibuff st : Z) (j : nat) (w1 : world),
    same_core w w1 -> filesize (files w1 F) = m * IOBUFLEN ->
    driven w0 st0 j st w1 ->
    ibuff <> nbuff -> 0 <= m <= b -> (Z.to_nat (b - m) < fuel)%nat ->
    wp (ffbfwt_extend fuel F nbuff ibuff st)
       (fun st' w2 =>
          same_core w w2
          /\ filesize (files w2 F) = (b + 1) * IOBUFLEN
          /\ driven w0 st0 (j + Z.to_nat (b + 1 - m)) st' w2) w1.
Proof.
  induction fuel as [|fuel IH]; intros m ibuff st j w1 Hc Hsz HD Hne Hm Hf;
    [lia|].
  simpl. destruct (Z.eqb_spec ibuff nbuff) as [E|_]; [contradiction|].
  eapply wp_bind_wp; [apply (ffbfwt_append_total m st j w1 Hc Hsz Hm HD)|].
  cbv beta. intros r w2 (irec & Hir & Hcase & Hc2 & Hsz2 & HD2).
  destruct Hcase as [[E2 ->]|[Hne2 Hlt]].
  - rewrite E2. destruct fuel; simpl; rewrite Z.eqb_refl; apply wp_ret; auto.
  - replace (j + Z.to_nat (b + 1 - m))%nat
      with (j + Z.to_nat (irec + 1 - m) + Z.to_nat (b + 1 - (irec + 1)))%nat
      by lia.
    apply (IH (irec + 1) _ _ _ w2 Hc2 Hsz2 HD2 Hne2); lia.
Qed.

(** The whole writeback. *)
Lemma ffbfwt_total (st : Z) (m : Z) :
  0 <= m -> filesize (files w F) = m * IOBUFLEN ->
  driven w0 st0 0 st w ->
  wp (ffbfwt nbuff st)
     (fun st' w' =>
        driven w0 st0 (transfers m b) st' w'
        /\ filesize (files w' F)
           = Z.max (filesize (files w F)) ((b + 1) * IOBUFLEN)) w.
Proof.
  intros Hm Hsz HD. pose proof IOBUFLEN_pos as HL.
  destruct Hs as (L1 & L2 & L3 & L4 & L5).
  pose proof (holds_range w nbuff F b Hs Hn) as Hr.
  destruct (rd_in_range (iobuffer w) nbuff) as [buf Hbuf]; [lia|].
  pose proof (Hbufs nbuff buf Hbuf) as Hbl.
  unfold ffbfwt.
  eapply wp_bind, wp_rdM; [exact (proj1 Hn)|].
  eapply wp_bind, wp_rdM; [exact (proj2 Hn)|].
  apply wp_bind, wp_file_of.
  assert (Hseek : forall pos,
            wp (if Z.eqb (io_pos (files w F)) pos then ret tt
                else ffseek F pos)
               (fun _ w1 => same_core w w1 /\ files w1 = files w
                            /\ dirty w1 = dirty w
                            /\ driven w0 st0 0 st w1) w).
  { intros pos. destruct (Z.eqb _ _).
    - apply wp_ret. split; [apply same_core_refl | auto].
    - unfold ffseek. apply wp_modify.
      destruct (Z.ltb pos 0);
        (split; [unfold same_core; simpl; auto|]; split; [reflexivity|];
         split; [reflexivity|]; exact HD). }
  unfold transfers.
  destruct (Z.leb_spec (b * IOBUFLEN) (filesize (files w F))) as [Hle|Hgt].
  - destruct (Z.leb_spec b m) as [_|?]; [|nia].
    eapply wp_bind_wp; [apply Hseek|]. cbv beta.
    intros _ w1 ((E1 & E2 & E3 & E4) & Ef & Ed & HD1).
    eapply wp_bind, wp_rdM; [rewrite E1; exact Hbuf|].
    eapply wp_bind_wp with
      (R := fun st2 w2 => length (dirty w2) = length (dirty w)
                          /\ files w2 = files w
                          /\ driven w0 st0 1 st2 w2).
    { apply (wp_ffwrite_driven w0 st0 0); [lia | exact HD1|].
      intros st' d p fl lg HD2. simpl. auto. }
    cbv beta. intros st2 w2 (Hd2 & Ef2 & HD2).
    apply wp_bind, wp_modify. apply wp_bind, wp_file_of.
    rewrite (upd_file_at F _ w2). simpl filesize. rewrite Ef2.
    destruct (Z.eqb_spec (b * IOBUFLEN) (filesize (files w F))) as [Eq|Ne].
    + apply wp_bind, wp_modify.
      apply wp_bind. apply wp_put_dirty; [simpl; lia|]. apply wp_ret.
      split.
      * apply (driven_frame w0 st0 _ st2 w2); [reflexivity | reflexivity|].
        exact HD2.
      * simpl. rewrite !upd_same. simpl. rewrite ?upd_same. simpl.
        rewrite ?Ef2. lia.
    + apply wp_bind, wp_ret.
      apply wp_bind. apply wp_put_dirty; [simpl; lia|]. apply wp_ret.
      split.
      * apply (driven_frame w0 st0 _ st2 w2); [reflexivity | reflexivity|].
        exact HD2.
      * simpl. rewrite !upd_same. simpl. rewrite ?Ef2.
        rewrite Hsz in *. assert (b < m) by nia. nia.
  - destruct (Z.leb_spec b m) as [?|_]; [nia|].
    eapply wp_bind_wp; [apply Hseek|]. cbv beta.
    intros _ w1 (Hc & Ef & Ed & HD1).
    eapply wp_bind_wp.
    { apply (ffbfwt_extend_total _ m NIOBUF st 0 w1 Hc).
      - rewrite Ef. exact Hsz.
      - exact HD1.
      - lia.
      - nia.
      - unfold extend_fuel. rewrite Hsz, quot_block by lia. lia. }
    cbv beta. intros st1 w2 (Hc2 & Hsz2 & HD2).
    apply wp_bind, wp_file_of. apply wp_bind, wp_modify. apply wp_ret.
    split.
    + apply (driven_frame w0 st0 _ st1 w2); [reflexivity | reflexivity|].
      exact HD2.
    + rewrite upd_file_at. simpl. rewrite Hsz2. nia.
Qed.

End Total.

(** C3, as amended.  [ffbfwt] on a buffer of a well-formed pool is
    defined whatever the driver reports and whatever the status on
    entry, and it clears the dirty flag of the buffer it was asked to
    write: the assignment [dirty[nbuff] = FALSE] is unconditional.  A
    failing write does not end the run either: the loops never look at
    the status.  Whatever the outcomes, [ffbfwt] makes [transfers m b]
    write calls (one when the record lies in the file or at its end, one
    for every record from the end of the file to the requested one
    otherwise), each taking the next outcome of the oracle, and leaves
    [filesize] at the larger of its old value and the end of the record.
    The calls that succeed are the ones that reach the log, and the
    status returned is WRITE_ERROR when one of the calls failed and the
    status on entry otherwise. *)
Theorem ffbfwt_failure_clears_dirty (nbuff st : Z) (F : nat) (b m : Z)
    (w : world) :
  slots_ok w -> bufs_ok w -> holds w nbuff F b ->
  0 <= m -> filesize (files w F) = m * IOBUFLEN ->
  exists st' w',
    ffbfwt nbuff st w = Some (st', w')
    /\ rd (dirty w') nbuff = Some false
    /\ io_faults w' = drop (transfers m b) (io_faults w)
    /\ (length (wlog w') + failed (transfers m b) (io_faults w)
        = length (wlog w) + transfers m b)%nat
    /\ st' = (if Nat.eqb (failed (transfers m b) (io_faults w)) 0
              then st else WRITE_ERROR)
    /\ filesize (files w' F)
       = Z.max (filesize (files w F)) ((b + 1) * IOBUFLEN).
Proof.
  intros Hs Hbufs Hn Hm Hsz.
  destruct (wp_elim _ _ _
              (ffbfwt_total w nbuff F b Hs Hbufs Hn w st st m Hm Hsz
                 (driven_start w st)))
    as (st' & w' & Hrun & (Hf & Hl & Hst) & Hfs).
  exists st', w'. split; [exact Hrun|].
  destruct Hs as (_ & Hlen & _).
  split; [exact (wlp_elim _ _ _ _ _ (ffbfwt_clears_dirty nbuff st w Hlen) Hrun)|].
  auto.
Qed.


(** * Loading a record into the pool *)

(** ** Steps that leave the pool and the disks alone *)

Lemma same_cache_refl (w : world) : same_cache w w.
Proof. unfold same_cache. auto 15. Qed.

Lemma same_cache_holds (w w' : world) (i : Z) (F : nat) (b : Z) :
  same_cache w w' -> holds w' i F b <-> holds w i F b.
Proof.
  intros (_ & E1 & E2 & _). unfold holds. rewrite E1, E2. reflexivity.
Qed.

Lemma same_cache_views (w w' : world) (F : nat) (b : Z) (x : list byte) :
  same_cache w w' -> views w' F b x <-> views w F b x.
Proof.
  intros H. pose proof H as (E0 & E1 & E2 & _ & _ & _ & Ef & Ed & _).
  unfold views. destruct (Ef F) as (Es & _). rewrite Es, Ed, E0.
  split; (intros [(i & Hi & Hx)|(Hno & Hrest)];
          [left; exists i; split; [apply (same_cache_holds w w' i F b H) in Hi || apply (same_cache_holds w w' i F b H); exact Hi | exact Hx]
          | right; split; [|exact Hrest]]).
  - intros i Hi. apply (Hno i). apply (same_cache_holds w w' i F b H). exact Hi.
  - intros i Hi. apply (Hno i). apply (same_cache_holds w w' i F b H). exact Hi.
Qed.

Lemma same_cache_inv (skip : Z -> Prop) (w w' : world) :
  same_cache w w' -> InvX skip w -> InvX skip w'.
Proof.
  intros H HI.
  pose proof H as (E0 & E1 & E2 & E3 & E4 & E5 & Ef & Ed & Ep & Efl).
  destruct HI as [[L1 [L2 [L3 [L4 L5]]]] I2 I3 I4 I5 I6 I7 I8 I9 I10].
  split.
  - unfold slots_ok. rewrite E0, E1, E2, E3.
    rewrite (Permutation_length E4). auto.
  - rewrite E0. exact I2.
  - rewrite E5. exact I3.
  - rewrite E4. exact I4.
  - intros i j F b Hi Hj. apply (same_cache_holds w w' _ _ _ H) in Hi, Hj.
    eapply I5; eassumption.
  - intros i F b Hi. apply (same_cache_holds w w' _ _ _ H) in Hi.
    destruct (Ef F) as (_ & -> & _). eapply I6; eassumption.
  - intros i F b Hs Hi Hd. apply (same_cache_holds w w' _ _ _ H) in Hi.
    rewrite E3 in Hd. destruct (Ef F) as (-> & _ & _). rewrite E0, Ed.
    eapply I7; eassumption.
  - intros i Hd. rewrite E3 in Hd. rewrite E1. apply I8. exact Hd.
  - intros F. destruct (Ef F) as (Es & El & Eio).
    destruct (I9 F) as [F1 F2 F3 F4]. split.
    + rewrite Es. exact F1.
    + rewrite Es, Ed. exact F2.
    + rewrite Ep, Eio. exact F3.
    + rewrite Es, El. exact F4.
  - rewrite Efl. exact I10.
Qed.

Lemma same_cache_views_kept (w w' : world) :
  same_cache w w' -> views_kept w w'.
Proof. intros H G c x Hv. apply (same_cache_views w w' G c x H). exact Hv. Qed.

Lemma views_kept_refl (w : world) : views_kept w w.
Proof. intros G c x H. exact H. Qed.

Lemma views_kept_trans (w1 w2 w3 : world) :
  views_kept w1 w2 -> views_kept w2 w3 -> views_kept w1 w3.
Proof. intros H1 H2 G c x H. apply H2, H1, H. Qed.

(** A change of one field of one file other than those of the extent. *)
Lemma upd_file_same_cache (F : nat) (g : FITSfile -> FITSfile) (w : world) :
  (forall f, filesize (g f) = filesize f /\ logfilesize (g f) = logfilesize f
             /\ io_pos (g f) = io_pos f) ->
  same_cache w (upd_file F g w).
Proof.
  intros Hg. unfold same_cache, upd_file. simpl.
  repeat (split; [reflexivity|]).
  split; [|auto].
  intros G. unfold upd. destruct (Nat.eqb_spec G F) as [->|]; [apply Hg | auto].
Qed.

(** ** Giving a buffer to a record *)

Section Install.

Variables (w1 w2 : world) (n : Z) (F : nat) (b : Z) (buf : list byte)
          (d : bool).
Hypothesis HI : Inv w1.
Hypothesis Hn : 0 <= n < NIOBUF.
Hypothesis Hclean : rd (dirty w1) n = Some false.
Hypothesis Hnew : forall i, ~ holds w1 i F b.
Hypothesis Hb : 0 <= b.
Hypothesis Hlen : Z.of_nat (length buf) = IOBUFLEN.
Hypothesis Hread : d = false ->
  (b + 1) * IOBUFLEN <= filesize (files w1 F)
  /\ buf = disk_block (disk w1 F) b.
Hypothesis Hfill : d = true -> filesize (files w1 F) <= b * IOBUFLEN.
Hypothesis Hin : installed w1 n F b buf d w2.

Lemma installed_holds (i : Z) (G : nat) (c : Z) :
  holds w2 i G c <->
  (i = n /\ G = F /\ c = b) \/ (i <> n /\ holds w1 i G c).
Proof.
  destruct (inv_slots _ _ HI) as (L1 & L2 & L3 & L4 & L5).
  unfold holds. rewrite (in_bufptr _ _ _ _ _ _ _ Hin),
    (in_bufrecnum _ _ _ _ _ _ _ Hin).
  rewrite !rd_insert by lia.
  destruct (Z.eqb_spec n i) as [E|E].
  - split.
    + intros [H1 H2]. left. split; [auto|]. split; congruence.
    + intros [(_ & -> & ->)|[Hne _]]; [auto | congruence].
  - split.
    + intros H. right. split; [congruence | exact H].
    + intros [(Hi & _)|[_ H]]; [congruence | exact H].
Qed.

Lemma installed_log (G : nat) :
  logfilesize (files w1 G) <= logfilesize (files w2 G).
Proof.
  destruct (Nat.eq_dec G F) as [->|HG].
  - rewrite (in_log _ _ _ _ _ _ _ Hin). destruct d; lia.
  - rewrite (in_files _ _ _ _ _ _ _ Hin) by exact HG. lia.
Qed.

Lemma installed_size (G : nat) :
  filesize (files w2 G) = filesize (files w1 G).
Proof.
  destruct (Nat.eq_dec G F) as [->|HG].
  - apply (in_size _ _ _ _ _ _ _ Hin).
  - rewrite (in_files _ _ _ _ _ _ _ Hin) by exact HG. reflexivity.
Qed.

Lemma installed_inv : Inv w2.
Proof.
  pose proof HI as [[L1 [L2 [L3 [L4 L5]]]] I2 I3 I4 I5 I6 I7 I8 I9 I10].
  pose proof Hin as [E1 E2 E3 E4 E5 E6 E7 E8 E9 E10 E11 E12 E13 E14 E15 E16].
  split.
  - unfold slots_ok. rewrite E1, E2, E3, E4, !length_insert.
    rewrite (Permutation_length E5). auto.
  - intros i x. rewrite E1, rd_insert by lia.
    destruct (Z.eqb n i); [intros [= <-]; exact Hlen | apply I2].
  - rewrite E6. exact I3.
  - rewrite E5. exact I4.
  - intros i j G c Hi Hj. apply installed_holds in Hi, Hj.
    destruct Hi as [(-> & Hi)|[Hi1 Hi2]], Hj as [(-> & Hj)|[Hj1 Hj2]];
      try reflexivity.
    + destruct Hi as [-> ->]. exfalso. eapply Hnew. exact Hj2.
    + destruct Hj as [-> ->]. exfalso. eapply Hnew. exact Hi2.
    + eapply I5; eassumption.
  - intros i G c Hi. apply installed_holds in Hi.
    destruct Hi as [(-> & -> & ->)|[Hi1 Hi2]].
    + split; [exact Hb|]. rewrite E9. destruct d eqn:Ed; [lia|].
      destruct (Hread eq_refl) as [Hr _]. pose proof (fo_log _ _ (I9 F)). lia.
    + destruct (I6 i G c Hi2) as [Hc Hlg]. split; [exact Hc|].
      pose proof (installed_log G). lia.
  - intros i G c _ Hi Hd. apply installed_holds in Hi.
    rewrite E4, rd_insert in Hd by lia. rewrite E1, rd_insert by lia.
    rewrite installed_size, E13.
    destruct Hi as [(-> & -> & ->)|[Hi1 Hi2]].
    + rewrite Z.eqb_refl in *. injection Hd as ->.
      destruct (Hread eq_refl) as [Hr ->]. split; [exact Hr | reflexivity].
    + destruct (Z.eqb_spec n i); [congruence|].
      apply I7; [tauto | exact Hi2 | exact Hd].
  - intros i Hd. rewrite E4, rd_insert in Hd by lia.
    rewrite E2, rd_insert by lia.
    destruct (Z.eqb n i); [eexists; reflexivity | apply I8; exact Hd].
  - intros G. destruct (I9 G) as [F1 F2 F3 F4].
    destruct (Nat.eq_dec G F) as [->|HG].
    + split.
      * rewrite E8. exact F1.
      * rewrite E8, E13. exact F2.
      * exact E15.
      * rewrite E8. pose proof (installed_log F). lia.
    + split.
      * rewrite E7 by exact HG. exact F1.
      * rewrite E7, E13 by exact HG. exact F2.
      * rewrite E7, E14 by exact HG. exact F3.
      * rewrite E7 by exact HG. exact F4.
  - exact E16.
Qed.

Lemma installed_views : views_kept w1 w2.
Proof.
  pose proof HI as [[L1 [L2 [L3 [L4 L5]]]] I2 I3 I4 I5 I6 I7 I8 I9 I10].
  pose proof Hin as [E1 E2 E3 E4 E5 E6 E7 E8 E9 E10 E11 E12 E13 E14 E15 E16].
  intros G c x [(i & Hi & Hx)|(Hno & Hc & Hsz & ->)].
  - destruct (Z.eq_dec i n) as [->|Hne].
    + (* the record that leaves the buffer is on the disk *)
      destruct (I7 n G c (fun H => H) Hi Hclean) as [Hsz Hdisk].
      right. rewrite installed_size, E13.
      split; [|split; [apply (I6 n G c Hi)|split; [exact Hsz | congruence]]].
      intros j Hj. apply installed_holds in Hj.
      destruct Hj as [(-> & -> & ->)|[Hj1 Hj2]].
      * eapply Hnew. exact Hi.
      * apply Hj1. eapply I5; eassumption.
    + left. exists i. split.
      * apply installed_holds. right. split; assumption.
      * rewrite E1, rd_insert_ne by lia. exact Hx.
  - destruct (holds_dec w2 n G c) as [Hh|Hh].
    + (* the record that enters the buffer came from the disk *)
      apply installed_holds in Hh as [(_ & -> & ->)|[Hh _]]; [|congruence].
      left. exists n. split.
      * apply installed_holds. left. auto.
      * rewrite E1, rd_insert_eq by lia. destruct d.
        -- specialize (Hfill eq_refl). pose proof IOBUFLEN_pos. nia.
        -- destruct (Hread eq_refl) as [_ ->]. reflexivity.
    + right. rewrite installed_size, E13.
      split; [|auto].
      intros j Hj. pose proof Hj as Hj'. apply installed_holds in Hj.
      destruct Hj as [(-> & _)|[_ Hj]]; [exact (Hh Hj') | exact (Hno j Hj)].
Qed.

End Install.

(** ** The victim *)

Lemma choose_victim_range (w : world) (F : nat) :
  ages_in_range w -> loadable w F ->
  exists s, choose_victim w F = Some s /\ 0 <= s < NIOBUF.
Proof.
  intros Ha Hl. unfold choose_victim.
  destruct (List.find (unpinned w) (ageindex w)) as [s|] eqn:E.
  - exists s. split; [reflexivity|].
    apply find_some in E as [Hin _].
    unfold ages_in_range in Ha. rewrite Forall_forall in Ha.
    apply Ha. apply list_elem_of_In. exact Hin.
  - destruct Hl as [(s & Hin & Hs)|Hc].
    + pose proof (find_none _ _ E s Hin). congruence.
    + exists (curbuf (files w F)). split; [|exact Hc].
      destruct (Z.ltb_spec (curbuf (files w F)) 0); [lia | reflexivity].
Qed.

(** The buffer is clean once [ffldrc] has dealt with it. *)
Lemma victim_cleaned (w : world) (n : Z) :
  Inv w -> 0 <= n < NIOBUF ->
  exists d, rd (dirty w) n = Some d /\
    wp (if d : bool then ffbfwt n 0 else ret 0)
       (fun st w1 =>
          st = 0 /\ Inv w1 /\ same_pool w w1 /\ rd (dirty w1) n = Some false
          /\ views_kept w w1
          /\ (forall G, same_meta (files w G) (files w1 G))
          /\ (forall G, filesize (files w G) <= filesize (files w1 G))
          /\ (forall G, (forall i c, holds w i G c ->
                           (c + 1) * IOBUFLEN <= filesize (files w G)) ->
                        filesize (files w1 G) = filesize (files w G))) w.
Proof.
  intros HI Hn. destruct (inv_slots _ _ HI) as (L1 & L2 & L3 & L4 & L5).
  destruct (rd_in_range (dirty w) n) as [d Hd]; [lia|].
  exists d. split; [exact Hd|]. destruct d.
  - destruct (inv_dirty _ _ HI n Hd) as [G HG].
    destruct (rd_in_range (bufrecnum w) n) as [c Hc]; [lia|].
    assert (Hh : holds w n G c) by (split; assumption).
    eapply wp_mono; [apply (ffbfwt_spec w n G c HI Hh)|].
    cbv beta. intros st w1 [-> W]. split; [reflexivity|].
    destruct W as [W1 W2 W3 W4 W5 W6 W7 W8 W9 W10 W11].
    repeat (split; [assumption|]).
    split; [|split].
    + intros H. destruct (Nat.eq_dec H G) as [->|HH]; [exact W6|].
      destruct (W5 H HH) as [-> _]. unfold same_meta. auto 10.
    + intros H. destruct (Nat.eq_dec H G) as [->|HH]; [lia|].
      destruct (W5 H HH) as [-> _]. lia.
    + intros H Hall. destruct (Nat.eq_dec H G) as [->|HH].
      * specialize (Hall n c Hh). lia.
      * destruct (W5 H HH) as [-> _]. reflexivity.
  - apply wp_ret. split; [reflexivity|].
    split; [exact HI|]. split; [apply same_pool_refl|].
    split; [exact Hd|]. split; [apply views_kept_refl|].
    split; [|split].
    + intros G. unfold same_meta. auto 10.
    + intros G. lia.
    + intros G _. reflexivity.
Qed.

(** ** The contract of [ffldrc] *)

Lemma installed_loaded (w w1 w2 : world) (n : Z) (F : nat) (b : Z)
    (buf : list byte) (d : bool) :
  Inv w1 -> 0 <= n < NIOBUF -> rd (dirty w1) n = Some false ->
  (forall i, ~ holds w i F b) -> 0 <= b ->
  Z.of_nat (length buf) = IOBUFLEN ->
  (d = false -> (b + 1) * IOBUFLEN <= filesize (files w1 F)
                /\ buf = disk_block (disk w1 F) b) ->
  (d = true -> filesize (files w1 F) <= b * IOBUFLEN) ->
  installed w1 n F b buf d w2 ->
  same_pool w w1 -> views_kept w w1 ->
  (forall G, same_meta (files w G) (files w1 G)) ->
  (forall G, (forall i c, holds w i G c ->
                (c + 1) * IOBUFLEN <= filesize (files w G)) ->
             filesize (files w1 G) = filesize (files w G)) ->
  loaded w F b w2 /\ bytepos (files w2 F) = bytepos (files w F).
Proof.
  intros HI Hn Hcl Hno Hb Hlen Hrd Hfl Hin Hsp Hv Hm Hsz.
  assert (Hno1 : forall i, ~ holds w1 i F b).
  { intros i Hi. apply (Hno i). apply (holds_same_pool w w1 i F b Hsp).
    exact Hi. }
  assert (Hh : forall i G c, holds w2 i G c <->
               (i = n /\ G = F /\ c = b) \/ (i <> n /\ holds w1 i G c))
    by (intros; eapply installed_holds; eassumption).
  split; [|rewrite (in_bytepos _ _ _ _ _ _ _ Hin);
           destruct (Hm F) as (_ & -> & _); reflexivity].
  split.
  - eapply installed_inv; eassumption.
  - rewrite (in_cur _ _ _ _ _ _ _ Hin). apply Hh. left. auto.
  - eapply views_kept_trans; [exact Hv|].
    eapply installed_views; eassumption.
  - intros i G c Hi. apply Hh in Hi.
    rewrite (in_cur _ _ _ _ _ _ _ Hin).
    destruct Hi as [Hi|[_ Hi]]; [left; exact Hi | right].
    apply (holds_same_pool w w1 i G c Hsp). exact Hi.
  - destruct (in_hdu _ _ _ _ _ _ _ Hin) as (A1 & A2 & A3 & A4).
    destruct (Hm F) as (_ & _ & _ & B1 & B2 & B3 & B4).
    unfold same_hdu. rewrite A1, A2, A3, A4. auto.
  - assert (logfilesize (files w1 F) <= logfilesize (files w2 F))
      by (eapply installed_log; eassumption).
    destruct (Hm F) as (E & _). lia.
  - intros Hall. rewrite (in_size _ _ _ _ _ _ _ Hin). apply Hsz. exact Hall.
Qed.

Section LoadSpec.

Variable ffmahd : fitsfile -> Z -> Z -> M Z.

Lemma ffldrc_spec (fptr : fitsfile) (b mode : Z) (w : world) :
  Inv w -> no_drift fptr w -> 0 <= b -> loadable w (Fptr fptr) ->
  (mode = REPORT_EOF ->
   (exists i, holds w i (Fptr fptr) b)
   \/ b * IOBUFLEN < logfilesize (files w (Fptr fptr))) ->
  wp (ffldrc ffmahd fptr b mode 0)
     (fun st w' => st = 0 /\ loaded w (Fptr fptr) b w'
                   /\ bytepos (files w' (Fptr fptr))
                      = bytepos (files w (Fptr fptr))) w.
Proof.
  intros HI Hnd Hb Hload Heof. pose proof IOBUFLEN_pos as HL.
  set (F := Fptr fptr) in *.
  pose proof (inv_slots _ _ HI) as Hs.
  pose proof (perm_in_range w (inv_ages _ _ HI)) as Har.
  pose proof (perm_cover w (inv_ages _ _ HI)) as Hcov.
  destruct Hs as (L1 & L2 & L3 & L4 & L5).
  destruct (ffldrc_search_defined w F b (reverse (seqZ 0 NIOBUF))
              (inv_slots _ _ HI) Har all_slots_range) as [r Hr].
  destruct r as [[ibuff nbuff]|].
  - (* the record is in the pool *)
    destruct (ffldrc_search_hit w F b _ ibuff nbuff Hr) as (Hin & Hage & Hh).
    destruct (ffldrc_updatebuf_run F nbuff ibuff 0 w L5)
      as (ages' & Hrun & Hperm).
    { intros _. exact Hage. }
    { intros Hneg. exfalso.
      pose proof all_slots_range as Hall. rewrite Forall_forall in Hall.
      apply list_elem_of_In in Hin. specialize (Hall _ Hin). lia. }
    unfold ffldrc. cbv zeta. fold F.
    eapply wp_bind_run; [apply sync_hdu_no_drift; exact Hnd|].
    eapply wp_bind, wp_reads; [exact Hr|]. cbv beta iota.
    unfold wp. rewrite Hrun. split; [reflexivity|].
    match goal with |- loaded _ _ _ ?wx /\ _ => set (w' := wx) end.
    assert (Hsc : same_cache w w').
    { unfold same_cache, w'. simpl.
      repeat (split; [reflexivity || exact Hperm|]).
      split; [|auto].
      intros G. unfold upd. destruct (Nat.eqb_spec G F) as [->|]; auto. }
    assert (Hcur : curbuf (files w' F) = nbuff).
    { unfold w'. simpl. rewrite upd_same. reflexivity. }
    assert (Hf : files w' F = with_curbuf nbuff (files w F)).
    { unfold w'. simpl. rewrite upd_same. reflexivity. }
    split; [|rewrite Hf; reflexivity].
    split.
    + eapply same_cache_inv; eassumption.
    + rewrite Hcur. apply (same_cache_holds w w' _ _ _ Hsc). exact Hh.
    + apply same_cache_views_kept. exact Hsc.
    + intros i G c Hi. right. apply (same_cache_holds w w' _ _ _ Hsc). exact Hi.
    + rewrite Hf. unfold same_hdu. simpl. auto.
    + rewrite Hf. simpl. lia.
    + intros _. rewrite Hf. reflexivity.
  - (* the record is not in the pool *)
    pose proof (ffldrc_search_none_inv w F b (inv_slots _ _ HI) Hcov Hr) as Hno.
    unfold wp.
    rewrite (ffldrc_miss_unfold ffmahd fptr b mode 0 w (inv_slots _ _ HI) Har
               Hnd Hno).
    2:{ intros Hm. destruct (Heof Hm) as [[i Hi]|Hlt]; [|exact Hlt].
        destruct (Hno i Hi). }
    fold F. change (wp (A:=Z)
      (do nbuff <- ffwhbf fptr;
       if Z.ltb nbuff 0 then ret TOO_MANY_FILES
       else
         do d <- rdM dirty nbuff;
         do status1 <- (if d : bool then ffbfwt nbuff 0 else ret 0);
         do Ff1 <- file_of F;
         do status2 <-
           (if Z.leb (filesize Ff1) (b * IOBUFLEN) then
              exec memset_iobuffer nbuff (fill_byte (hdutype Ff1));
              exec modify (upd_file F (with_logfilesize
                             (Z.max (logfilesize Ff1) (b * IOBUFLEN + IOBUFLEN))));
              exec put_dirty nbuff true;
              ret status1
            else
              exec (if Z.eqb (io_pos Ff1) (b * IOBUFLEN) then ret tt
                    else ffseek F (b * IOBUFLEN));
              do r <- ffread F IOBUFLEN status1;
              exec (match snd r with
                    | Some bytes => put_iobuffer nbuff bytes
                    | None => ret tt
                    end);
              exec modify (upd_file F (with_io_pos (b * IOBUFLEN + IOBUFLEN)));
              ret (fst r));
         exec put_bufptr nbuff (Some F);
         exec put_bufrecnum nbuff b;
         ffldrc_updatebuf F nbuff (-1) status2)
      (fun st w' => st = 0 /\ loaded w F b w'
                    /\ bytepos (files w' F) = bytepos (files w F)) w).
    assert (Hinit : ffwhbf_init w = w).
    { unfold ffwhbf_init. rewrite (inv_init _ _ HI). reflexivity. }
    destruct (choose_victim_range w F Har Hload) as (n & Hcv & Hn).
    eapply wp_bind_run.
    { rewrite (ffwhbf_spec fptr w (inv_slots _ _ HI) Har), Hinit.
      fold F. rewrite Hcv. reflexivity. }
    destruct (Z.ltb_spec n 0) as [?|_]; [lia|].
    destruct (victim_cleaned w n HI Hn) as (d & Hd & Hvc).
    eapply wp_bind, wp_rdM; [exact Hd|].
    eapply wp_bind_wp; [exact Hvc|]. cbv beta.
    intros st w1 (-> & HI1 & Hsp & Hcl & Hv & Hm & Hge & Hsz).
    pose proof Hsp as (Eio & Ebp & Ebr & Eag & Ein).
    destruct (inv_slots _ _ HI1) as (M1 & M2 & M3 & M4 & M5).
    apply wp_bind, wp_file_of.
    assert (Hagein : In n (ageindex w1)).
    { apply list_elem_of_In. rewrite (inv_ages _ _ HI1).
      apply elem_of_seqZ. lia. }
    destruct (Z.leb_spec (filesize (files w1 F)) (b * IOBUFLEN)) as [Hpast|Hin].
    + (* a new record *)
      apply wp_bind. apply wp_bind.
      apply wp_put_iobuffer; [lia|].
      apply wp_bind, wp_modify.
      apply wp_bind. apply wp_put_dirty; [simpl; lia|].
      apply wp_ret.
      apply wp_bind. apply wp_put_bufptr; [simpl; lia|].
      apply wp_bind. apply wp_put_bufrecnum; [simpl; lia|].
      match goal with |- wp _ _ ?wx => set (wE := wx) end.
      destruct (ffldrc_updatebuf_run F n (-1) 0 wE) as (ages' & Hrun & Hperm).
      { unfold wE. simpl. exact M5. }
      { intros ?. lia. }
      { intros _. unfold wE. simpl. exact Hagein. }
      unfold wp. rewrite Hrun. split; [reflexivity|].
      eapply (installed_loaded w w1 _ n F b
                (replicate (Z.to_nat IOBUFLEN) (fill_byte (hdutype (files w1 F))))
                true); try eassumption.
      * rewrite length_replicate. apply IOBUFLEN_nat.
      * discriminate.
      * intros _. exact Hpast.
      * unfold wE in *. simpl in Hperm. split; simpl; rewrite ?upd_same;
          try reflexivity; try assumption.
        -- intros G HG. rewrite !upd_other by exact HG. reflexivity.
        -- simpl. f_equal. ring.
        -- unfold same_hdu. simpl. auto.
        -- simpl. apply (fo_pos _ _ (inv_files _ _ HI1 F)).
        -- apply (inv_faults _ _ HI1).
    + (* a record of the file *)
      destruct (file_size_block w1 F (inv_files _ _ HI1 F))
        as (m1 & Hm1 & Hsz1 & Hq1).
      assert (Hfit : (b + 1) * IOBUFLEN <= filesize (files w1 F)).
      { rewrite Hsz1 in *. assert (b + 1 <= m1) by nia. nia. }
      destruct (seek_if_needed w1 F (b * IOBUFLEN) (inv_files _ _ HI1 F))
        as (w2 & Hseek & [S1 S2 S3 S4 S5 S6 S7 S8]); [nia|].
      pose proof S1 as (Fio & Fbp & Fbr & Fag & Fin).
      apply wp_bind. eapply wp_bind_run; [exact Hseek|].
      eapply wp_bind_run.
      { apply ffread_run; [rewrite S7; apply (inv_faults _ _ HI1) | lia |].
        rewrite S6, S4, (fo_disk _ _ (inv_files _ _ HI1 F)). lia. }
      cbn [snd fst].
      apply wp_bind. apply wp_put_iobuffer; [simpl; rewrite Fio; lia|].
      apply wp_bind, wp_modify. apply wp_ret.
      apply wp_bind. apply wp_put_bufptr; [simpl; rewrite Fbp; lia|].
      apply wp_bind. apply wp_put_bufrecnum; [simpl; rewrite Fbr; lia|].
      match goal with |- wp _ _ ?wx => set (wE := wx) end.
      destruct (ffldrc_updatebuf_run F n (-1) 0 wE) as (ages' & Hrun & Hperm).
      { unfold wE. simpl. rewrite Fag. exact M5. }
      { intros ?. lia. }
      { intros _. unfold wE. simpl. rewrite Fag. exact Hagein. }
      unfold wp. rewrite Hrun. split; [reflexivity|].
      eapply (installed_loaded w w1 _ n F b (disk_block (disk w1 F) b) false);
        try eassumption.
      * apply disk_block_length; [lia|].
        rewrite (fo_disk _ _ (inv_files _ _ HI1 F)). exact Hfit.
      * intros _. split; [exact Hfit | reflexivity].
      * discriminate.
      * unfold wE in *. simpl in Hperm. split; simpl; rewrite ?upd_same;
          try reflexivity; try assumption.
        -- rewrite S6, S4, Fio. reflexivity.
        -- rewrite Fbp. reflexivity.
        -- rewrite Fbr. reflexivity.
        -- rewrite S2. symmetry. apply list_insert_id.
           apply rd_Some in Hcl as [_ Hcl]. exact Hcl.
        -- rewrite Hperm, Fag. reflexivity.
        -- intros G HG. rewrite !upd_other by exact HG. rewrite S3. reflexivity.
        -- rewrite S3. reflexivity.
        -- rewrite S3. reflexivity.
        -- rewrite S3. reflexivity.
        -- rewrite S3. unfold same_hdu. simpl. auto.
        -- intros G. rewrite S4. reflexivity.
        -- intros G HG. rewrite upd_other by exact HG. apply S5. exact HG.
        -- rewrite S6. reflexivity.
Qed.

End LoadSpec.


(** * Writing into a buffer *)

Lemma InvX_weaken (skip skip' : Z -> Prop) (w : world) :
  (forall j, skip j -> skip' j) -> InvX skip w -> InvX skip' w.
Proof.
  intros Hs [I1 I2 I3 I4 I5 I6 I7 I8 I9 I10]. split; try assumption.
  intros i F b Hn. apply I7. intros H. apply Hn, Hs, H.
Qed.

Lemma views_cached (skip : Z -> Prop) (w : world) (i : Z) (F : nat) (b : Z)
    (x : list byte) :
  InvX skip w -> holds w i F b -> views w F b x -> rd (iobuffer w) i = Some x.
Proof.
  intros HI Hi [(j & Hj & Hx)|(Hno & _)].
  - rewrite (inv_unique _ _ HI i j F b Hi Hj). exact Hx.
  - destruct (Hno i Hi).
Qed.

Lemma views_fun (skip : Z -> Prop) (w : world) (F : nat) (b : Z)
    (x y : list byte) :
  InvX skip w -> views w F b x -> views w F b y -> x = y.
Proof.
  intros HI [(i & Hi & Hx)|(Hno & _ & _ & ->)] Hy.
  - pose proof (views_cached skip w i F b y HI Hi Hy). congruence.
  - destruct Hy as [(j & Hj & _)|(_ & _ & _ & ->)]; [|reflexivity].
    destruct (Hno j Hj).
Qed.

Lemma same_contents_views (w w' : world) (F : nat) (b : Z) (x : list byte) :
  same_contents w w' -> views w' F b x <-> views w F b x.
Proof.
  intros (E0 & E1 & E2 & Es & Ed). unfold views, holds.
  rewrite E0, E1, E2, Es, Ed. reflexivity.
Qed.

Lemma same_contents_holds (w w' : world) (i : Z) (F : nat) (b : Z) :
  same_contents w w' -> holds w' i F b <-> holds w i F b.
Proof.
  intros (E0 & E1 & E2 & Es & Ed). unfold holds. rewrite E1, E2. reflexivity.
Qed.

Lemma same_contents_byte_at (w w' : world) (F : nat) (p : Z) (v : byte) :
  same_contents w w' -> byte_at w' F p v <-> byte_at w F p v.
Proof.
  intros H. unfold byte_at.
  split; intros (x & Hx & Hv); exists x; (split; [|exact Hv]);
    apply (same_contents_views w w' F _ x H); exact Hx.
Qed.

Lemma same_cache_contents (w w' : world) : same_cache w w' -> same_contents w w'.
Proof.
  intros (E0 & E1 & E2 & _ & _ & _ & Ef & Ed & _).
  unfold same_contents. repeat (split; [assumption|]).
  split; [|exact Ed]. intros G. apply Ef.
Qed.

Lemma views_kept_byte_at (w w' : world) (F : nat) (p : Z) (v : byte) :
  views_kept w w' -> byte_at w F p v -> byte_at w' F p v.
Proof. intros H (x & Hx & Hv). exists x. split; [apply H; exact Hx | exact Hv]. Qed.

(** ** [memcpy] into the buffer [i], which holds record [b] of [F] *)

Section Poke.

Variables (w : world) (i : Z) (F : nat) (b : Z) (buf' : list byte).
Hypothesis HI : InvX (eq i) w.
Hypothesis Hi : holds w i F b.
Hypothesis Hlen : Z.of_nat (length buf') = IOBUFLEN.

Let w' := set_iobuffer (<[Z.to_nat i := buf']> (iobuffer w)) w.

Lemma poke_holds (j : Z) (G : nat) (c : Z) : holds w' j G c <-> holds w j G c.
Proof. reflexivity. Qed.

Lemma poke_range : 0 <= i < Z.of_nat (length (iobuffer w)).
Proof.
  destruct (inv_slots _ _ HI) as (L1 & L2 & _).
  destruct Hi as [Hp _]. apply rd_range in Hp. lia.
Qed.

Lemma poke_inv : InvX (eq i) w'.
Proof.
  pose proof poke_range as Hr.
  destruct HI as [[L1 [L2 [L3 [L4 L5]]]] I2 I3 I4 I5 I6 I7 I8 I9 I10].
  split; try exact I2; try exact I3; try exact I4; try exact I5;
    try exact I6; try exact I8; try exact I10;
    try (intros G; destruct (I9 G) as [F1 F2 F3 F4]; split; assumption).
  - unfold slots_ok, w'. simpl. rewrite length_insert. auto.
  - intros j x. unfold w'. simpl. rewrite rd_insert by exact Hr.
    destruct (Z.eqb i j); [intros [= <-]; exact Hlen | apply I2].
  - intros j G c Hs Hj Hd. unfold w'. simpl.
    rewrite rd_insert_ne by lia. apply I7; assumption.
Qed.

Lemma poke_view : views w' F b buf'.
Proof.
  left. exists i. split; [exact Hi|].
  unfold w'. simpl. apply rd_insert_eq. exact poke_range.
Qed.

Lemma poke_views (G : nat) (c : Z) (x : list byte) :
  G <> F \/ c <> b -> views w G c x -> views w' G c x.
Proof.
  pose proof poke_range as Hr.
  intros Hne [(j & Hj & Hx)|Hd]; [|right; exact Hd].
  left. exists j. split; [exact Hj|].
  unfold w'. simpl. rewrite rd_insert_ne; [exact Hx | lia |].
  intros ->. destruct Hi as [P1 P2], Hj as [Q1 Q2].
  rewrite P1 in Q1. rewrite P2 in Q2. destruct Hne; congruence.
Qed.

End Poke.

(** ** Marking a buffer as modified *)

Section Mark.

Variables (w : world) (i : Z) (F : nat) (b : Z).
Hypothesis HI : InvX (eq i) w.
Hypothesis Hi : holds w i F b.

Let w' := set_dirty (<[Z.to_nat i := true]> (dirty w)) w.

Lemma mark_range : 0 <= i < Z.of_nat (length (dirty w)).
Proof.
  destruct (inv_slots _ _ HI) as (L1 & L2 & L3 & L4 & _).
  destruct Hi as [Hp _]. apply rd_range in Hp. lia.
Qed.

Lemma mark_inv : Inv w'.
Proof.
  pose proof mark_range as Hr.
  destruct HI as [[L1 [L2 [L3 [L4 L5]]]] I2 I3 I4 I5 I6 I7 I8 I9 I10].
  split; try exact I2; try exact I3; try exact I4; try exact I5;
    try exact I6; try exact I8; try exact I10;
    try (intros G; destruct (I9 G) as [F1 F2 F3 F4]; split; assumption).
  - unfold slots_ok, w'. simpl. rewrite length_insert. auto.
  - intros j G c _ Hj Hd. unfold w' in Hd. simpl in Hd.
    rewrite rd_insert in Hd by exact Hr.
    destruct (Z.eqb_spec i j) as [E|E]; [discriminate|].
    apply I7; [congruence | exact Hj | exact Hd].
  - intros j Hd. unfold w' in Hd. simpl in Hd.
    rewrite rd_insert in Hd by exact Hr.
    destruct (Z.eqb_spec i j) as [E|E].
    + exists F. rewrite <- E. apply Hi.
    + apply I8. exact Hd.
Qed.

Lemma mark_contents : same_contents w w'.
Proof. unfold same_contents, w'. simpl. auto. Qed.

End Mark.

(** ** Taking a clean buffer away from its file *)

Section Release.

Variables (w : world) (i : Z).
Hypothesis HI : Inv w.
Hypothesis Hr : 0 <= i < NIOBUF.
Hypothesis Hclean : rd (dirty w) i = Some false.

Let w' := set_bufptr (<[Z.to_nat i := None]> (bufptr w)) w.

Lemma release_holds (j : Z) (G : nat) (c : Z) :
  holds w' j G c <-> j <> i /\ holds w j G c.
Proof.
  destruct (inv_slots _ _ HI) as (L1 & L2 & _).
  unfold holds, w'. simpl. rewrite rd_insert by lia.
  destruct (Z.eqb_spec i j) as [E|E].
  - split; [intros [H _]; discriminate | intros [H _]; congruence].
  - split; [intros H; split; [congruence | exact H] | intros [_ H]; exact H].
Qed.

Lemma release_inv : Inv w'.
Proof.
  pose proof HI as [[L1 [L2 [L3 [L4 L5]]]] I2 I3 I4 I5 I6 I7 I8 I9 I10].
  split; try exact I2; try exact I3; try exact I4; try exact I10;
    try (intros G; destruct (I9 G) as [F1 F2 F3 F4]; split; assumption).
  - unfold slots_ok, w'. simpl. rewrite length_insert. auto.
  - intros j k G c Hj Hk. apply release_holds in Hj as [_ Hj], Hk as [_ Hk].
    eapply I5; eassumption.
  - intros j G c Hj. apply release_holds in Hj as [_ Hj].
    apply (I6 j G c Hj).
  - intros j G c Hs Hj Hd. apply release_holds in Hj as [_ Hj].
    apply (I7 j G c Hs Hj Hd).
  - intros j Hd. unfold w'. simpl. rewrite rd_insert by lia.
    destruct (Z.eqb_spec i j) as [E|E].
    + change (dirty w') with (dirty w) in Hd. congruence.
    + apply I8. exact Hd.
Qed.

Lemma release_views : views_kept w w'.
Proof.
  intros G c x [(j & Hj & Hx)|(Hno & Hrest)].
  - destruct (Z.eq_dec j i) as [->|Hne].
    + destruct (inv_clean _ _ HI i G c (fun H => H) Hj Hclean) as [Hsz Hdisk].
      right. split; [|split; [apply (inv_owned _ _ HI i G c Hj)|]].
      * intros k Hk. apply release_holds in Hk as [Hki Hk].
        apply Hki. eapply (inv_unique _ _ HI); eassumption.
      * split; [exact Hsz|].
        rewrite Hx in Hdisk. injection Hdisk as ->. reflexivity.
    + left. exists j. split; [|exact Hx].
      apply release_holds. split; assumption.
  - right. split; [|exact Hrest].
    intros k Hk. apply release_holds in Hk as [_ Hk]. exact (Hno k Hk).
Qed.

End Release.


(** * Flushing a file *)

(** A loop over [a, a + n) with an invariant that knows the index. *)
Lemma wp_for_status_from (J : Z -> Z -> world -> Prop) (n : nat) :
  forall (a : Z) body st w,
    J a st w ->
    (forall ii st w, a <= ii < a + Z.of_nat n -> J ii st w ->
                     wp (body ii st) (J (ii + 1)) w) ->
    wp (for_status (seqZ a (Z.of_nat n)) body st) (J (a + Z.of_nat n)) w.
Proof.
  induction n as [|n IH]; intros a body st w H0 Hstep.
  - simpl. rewrite Z.add_0_r. exact H0.
  - rewrite seqZ_cons by lia. simpl for_status.
    eapply wp_bind_wp; [apply Hstep; [lia | exact H0]|].
    cbv beta. intros st1 w1 H1.
    replace (Z.pred (Z.of_nat (S n))) with (Z.of_nat n) by lia.
    replace (a + Z.of_nat (S n)) with (Z.succ a + Z.of_nat n) by lia.
    apply IH.
    + replace (Z.succ a) with (a + 1) by lia. exact H1.
    + intros ii st2 w2 Hii. apply Hstep. lia.
Qed.

Lemma wp_for_status_slots (J : Z -> Z -> world -> Prop) body st w :
  J 0 st w ->
  (forall ii st w, 0 <= ii < NIOBUF -> J ii st w ->
                   wp (body ii st) (J (ii + 1)) w) ->
  wp (for_status (seqZ 0 NIOBUF) body st) (J NIOBUF) w.
Proof.
  intros H0 Hstep. pose proof NIOBUF_pos.
  replace NIOBUF with (Z.of_nat (Z.to_nat NIOBUF)) at 1 by lia.
  replace (J NIOBUF) with (J (0 + Z.of_nat (Z.to_nat NIOBUF)))
    by (f_equal; lia).
  apply wp_for_status_from; [exact H0|].
  intros ii st1 w1 Hii. apply Hstep. lia.
Qed.

Lemma same_hdu_refl (f : FITSfile) : same_hdu f f.
Proof. unfold same_hdu. auto. Qed.

Lemma same_hdu_trans (f g h : FITSfile) :
  same_hdu f g -> same_hdu g h -> same_hdu f h.
Proof.
  unfold same_hdu. intros (A1 & A2 & A3 & A4) (B1 & B2 & B3 & B4).
  rewrite B1, B2, B3, B4. auto.
Qed.

Lemma same_meta_hdu (f g : FITSfile) : same_meta f g -> same_hdu f g.
Proof. unfold same_meta, same_hdu. intuition. Qed.

Lemma flushing_refl (F : nat) (w : world) : Inv w -> flushing F w w.
Proof.
  intros HI. split.
  - exact HI.
  - apply views_kept_refl.
  - auto.
  - intros c Hc1 Hc2 _. pose proof IOBUFLEN_pos. nia.
  - intros B HB _. exact HB.
  - intros G. apply same_hdu_refl.
Qed.

Lemma flushing_written (F : nat) (w wj w' : world) (i c : Z) :
  Inv w -> flushing F w wj -> holds wj i F c -> written_back wj i F c w' ->
  flushing F w w'.
Proof.
  intros HI0 [J1 J2 J3 J4 J5 J6] Hi [W1 W2 W3 W4 W5 W6 W7 W8 W9 W10 W11].
  pose proof IOBUFLEN_pos as HL.
  destruct (fo_size _ _ (inv_files _ _ HI0 F)) as (m0 & Hm0 & Hs0).
  destruct (fo_size _ _ (inv_files _ _ J1 F)) as (mj & Hmj & Hsj).
  split.
  - exact W1.
  - eapply views_kept_trans; eassumption.
  - intros j G d Hj. apply J3. apply (holds_same_pool wj w' j G d W2). exact Hj.
  - intros d Hd1 Hd2 Hno.
    assert (Hnoj : forall j, ~ holds wj j F d).
    { intros j Hj. exact (Hno j (J3 j F d Hj)). }
    assert (Hno' : forall j, ~ holds w' j F d).
    { intros j Hj. apply (Hnoj j).
      apply (holds_same_pool wj w' j F d W2). exact Hj. }
    destruct (Z.le_gt_cases ((d + 1) * IOBUFLEN) (filesize (files wj F)))
      as [Hin|Hout].
    + assert (Hv : views wj F d zeros).
      { right. split; [exact Hnoj|]. split; [rewrite Hs0 in Hd1; nia|].
        split; [exact Hin|].
        symmetry. apply J4; assumption. }
      apply W8 in Hv. destruct Hv as [(j & Hj & _)|(_ & _ & _ & Hz)].
      * destruct (Hno' j Hj).
      * symmetry. exact Hz.
    + apply W9; [|exact Hd2 | exact Hnoj].
      rewrite Hsj in *. assert (mj <= d) by nia. nia.
  - intros B HB Hall. rewrite W7.
    specialize (J5 B HB Hall). specialize (Hall i c (J3 i F c Hi)). lia.
  - intros G. eapply same_hdu_trans; [apply J6|].
    destruct (Nat.eq_dec G F) as [->|HG].
    + apply same_meta_hdu. exact W6.
    + destruct (W5 G HG) as [-> _]. apply same_hdu_refl.
Qed.

Lemma flushing_release (F : nat) (w wj : world) (i : Z) :
  flushing F w wj -> 0 <= i < NIOBUF -> rd (dirty wj) i = Some false ->
  flushing F w (set_bufptr (<[Z.to_nat i := None]> (bufptr wj)) wj).
Proof.
  intros [J1 J2 J3 J4 J5 J6] Hi Hc. split.
  - apply release_inv; assumption.
  - eapply views_kept_trans; [exact J2|]. apply release_views; assumption.
  - intros j G d Hj. apply (release_holds wj i J1 Hi) in Hj as [_ Hj].
    apply J3. exact Hj.
  - exact J4.
  - exact J5.
  - exact J6.
Qed.

(** The contract of [ffflsh]. *)
Lemma ffflsh_spec (fptr : fitsfile) (clearbuf : Z) (w : world) :
  Inv w ->
  wp (ffflsh fptr clearbuf 0)
     (fun st w' =>
        st = 0 /\ flushing (Fptr fptr) w w'
        /\ (forall i c, holds w' i (Fptr fptr) c ->
                        clearbuf = 0 /\ rd (dirty w') i = Some false)) w.
Proof.
  intros HI. set (F := Fptr fptr). unfold ffflsh. fold F.
  eapply wp_bind_wp.
  { apply (wp_for_status_slots
             (fun ii st wj =>
                st = 0 /\ flushing F w wj
                /\ (forall i c, 0 <= i < ii -> holds wj i F c ->
                                clearbuf = 0 /\ rd (dirty wj) i = Some false))).
    - split; [reflexivity|]. split; [apply flushing_refl; exact HI|].
      intros i c Hi. lia.
    - intros ii st wj Hii (-> & HJ & Hdone).
      pose proof (fl_inv _ _ _ HJ) as HIj.
      destruct (inv_slots _ _ HIj) as (L1 & L2 & L3 & L4 & L5).
      destruct (rd_in_range (bufptr wj) ii) as [owner Ho]; [lia|].
      eapply wp_bind, wp_rdM; [exact Ho|].
      assert (Hskip : (forall c, ~ holds wj ii F c) ->
                      0 = 0 /\ flushing F w wj
                      /\ (forall i c, 0 <= i < ii + 1 -> holds wj i F c ->
                            clearbuf = 0 /\ rd (dirty wj) i = Some false)).
      { intros Hno. split; [reflexivity|]. split; [exact HJ|].
        intros i c Hi Hh. destruct (Z.eq_dec i ii) as [->|Hne].
        - destruct (Hno c Hh).
        - apply (Hdone i c); [lia | exact Hh]. }
      destruct owner as [G|].
      + destruct (Nat.eqb_spec G F) as [->|HG].
        * destruct (rd_in_range (bufrecnum wj) ii) as [c Hc]; [lia|].
          assert (Hh : holds wj ii F c) by (split; assumption).
          destruct (rd_in_range (dirty wj) ii) as [d Hd]; [lia|].
          eapply wp_bind, wp_rdM; [exact Hd|].
          (* the buffer is written if it is dirty *)
          assert (Hw : wp (if d then ffbfwt ii 0 else ret 0)
                          (fun st w1 =>
                             st = 0 /\ flushing F w w1 /\ same_pool wj w1
                             /\ rd (dirty w1) ii = Some false
                             /\ (forall i, rd (dirty wj) i = Some false ->
                                           rd (dirty w1) i = Some false)) wj).
          { destruct d.
            - eapply wp_mono; [apply (ffbfwt_spec wj ii F c HIj Hh)|].
              cbv beta. intros st w1 [-> W]. split; [reflexivity|].
              split; [eapply flushing_written; eassumption|].
              split; [apply (wb_pool _ _ _ _ _ W)|].
              split; [apply (wb_clean _ _ _ _ _ W)|].
              intros i Hi. destruct (wb_dirty _ _ _ _ _ W i) as [E|[E _]];
                congruence.
            - apply wp_ret. split; [reflexivity|]. split; [exact HJ|].
              split; [apply same_pool_refl|]. auto. }
          eapply wp_bind_wp; [exact Hw|]. cbv beta.
          intros st w1 (-> & HJ1 & Hsp & Hcl & Hkeep).
          pose proof (fl_inv _ _ _ HJ1) as HI1.
          destruct (inv_slots _ _ HI1) as (M1 & M2 & M3 & M4 & M5).
          destruct (Z.eqb_spec clearbuf 0) as [Hcb|Hcb].
          -- apply wp_bind, wp_ret. apply wp_ret.
             split; [reflexivity|]. split; [exact HJ1|].
             intros i d' Hi Hh'. split; [exact Hcb|].
             destruct (Z.eq_dec i ii) as [->|Hne]; [exact Hcl|].
             apply Hkeep.
             apply (holds_same_pool wj w1 i F d' Hsp) in Hh'.
             apply (Hdone i d'); [lia | exact Hh'].
          -- apply wp_bind. apply wp_put_bufptr; [lia|]. apply wp_ret.
             split; [reflexivity|].
             split; [apply flushing_release; assumption|].
             intros i d' Hi Hh'.
             apply (release_holds w1 ii HI1 Hii) in Hh' as [Hne Hh'].
             apply (holds_same_pool wj w1 i F d' Hsp) in Hh'.
             destruct (Hdone i d') as [E _]; [lia | exact Hh' | contradiction].
        * apply wp_ret. apply Hskip. intros c [Hp _]. congruence.
      + apply wp_ret. apply Hskip. intros c [Hp _]. congruence. }
  cbv beta. intros st w' (-> & HJ & Hdone).
  apply wp_bind, wp_ret. apply wp_ret.
  split; [reflexivity|]. split; [exact HJ|].
  intros i c Hh. apply (Hdone i c); [|exact Hh].
  apply (holds_range w' i F c (inv_slots _ _ (fl_inv _ _ _ HJ)) Hh).
Qed.


(** * Seeking and writing through the current buffer *)

Lemma loaded_refl (w : world) (F : nat) (b : Z) :
  Inv w -> holds w (curbuf (files w F)) F b -> loaded w F b w.
Proof.
  intros HI Hh. split.
  - exact HI.
  - exact Hh.
  - apply views_kept_refl.
  - auto.
  - unfold same_hdu. auto.
  - lia.
  - reflexivity.
Qed.

Lemma loaded_same_cache (w w' w'' : world) (F : nat) (b : Z) :
  loaded w F b w' -> same_cache w' w'' ->
  curbuf (files w'' F) = curbuf (files w' F) ->
  same_hdu (files w' F) (files w'' F) ->
  loaded w F b w''.
Proof.
  intros [H1 H2 H3 H4 H5 H6 H7] Hsc Hcur Hhdu.
  pose proof Hsc as (_ & _ & _ & _ & _ & _ & Ef & _).
  destruct (Ef F) as (Es & El & _).
  split.
  - eapply same_cache_inv; eassumption.
  - rewrite Hcur. apply (same_cache_holds w' w'' _ _ _ Hsc). exact H2.
  - eapply views_kept_trans; [exact H3|].
    apply same_cache_views_kept. exact Hsc.
  - intros i G c Hi. rewrite Hcur. apply H4.
    apply (same_cache_holds w' w'' _ _ _ Hsc). exact Hi.
  - destruct H5 as (A1 & A2 & A3 & A4), Hhdu as (B1 & B2 & B3 & B4).
    unfold same_hdu. rewrite B1, B2, B3, B4. auto.
  - rewrite El. exact H6.
  - intros Hall. rewrite Es. apply H7. exact Hall.
Qed.

(** What a successful load leaves is fit for the next one. *)
Lemma loaded_loadable (w w' : world) (F : nat) (b : Z) :
  loaded w F b w' -> loadable w' F.
Proof.
  intros H. right.
  pose proof (holds_range w' _ F b (inv_slots _ _ (ld_inv _ _ _ _ H))
                (ld_cur _ _ _ _ H)). lia.
Qed.

Lemma loaded_no_drift (fptr : fitsfile) (w w' : world) (b : Z) :
  no_drift fptr w -> loaded w (Fptr fptr) b w' -> no_drift fptr w'.
Proof.
  unfold no_drift. intros H Hl.
  destruct (ld_hdu _ _ _ _ Hl) as (-> & _). exact H.
Qed.

Lemma cur_ok_range (w : world) (F : nat) (b : Z) :
  slots_ok w -> cur_ok w F b -> 0 <= curbuf (files w F) < NIOBUF.
Proof.
  intros (_ & _ & L3 & _) (cur & Hc & _). apply rd_range in Hc. lia.
Qed.

Section SeekSpec.

Variable ffmahd : fitsfile -> Z -> Z -> M Z.

(** The contract of a successful [ffmbyt]. *)
Lemma ffmbyt_spec (fptr : fitsfile) (pos mode : Z) (w : world) :
  Inv w -> no_drift fptr w -> 0 <= pos ->
  cur_ok w (Fptr fptr) (Z.quot pos IOBUFLEN) ->
  (mode = REPORT_EOF ->
   (exists i, holds w i (Fptr fptr) (Z.quot pos IOBUFLEN))
   \/ Z.quot pos IOBUFLEN * IOBUFLEN < logfilesize (files w (Fptr fptr))) ->
  wp (ffmbyt ffmahd fptr pos mode 0)
     (fun st w' => st = 0
                   /\ loaded w (Fptr fptr) (Z.quot pos IOBUFLEN) w'
                   /\ bytepos (files w' (Fptr fptr)) = pos) w.
Proof.
  intros HI Hnd Hpos Hcur Heof. set (F := Fptr fptr) in *.
  set (b := Z.quot pos IOBUFLEN) in *.
  pose proof IOBUFLEN_pos as HL.
  assert (Hb : 0 <= b) by (apply Z.quot_pos; lia).
  pose proof (cur_ok_range w F b (inv_slots _ _ HI) Hcur) as Hrange.
  destruct Hcur as (cur & Hc & Hown).
  unfold ffmbyt. cbv zeta. fold F b.
  change (Z.ltb 0 0) with false. cbv iota.
  destruct (Z.ltb_spec pos 0) as [?|_]; [lia|].
  eapply wp_bind_run; [apply sync_hdu_no_drift; exact Hnd|].
  apply wp_bind, wp_file_of.
  eapply wp_bind, wp_rdM; [exact Hc|].
  assert (Hfin : forall w1,
             loaded w F b w1 -> bytepos (files w1 F) = bytepos (files w F) ->
             wp (exec (if Z.ltb 0 0 then ret tt
                       else modify (upd_file F (with_bytepos pos)));
                 ret 0)
                (fun st w' => st = 0 /\ loaded w F b w'
                              /\ bytepos (files w' F) = pos) w1).
  { intros w1 Hl _. change (Z.ltb 0 0) with false. cbv iota.
    apply wp_bind, wp_modify. apply wp_ret. split; [reflexivity|].
    split.
    - eapply loaded_same_cache; [exact Hl| | |].
      + apply upd_file_same_cache. intros f. simpl. auto.
      + rewrite upd_file_at. reflexivity.
      + rewrite upd_file_at. unfold same_hdu. simpl. auto.
    - rewrite upd_file_at. reflexivity. }
  destruct (Z.eqb_spec b cur) as [E|E].
  - apply wp_bind, wp_ret. apply Hfin; [|reflexivity].
    apply loaded_refl; [exact HI|].
    split; [apply Hown; congruence | congruence].
  - eapply wp_bind_wp.
    { apply (ffldrc_spec ffmahd fptr b mode w HI Hnd Hb); [|exact Heof].
      right. exact Hrange. }
    cbv beta. intros st w1 (-> & Hl & Hbp). apply Hfin; assumption.
Qed.

Lemma ffpbyt_loop_S (fuel : nat) (fptr : fitsfile) (ntodo : Z)
    (cptr : list byte) (bufpos nspace status : Z) :
  ffpbyt_loop ffmahd (S fuel) fptr ntodo cptr bufpos nspace status
  = (if Z.eqb ntodo 0 then ret status
     else
       let nwrite := Z.min ntodo nspace in
       do Ff <- file_of (Fptr fptr);
       do buf <- rdM iobuffer (curbuf Ff);
       do buf' <- lift (memcpy_to buf bufpos cptr nwrite);
       exec put_iobuffer (curbuf Ff) buf';
       exec modify (upd_file (Fptr fptr) (with_bytepos (bytepos Ff + nwrite)));
       exec put_dirty (curbuf Ff) true;
       if Z.eqb (ntodo - nwrite) 0 then ret status
       else
         do Ff1 <- file_of (Fptr fptr);
         do status1 <- ffldrc ffmahd fptr (Z.quot (bytepos Ff1) IOBUFLEN)
                              IGNORE_EOF status;
         ffpbyt_loop ffmahd fuel fptr (ntodo - nwrite) (advance cptr nwrite)
                     0 IOBUFLEN status1).
Proof. reflexivity. Qed.

Lemma memcpy_to_all (buf data : list byte) :
  length buf = length data ->
  memcpy_to buf 0 data (Z.of_nat (length data)) = Some data.
Proof.
  intros Hl. unfold memcpy_to.
  replace (_ && _ && _ && _)%bool with true.
  - rewrite Z.add_0_l, Nat2Z.id. change (Z.to_nat 0) with 0%nat.
    rewrite take_0, take_ge, drop_ge by lia. rewrite app_nil_r. reflexivity.
  - symmetry. rewrite !andb_true_iff, !Z.leb_le. lia.
Qed.

(** One whole record written at the start of the current buffer. *)
Lemma ffpbyt_block (fptr : fitsfile) (data : list byte) (k : Z) (w : world) :
  Inv w -> no_drift fptr w ->
  holds w (curbuf (files w (Fptr fptr))) (Fptr fptr) k ->
  bytepos (files w (Fptr fptr)) = k * IOBUFLEN ->
  Z.of_nat (length data) = IOBUFLEN ->
  wp (ffpbyt ffmahd fptr IOBUFLEN data 0)
     (fun st w' =>
        st = 0 /\ Inv w' /\ views w' (Fptr fptr) k data
        /\ (forall i G c, holds w' i G c <-> holds w i G c)
        /\ (forall G, filesize (files w' G) = filesize (files w G))) w.
Proof.
  intros HI Hnd Hh Hbp Hlen. set (F := Fptr fptr) in *.
  pose proof IOBUFLEN_pos as HL.
  set (cur := curbuf (files w F)) in *.
  pose proof (holds_range w cur F k (inv_slots _ _ HI) Hh) as Hr.
  destruct (inv_slots _ _ HI) as (L1 & L2 & L3 & L4 & L5).
  destruct (rd_in_range (iobuffer w) cur) as [buf Hbuf]; [lia|].
  pose proof (inv_bufs _ _ HI cur buf Hbuf) as Hbl.
  unfold ffpbyt. change (Z.ltb 0 0) with false. cbv iota.
  eapply wp_bind_run; [apply sync_hdu_no_drift; exact Hnd|].
  destruct (Z.leb_spec MINDIRECT IOBUFLEN) as [Hbig|_];
    [rewrite MINDIRECT_eq in Hbig; lia|].
  apply wp_bind, wp_file_of. fold F cur.
  eapply wp_bind, wp_rdM; [exact (proj2 Hh)|].
  rewrite Hbp. replace (k * IOBUFLEN - k * IOBUFLEN) with 0 by lia.
  replace (IOBUFLEN - 0) with IOBUFLEN by lia.
  rewrite ffpbyt_loop_S. fold F.
  destruct (Z.eqb_spec IOBUFLEN 0) as [?|_]; [lia|].
  cbv zeta. rewrite Z.min_id.
  replace (IOBUFLEN - IOBUFLEN) with 0 by lia.
  change (Z.eqb 0 0) with true. cbv iota.
  apply wp_bind, wp_file_of. fold cur.
  eapply wp_bind, wp_rdM; [exact Hbuf|].
  eapply wp_bind, wp_lift.
  { rewrite <- Hlen. apply memcpy_to_all. lia. }
  apply wp_bind. apply wp_put_iobuffer; [lia|].
  apply wp_bind, wp_modify.
  apply wp_bind. apply wp_put_dirty; [simpl; lia|].
  apply wp_ret. split; [reflexivity|].
  (* the three steps, one after the other *)
  set (w1 := set_iobuffer (<[Z.to_nat cur := data]> (iobuffer w)) w).
  set (w2 := upd_file F (with_bytepos (bytepos (files w F) + IOBUFLEN)) w1).
  assert (HX : InvX (eq cur) w)
    by (eapply InvX_weaken; [|exact HI]; intros j []).
  assert (HX1 : InvX (eq cur) w1) by (apply (poke_inv w cur F k data HX Hh Hlen)).
  assert (Hc12 : same_cache w1 w2).
  { apply upd_file_same_cache. intros f. simpl. auto. }
  assert (HX2 : InvX (eq cur) w2) by (eapply same_cache_inv; eassumption).
  assert (Hh2 : holds w2 cur F k).
  { apply (same_cache_holds w1 w2 _ _ _ Hc12). exact Hh. }
  split; [exact (mark_inv w2 cur F k HX2 Hh2)|].
  split.
  - apply (same_contents_views w2 _ F k data (mark_contents w2 cur)).
    apply (same_cache_views w1 w2 F k data Hc12).
    apply (poke_view w cur F k data HX Hh).
  - split; [intros i G c; reflexivity|].
    intros G. simpl. unfold upd.
    destruct (Nat.eqb_spec G F) as [->|]; reflexivity.
Qed.

End SeekSpec.


(** * Strided transfers *)

(** ** [memcpy] on lists *)

Lemma memcpy_to_Some (buf src : list byte) (off n : Z) :
  0 <= n -> 0 <= off -> off + n <= Z.of_nat (length buf) ->
  n <= Z.of_nat (length src) ->
  memcpy_to buf off src n
  = Some (take (Z.to_nat off) buf ++ take (Z.to_nat n) src
          ++ drop (Z.to_nat (off + n)) buf).
Proof.
  intros H1 H2 H3 H4. unfold memcpy_to.
  replace (_ && _ && _ && _)%bool with true; [reflexivity|].
  symmetry. rewrite !andb_true_iff, !Z.leb_le. lia.
Qed.

Section MemcpyTo.

Variables (buf src : list byte) (off n : Z).
Hypothesis Hn : 0 <= n.
Hypothesis Hoff : 0 <= off.
Hypothesis Hfit : off + n <= Z.of_nat (length buf).
Hypothesis Hsrc : n <= Z.of_nat (length src).

Let buf' := take (Z.to_nat off) buf ++ take (Z.to_nat n) src
            ++ drop (Z.to_nat (off + n)) buf.

Lemma memcpy_to_length : length buf' = length buf.
Proof.
  unfold buf'. rewrite !length_app, !length_take, length_drop. lia.
Qed.

Lemma memcpy_to_inside (t : Z) :
  0 <= t < n -> buf' !! Z.to_nat (off + t) = src !! Z.to_nat t.
Proof.
  intros Ht. unfold buf'.
  rewrite lookup_app_r by (rewrite length_take; lia).
  rewrite length_take.
  replace (Z.to_nat (off + t) - Z.to_nat off `min` length buf)%nat
    with (Z.to_nat t) by lia.
  rewrite lookup_app_l by (rewrite length_take; lia).
  apply lookup_take_lt. lia.
Qed.

Lemma memcpy_to_outside (o : Z) :
  0 <= o -> o < off \/ off + n <= o ->
  buf' !! Z.to_nat o = buf !! Z.to_nat o.
Proof.
  intros Ho [Hlt|Hge]; unfold buf'.
  - rewrite lookup_app_l by (rewrite length_take; lia).
    apply lookup_take_lt. lia.
  - rewrite lookup_app_r by (rewrite length_take; lia).
    rewrite lookup_app_r by (rewrite !length_take; lia).
    rewrite !length_take, lookup_drop. f_equal. lia.
Qed.

End MemcpyTo.

Lemma memcpy_from_Some (buf : list byte) (off n : Z) :
  0 <= n -> 0 <= off -> off + n <= Z.of_nat (length buf) ->
  memcpy_from buf off n = Some (take (Z.to_nat n) (drop (Z.to_nat off) buf)).
Proof.
  intros H1 H2 H3. unfold memcpy_from.
  replace (_ && _ && _)%bool with true; [reflexivity|].
  symmetry. rewrite !andb_true_iff, !Z.leb_le. lia.
Qed.

(** ** Offsets and records *)

Lemma offset_split (r o : Z) :
  0 <= o < IOBUFLEN ->
  (r * IOBUFLEN + o) / IOBUFLEN = r /\ (r * IOBUFLEN + o) mod IOBUFLEN = o.
Proof.
  intros Ho. split.
  - symmetry. apply (Z.div_unique _ _ r o); lia.
  - symmetry. apply (Z.mod_unique _ _ r o); lia.
Qed.

Lemma stream_off_mono (pos gsize gap n n' : Z) :
  0 < gsize -> 0 <= gap -> n < n' ->
  stream_off pos gsize gap n < stream_off pos gsize gap n'.
Proof.
  intros Hg Hgap Hlt. unfold stream_off.
  assert (n / gsize <= n' / gsize) by (apply Z.div_le_mono; lia). nia.
Qed.

Lemma stream_off_group (pos gsize gap k j : Z) :
  0 < gsize -> 0 <= j < gsize ->
  stream_off pos gsize gap (k * gsize + j) = pos + k * (gsize + gap) + j.
Proof.
  intros Hg Hj. unfold stream_off.
  replace ((k * gsize + j) / gsize) with k.
  - ring.
  - apply (Z.div_unique _ _ k j); lia.
Qed.

(** The record and the offset that the loops compute when the cursor
    has left its record. *)
Lemma reload_pos (io : Z) :
  IOBUFLEN <= io ->
  Z.quot io IOBUFLEN * IOBUFLEN + Z.rem (io - IOBUFLEN) IOBUFLEN = io
  /\ 0 <= Z.rem (io - IOBUFLEN) IOBUFLEN < IOBUFLEN
  /\ 1 <= Z.quot io IOBUFLEN.
Proof.
  intros Hio. pose proof IOBUFLEN_pos as HL.
  rewrite Z.quot_div_nonneg, Z.rem_mod_nonneg by lia.
  replace (io - IOBUFLEN) with (io + (-1) * IOBUFLEN) by lia.
  rewrite Z_mod_plus_full.
  pose proof (Z.div_mod io IOBUFLEN ltac:(lia)).
  pose proof (Z.mod_pos_bound io IOBUFLEN HL).
  assert (1 <= io / IOBUFLEN) by (apply Z.div_le_lower_bound; lia).
  lia.
Qed.

Lemma wp_bind_assoc {A B C : Type} (m : M A) (f : A -> M B) (k : B -> M C)
    (Q : C -> world -> Prop) (w : world) :
  wp (bind (bind m f) k) Q w -> wp (bind m (fun a => bind (f a) k)) Q w.
Proof.
  unfold wp, bind. destruct (m w) as [[a w1]|]; [|auto]. auto.
Qed.

Lemma wp_group_loop (J : Z -> cursor -> world -> Prop)
    (body : cursor -> M cursor) (n : nat) :
  forall k0 c w,
    J k0 c w ->
    (forall k c w, k0 <= k < k0 + Z.of_nat n -> J k c w ->
                   wp (body c) (J (k + 1)) w) ->
    wp (group_loop body n c) (J (k0 + Z.of_nat n)) w.
Proof.
  induction n as [|n IH]; intros k0 c w H0 Hstep.
  - simpl. rewrite Z.add_0_r. exact H0.
  - cbn [group_loop].
    eapply wp_bind_wp; [apply (Hstep k0); [lia | exact H0]|].
    cbv beta. intros c1 w1 H1.
    replace (k0 + Z.of_nat (S n)) with ((k0 + 1) + Z.of_nat n) by lia.
    apply IH; [exact H1|].
    intros k c2 w2 Hk. apply Hstep. lia.
Qed.

(** ** The steps of the group loops *)

Section GroupSteps.

Variable ffmahd : fitsfile -> Z -> Z -> M Z.
Variable fptr : fitsfile.

Lemma cursor_at_frame (p : Z) (c : cursor) (w w' : world) :
  cursor_at fptr p c w -> same_contents w w' ->
  curbuf (files w' (Fptr fptr)) = curbuf (files w (Fptr fptr)) ->
  curhdu (files w' (Fptr fptr)) = curhdu (files w (Fptr fptr)) ->
  cursor_at fptr p c w'.
Proof.
  intros [C1 C2 C3 C4 C5 C6] Hs Hc Hh. split; try assumption.
  - rewrite Hc. exact C4.
  - apply (same_contents_holds w w' _ _ _ Hs). exact C5.
  - unfold no_drift. rewrite Hh. exact C6.
Qed.

(** [memcpy(ioptr, cptr, n); cptr += n]. *)
Lemma put_group_bytes_spec (p : Z) (c : cursor) (n : Z) (w : world) :
  cursor_at fptr p c w -> InvX (eq (bcurrent c)) w ->
  0 <= n -> ioptr c + n <= IOBUFLEN -> n <= Z.of_nat (length (cptr c)) ->
  wp (put_group_bytes c n)
     (fun c1 w1 =>
        c1 = mkCursor (bcurrent c) (record c) (nspace c) (ioptr c)
                      (drop (Z.to_nat n) (cptr c)) (cstatus c)
        /\ cursor_at fptr p c w1 /\ InvX (eq (bcurrent c)) w1
        /\ bytepos (files w1 (Fptr fptr)) = bytepos (files w (Fptr fptr))
        /\ (forall t v, 0 <= t < n -> cptr c !! Z.to_nat t = Some v ->
                        byte_at w1 (Fptr fptr) (p + t) v)
        /\ (forall q v, q < p \/ p + n <= q ->
                        byte_at w (Fptr fptr) q v -> byte_at w1 (Fptr fptr) q v)) w.
Proof.
  intros Hc HX Hn Hfit Hsrc. pose proof IOBUFLEN_pos as HL.
  pose proof Hc as [C1 C2 C3 C4 C5 C6].
  destruct (inv_slots _ _ HX) as (L1 & L2 & L3 & L4 & L5).
  pose proof (holds_range w _ (Fptr fptr) _ (inv_slots _ _ HX) C5) as Hr.
  destruct (rd_in_range (iobuffer w) (bcurrent c)) as [buf Hbuf]; [lia|].
  pose proof (inv_bufs _ _ HX _ buf Hbuf) as Hbl.
  unfold put_group_bytes.
  eapply wp_bind, wp_rdM; [exact Hbuf|].
  eapply wp_bind, wp_lift; [apply memcpy_to_Some; lia|].
  set (buf' := take (Z.to_nat (ioptr c)) buf ++ take (Z.to_nat n) (cptr c)
               ++ drop (Z.to_nat (ioptr c + n)) buf).
  assert (Hbl' : Z.of_nat (length buf') = IOBUFLEN).
  { unfold buf'. rewrite memcpy_to_length by lia. exact Hbl. }
  apply wp_bind. apply wp_put_iobuffer; [lia|]. apply wp_ret.
  set (w1 := set_iobuffer (<[Z.to_nat (bcurrent c) := buf']> (iobuffer w)) w).
  pose proof (poke_view w _ (Fptr fptr) _ buf' HX C5) as Hview. fold w1 in Hview.
  split; [reflexivity|].
  split; [split; assumption|].
  split; [exact (poke_inv w _ (Fptr fptr) _ buf' HX C5 Hbl')|].
  split; [reflexivity|]. split.
  - intros t v Ht Hv.
    destruct (offset_split (record c) (ioptr c + t)) as [Ed Em]; [lia|].
    exists buf'. replace (p + t) with (record c * IOBUFLEN + (ioptr c + t)) by lia.
    rewrite Ed, Em. split; [exact Hview|].
    unfold buf'. rewrite memcpy_to_inside by lia. exact Hv.
  - intros q v Hq (x & Hx & Hv).
    destruct (Z.eq_dec (q / IOBUFLEN) (record c)) as [E|E].
    + unfold byte_at. rewrite E in Hx |- *.
      pose proof (views_cached _ w _ (Fptr fptr) _ x HX C5 Hx) as Hxb.
      rewrite Hbuf in Hxb. injection Hxb as <-.
      exists buf'. split; [exact Hview|].
      pose proof (Z.mod_pos_bound q IOBUFLEN HL) as Hm.
      pose proof (Z.div_mod q IOBUFLEN ltac:(lia)) as Hdm.
      unfold buf'. rewrite memcpy_to_outside; [exact Hv | lia.. |].
      rewrite E in Hdm. lia.
    + exists x. split; [|exact Hv].
      apply (poke_views w _ (Fptr fptr) _ buf' HX C5); [right; exact E | exact Hx].
Qed.

(** [ffldrc(fptr, rec, mode, status)] and the new cursor. *)
Lemma next_record_spec (p : Z) (c : cursor) (mode rec off sp : Z) (w : world) :
  cursor_at fptr p c w -> Inv w -> 0 <= rec -> 0 <= off ->
  (mode = REPORT_EOF -> exists x, views w (Fptr fptr) rec x) ->
  wp (next_record ffmahd fptr mode c rec off sp)
     (fun c' w' =>
        c' = mkCursor (curbuf (files w' (Fptr fptr))) rec sp off (cptr c) 0
        /\ cursor_at fptr (rec * IOBUFLEN + off) c' w'
        /\ Inv w'
        /\ bytepos (files w' (Fptr fptr)) = bytepos (files w (Fptr fptr))
        /\ (forall q v, byte_at w (Fptr fptr) q v -> byte_at w' (Fptr fptr) q v))
     w.
Proof.
  intros [C1 C2 C3 C4 C5 C6] HI Hrec Hoff Hmode. pose proof IOBUFLEN_pos as HL.
  pose proof (holds_range w _ _ _ (inv_slots _ _ HI) C5) as Hr.
  unfold next_record. rewrite C1.
  eapply wp_bind_wp.
  { apply (ffldrc_spec ffmahd fptr rec mode w HI C6 Hrec).
    - right. rewrite C4. exact Hr.
    - intros Hm. destruct (Hmode Hm) as [x [(i & Hi & _)|(_ & _ & Hsz & _)]].
      + left. exists i. exact Hi.
      + right. pose proof (fo_log _ _ (inv_files _ _ HI (Fptr fptr))). lia. }
  cbv beta. intros st w' (-> & Hl & Hbp).
  apply wp_bind, wp_file_of. apply wp_ret.
  split; [reflexivity|]. split; [|split; [exact (ld_inv _ _ _ _ Hl)|split]].
  - split; simpl; try reflexivity; try assumption.
    + exact (ld_cur _ _ _ _ Hl).
    + eapply loaded_no_drift; eassumption.
  - exact Hbp.
  - intros q v. apply views_kept_byte_at. exact (ld_views _ _ _ _ Hl).
Qed.

(** [dirty[bcurrent] = TRUE] and then the load of another record. *)
Lemma mark_load_spec (p : Z) (c : cursor) (rec off sp : Z) (w : world) :
  cursor_at fptr p c w -> InvX (eq (bcurrent c)) w -> 0 <= rec -> 0 <= off ->
  wp (exec put_dirty (bcurrent c) true;
      next_record ffmahd fptr IGNORE_EOF c rec off sp)
     (fun c' w' =>
        c' = mkCursor (curbuf (files w' (Fptr fptr))) rec sp off (cptr c) 0
        /\ cursor_at fptr (rec * IOBUFLEN + off) c' w'
        /\ Inv w'
        /\ bytepos (files w' (Fptr fptr)) = bytepos (files w (Fptr fptr))
        /\ (forall q v, byte_at w (Fptr fptr) q v -> byte_at w' (Fptr fptr) q v))
     w.
Proof.
  intros Hc HX Hrec Hoff. pose proof Hc as [C1 C2 C3 C4 C5 C6].
  apply wp_bind. apply wp_put_dirty; [exact (mark_range w _ _ _ HX C5)|].
  set (wm := set_dirty (<[Z.to_nat (bcurrent c) := true]> (dirty w)) w).
  pose proof (mark_contents w (bcurrent c)) as Hsc. fold wm in Hsc.
  eapply wp_mono.
  { apply (next_record_spec p c IGNORE_EOF rec off sp wm).
    - apply (cursor_at_frame p c w wm Hc Hsc); reflexivity.
    - exact (mark_inv w _ _ _ HX C5).
    - exact Hrec.
    - exact Hoff.
    - discriminate. }
  cbv beta. intros c' w' (E & Hc' & HI' & Hbp & Hkeep).
  repeat (split; [assumption|]).
  intros q v Hq. apply Hkeep.
  apply (same_contents_byte_at w wm _ q v Hsc). exact Hq.
Qed.

(** ** One chunk of a group *)

Section Chunk.

Variables (pos gsize gap : Z) (src : list byte) (bp : Z).
Hypothesis Hgsize : 1 <= gsize <= IOBUFLEN.
Hypothesis Hgap : 0 <= gap.

(** Moving the cursor inside its record. *)
Lemma cursor_at_move (p : Z) (c : cursor) (w : world) (sp d : Z) :
  cursor_at fptr p c w -> 0 <= d ->
  cursor_at fptr (p + d)
    (mkCursor (bcurrent c) (record c) sp (ioptr c + d) (cptr c) (cstatus c)) w.
Proof.
  intros [C1 C2 C3 C4 C5 C6] Hd. split; simpl; try assumption; lia.
Qed.

Lemma write_chunk (k done n : Z) (c : cursor) (w : world) :
  0 <= k -> 0 <= done < gsize -> 0 <= n -> done + n <= gsize ->
  ioptr c + n <= IOBUFLEN ->
  k * gsize + done + n <= Z.of_nat (length src) ->
  writing fptr pos gsize gap src bp (pos + k * (gsize + gap) + done)
          (k * gsize + done) c w ->
  wp (put_group_bytes c n)
     (fun c1 w1 =>
        c1 = mkCursor (bcurrent c) (record c) (nspace c) (ioptr c)
                      (drop (Z.to_nat n) (cptr c)) (cstatus c)
        /\ writing fptr pos gsize gap src bp (pos + k * (gsize + gap) + done)
                   (k * gsize + done + n) c1 w1) w.
Proof.
  intros Hk Hdone Hn Hdn Hfit Hlen [W1 W2 W3 W4 W5].
  eapply wp_mono.
  { apply (put_group_bytes_spec _ c n w W1 W2 Hn Hfit).
    rewrite W3, length_drop. lia. }
  cbv beta. intros c1 w1 (-> & Hc & HX & Hbp & Hnew & Hold).
  split; [reflexivity|]. split.
  - destruct Hc as [C1 C2 C3 C4 C5 C6]. split; assumption.
  - exact HX.
  - simpl. rewrite W3, drop_drop. f_equal. lia.
  - intros m Hm. destruct (Z.lt_ge_cases m (k * gsize + done)) as [Hlt|Hge].
    + destruct (W4 m ltac:(lia)) as (v & Hv & Hb). exists v.
      split; [exact Hv|]. apply Hold; [|exact Hb]. left.
      rewrite <- (stream_off_group pos gsize gap k done) by lia.
      apply stream_off_mono; lia.
    + destruct (lookup_lt_is_Some_2 src (Z.to_nat m)) as [v Hv]; [lia|].
      exists v. split; [exact Hv|].
      replace m with (k * gsize + (done + (m - (k * gsize + done)))) by lia.
      rewrite stream_off_group by lia.
      replace (pos + k * (gsize + gap) + (done + (m - (k * gsize + done))))
        with (pos + k * (gsize + gap) + done + (m - (k * gsize + done)))
        by lia.
      apply Hnew; [lia|]. rewrite W3, lookup_drop.
      rewrite <- Hv. f_equal. lia.
  - rewrite Hbp. exact W5.
Qed.

Lemma read_chunk (k done n : Z) (c : cursor) (w : world) :
  0 <= k -> 0 <= done < gsize -> 0 <= n -> done + n <= gsize ->
  ioptr c + n <= IOBUFLEN ->
  k * gsize + done + n <= Z.of_nat (length src) ->
  reading fptr pos gsize gap src bp (pos + k * (gsize + gap) + done)
          (k * gsize + done) c w ->
  wp (get_group_bytes c n)
     (fun c1 w1 =>
        w1 = w
        /\ (exists chunk,
              c1 = mkCursor (bcurrent c) (record c) (nspace c) (ioptr c)
                            (cptr c ++ chunk) (cstatus c))
        /\ reading fptr pos gsize gap src bp (pos + k * (gsize + gap) + done)
                   (k * gsize + done + n) c1 w1) w.
Proof.
  intros Hk Hdone Hn Hdn Hfit Hlen [R1 R2 R3 R4 R5].
  pose proof IOBUFLEN_pos as HL.
  pose proof R1 as [C1 C2 C3 C4 C5 C6].
  destruct (inv_slots _ _ R2) as (L1 & L2 & L3 & L4 & L5).
  pose proof (holds_range w _ _ _ (inv_slots _ _ R2) C5) as Hr.
  destruct (rd_in_range (iobuffer w) (bcurrent c)) as [buf Hbuf]; [lia|].
  pose proof (inv_bufs _ _ R2 _ buf Hbuf) as Hbl.
  unfold get_group_bytes.
  eapply wp_bind, wp_rdM; [exact Hbuf|].
  eapply wp_bind, wp_lift; [apply memcpy_from_Some; lia|].
  apply wp_ret. split; [reflexivity|].
  split; [eexists; reflexivity|].
  split; try assumption.
  - split; assumption.
  - simpl. rewrite R3.
    replace (Z.to_nat (k * gsize + done + n))
      with (Z.to_nat (k * gsize + done) + Z.to_nat n)%nat by lia.
    rewrite <- take_take_drop.
    f_equal. apply list_eq. intros t.
    destruct (decide (t < Z.to_nat n)%nat) as [Ht|Ht].
    + rewrite !lookup_take_lt, !lookup_drop by exact Ht.
      destruct (R4 (k * gsize + done + Z.of_nat t) ltac:(lia))
        as (v & Hv & x & Hx & Hxv).
      replace (k * gsize + done + Z.of_nat t)
        with (k * gsize + (done + Z.of_nat t)) in Hx, Hxv by lia.
      rewrite stream_off_group in Hx, Hxv by lia.
      replace (pos + k * (gsize + gap) + (done + Z.of_nat t))
        with (record c * IOBUFLEN + (ioptr c + Z.of_nat t)) in Hx, Hxv by lia.
      destruct (offset_split (record c) (ioptr c + Z.of_nat t)) as [Ed Em];
        [lia|].
      rewrite Ed in Hx. rewrite Em in Hxv.
      pose proof (views_cached _ w _ _ _ x R2 C5 Hx) as Hxb.
      rewrite Hbuf in Hxb. injection Hxb as <-.
      replace (Z.to_nat (ioptr c) + t)%nat
        with (Z.to_nat (ioptr c + Z.of_nat t)) by lia.
      rewrite Hxv, <- Hv. f_equal. lia.
    + rewrite !lookup_take_ge by lia. reflexivity.
Qed.

Lemma writing_move (p N : Z) (c : cursor) (w : world) (sp d : Z) :
  writing fptr pos gsize gap src bp p N c w -> 0 <= d ->
  writing fptr pos gsize gap src bp (p + d) N
    (mkCursor (bcurrent c) (record c) sp (ioptr c + d) (cptr c) (cstatus c)) w.
Proof.
  intros [W1 W2 W3 W4 W5] Hd. split; try assumption.
  apply cursor_at_move; assumption.
Qed.

Lemma reading_move (p N : Z) (c : cursor) (w : world) (sp d : Z) :
  reading fptr pos gsize gap src bp p N c w -> 0 <= d ->
  reading fptr pos gsize gap src bp (p + d) N
    (mkCursor (bcurrent c) (record c) sp (ioptr c + d) (cptr c) (cstatus c)) w.
Proof.
  intros [W1 W2 W3 W4 W5] Hd. split; try assumption.
  apply cursor_at_move; assumption.
Qed.

Lemma stream_written_kept (w w' : world) (N : Z) :
  (forall q v, byte_at w (Fptr fptr) q v -> byte_at w' (Fptr fptr) q v) ->
  stream_written w (Fptr fptr) pos gsize gap src N ->
  stream_written w' (Fptr fptr) pos gsize gap src N.
Proof.
  intros Hk Hs n Hn. destruct (Hs n Hn) as (v & Hv & Hb).
  exists v. split; [exact Hv | apply Hk; exact Hb].
Qed.

(** The cursor after the load of another record. *)
Lemma writing_loaded (p N : Z) (c c' : cursor) (w w' : world) (rec off sp : Z) :
  writing fptr pos gsize gap src bp p N c w ->
  c' = mkCursor (curbuf (files w' (Fptr fptr))) rec sp off (cptr c) 0 ->
  cursor_at fptr (rec * IOBUFLEN + off) c' w' -> Inv w' ->
  bytepos (files w' (Fptr fptr)) = bytepos (files w (Fptr fptr)) ->
  (forall q v, byte_at w (Fptr fptr) q v -> byte_at w' (Fptr fptr) q v) ->
  writing fptr pos gsize gap src bp (rec * IOBUFLEN + off) N c' w'.
Proof.
  intros [W1 W2 W3 W4 W5] E Hc HI Hbp Hk. split.
  - exact Hc.
  - eapply InvX_weaken; [|exact HI]. intros j [].
  - rewrite E. simpl. exact W3.
  - eapply stream_written_kept; eassumption.
  - rewrite Hbp. exact W5.
Qed.

Lemma reading_loaded (p N : Z) (c c' : cursor) (w w' : world) (rec off sp : Z) :
  reading fptr pos gsize gap src bp p N c w ->
  c' = mkCursor (curbuf (files w' (Fptr fptr))) rec sp off (cptr c) 0 ->
  cursor_at fptr (rec * IOBUFLEN + off) c' w' -> Inv w' ->
  bytepos (files w' (Fptr fptr)) = bytepos (files w (Fptr fptr)) ->
  (forall q v, byte_at w (Fptr fptr) q v -> byte_at w' (Fptr fptr) q v) ->
  reading fptr pos gsize gap src bp (rec * IOBUFLEN + off) N c' w'.
Proof.
  intros [W1 W2 W3 W4 W5] E Hc HI Hbp Hk. split.
  - exact Hc.
  - exact HI.
  - rewrite E. simpl. exact W3.
  - eapply stream_written_kept; eassumption.
  - rewrite Hbp. exact W5.
Qed.

Lemma cursor_record_pos (skip : Z -> Prop) (p : Z) (c : cursor) (w : world) :
  cursor_at fptr p c w -> InvX skip w -> 0 <= record c.
Proof.
  intros Hc HX. apply (inv_owned _ _ HX _ _ _ (cu_holds _ _ _ _ Hc)).
Qed.

(** *** Writing *)

(** The end of a turn of the loop of [ffpbytoff]: the record of the
    next group is loaded if the cursor has left the current one. *)
Lemma write_tail (p N : Z) (c : cursor) (w : world) :
  writing fptr pos gsize gap src bp p N c w ->
  nspace c = IOBUFLEN - ioptr c ->
  wp (if Z.leb (nspace c) 0 then
        exec put_dirty (bcurrent c) true;
        let rec := record c + Z.quot (IOBUFLEN - nspace c) IOBUFLEN in
        let bufpos := Z.rem (- nspace c) IOBUFLEN in
        next_record ffmahd fptr IGNORE_EOF c rec bufpos (IOBUFLEN - bufpos)
      else ret c)
     (fun c' w' =>
        writing fptr pos gsize gap src bp p N c' w'
        /\ nspace c' = IOBUFLEN - ioptr c' /\ ioptr c' < IOBUFLEN) w.
Proof.
  intros W Hsp. pose proof W as [W1 W2 W3 W4 W5].
  pose proof (cursor_record_pos _ _ _ _ W1 W2) as Hrec.
  destruct (Z.leb_spec (nspace c) 0) as [Hout|Hin].
  - cbv zeta.
    replace (IOBUFLEN - nspace c) with (ioptr c) by lia.
    replace (- nspace c) with (ioptr c - IOBUFLEN) by lia.
    destruct (reload_pos (ioptr c)) as (Hp & Hb & Hq); [lia|].
    eapply wp_mono.
    { apply (mark_load_spec p c _ _ _ w W1 W2); lia. }
    cbv beta. intros c' w' (E & Hc & HI & Hbp & Hk).
    assert (Hpos : (record c + Z.quot (ioptr c) IOBUFLEN) * IOBUFLEN
                   + Z.rem (ioptr c - IOBUFLEN) IOBUFLEN = p).
    { rewrite <- (cu_pos _ _ _ _ W1). lia. }
    rewrite Hpos in Hc. split.
    + rewrite <- Hpos.
      eapply (writing_loaded p N c c' w w'); try eassumption.
      rewrite Hpos. exact Hc.
    + rewrite E. simpl. lia.
  - apply wp_ret. split; [exact W | lia].
Qed.

(** One group, up to the move of the cursor to the next one. *)
Lemma write_group (k : Z) (c : cursor) (w : world) :
  0 <= k -> (k + 1) * gsize <= Z.of_nat (length src) ->
  writing fptr pos gsize gap src bp (pos + k * (gsize + gap)) (k * gsize) c w ->
  nspace c = IOBUFLEN - ioptr c -> ioptr c < IOBUFLEN ->
  wp (do c1 <- put_group_bytes c (Z.min gsize (nspace c));
      if Z.ltb (Z.min gsize (nspace c)) gsize then
        exec put_dirty (bcurrent c1) true;
        do c' <- next_record ffmahd fptr IGNORE_EOF c1 (record c1 + 1) 0
                             (nspace c1);
        do c'' <- put_group_bytes c' (gsize - Z.min gsize (nspace c));
        ret (mkCursor (bcurrent c'') (record c'')
                      (IOBUFLEN - gap - (gsize - Z.min gsize (nspace c)))
                      (ioptr c'' + (gap + (gsize - Z.min gsize (nspace c))))
                      (cptr c'') (cstatus c''))
      else
        ret (mkCursor (bcurrent c1) (record c1)
                      (nspace c1 - (gap + Z.min gsize (nspace c)))
                      (ioptr c1 + (gap + Z.min gsize (nspace c)))
                      (cptr c1) (cstatus c1)))
     (fun c2 w2 =>
        writing fptr pos gsize gap src bp (pos + (k + 1) * (gsize + gap))
                ((k + 1) * gsize) c2 w2
        /\ nspace c2 = IOBUFLEN - ioptr c2) w.
Proof.
  intros Hk Hlen W Hsp Hio. pose proof IOBUFLEN_pos as HL.
  pose proof W as [W1 W2 W3 W4 W5].
  pose proof (cu_ioptr _ _ _ _ W1) as Hio0.
  pose proof (cu_pos _ _ _ _ W1) as Hpos.
  pose proof (cursor_record_pos _ _ _ _ W1 W2) as Hrec.
  set (nwrite := Z.min gsize (nspace c)).
  assert (Hnw : 0 < nwrite <= gsize /\ nwrite <= nspace c) by (unfold nwrite; lia).
  eapply wp_bind_wp.
  { apply (write_chunk k 0 nwrite c w); try lia.
    replace (pos + k * (gsize + gap) + 0) with (pos + k * (gsize + gap)) by lia.
    replace (k * gsize + 0) with (k * gsize) by lia. exact W. }
  cbv beta. intros c1 w1 (-> & V).
  cbn [bcurrent record nspace ioptr cptr cstatus].
  replace (pos + k * (gsize + gap) + 0) with (pos + k * (gsize + gap)) in V by lia.
  replace (k * gsize + 0 + nwrite) with (k * gsize + nwrite) in V by lia.
  destruct (Z.ltb_spec nwrite gsize) as [Hcross|Hfits].
  - (* the group goes on in the next record *)
    apply wp_bind_assoc. eapply wp_bind_wp.
    { apply (mark_load_spec _ _ (record c + 1) 0 (nspace c) w1
               (wr_at _ _ _ _ _ _ _ _ _ _ V) (wr_inv _ _ _ _ _ _ _ _ _ _ V));
        lia. }
    cbv beta. intros c' w' (E & Hc & HI & Hbp & Hkeep).
    assert (Hp' : (record c + 1) * IOBUFLEN + 0
                  = pos + k * (gsize + gap) + nwrite) by lia.
    pose proof (writing_loaded _ _ _ c' w1 w' _ _ _ V E Hc HI Hbp Hkeep) as V'.
    rewrite Hp' in V'.
    eapply wp_bind_wp.
    { apply (write_chunk k nwrite (gsize - nwrite) c' w'); try lia.
      - rewrite E. simpl. lia.
      - exact V'. }
    cbv beta. intros c'' w'' (-> & V'').
    cbn [bcurrent record nspace ioptr cptr cstatus].
    apply wp_ret.
    replace (k * gsize + nwrite + (gsize - nwrite)) with ((k + 1) * gsize)
      in V'' by lia.
    split.
    + replace (pos + (k + 1) * (gsize + gap))
        with (pos + k * (gsize + gap) + nwrite + (gap + (gsize - nwrite)))
        by lia.
      apply (writing_move _ _ _ _ _ _ V''). lia.
    + simpl. rewrite E. simpl. lia.
  - (* the group fits in the record *)
    apply wp_ret. assert (nwrite = gsize) by lia.
    replace (k * gsize + nwrite) with ((k + 1) * gsize) in V by lia.
    split.
    + replace (pos + (k + 1) * (gsize + gap))
        with (pos + k * (gsize + gap) + (gap + nwrite)) by lia.
      apply (writing_move _ _ _ _ _ _ V). lia.
    + simpl. lia.
Qed.

(** A turn of the loop of [ffpbytoff]. *)
Lemma ffpbytoff_group_spec (k : Z) (c : cursor) (w : world) :
  0 <= k -> (k + 1) * gsize <= Z.of_nat (length src) ->
  writing fptr pos gsize gap src bp (pos + k * (gsize + gap)) (k * gsize) c w ->
  nspace c = IOBUFLEN - ioptr c -> ioptr c < IOBUFLEN ->
  wp (ffpbytoff_group ffmahd fptr gsize gap c)
     (fun c' w' =>
        writing fptr pos gsize gap src bp (pos + (k + 1) * (gsize + gap))
                ((k + 1) * gsize) c' w'
        /\ nspace c' = IOBUFLEN - ioptr c' /\ ioptr c' < IOBUFLEN) w.
Proof.
  intros Hk Hlen W Hsp Hio. unfold ffpbytoff_group. cbv zeta.
  apply wp_bind_assoc. eapply wp_bind_wp.
  { apply (write_group k c w); assumption. }
  cbv beta. intros c2 w2 (V & Hsp2). apply write_tail; assumption.
Qed.

(** *** Reading *)

Lemma byte_at_views (w : world) (q : Z) (v : byte) (r o : Z) :
  byte_at w (Fptr fptr) q v -> q = r * IOBUFLEN + o -> 0 <= o < IOBUFLEN ->
  exists x, views w (Fptr fptr) r x.
Proof.
  intros (x & Hx & _) -> Ho.
  destruct (offset_split r o Ho) as [Ed _]. rewrite Ed in Hx.
  exists x. exact Hx.
Qed.

Lemma read_tail (p N : Z) (c : cursor) (w : world) :
  reading fptr pos gsize gap src bp p N c w ->
  nspace c = IOBUFLEN - ioptr c ->
  (exists v, byte_at w (Fptr fptr) p v) ->
  wp (if Z.leb (nspace c) 0 then
        let rec := record c + Z.quot (IOBUFLEN - nspace c) IOBUFLEN in
        let bufpos := Z.rem (- nspace c) IOBUFLEN in
        next_record ffmahd fptr REPORT_EOF c rec bufpos (IOBUFLEN - bufpos)
      else ret c)
     (fun c' w' =>
        reading fptr pos gsize gap src bp p N c' w'
        /\ nspace c' = IOBUFLEN - ioptr c' /\ ioptr c' < IOBUFLEN) w.
Proof.
  intros W Hsp [v Hv]. pose proof W as [W1 W2 W3 W4 W5].
  pose proof (cursor_record_pos _ _ _ _ W1 W2) as Hrec.
  destruct (Z.leb_spec (nspace c) 0) as [Hout|Hin].
  - cbv zeta.
    replace (IOBUFLEN - nspace c) with (ioptr c) by lia.
    replace (- nspace c) with (ioptr c - IOBUFLEN) by lia.
    destruct (reload_pos (ioptr c)) as (Hp & Hb & Hq); [lia|].
    assert (Hpos : (record c + Z.quot (ioptr c) IOBUFLEN) * IOBUFLEN
                   + Z.rem (ioptr c - IOBUFLEN) IOBUFLEN = p).
    { rewrite <- (cu_pos _ _ _ _ W1). lia. }
    eapply wp_mono.
    { apply (next_record_spec p c REPORT_EOF _ _ _ w W1 W2); try lia.
      intros _. eapply byte_at_views; [exact Hv | symmetry; exact Hpos | lia]. }
    cbv beta. intros c' w' (E & Hc & HI & Hbp & Hk).
    split.
    + rewrite <- Hpos.
      eapply (reading_loaded p N c c' w w'); eassumption.
    + rewrite E. simpl. lia.
  - apply wp_ret. split; [exact W | lia].
Qed.

Lemma read_group (k : Z) (c : cursor) (w : world) :
  0 <= k -> (k + 1) * gsize <= Z.of_nat (length src) ->
  reading fptr pos gsize gap src bp (pos + k * (gsize + gap)) (k * gsize) c w ->
  nspace c = IOBUFLEN - ioptr c -> ioptr c < IOBUFLEN ->
  wp (do c1 <- get_group_bytes c (Z.min gsize (nspace c));
      if Z.ltb (Z.min gsize (nspace c)) gsize then
        do c' <- next_record ffmahd fptr REPORT_EOF c1 (record c1 + 1) 0
                             (nspace c1);
        do c'' <- get_group_bytes c' (gsize - Z.min gsize (nspace c));
        ret (mkCursor (bcurrent c'') (record c'')
                      (IOBUFLEN - gap - (gsize - Z.min gsize (nspace c)))
                      (ioptr c'' + (gap + (gsize - Z.min gsize (nspace c))))
                      (cptr c'') (cstatus c''))
      else
        ret (mkCursor (bcurrent c1) (record c1)
                      (nspace c1 - (gap + Z.min gsize (nspace c)))
                      (ioptr c1 + (gap + Z.min gsize (nspace c)))
                      (cptr c1) (cstatus c1)))
     (fun c2 w2 =>
        reading fptr pos gsize gap src bp (pos + (k + 1) * (gsize + gap))
                ((k + 1) * gsize) c2 w2
        /\ nspace c2 = IOBUFLEN - ioptr c2) w.
Proof.
  intros Hk Hlen W Hsp Hio. pose proof IOBUFLEN_pos as HL.
  pose proof W as [W1 W2 W3 W4 W5].
  pose proof (cu_ioptr _ _ _ _ W1) as Hio0.
  pose proof (cu_pos _ _ _ _ W1) as Hpos.
  pose proof (cursor_record_pos _ _ _ _ W1 W2) as Hrec.
  set (nread := Z.min gsize (nspace c)).
  assert (Hnw : 0 < nread <= gsize /\ nread <= nspace c) by (unfold nread; lia).
  eapply wp_bind_wp.
  { apply (read_chunk k 0 nread c w); try lia.
    replace (pos + k * (gsize + gap) + 0) with (pos + k * (gsize + gap)) by lia.
    replace (k * gsize + 0) with (k * gsize) by lia. exact W. }
  cbv beta. intros c1 w1 (-> & (chunk & ->) & V).
  cbn [bcurrent record nspace ioptr cptr cstatus].
  replace (pos + k * (gsize + gap) + 0) with (pos + k * (gsize + gap)) in V by lia.
  replace (k * gsize + 0 + nread) with (k * gsize + nread) in V by lia.
  destruct (Z.ltb_spec nread gsize) as [Hcross|Hfits].
  - (* the group goes on in the next record *)
    assert (Hp' : (record c + 1) * IOBUFLEN + 0
                  = pos + k * (gsize + gap) + nread) by lia.
    eapply wp_bind_wp.
    { apply (next_record_spec _ _ REPORT_EOF (record c + 1) 0 (nspace c) w
               (re_at _ _ _ _ _ _ _ _ _ _ V) W2); try lia.
      intros _.
      destruct (W4 (k * gsize + nread) ltac:(lia)) as (v & _ & Hv).
      rewrite stream_off_group in Hv by lia.
      eapply byte_at_views; [exact Hv | symmetry; exact Hp' | lia]. }
    cbv beta. intros c' w' (E & Hc & HI & Hbp & Hkeep).
    pose proof (reading_loaded _ _ _ c' w w' _ _ _ V E Hc HI Hbp Hkeep) as V'.
    rewrite Hp' in V'.
    eapply wp_bind_wp.
    { apply (read_chunk k nread (gsize - nread) c' w'); try lia.
      - rewrite E. simpl. lia.
      - exact V'. }
    cbv beta. intros c'' w'' (-> & (chunk' & ->) & V'').
    cbn [bcurrent record nspace ioptr cptr cstatus].
    apply wp_ret.
    replace (k * gsize + nread + (gsize - nread)) with ((k + 1) * gsize)
      in V'' by lia.
    split.
    + replace (pos + (k + 1) * (gsize + gap))
        with (pos + k * (gsize + gap) + nread + (gap + (gsize - nread)))
        by lia.
      apply (reading_move _ _ _ _ _ _ V''). lia.
    + simpl. rewrite E. simpl. lia.
  - (* the group fits in the record *)
    apply wp_ret. assert (nread = gsize) by lia.
    replace (k * gsize + nread) with ((k + 1) * gsize) in V by lia.
    split.
    + replace (pos + (k + 1) * (gsize + gap))
        with (pos + k * (gsize + gap) + (gap + nread)) by lia.
      apply (reading_move _ _ _ _ _ _ V). lia.
    + simpl. lia.
Qed.

(** A turn of the loop of [ffgbytoff]; another group follows. *)
Lemma ffgbytoff_group_spec (k : Z) (c : cursor) (w : world) :
  0 <= k -> (k + 2) * gsize <= Z.of_nat (length src) ->
  reading fptr pos gsize gap src bp (pos + k * (gsize + gap)) (k * gsize) c w ->
  nspace c = IOBUFLEN - ioptr c -> ioptr c < IOBUFLEN ->
  wp (ffgbytoff_group ffmahd fptr gsize gap c)
     (fun c' w' =>
        reading fptr pos gsize gap src bp (pos + (k + 1) * (gsize + gap))
                ((k + 1) * gsize) c' w'
        /\ nspace c' = IOBUFLEN - ioptr c' /\ ioptr c' < IOBUFLEN) w.
Proof.
  intros Hk Hlen W Hsp Hio. unfold ffgbytoff_group. cbv zeta.
  apply wp_bind_assoc. eapply wp_bind_wp.
  { apply (read_group k c w); try assumption. lia. }
  cbv beta. intros c2 w2 (V & Hsp2). apply read_tail; try assumption.
  destruct (re_all _ _ _ _ _ _ _ _ _ _ V ((k + 1) * gsize) ltac:(lia))
    as (v & _ & Hv).
  exists v.
  replace ((k + 1) * gsize) with ((k + 1) * gsize + 0) in Hv by lia.
  rewrite stream_off_group in Hv by lia.
  replace (pos + (k + 1) * (gsize + gap) + 0)
    with (pos + (k + 1) * (gsize + gap)) in Hv by lia.
  exact Hv.
Qed.

(** *** The two functions *)

Lemma group_start_spec (buffer : list byte) (w : world) :
  Inv w -> no_drift fptr w -> 0 <= pos ->
  holds w (curbuf (files w (Fptr fptr))) (Fptr fptr) (Z.quot pos IOBUFLEN) ->
  bytepos (files w (Fptr fptr)) = pos ->
  exists c0,
    group_start fptr buffer 0 w = Some (c0, w)
    /\ cptr c0 = buffer /\ cursor_at fptr pos c0 w
    /\ nspace c0 = IOBUFLEN - ioptr c0 /\ ioptr c0 < IOBUFLEN.
Proof.
  intros HI Hnd Hpos Hh Hbp. pose proof IOBUFLEN_pos as HL.
  pose proof (Z.quot_rem' pos IOBUFLEN) as Hqr.
  pose proof (Z.rem_bound_pos pos IOBUFLEN Hpos HL) as Hrb.
  eexists. split.
  - unfold group_start, bind, file_of, gets, rdM, reads.
    rewrite (proj2 Hh). reflexivity.
  - simpl. rewrite Hbp. split; [reflexivity|]. split; [|lia].
    split; simpl; try assumption; try reflexivity; lia.
Qed.

Lemma ffpbytoff_spec (ngroups : Z) (w : world) :
  Inv w -> no_drift fptr w -> 0 <= pos ->
  holds w (curbuf (files w (Fptr fptr))) (Fptr fptr) (Z.quot pos IOBUFLEN) ->
  bytepos (files w (Fptr fptr)) = pos -> bp = pos ->
  1 <= ngroups -> Z.of_nat (length src) = ngroups * gsize ->
  wp (ffpbytoff ffmahd fptr gsize ngroups gap src 0)
     (fun st w' =>
        st = 0 /\ Inv w' /\ no_drift fptr w'
        /\ (exists r, holds w' (curbuf (files w' (Fptr fptr))) (Fptr fptr) r)
        /\ stream_written w' (Fptr fptr) pos gsize gap src (ngroups * gsize))
     w.
Proof.
  intros HI Hnd Hpos Hh Hbp Ebp Hng Hlen. pose proof IOBUFLEN_pos as HL.
  destruct (group_start_spec src w HI Hnd Hpos Hh Hbp)
    as (c0 & Hstart & Hcp & Hc0 & Hsp0 & Hio0).
  unfold ffpbytoff. change (Z.ltb 0 0) with false. cbv iota.
  eapply wp_bind_run; [apply sync_hdu_no_drift; exact Hnd|].
  eapply wp_bind_run; [exact Hstart|].
  (* the loop *)
  eapply wp_bind_wp.
  { pose proof (wp_group_loop
      (fun k c w1 =>
         writing fptr pos gsize gap src bp (pos + k * (gsize + gap))
                 (k * gsize) c w1
         /\ nspace c = IOBUFLEN - ioptr c /\ ioptr c < IOBUFLEN)
      (ffpbytoff_group ffmahd fptr gsize gap) (Z.to_nat (ngroups - 1))
      0 c0 w) as Hloop.
    apply Hloop; clear Hloop.
    - split; [|split; assumption].
      replace (pos + 0 * (gsize + gap)) with pos by lia.
      split.
      + exact Hc0.
      + eapply InvX_weaken; [|exact HI]. intros j [].
      + rewrite Hcp. reflexivity.
      + intros n Hn. lia.
      + congruence.
    - intros k c w1 Hk (W & Hsp & Hio).
      apply ffpbytoff_group_spec; try assumption; nia. }
  cbv beta. intros c w1 (W & Hsp & Hio).
  replace (0 + Z.of_nat (Z.to_nat (ngroups - 1))) with (ngroups - 1) in W by lia.
  set (k := ngroups - 1) in *.
  pose proof (cu_ioptr _ _ _ _ (wr_at _ _ _ _ _ _ _ _ _ _ W)) as Hio1.
  pose proof (cu_pos _ _ _ _ (wr_at _ _ _ _ _ _ _ _ _ _ W)) as Hpos1.
  set (nwrite := Z.min gsize (nspace c)).
  assert (Hnw : 0 < nwrite <= gsize /\ nwrite <= nspace c) by (unfold nwrite; lia).
  (* the last group *)
  eapply wp_bind_wp.
  { apply (write_chunk k 0 nwrite c w1); try lia; try (unfold k; nia).
    replace (pos + k * (gsize + gap) + 0) with (pos + k * (gsize + gap)) by lia.
    replace (k * gsize + 0) with (k * gsize) by lia. exact W. }
  cbv beta. intros c1 w2 (-> & V).
  replace (pos + k * (gsize + gap) + 0) with (pos + k * (gsize + gap)) in V by lia.
  replace (k * gsize + 0 + nwrite) with (k * gsize + nwrite) in V by lia.
  assert (Hlast : wp
    (if Z.ltb nwrite gsize then
       exec put_dirty (bcurrent c) true;
       do c' <- next_record ffmahd fptr IGNORE_EOF
                  (mkCursor (bcurrent c) (record c) (nspace c) (ioptr c)
                            (drop (Z.to_nat nwrite) (cptr c)) (cstatus c))
                  (record c + 1) 0 (nspace c);
       put_group_bytes c' (gsize - nwrite)
     else ret (mkCursor (bcurrent c) (record c) (nspace c) (ioptr c)
                        (drop (Z.to_nat nwrite) (cptr c)) (cstatus c)))
    (fun c2 w3 => exists p, writing fptr pos gsize gap src bp p
                                    (ngroups * gsize) c2 w3) w2).
  { destruct (Z.ltb_spec nwrite gsize) as [Hcross|Hfits].
    - apply wp_bind_assoc. eapply wp_bind_wp.
      { apply (mark_load_spec _ _ (record c + 1) 0 (nspace c) w2
                 (wr_at _ _ _ _ _ _ _ _ _ _ V) (wr_inv _ _ _ _ _ _ _ _ _ _ V)).
        - pose proof (cursor_record_pos _ _ _ _
                        (wr_at _ _ _ _ _ _ _ _ _ _ V)
                        (wr_inv _ _ _ _ _ _ _ _ _ _ V)). simpl in *. lia.
        - lia. }
      cbv beta. intros c' w' (E & Hc & HI' & Hbp' & Hkeep).
      assert (Hp' : (record c + 1) * IOBUFLEN + 0
                    = pos + k * (gsize + gap) + nwrite) by lia.
      pose proof (writing_loaded _ _ _ c' w2 w' _ _ _ V E Hc HI' Hbp' Hkeep)
        as V'.
      rewrite Hp' in V'.
      eapply wp_mono.
      { apply (write_chunk k nwrite (gsize - nwrite) c' w'); try lia.
        - rewrite E. simpl. lia.
        - exact V'. }
      cbv beta. intros c'' w'' (_ & V'').
      replace (k * gsize + nwrite + (gsize - nwrite)) with (ngroups * gsize)
        in V'' by (unfold k; lia).
      eexists. exact V''.
    - apply wp_ret. assert (nwrite = gsize) by lia.
      replace (k * gsize + nwrite) with (ngroups * gsize) in V
        by (unfold k; lia).
      eexists. exact V. }
  cbn [bcurrent record nspace ioptr cptr cstatus].
  eapply wp_bind_wp; [exact Hlast|]. cbv beta.
  intros c2 w3 (p & [U1 U2 U3 U4 U5]).
  pose proof U1 as [C1 C2 C3 C4 C5 C6].
  apply wp_bind. apply wp_put_dirty; [exact (mark_range w3 _ _ _ U2 C5)|].
  apply wp_bind, wp_file_of. apply wp_bind, wp_modify. apply wp_ret.
  split; [exact C1|].
  set (wm := set_dirty (<[Z.to_nat (bcurrent c2) := true]> (dirty w3)) w3).
  match goal with |- Inv ?wx /\ _ => set (wf := wx) end.
  pose proof (mark_inv w3 _ _ _ U2 C5) as HIm. fold wm in HIm.
  pose proof (mark_contents w3 (bcurrent c2)) as Hsm. fold wm in Hsm.
  assert (Hsc : same_cache wm wf).
  { apply upd_file_same_cache. intros f. simpl. auto. }
  pose proof (same_cache_contents _ _ Hsc) as Hsf.
  split; [eapply same_cache_inv; eassumption|].
  split; [|split].
  - unfold no_drift, wf. rewrite upd_file_at. exact C6.
  - exists (record c2). apply (same_cache_holds wm wf _ _ _ Hsc).
    unfold wf. rewrite upd_file_at. simpl. fold wm.
    change (curbuf (files wm (Fptr fptr)))
      with (curbuf (files w3 (Fptr fptr))).
    rewrite C4. exact C5.
  - apply (stream_written_kept w3 wf); [|exact U4].
    intros q v Hq. apply (same_contents_byte_at wm wf _ q v Hsf).
    apply (same_contents_byte_at w3 wm _ q v Hsm). exact Hq.
Qed.

Lemma ffgbytoff_spec (ngroups : Z) (w : world) :
  Inv w -> no_drift fptr w -> 0 <= pos ->
  holds w (curbuf (files w (Fptr fptr))) (Fptr fptr) (Z.quot pos IOBUFLEN) ->
  bytepos (files w (Fptr fptr)) = pos -> bp = pos ->
  1 <= ngroups -> Z.of_nat (length src) = ngroups * gsize ->
  stream_written w (Fptr fptr) pos gsize gap src (Z.of_nat (length src)) ->
  wp (ffgbytoff ffmahd fptr gsize ngroups gap 0)
     (fun r _ => r = (0, src)) w.
Proof.
  intros HI Hnd Hpos Hh Hbp Ebp Hng Hlen Hall. pose proof IOBUFLEN_pos as HL.
  destruct (group_start_spec [] w HI Hnd Hpos Hh Hbp)
    as (c0 & Hstart & Hcp & Hc0 & Hsp0 & Hio0).
  unfold ffgbytoff. change (Z.ltb 0 0) with false. cbv iota.
  eapply wp_bind_run; [apply sync_hdu_no_drift; exact Hnd|].
  eapply wp_bind_run; [exact Hstart|].
  eapply wp_bind_wp.
  { pose proof (wp_group_loop
      (fun k c w1 =>
         reading fptr pos gsize gap src bp (pos + k * (gsize + gap))
                 (k * gsize) c w1
         /\ nspace c = IOBUFLEN - ioptr c /\ ioptr c < IOBUFLEN)
      (ffgbytoff_group ffmahd fptr gsize gap) (Z.to_nat (ngroups - 1))
      0 c0 w) as Hloop.
    apply Hloop; clear Hloop.
    - split; [|split; assumption].
      replace (pos + 0 * (gsize + gap)) with pos by lia.
      split.
      + exact Hc0.
      + exact HI.
      + rewrite Hcp. reflexivity.
      + exact Hall.
      + congruence.
    - intros k c w1 Hk (W & Hsp & Hio).
      apply ffgbytoff_group_spec; try assumption; nia. }
  cbv beta. intros c w1 (W & Hsp & Hio).
  replace (0 + Z.of_nat (Z.to_nat (ngroups - 1))) with (ngroups - 1) in W by lia.
  set (k := ngroups - 1) in *.
  pose proof W as [W1 W2 W3 W4 W5].
  pose proof (cu_ioptr _ _ _ _ W1) as Hio1.
  pose proof (cu_pos _ _ _ _ W1) as Hpos1.
  pose proof (cursor_record_pos _ _ _ _ W1 W2) as Hrec.
  set (nread := Z.min gsize (nspace c)).
  assert (Hnw : 0 < nread <= gsize /\ nread <= nspace c) by (unfold nread; lia).
  eapply wp_bind_wp.
  { apply (read_chunk k 0 nread c w1); try lia; try (unfold k; nia).
    replace (pos + k * (gsize + gap) + 0) with (pos + k * (gsize + gap)) by lia.
    replace (k * gsize + 0) with (k * gsize) by lia. exact W. }
  cbv beta. intros c1 w2 (-> & (chunk & ->) & V).
  replace (pos + k * (gsize + gap) + 0) with (pos + k * (gsize + gap)) in V by lia.
  replace (k * gsize + 0 + nread) with (k * gsize + nread) in V by lia.
  cbn [bcurrent record nspace ioptr cptr cstatus].
  assert (Hlast : wp
    (if Z.ltb nread gsize then
       do c' <- next_record ffmahd fptr REPORT_EOF
                  (mkCursor (bcurrent c) (record c) (nspace c) (ioptr c)
                            (cptr c ++ chunk) (cstatus c))
                  (record c + 1) 0 (nspace c);
       get_group_bytes c' (gsize - nread)
     else ret (mkCursor (bcurrent c) (record c) (nspace c) (ioptr c)
                        (cptr c ++ chunk) (cstatus c)))
    (fun c2 w3 => exists p, reading fptr pos gsize gap src bp p
                                    (ngroups * gsize) c2 w3) w1).
  { destruct (Z.ltb_spec nread gsize) as [Hcross|Hfits].
    - assert (Hp' : (record c + 1) * IOBUFLEN + 0
                    = pos + k * (gsize + gap) + nread) by lia.
      eapply wp_bind_wp.
      { apply (next_record_spec _ _ REPORT_EOF (record c + 1) 0 (nspace c) w1
                 (re_at _ _ _ _ _ _ _ _ _ _ V) W2); try lia.
        intros _.
        destruct (W4 (k * gsize + nread) ltac:(rewrite Hlen; unfold k; lia))
          as (v & _ & Hv).
        rewrite stream_off_group in Hv by lia.
        eapply byte_at_views; [exact Hv | symmetry; exact Hp' | lia]. }
      cbv beta. intros c' w' (E & Hc & HI' & Hbp' & Hkeep).
      pose proof (reading_loaded _ _ _ c' w1 w' _ _ _ V E Hc HI' Hbp' Hkeep)
        as V'.
      rewrite Hp' in V'.
      eapply wp_mono.
      { apply (read_chunk k nread (gsize - nread) c' w'); try lia.
        - rewrite E. simpl. lia.
        - exact V'. }
      cbv beta. intros c'' w'' (_ & _ & V'').
      replace (k * gsize + nread + (gsize - nread)) with (ngroups * gsize)
        in V'' by (unfold k; lia).
      eexists. exact V''.
    - apply wp_ret. assert (nread = gsize) by lia.
      replace (k * gsize + nread) with (ngroups * gsize) in V
        by (unfold k; lia).
      eexists. exact V. }
  eapply wp_bind_wp; [exact Hlast|]. cbv beta.
  intros c2 w3 (p & [U1 U2 U3 U4 U5]).
  apply wp_bind, wp_file_of. apply wp_bind, wp_modify. apply wp_ret.
  rewrite (cu_status _ _ _ _ U1), U3. f_equal.
  apply take_ge. lia.
Qed.

End Chunk.

End GroupSteps.

(** ** Writing the groups and reading them back *)

Section StridedRoundTrip.

Variable ffmahd : fitsfile -> Z -> Z -> M Z.

(** C8, as amended.  In a consistent pool, on a file whose current
    buffer is not a foreign buffer that carries the record number of
    [pos], and for groups no longer than a record: seeking to [pos],
    writing [ngroups] groups of [gsize] bytes that lie [gap] bytes
    apart, seeking back to [pos] and reading the same groups is defined,
    returns status 0, and delivers exactly the bytes written. *)
Theorem strided_round_trip (fptr : fitsfile) (pos gsize ngroups gap : Z)
    (src : list byte) (w : world) :
  Inv w -> no_drift fptr w ->
  cur_ok w (Fptr fptr) (Z.quot pos IOBUFLEN) ->
  0 <= pos -> 1 <= gsize <= IOBUFLEN -> 1 <= ngroups -> 0 <= gap ->
  Z.of_nat (length src) = ngroups * gsize ->
  exists w',
    strided_trip ffmahd fptr pos gsize ngroups gap src w = Some ((0, src), w').
Proof.
  intros HI Hnd Hcur Hpos Hgs Hng Hgap Hlen. pose proof IOBUFLEN_pos as HL.
  set (F := Fptr fptr) in *. set (b := Z.quot pos IOBUFLEN) in *.
  assert (Hrun : wp (strided_trip ffmahd fptr pos gsize ngroups gap src)
                    (fun r _ => r = (0, src)) w).
  { unfold strided_trip.
    eapply wp_bind_wp.
    { apply (ffmbyt_spec ffmahd fptr pos IGNORE_EOF w HI Hnd Hpos Hcur).
      discriminate. }
    cbv beta. fold F b. intros st w1 (-> & Hl1 & Hbp1).
    eapply wp_bind_wp.
    { apply (ffpbytoff_spec ffmahd fptr pos gsize gap src pos Hgs Hgap
               ngroups w1 (ld_inv _ _ _ _ Hl1)); try assumption.
      - eapply loaded_no_drift; eassumption.
      - exact (ld_cur _ _ _ _ Hl1).
      - reflexivity. }
    cbv beta. fold F. intros st w2 (-> & HI2 & Hnd2 & (r & Hr) & Hsw).
    eapply wp_bind_wp.
    { apply (ffmbyt_spec ffmahd fptr pos REPORT_EOF w2 HI2 Hnd2 Hpos).
      - exists r. fold F. split; [exact (proj2 Hr)|].
        intros _. exact (proj1 Hr).
      - intros _. fold F b.
        destruct (Hsw 0 ltac:(nia)) as (v & _ & x & Hx & _).
        unfold stream_off in Hx. rewrite Z.div_0_l in Hx by lia.
        replace (pos + 0 + 0 * gap) with pos in Hx by lia.
        rewrite <- Z.quot_div_nonneg in Hx by lia. fold b in Hx.
        destruct Hx as [(i & Hi & _)|(_ & _ & Hsz & _)].
        + left. exists i. exact Hi.
        + right. pose proof (fo_log _ _ (inv_files _ _ HI2 F)). lia. }
    cbv beta. fold F b. intros st w3 (-> & Hl3 & Hbp3).
    apply (ffgbytoff_spec ffmahd fptr pos gsize gap src pos Hgs Hgap
             ngroups w3 (ld_inv _ _ _ _ Hl3)); try assumption.
    - eapply loaded_no_drift; eassumption.
    - exact (ld_cur _ _ _ _ Hl3).
    - reflexivity.
    - rewrite Hlen.
      apply (stream_written_kept fptr pos gsize gap src w2 w3); [|exact Hsw].
      intros q v. apply views_kept_byte_at. exact (ld_views _ _ _ _ Hl3). }
  destruct (wp_elim _ _ _ Hrun) as (r & w' & Hruns & ->).
  exists w'. exact Hruns.
Qed.

End StridedRoundTrip.


(** * Worlds that satisfy the invariant *)

Lemma wp_after {A : Type} (m : M A) (Q : A -> world -> Prop) (w : world) :
  wp m Q w -> exists a, m w = Some (a, after m w) /\ Q a (after m w).
Proof.
  unfold wp, after. destruct (m w) as [[a w']|]; [|contradiction].
  intros H. exists a. split; [reflexivity | exact H].
Qed.

Lemma rd_replicate {A : Type} (n : nat) (x y : A) (i : Z) :
  rd (replicate n x) i = Some y -> y = x.
Proof.
  intros H. apply rd_Some in H as [_ H].
  apply lookup_replicate in H as [-> _]. reflexivity.
Qed.

(** A process that has not loaded anything yet. *)
Lemma ready_inv (fs : nat -> FITSfile) (ds : nat -> list byte) :
  (forall F, file_ok (boot fs ds) F) -> Inv (ready fs ds).
Proof.
  intros Hok.
  assert (Hnone : forall i F b, ~ holds (ready fs ds) i F b).
  { intros i F b [H _]. apply rd_replicate in H. discriminate. }
  split.
  - unfold slots_ok, ready, ffwhbf_init. simpl.
    rewrite !length_replicate, length_seqZ.
    pose proof NIOBUF_pos. repeat split; lia.
  - intros i buf H. apply rd_replicate in H. subst buf.
    rewrite length_replicate. apply IOBUFLEN_nat.
  - reflexivity.
  - reflexivity.
  - intros i j F b Hi. destruct (Hnone _ _ _ Hi).
  - intros i F b Hi. destruct (Hnone _ _ _ Hi).
  - intros i F b _ Hi. destruct (Hnone _ _ _ Hi).
  - intros i H. apply rd_replicate in H. discriminate.
  - intros F. destruct (Hok F) as [F1 F2 F3 F4]. split; assumption.
  - reflexivity.
Qed.

Lemma ready0_inv : Inv ready0.
Proof.
  apply ready_inv. intros F. split; simpl.
  - exists 0. split; [lia | reflexivity].
  - reflexivity.
  - reflexivity.
  - lia.
Qed.

Lemma ready_loadable (fs : nat -> FITSfile) (ds : nat -> list byte) (F : nat) :
  loadable (ready fs ds) F.
Proof.
  left. exists 0. split.
  - unfold ready, ffwhbf_init. simpl. apply list_elem_of_In, elem_of_seqZ.
    pose proof NIOBUF_pos. lia.
  - vm_compute. reflexivity.
Qed.

Lemma two_blocks_past_eof_inv : Inv two_blocks_past_eof.
Proof.
  unfold two_blocks_past_eof.
  destruct (wp_after _ _ _ (ffldrc_spec nav0 f0 3 IGNORE_EOF ready0
              ready0_inv eq_refl ltac:(lia) (ready_loadable _ _ _)
              ltac:(discriminate))) as (st1 & _ & _ & H1 & _).
  assert (Hnd : no_drift f0 (after (ffldrc nav0 f0 3 IGNORE_EOF 0) ready0))
    by (eapply loaded_no_drift; [|exact H1]; reflexivity).
  destruct (wp_after _ _ _ (ffldrc_spec nav0 f0 1 IGNORE_EOF _
              (ld_inv _ _ _ _ H1) Hnd ltac:(lia)
              (loaded_loadable _ _ _ _ H1)
              ltac:(discriminate))) as (st2 & _ & _ & H2 & _).
  exact (ld_inv _ _ _ _ H2).
Qed.

Lemma ascii_ready_inv :
  Inv (ready (fun _ => ascii_file) (fun _ => block_of "a")).
Proof.
  apply ready_inv. intros F. split; simpl.
  - exists 1. split; [lia | ring].
  - unfold block_of. rewrite length_replicate. apply IOBUFLEN_nat.
  - reflexivity.
  - lia.
Qed.

Lemma ascii_table_loaded :
  loaded (ready (fun _ => ascii_file) (fun _ => block_of "a")) 0%nat 0
         ascii_table.
Proof.
  unfold ascii_table.
  destruct (wp_after _ _ _ (ffldrc_spec nav0 f0 0 REPORT_EOF _
              ascii_ready_inv eq_refl ltac:(lia) (ready_loadable _ _ _)
              ltac:(intros _; right; vm_compute; reflexivity)))
    as (st & _ & _ & H & _).
  exact H.
Qed.

Lemma loaded0_loaded : loaded ready0 0%nat 0 loaded0.
Proof.
  unfold loaded0.
  destruct (wp_after _ _ _ (ffldrc_spec nav0 f0 0 IGNORE_EOF ready0
              ready0_inv eq_refl ltac:(lia) (ready_loadable _ _ _)
              ltac:(discriminate))) as (st & _ & _ & H & _).
  exact H.
Qed.

(** The buffers of a concrete pool, checked by evaluation. *)
Lemma bufs_ok_check (w : world) :
  forallb (fun buf => Z.eqb (Z.of_nat (length buf)) IOBUFLEN) (iobuffer w)
  = true ->
  bufs_ok w.
Proof.
  intros H i buf Hi. rewrite forallb_forall in H.
  apply Z.eqb_eq. apply H. apply rd_Some in Hi as [_ Hi].
  apply list_elem_of_In. eapply list_elem_of_lookup_2. exact Hi.
Qed.


(** * The order of the transfers of a writeback *)

(** C4, as amended.  [ffbfwt] in a consistent pool ([Inv]: among other
    things the size of every file is a whole number of records and is
    the length of its disk image, the driver stands where [io_pos]
    says, and no transfer fails) on a buffer that holds a record [b] of
    file [F] beyond the end of the file.  The loop is entered, after the seek to
    the end of the file, in a state that [extending] describes.  Then,
    every turn of the [while] loop from such a state:
    when the file has grown to [m] records, the turn picks the buffer of
    [F] with the lowest record number [irec >= m] (the buffer it was
    called for if there is no lower one), leaves the records from [m]
    up to [irec] filled with zeros on the disk, writes the buffer as
    record [irec], and moves [filesize] to the end of that record.
    Last, the whole call: it is defined, returns 0, leaves a file of
    [b + 1] records, and what it sent to the driver is exactly one
    transfer for each record from the old end of the file up to [b], in
    ascending order of offset; each of them is the buffer that held that
    record, or a record of zeros where no buffer did. *)
Theorem ffbfwt_extends_in_record_order (w : world) (nbuff : Z) (F : nat)
    (b : Z) :
  Inv w -> holds w nbuff F b -> filesize (files w F) < b * IOBUFLEN ->
  (exists w1,
      (if Z.eqb (io_pos (files w F)) (filesize (files w F)) then ret tt
       else ffseek F (filesize (files w F))) w = Some (tt, w1)
      /\ extending w F (Z.quot (filesize (files w F)) IOBUFLEN)
                   (Z.quot (filesize (files w F)) IOBUFLEN)
                   (Z.quot (filesize (files w F)) IOBUFLEN * IOBUFLEN) w1)
  /\ (forall m w1,
      Z.quot (filesize (files w F)) IOBUFLEN <= m <= b ->
      extending w F (Z.quot (filesize (files w F)) IOBUFLEN) m
                (m * IOBUFLEN) w1 ->
      wp (ffbfwt_append F nbuff 0)
         (fun r w2 =>
            snd r = 0 /\
            exists irec,
              m <= irec <= b /\ holds w (fst r) F irec
              /\ (forall j c, holds w j F c -> m <= c -> irec <= c)
              /\ (irec = b <-> fst r = nbuff)
              /\ filesize (files w2 F) = (irec + 1) * IOBUFLEN
              /\ (forall c, m <= c < irec -> disk_block (disk w2 F) c = zeros)
              /\ rd (iobuffer w) (fst r) = Some (disk_block (disk w2 F) irec)
              /\ extending w F (Z.quot (filesize (files w F)) IOBUFLEN)
                           (irec + 1) ((irec + 1) * IOBUFLEN) w2) w1)
  /\ exists w',
      ffbfwt nbuff 0 w = Some (0, w')
      /\ filesize (files w' F) = (b + 1) * IOBUFLEN
      /\ wlog w'
         = wlog w ++ map (fun c => (F, c * IOBUFLEN, disk_block (disk w' F) c))
                         (seqZ (Z.quot (filesize (files w F)) IOBUFLEN)
                               (b + 1 - Z.quot (filesize (files w F)) IOBUFLEN))
      /\ (forall c i, Z.quot (filesize (files w F)) IOBUFLEN <= c <= b ->
                      holds w i F c ->
                      rd (iobuffer w) i = Some (disk_block (disk w' F) c))
      /\ (forall c, Z.quot (filesize (files w F)) IOBUFLEN <= c <= b ->
                    (forall i, ~ holds w i F c) ->
                    disk_block (disk w' F) c = zeros).
Proof.
  intros HI Hn Hpast. pose proof IOBUFLEN_pos as HL.
  destruct (file_size_block w F (inv_files _ _ HI F)) as (m0 & Hm0 & Hsz & Hq).
  rewrite Hq. split; [|split].
  - destruct (seek_if_needed w F (filesize (files w F)) (inv_files _ _ HI F))
      as (w1 & Hseek & [M1 M2 M3 M4 M5 M6 M7 M8]); [lia|].
    exists w1. split; [exact Hseek|].
    apply extending_start; try assumption. rewrite M6. exact Hsz.
  - intros m w1 Hm Hext.
    eapply wp_mono;
      [apply (ffbfwt_append_extending w F m0 m w1 nbuff b HI Hn Hext); lia|].
    cbv beta. intros r w2 (Hst & irec & Hi1 & Hi2 & Hi3 & Hi4 & Hi5).
    split; [exact Hst|]. exists irec.
    repeat (split; [assumption|]).
    split; [|split; [|split; [|exact Hi5]]].
    + rewrite (ex_file _ _ _ _ _ _ Hi5). reflexivity.
    + intros c Hc. apply (ex_zeros _ _ _ _ _ _ Hi5); [lia|].
      intros i Hi. specialize (Hi3 i c Hi). lia.
    + apply (ex_blocks _ _ _ _ _ _ Hi5 irec (fst r)); [lia | exact Hi2].
  - destruct (wp_elim _ _ _ (ffbfwt_spec w nbuff F b HI Hn))
      as (st & w' & Hrun & -> & W).
    exists w'. split; [exact Hrun|].
    destruct W as [W1 W2 W3 W4 W5 W6 W7 W8 W9 W10 W11].
    assert (Hlt : m0 < b) by nia.
    split; [rewrite W7; nia|]. split; [|split].
    + rewrite W11, Hq, Z.min_l by lia. reflexivity.
    + intros c i Hc Hi. apply (W10 c i); [nia | lia | exact Hi].
    + intros c Hc Hno. apply W9; [nia | | exact Hno].
      rewrite W7. nia.
Qed.


(** * Writing a record beyond the end of the file *)

Section PastEof.

Variable ffmahd : fitsfile -> Z -> Z -> M Z.

(** C2, as amended.  In a consistent pool, take a file none of whose
    buffers holds a record at or beyond the end of the file, and whose
    current buffer is not a foreign buffer that carries the record
    number [k].  Seeking to record [k] beyond the end of the file,
    writing one record of data and flushing (with or without [clearbuf])
    is defined and returns 0; the disk then has exactly [k + 1] records,
    every byte from the old end of the file up to record [k] is 0x00,
    whatever the type of the HDU, and record [k] is the data. *)
Theorem past_eof_block_is_extended_with_zeros (fptr : fitsfile)
    (k clearbuf : Z) (data : list byte) (w : world) :
  Inv w -> no_drift fptr w -> cur_ok w (Fptr fptr) k ->
  (forall i c, holds w i (Fptr fptr) c ->
               (c + 1) * IOBUFLEN <= filesize (files w (Fptr fptr))) ->
  filesize (files w (Fptr fptr)) < k * IOBUFLEN ->
  Z.of_nat (length data) = IOBUFLEN ->
  exists w',
    write_block_and_flush ffmahd fptr k data clearbuf w = Some (0, w')
    /\ Z.of_nat (length (disk w' (Fptr fptr))) = (k + 1) * IOBUFLEN
    /\ (forall p, filesize (files w (Fptr fptr)) <= p < k * IOBUFLEN ->
                  disk w' (Fptr fptr) !! Z.to_nat p = Some x00)
    /\ take (Z.to_nat IOBUFLEN)
            (drop (Z.to_nat (k * IOBUFLEN)) (disk w' (Fptr fptr))) = data.
Proof.
  intros HI Hnd Hcur Hin Hpast Hlen. set (F := Fptr fptr) in *.
  pose proof IOBUFLEN_pos as HL.
  destruct (fo_size _ _ (inv_files _ _ HI F)) as (m0 & Hm0 & Hs0).
  assert (Hk : 0 < k) by nia.
  assert (Hq : Z.quot (k * IOBUFLEN) IOBUFLEN = k) by (apply quot_block; lia).
  assert (Hrun : wp (write_block_and_flush ffmahd fptr k data clearbuf)
            (fun st w' =>
               st = 0
               /\ Z.of_nat (length (disk w' F)) = (k + 1) * IOBUFLEN
               /\ (forall c, m0 <= c < k -> disk_block (disk w' F) c = zeros)
               /\ disk_block (disk w' F) k = data) w).
  { unfold write_block_and_flush.
    eapply wp_bind_wp.
    { apply (ffmbyt_spec ffmahd fptr (k * IOBUFLEN) IGNORE_EOF w HI Hnd).
      - lia.
      - fold F. rewrite Hq. exact Hcur.
      - discriminate. }
    cbv beta. fold F. rewrite Hq. intros st w1 (-> & Hl & Hbp).
    destruct Hl as [A1 A2 A3 A4 A5 A6 A7].
    specialize (A7 Hin).
    eapply wp_bind_wp.
    { apply (ffpbyt_block ffmahd fptr data k w1 A1); try assumption.
      unfold no_drift. fold F. destruct A5 as (-> & _). exact Hnd. }
    cbv beta. fold F. intros st w2 (-> & HI2 & Hv2 & Hh2 & Hs2).
    eapply wp_mono; [apply (ffflsh_spec fptr clearbuf w2 HI2)|].
    cbv beta. fold F. intros st w3 (-> & [J1 J2 J3 J4 J5 J6] & Hdone).
    split; [reflexivity|].
    assert (Hcached : forall i c, holds w2 i F c ->
                                  c = k \/ (c + 1) * IOBUFLEN
                                           <= filesize (files w F)).
    { intros i c Hi. apply Hh2 in Hi. apply A4 in Hi.
      destruct Hi as [(_ & _ & ->)|Hi]; [left; reflexivity | right].
      apply (Hin i c Hi). }
    assert (Hs2F : filesize (files w2 F) = filesize (files w F))
      by (rewrite Hs2; exact A7).
    assert (Hle : filesize (files w3 F) <= (k + 1) * IOBUFLEN).
    { apply J5; [lia|]. intros i c Hi.
      destruct (Hcached i c Hi) as [->|Hc]; lia. }
    assert (Hblock : (k + 1) * IOBUFLEN <= filesize (files w3 F)
                     /\ disk_block (disk w3 F) k = data).
    { apply J2 in Hv2. destruct Hv2 as [(i & Hi & Hx)|(_ & _ & Hsz & Hd)].
      - destruct (Hdone i k Hi) as [_ Hcl].
        destruct (inv_clean _ _ J1 i F k (fun H => H) Hi Hcl) as [Hsz Hd].
        split; [exact Hsz | congruence].
      - split; [exact Hsz | congruence]. }
    destruct Hblock as [Hge Hdata].
    split; [rewrite (fo_disk _ _ (inv_files _ _ J1 F)); lia|].
    split; [|exact Hdata].
    intros c Hc. apply J4.
    - rewrite Hs2F, Hs0. nia.
    - nia.
    - intros i Hi. destruct (Hcached i c Hi) as [->|Hc']; [lia|].
      rewrite Hs0 in Hc'. nia. }
  destruct (wp_elim _ _ _ Hrun) as (st & w' & Hruns & -> & Hlen' & Hgap & Hdata).
  exists w'. split; [exact Hruns|]. split; [exact Hlen'|].
  split; [|exact Hdata].
  intros p Hp.
  assert (Hc : m0 <= p / IOBUFLEN < k).
  { split; [apply Z.div_le_lower_bound; lia
           | apply Z.div_lt_upper_bound; lia]. }
  pose proof (Z.mod_pos_bound p IOBUFLEN HL) as Hm.
  pose proof (Z.div_mod p IOBUFLEN ltac:(lia)) as Hdm.
  pose proof (lookup_disk_block (disk w' F) (p / IOBUFLEN)
                (Z.to_nat (p mod IOBUFLEN))) as Hlk.
  rewrite (Hgap _ Hc) in Hlk.
  destruct (decide _) as [_|Hn]; [|lia].
  replace (Z.to_nat p)
    with (Z.to_nat (p / IOBUFLEN * IOBUFLEN) + Z.to_nat (p mod IOBUFLEN))%nat
    by nia.
  rewrite <- Hlk. apply lookup_replicate_2. lia.
Qed.

End PastEof.


(** * The age index from process start on *)

Lemma boot_slots_ok fs ds : slots_ok (boot fs ds).
Proof.
  unfold slots_ok, boot. simpl. rewrite !length_replicate.
  pose proof NIOBUF_pos. repeat split; lia.
Qed.

Lemma boot_age_inv fs ds : age_inv (boot fs ds).
Proof. split; [apply boot_slots_ok | reflexivity]. Qed.

Lemma boot_ages_in_range fs ds : ages_in_range (boot fs ds).
Proof.
  unfold ages_in_range, boot. simpl. apply Forall_replicate.
  pose proof NIOBUF_pos. lia.
Qed.

Lemma age_inv_in_range (w : world) : age_inv w -> ages_in_range w.
Proof.
  intros [_ Hp]. unfold ages_perm in Hp. destruct (ageinit w).
  - apply perm_in_range. exact Hp.
  - unfold ages_in_range. rewrite Hp. apply Forall_replicate.
    pose proof NIOBUF_pos. lia.
Qed.

Section AgeTheorem.

Variable ffmahd : fitsfile -> Z -> Z -> M Z.
Variable ffrdef : fitsfile -> Z -> M Z.
Variable ffgtcl : fitsfile -> Z -> Z -> M (Z * Z).
Variable ffghdn : fitsfile -> M Z.
Variable ffchdu : fitsfile -> Z -> M Z.
Variable ffgext : fitsfile -> Z -> Z -> M Z.

(** The collaborators reach the pool through the operations of the
    core only, so they keep its invariant. *)
Hypothesis ffmahd_age : forall fptr n st w,
  age_inv w -> wlp (ffmahd fptr n st) (fun _ w' => age_post w w') w.
Hypothesis ffrdef_age : forall fptr st w,
  age_inv w -> wlp (ffrdef fptr st) (fun _ w' => age_post w w') w.
Hypothesis ffgtcl_age : forall fptr c st w,
  age_inv w -> wlp (ffgtcl fptr c st) (fun _ w' => age_post w w') w.
Hypothesis ffghdn_age : forall fptr w,
  age_inv w -> wlp (ffghdn fptr) (fun _ w' => age_post w w') w.
Hypothesis ffchdu_age : forall fptr st w,
  age_inv w -> wlp (ffchdu fptr st) (fun _ w' => age_post w w') w.
Hypothesis ffgext_age : forall fptr n st w,
  age_inv w -> wlp (ffgext fptr n st) (fun _ w' => age_post w w') w.

Lemma ffflus_age (fptr : fitsfile) (st : Z) (w : world) :
  age_inv w ->
  wlp (ffflus ffghdn ffchdu ffgext fptr st) (fun _ w' => age_post w w') w.
Proof.
  intros Hinv. unfold ffflus.
  destruct (Z.ltb 0 st); [apply age_post_refl; exact Hinv|].
  apply wlp_bind. eapply wlp_mono; [apply ffghdn_age; exact Hinv|].
  cbv beta. intros hdunum w1 HP1.
  apply wlp_bind. eapply wlp_mono; [apply ffchdu_age; exact (proj1 HP1)|].
  cbv beta. intros st1 w2 HP2.
  pose proof (age_post_trans _ _ _ HP1 HP2) as HP12.
  apply wlp_bind. eapply wlp_mono; [apply ffflsh_age|].
  cbv beta. intros st2 w3 E3.
  pose proof (age_post_frame _ _ _ HP12 E3) as HP3.
  eapply wlp_mono; [apply ffgext_age; exact (proj1 HP3)|].
  cbv beta. intros st3 w4 HP4.
  exact (age_post_trans _ _ _ HP3 HP4).
Qed.

(** The table helpers and the one-byte pixel helpers are compositions
    of the operations above. *)
Lemma age_bind {A B : Type} (m : M A) (k : A -> M B) (w : world) :
  wlp m (fun _ w' => age_post w w') w ->
  (forall a w1, age_inv w1 -> wlp (k a) (fun _ w' => age_post w1 w') w1) ->
  wlp (bind m k) (fun _ w' => age_post w w') w.
Proof.
  intros Hm Hk. apply wlp_bind. eapply wlp_mono; [exact Hm|]. cbv beta.
  intros a w1 HP1. eapply wlp_mono; [apply Hk; exact (proj1 HP1)|].
  cbv beta. intros b w2 HP2. exact (age_post_trans _ _ _ HP1 HP2).
Qed.

Lemma age_file_of {B : Type} (F : nat) (k : FITSfile -> M B) (w : world) :
  (forall Ff, wlp (k Ff) (fun _ w' => age_post w w') w) ->
  wlp (bind (file_of F) k) (fun _ w' => age_post w w') w.
Proof. intros Hk. apply wlp_bind, wlp_file_of, Hk. Qed.

Lemma age_set_file {B : Type} (F : nat) (g : FITSfile -> FITSfile)
    (k : M B) (w : world) :
  age_inv w ->
  (forall w1, age_inv w1 -> wlp k (fun _ w' => age_post w1 w') w1) ->
  wlp (exec modify (upd_file F g); k) (fun _ w' => age_post w w') w.
Proof.
  intros Hinv Hk. apply age_bind; [|intros _ w1 H1; apply Hk; exact H1].
  apply wlp_modify.
  eapply age_post_frame; [apply age_post_refl; exact Hinv | reflexivity].
Qed.

Lemma ffgtbb_age (fptr : fitsfile) (numrows firstrow firstchar nchars st : Z)
    (w : world) :
  age_inv w ->
  wlp (ffgtbb ffmahd fptr numrows firstrow firstchar nchars st)
      (fun _ w' => age_post w w') w.
Proof.
  intros Hinv. unfold ffgtbb. cbv zeta.
  destruct (_ || _)%bool; [apply wlp_ret, age_post_refl; exact Hinv|].
  destruct (Z.ltb firstrow 1); [apply wlp_ret, age_post_refl; exact Hinv|].
  destruct (Z.ltb firstchar 1); [apply wlp_ret, age_post_refl; exact Hinv|].
  apply age_bind; [apply sync_hdu_age; assumption|].
  intros st0 w1 H1. apply age_file_of. intros Ff.
  destruct (negb _); [apply wlp_undefined|].
  destruct (Z.ltb numrows _); [apply wlp_ret, age_post_refl; exact H1|].
  apply age_bind; [apply ffmbyt_age; assumption|].
  intros st1 w2 H2. apply ffgbyt_age; assumption.
Qed.

Lemma ffptbb_age (fptr : fitsfile) (numrows firstrow firstchar nchars : Z)
    (values : list byte) (st : Z) (w : world) :
  age_inv w ->
  wlp (ffptbb ffmahd ffrdef fptr numrows firstrow firstchar nchars values st)
      (fun _ w' => age_post w w') w.
Proof.
  intros Hinv. unfold ffptbb. cbv zeta.
  destruct (_ || _)%bool; [apply wlp_ret, age_post_refl; exact Hinv|].
  destruct (Z.ltb firstrow 1); [apply wlp_ret, age_post_refl; exact Hinv|].
  destruct (Z.ltb firstchar 1); [apply wlp_ret, age_post_refl; exact Hinv|].
  apply age_file_of. intros Ff0. apply age_bind.
  { destruct (negb _); [apply ffmahd_age; exact Hinv|].
    destruct (Z.ltb _ 0); [apply ffrdef_age; exact Hinv|].
    apply wlp_ret, age_post_refl; exact Hinv. }
  intros st0 w1 H1. apply age_file_of. intros Ff.
  apply age_bind; [apply ffmbyt_age; assumption|].
  intros st1 w2 H2. apply age_bind; [apply ffpbyt_age; assumption|].
  intros st2 w3 H3. apply age_file_of. intros Ff1.
  destruct (negb _); [apply wlp_undefined|].
  apply wlp_ret, age_post_refl; exact H3.
Qed.

Lemma ffgi1b_age (fptr : fitsfile) (byteloc nvals incre st : Z) (w : world) :
  age_inv w ->
  wlp (ffgi1b ffmahd fptr byteloc nvals incre st)
      (fun _ w' => age_post w w') w.
Proof.
  intros Hinv. unfold ffgi1b. cbv zeta.
  destruct (Z.eqb incre 1); [destruct (Z.ltb nvals MINDIRECT)|].
  - apply age_bind; [apply ffmbyt_age; assumption|].
    intros st1 w1 H1. apply ffgbyt_age; assumption.
  - apply age_file_of. intros Ff.
    apply age_set_file; [exact Hinv|]. intros w1 H1.
    apply age_bind; [apply ffgbyt_age; assumption|].
    intros r w2 H2. apply age_set_file; [exact H2|]. intros w3 H3.
    apply wlp_ret, age_post_refl; exact H3.
  - apply age_bind; [apply ffmbyt_age; assumption|].
    intros st1 w1 H1. apply ffgbytoff_age; assumption.
Qed.

Lemma ffpi1b_age (fptr : fitsfile) (nvals incre : Z) (values : list byte)
    (st : Z) (w : world) :
  age_inv w ->
  wlp (ffpi1b ffmahd fptr nvals incre values st)
      (fun _ w' => age_post w w') w.
Proof.
  intros Hinv. unfold ffpi1b.
  destruct (Z.eqb incre 1);
    [apply ffpbyt_age | apply ffpbytoff_age]; assumption.
Qed.

Lemma run_op_age (o : operation) (w : world) :
  age_inv w ->
  wlp (run_op ffmahd ffrdef ffgtcl ffghdn ffchdu ffgext o)
      (fun _ w' => age_post w w') w.
Proof.
  intros Hinv.
  assert (Hframe : forall A (m : M A),
            wlp m (fun _ w' => age_state w' = age_state w) w ->
            wlp (exec m; ret tt) (fun _ w' => age_post w w') w).
  { intros A m H. apply wlp_bind. eapply wlp_mono; [exact H|]. cbv beta.
    intros _ w' E. apply wlp_ret.
    eapply age_post_frame; [apply age_post_refl; exact Hinv | exact E]. }
  assert (Hpost : forall A (m : M A),
            wlp m (fun _ w' => age_post w w') w ->
            wlp (exec m; ret tt) (fun _ w' => age_post w w') w).
  { intros A m H. apply wlp_bind. eapply wlp_mono; [exact H|]. cbv beta.
    intros _ w' E. apply wlp_ret. exact E. }
  destruct o; simpl.
  - apply Hpost, ffmbyt_age; assumption.
  - apply Hpost, ffpbyt_age; assumption.
  - apply Hpost, ffpbytoff_age; assumption.
  - apply Hpost, ffgbyt_age; assumption.
  - apply Hpost, ffgbytoff_age; assumption.
  - apply Hpost, ffldrc_age; assumption.
  - apply Hpost. eapply wlp_mono; [apply ffwhbf_age_post; exact Hinv|].
    cbv beta. intros ? ? [H _]. exact H.
  - apply Hframe, ffcurbuf_age.
  - apply Hpost, ffflus_age; assumption.
  - apply Hframe, ffflsh_age.
  - apply Hframe, ffbfeof_age.
  - apply Hframe, ffbfwt_age.
  - apply Hpost, ffgrsz_age; assumption.
  - apply Hframe, fits_get_num_files_age.
  - apply Hpost, ffgtbb_age; assumption.
  - apply Hpost, ffptbb_age; assumption.
  - apply Hpost, ffgi1b_age; assumption.
  - apply Hpost, ffpi1b_age; assumption.
Qed.

(** C9, as amended.  At process start the age index holds [NIOBUF]
    zeros and [ageinit] is 0: the age index is not a permutation yet.
    The invariant [age_inv] says what is true at all times: the arrays
    have [NIOBUF] entries, the age index holds [NIOBUF] zeros as long
    as [ageinit] is 0, and it is a permutation of [0 .. NIOBUF-1] once
    [ageinit] is set.  It holds at process start, and every operation
    of the core that returns from a state in which it holds returns to
    a state in which it holds, with [ageinit] still set if it was.  The
    selector [ffwhbf] always returns from such a state, and it is the
    call that sets [ageinit]. *)
Theorem age_index_permutation_once_initialised :
  (forall fs ds,
      age_inv (boot fs ds)
      /\ ageinit (boot fs ds) = false
      /\ ageindex (boot fs ds) = replicate (Z.to_nat NIOBUF) 0)
  /\ (forall o w w',
        age_inv w ->
        run_op ffmahd ffrdef ffgtcl ffghdn ffchdu ffgext o w = Some (tt, w') ->
        slots_ok w'
        /\ (ageinit w' = false ->
            ageinit w = false
            /\ ageindex w' = replicate (Z.to_nat NIOBUF) 0)
        /\ (ageinit w' = true -> Permutation (ageindex w') (seqZ 0 NIOBUF)))
  /\ (forall fptr w,
        age_inv w ->
        exists nbuff w',
          ffwhbf fptr w = Some (nbuff, w')
          /\ ageinit w' = true
          /\ Permutation (ageindex w') (seqZ 0 NIOBUF)).
Proof.
  split; [|split].
  - intros fs ds. split; [apply boot_age_inv|]. split; reflexivity.
  - intros o w w' Hinv Hrun.
    pose proof (wlp_elim _ _ _ _ _ (run_op_age o w Hinv) Hrun) as [[Hs Hp] Hm].
    split; [exact Hs|]. unfold ages_perm in Hp. split.
    + intros Hi. rewrite Hi in Hp. split; [|exact Hp].
      destruct (ageinit w); [|reflexivity].
      rewrite Hm in Hi by reflexivity. discriminate Hi.
    + intros Hi. rewrite Hi in Hp. exact Hp.
  - intros fptr w Hinv.
    pose proof (ffwhbf_spec fptr w (proj1 Hinv) (age_inv_in_range w Hinv))
      as Hrun.
    eexists _, _. split; [exact Hrun|].
    pose proof (wlp_elim _ _ _ _ _ (ffwhbf_age_post fptr w Hinv) Hrun)
      as [[[Hs Hp] _] Hi].
    split; [exact Hi|]. unfold ages_perm in Hp. rewrite Hi in Hp. exact Hp.
Qed.

End AgeTheorem.

(** At process start, and still after a load that fails with
    END_OF_FILE, the age index holds forty zeros: it is not a
    permutation of [0 .. NIOBUF-1]. *)
Lemma age_index_not_permutation_at_start :
  ffldrc nav0 f0 0 REPORT_EOF 0 boot0 = Some (END_OF_FILE, boot0)
  /\ ~ Permutation (ageindex boot0) (seqZ 0 NIOBUF).
Proof.
  split; [vm_compute; reflexivity|].
  intros HP.
  assert (H1 : 1 ∈ seqZ 0 NIOBUF) by (apply elem_of_seqZ; vm_compute; split; [discriminate | reflexivity]).
  rewrite <- HP in H1. unfold boot0, boot in H1. simpl in H1.
  apply elem_of_replicate in H1 as [H1 _]. discriminate H1.
Qed.

Lemma nav0_age : forall fptr n st w,
  age_inv w -> wlp (nav0 fptr n st) (fun _ w' => age_post w w') w.
Proof. intros. apply age_post_refl. assumption. Qed.

Lemma rdef0_age : forall fptr st w,
  age_inv w -> wlp (rdef0 fptr st) (fun _ w' => age_post w w') w.
Proof. intros. apply age_post_refl. assumption. Qed.

Lemma gtcl_byte_age : forall fptr c st w,
  age_inv w -> wlp (gtcl_byte fptr c st) (fun _ w' => age_post w w') w.
Proof. intros. apply age_post_refl. assumption. Qed.

Lemma ghdn0_age : forall fptr w,
  age_inv w -> wlp (ghdn0 fptr) (fun _ w' => age_post w w') w.
Proof. intros. apply age_post_refl. assumption. Qed.

Lemma chdu0_age : forall fptr st w,
  age_inv w -> wlp (chdu0 fptr st) (fun _ w' => age_post w w') w.
Proof. intros. apply age_post_refl. assumption. Qed.

Lemma gext0_age : forall fptr n st w,
  age_inv w -> wlp (gext0 fptr n st) (fun _ w' => age_post w w') w.
Proof. intros. apply age_post_refl. assumption. Qed.

(** A flush of the fresh process leaves the forty zeros, and the first
    load of the fresh process initialises the age index. *)
Lemma age_index_permutation_witness :
  (exists w0,
      run_op nav0 rdef0 gtcl_byte ghdn0 chdu0 gext0 (op_ffflus f0 0) boot0
      = Some (tt, w0)
      /\ ageinit w0 = false
      /\ ageindex w0 = replicate (Z.to_nat NIOBUF) 0)
  /\ exists w', run_op nav0 rdef0 gtcl_byte ghdn0 chdu0 gext0
                       (op_ffldrc f0 0 IGNORE_EOF 0) boot0
                = Some (tt, w')
                /\ ageinit w' = true
                /\ Permutation (ageindex w') (seqZ 0 NIOBUF).
Proof.
  destruct (age_index_permutation_once_initialised
              nav0 rdef0 gtcl_byte ghdn0 chdu0 gext0
              nav0_age rdef0_age gtcl_byte_age ghdn0_age chdu0_age gext0_age)
    as (Hboot & Hstep & _).
  split.
  - destruct (run_op nav0 rdef0 gtcl_byte ghdn0 chdu0 gext0
                     (op_ffflus f0 0) boot0)
      as [[[] w0]|] eqn:E; [|vm_compute in E; discriminate E].
    exists w0. split; [reflexivity|].
    assert (Hi : ageinit w0 = false).
    { vm_compute in E. injection E as <-. reflexivity. }
    split; [exact Hi|].
    destruct (Hstep _ boot0 w0 (proj1 (Hboot _ _)) E) as (_ & Hz & _).
    apply Hz. exact Hi.
  - destruct (run_op nav0 rdef0 gtcl_byte ghdn0 chdu0 gext0
                     (op_ffldrc f0 0 IGNORE_EOF 0) boot0)
      as [[[] w']|] eqn:E; [|vm_compute in E; discriminate E].
    exists w'. split; [reflexivity|].
    assert (Hi : ageinit w' = true).
    { vm_compute in E. injection E as <-. reflexivity. }
    split; [exact Hi|].
    destruct (Hstep _ boot0 w' (proj1 (Hboot _ _)) E) as (_ & _ & Hp).
    apply Hp. exact Hi.
Defined.


(** The selector on a fresh process: the oldest slot, slot 0, is empty. *)
Lemma ffwhbf_is_choose_victim_witness :
  ffwhbf f0 boot0 = Some (0, ffwhbf_init boot0).
Proof.
  destruct (ffwhbf_is_choose_victim nav0 f0 boot0
              (boot_slots_ok _ _) (boot_ages_in_range _ _)) as (_ & H & _).
  apply H. vm_compute. reflexivity.
Defined.


(** * Scenarios *)

(** C1.  The round trip fails on a file whose current buffer was
    disassociated by an earlier [ffflsh(fptr, TRUE)]: after the round
    trip of one byte at offset 0, buffer 0 is still the [curbuf] of the
    file and still carries record number 0, but it is no longer the
    file's.  The seek to offset 2879 therefore loads nothing, the first
    byte of the write lands in a buffer that no flush will write, and the
    read that follows the flush finds 0x00 where ["X"] was written. *)
Theorem round_trip_after_flush_loses_byte :
  result (exec ffldrc nav0 f0 0 IGNORE_EOF 0;
          exec round_trip 0 ["A"%byte];
          round_trip 2879 ["X"%byte; "Y"%byte]) boot0
  = Some (0, [x00; "Y"%byte]).
Proof. vm_compute. reflexivity. Qed.

(** The same round trip on a file whose current buffer is its own. *)
Example round_trip_first_use :
  result (exec ffldrc nav0 f0 0 IGNORE_EOF 0;
          round_trip 2879 ["X"%byte; "Y"%byte]) boot0
  = Some (0, ["X"%byte; "Y"%byte]).
Proof. vm_compute. reflexivity. Qed.

(** C3, the claim as stated fails: record 2 of the empty file 0 sits
    in the only dirty buffer, and the first write call of its writeback
    (the zeros for record 0) fails.  The buffer is clean afterwards all
    the same, and the loop has gone on: the two write calls that follow
    the failing one both reach the driver, the second of them with the
    buffer itself, and the file is believed to be three records long. *)
Lemma writeback_failure_clears_dirty_flag :
  rd (dirty one_block_past_eof) 0 = Some true
  /\ wlog one_block_past_eof = []
  /\ result (ffbfwt 0 0) (with_faults [true] one_block_past_eof)
     = Some WRITE_ERROR
  /\ rd (dirty (after (ffbfwt 0 0) (with_faults [true] one_block_past_eof))) 0
     = Some false
  /\ filesize (files (after (ffbfwt 0 0)
                        (with_faults [true] one_block_past_eof)) 0%nat)
     = 3 * IOBUFLEN
  /\ map (fun e => snd e)
         (wlog (after (ffbfwt 0 0) (with_faults [true] one_block_past_eof)))
     = [zeros; replicate (Z.to_nat IOBUFLEN) x00].
Proof. vm_compute. repeat split; reflexivity. Qed.

Lemma one_block_past_eof_slots (fl : list bool) :
  slots_ok (with_faults fl one_block_past_eof).
Proof. vm_compute. repeat split; reflexivity. Qed.

(** The second of the three write calls of a writeback fails: the run
    is defined, the buffer is clean, all three outcomes of the oracle
    are used, two blocks are in the log and the status is
    WRITE_ERROR. *)
Lemma ffbfwt_failure_clears_dirty_witness :
  exists st' w',
    ffbfwt 0 0 (with_faults [false; true; false] one_block_past_eof)
    = Some (st', w')
    /\ rd (dirty w') 0 = Some false
    /\ io_faults w' = []
    /\ length (wlog w') = 2%nat
    /\ st' = WRITE_ERROR
    /\ filesize (files w' 0%nat) = 3 * IOBUFLEN.
Proof.
  destruct (ffbfwt_failure_clears_dirty 0 0 0%nat 2 0
              (with_faults [false; true; false] one_block_past_eof))
    as (st' & w' & Hrun & H1 & H2 & H3 & H4 & H5).
  - apply one_block_past_eof_slots.
  - apply bufs_ok_check. vm_compute. reflexivity.
  - split; vm_compute; reflexivity.
  - lia.
  - vm_compute. reflexivity.
  - exists st', w'. split; [exact Hrun|]. split; [exact H1|].
    split; [exact H2|]. split; [|split; [exact H4 | exact H5]].
    change (length (wlog w') + 1 = 0 + 3)%nat in H3. lia.
Defined.



Lemma first_load_slots : slots_ok first_load.
Proof. vm_compute. repeat split; reflexivity. Qed.

Lemma first_load_perm : Permutation (ageindex first_load) (seqZ 0 NIOBUF).
Proof.
  assert (E : ageindex first_load = seqZ 1 (NIOBUF - 1) ++ [0])
    by (vm_compute; reflexivity).
  rewrite E. rewrite (seqZ_cons 0 NIOBUF) by (vm_compute; reflexivity).
  symmetry. apply Permutation_cons_append.
Qed.

(** C6, the claim as stated fails: after the first load record 0 of
    file 0 sits in buffer 0.  A load of that record in REPORT_EOF mode
    that is entered with the status END_OF_FILE of an earlier call
    returns END_OF_FILE, although a buffer holds the record: the record
    is adopted, and the status that comes back is the status that went
    in. *)
Lemma ffldrc_resident_returns_entry_status :
  holds first_load 0 0%nat 0
  /\ result (ffldrc nav0 f0 0 REPORT_EOF END_OF_FILE) first_load
     = Some END_OF_FILE
  /\ curbuf (files (after (ffldrc nav0 f0 0 REPORT_EOF END_OF_FILE)
                          first_load) 0%nat) = 0.
Proof. vm_compute. repeat split; reflexivity. Qed.

(** At process start no buffer has an owner: the age index, forty
    zeros, lists every buffer that has one. *)
Lemma boot_owners_listed fs ds : owners_listed (boot fs ds).
Proof.
  intros nbuff F H. unfold boot in H. simpl in H.
  apply rd_replicate in H. discriminate H.
Qed.

(** A fresh process refuses the load of record 0 of its empty file 0.
    After the first load, record 0 of file 0 sits in buffer 0, past the
    end of the empty file, and record 7 is in no buffer: the load of
    record 7 is refused and the load of record 0 adopts the buffer. *)
Lemma ffldrc_end_of_file_exactly_witness :
  ffldrc nav0 f0 0 REPORT_EOF 0 boot0 = Some (END_OF_FILE, boot0)
  /\ ffldrc nav0 f0 7 REPORT_EOF 0 first_load = Some (END_OF_FILE, first_load)
  /\ exists w' j, ffldrc nav0 f0 0 REPORT_EOF 0 first_load = Some (0, w')
                  /\ holds w' j 0%nat 0.
Proof.
  split; [|split].
  - destruct (ffldrc_end_of_file_exactly nav0 f0 0 0 boot0
                (boot_slots_ok _ _) (boot_ages_in_range _ _)
                (boot_owners_listed _ _) eq_refl) as (H & _ & _);
      [discriminate|].
    apply H; [|vm_compute; discriminate].
    intros i [Hp _]. unfold boot0, boot in Hp. simpl in Hp.
    apply rd_replicate in Hp. discriminate Hp.
  - destruct (ffldrc_end_of_file_exactly nav0 f0 7 0 first_load
                first_load_slots (perm_in_range _ first_load_perm)
                (ages_cover_listed _ first_load_slots
                   (perm_cover _ first_load_perm))
                eq_refl) as (H & _ & _);
      [discriminate|].
    apply H; [|vm_compute; discriminate].
    intros i [Hp Hr].
    assert (Hi : 0 <= i < 40) by (apply rd_range in Hp; exact Hp).
    assert (Hb : forallb (fun j => negb (match rd (bufptr first_load) j,
                                               rd (bufrecnum first_load) j with
                                         | Some (Some 0%nat), Some 7 => true
                                         | _, _ => false
                                         end)) (seqZ 0 40) = true)
      by (vm_compute; reflexivity).
    rewrite forallb_forall in Hb. specialize (Hb i).
    rewrite Hp, Hr in Hb. simpl in Hb.
    assert (Hin : In i (seqZ 0 40))
      by (apply list_elem_of_In, elem_of_seqZ; lia).
    specialize (Hb Hin). discriminate Hb.
  - destruct (ffldrc_end_of_file_exactly nav0 f0 0 0 first_load
                first_load_slots (perm_in_range _ first_load_perm)
                (ages_cover_listed _ first_load_slots
                   (perm_cover _ first_load_perm))
                eq_refl) as (_ & _ & H);
      [discriminate|].
    destruct (H 0) as (w' & j & H1 & H2 & _).
    + split; vm_compute; reflexivity.
    + exists w', j. split; assumption.
Defined.

(** C7.  With forty files open, each holding one buffer, and an image of
    bytes, [ffgrsz] stores 0 through [ndata]: the image branch has no
    [maxvalue(1, ...)]. *)
Theorem ffgrsz_image_full_pool_is_zero :
  result fits_get_num_files forty_files = Some 40
  /\ hdutype (files forty_files 0%nat) = IMAGE_HDU
  /\ result (ffgrsz nav0 rdef0 gtcl_byte f0 0) forty_files = Some (0, Some 0).
Proof. vm_compute. repeat split; reflexivity. Qed.

(** The table branch of [ffgrsz] never stores less than 1. *)
Lemma ffgrsz_table_at_least_one (fptr : fitsfile) (st : Z) (w : world)
    ffmahd ffrdef ffgtcl st' n w' :
  no_drift fptr w ->
  datastart (files w (Fptr fptr)) <> DATA_UNDEFINED ->
  hdutype (files w (Fptr fptr)) <> IMAGE_HDU ->
  ffgrsz ffmahd ffrdef ffgtcl fptr st w = Some ((st', Some n), w') ->
  1 <= n.
Proof.
  intros Hnd Hds Hhdu Hrun.
  assert (Hw : wlp (ffgrsz ffmahd ffrdef ffgtcl fptr st)
                   (fun r _ => forall m, snd r = Some m -> 1 <= m) w).
  { unfold ffgrsz, fits_get_num_files. cbv zeta.
    apply wlp_bind, wlp_file_of.
    rewrite Hnd, Z.eqb_refl. simpl negb. cbv iota.
    destruct (Z.eqb_spec (datastart (files w (Fptr fptr))) DATA_UNDEFINED);
      [contradiction|].
    wlp_steps; simpl in *; try discriminate;
      try (match goal with
           | H : Z.eqb _ IMAGE_HDU = true |- _ =>
               apply Z.eqb_eq in H; contradiction
           end).
    all: intros m [= <-]; lia. }
  exact (wlp_elim _ _ _ _ _ Hw Hrun n eq_refl).
Qed.


(** File 0 is empty on disk and its records 3 and 1 sit in buffers 0 and
    1.  Writing buffer 0 back sends the records 0, 1, 2 and 3 to the
    driver, in this order; records 0 and 2 are zeros. *)
Lemma ffbfwt_extends_in_record_order_witness :
  exists w',
    ffbfwt 0 0 two_blocks_past_eof = Some (0, w')
    /\ filesize (files w' 0%nat) = (3 + 1) * IOBUFLEN
    /\ wlog w'
       = wlog two_blocks_past_eof
         ++ map (fun c => (0%nat, c * IOBUFLEN, disk_block (disk w' 0%nat) c))
                (seqZ 0 4)
    /\ disk_block (disk w' 0%nat) 0 = zeros
    /\ disk_block (disk w' 0%nat) 2 = zeros.
Proof.
  assert (Hh : forall i c, holds two_blocks_past_eof i 0%nat c ->
                           (i = 0 /\ c = 3) \/ (i = 1 /\ c = 1)).
  { intros i c [Hp Hr].
    assert (Hi : 0 <= i < 40) by (apply rd_range in Hp; exact Hp).
    assert (Hb : forallb (fun j =>
                   match rd (bufptr two_blocks_past_eof) j,
                         rd (bufrecnum two_blocks_past_eof) j with
                   | Some (Some _), Some r =>
                       (Z.eqb j 0 && Z.eqb r 3) || (Z.eqb j 1 && Z.eqb r 1)
                   | _, _ => true
                   end) (seqZ 0 40) = true)
      by (vm_compute; reflexivity).
    rewrite forallb_forall in Hb. specialize (Hb i).
    rewrite Hp, Hr in Hb.
    assert (Hin : In i (seqZ 0 40))
      by (apply list_elem_of_In, elem_of_seqZ; lia).
    specialize (Hb Hin). lia. }
  assert (Hq : Z.quot (filesize (files two_blocks_past_eof 0%nat)) IOBUFLEN = 0)
    by (vm_compute; reflexivity).
  destruct (ffbfwt_extends_in_record_order two_blocks_past_eof 0 0%nat 3
              two_blocks_past_eof_inv)
    as (_ & _ & w' & H1 & H2 & H3 & _ & H5).
  - split; vm_compute; reflexivity.
  - vm_compute. reflexivity.
  - rewrite Hq in H3, H5. exists w'.
    split; [exact H1|]. split; [exact H2|]. split; [exact H3|].
    split; apply H5; try lia; intros i Hi; apply Hh in Hi; lia.
Defined.

(** C4, the claim as stated fails: the disk image of file 0 is 2980
    bytes long and record 3 of the file, which starts at offset 8640,
    sits in buffer 0, past the end of the file.  The writeback seeks to
    offset 2980 and computes the number of fill records as
    (8640 - 2980) / 2880 = 1: it writes one record of zeros at offset
    2980 and the buffer at offset 5860, not at 8640.  The gap up to the
    offset of the buffer is not filled: the disk image ends at 8740
    while [filesize] says four records. *)
Lemma ffbfwt_ragged_file_misplaces_record :
  holds ragged_past_eof 0 0%nat 3
  /\ filesize (files ragged_past_eof 0%nat) = 2980
  /\ filesize (files ragged_past_eof 0%nat) < 3 * IOBUFLEN
  /\ result (ffbfwt 0 0) ragged_past_eof = Some 0
  /\ wlog (after (ffbfwt 0 0) ragged_past_eof)
     = [(0%nat, 2980, zeros); (0%nat, 5860, block_of x20)]
  /\ Z.of_nat (length (disk (after (ffbfwt 0 0) ragged_past_eof) 0%nat))
     = 8740
  /\ filesize (files (after (ffbfwt 0 0) ragged_past_eof) 0%nat)
     = 4 * IOBUFLEN.
Proof. vm_compute. repeat split; reflexivity. Qed.

(** C2, the claim as stated fails: file 0 is an ASCII table of one
    record.  After a record of data is written as record 2 and the file
    is flushed, the first byte of record 1, which lies between the old
    end of the file and the data, is 0x00 and not the blank that fills
    an ASCII table. *)
Lemma past_eof_gap_of_ascii_table_is_zero :
  hdutype (files ascii_table 0%nat) = ASCII_TBL
  /\ fill_byte ASCII_TBL = x20
  /\ filesize (files ascii_table 0%nat) = IOBUFLEN
  /\ result (write_block_and_flush nav0 f0 2 (block_of "d") 1) ascii_table
     = Some 0
  /\ disk (after (write_block_and_flush nav0 f0 2 (block_of "d") 1)
                 ascii_table) 0%nat !! Z.to_nat IOBUFLEN
     = Some x00.
Proof. vm_compute. repeat split; reflexivity. Qed.

(** The same run, as an instance of the theorem. *)
Lemma past_eof_block_is_extended_with_zeros_witness :
  exists w',
    write_block_and_flush nav0 f0 2 (block_of "d") 1 ascii_table = Some (0, w')
    /\ Z.of_nat (length (disk w' 0%nat)) = (2 + 1) * IOBUFLEN
    /\ (forall p, filesize (files ascii_table 0%nat) <= p < 2 * IOBUFLEN ->
                  disk w' 0%nat !! Z.to_nat p = Some x00)
    /\ take (Z.to_nat IOBUFLEN) (drop (Z.to_nat (2 * IOBUFLEN)) (disk w' 0%nat))
       = block_of "d".
Proof.
  apply (past_eof_block_is_extended_with_zeros nav0 f0 2 1 (block_of "d")
           ascii_table).
  - exact (ld_inv _ _ _ _ ascii_table_loaded).
  - reflexivity.
  - exists 0. split; [vm_compute; reflexivity | discriminate].
  - intros i c Hi.
    destruct (ld_holds _ _ _ _ ascii_table_loaded i 0%nat c Hi)
      as [(_ & _ & ->)|[Hp _]].
    + vm_compute. discriminate.
    + apply rd_replicate in Hp. discriminate.
  - vm_compute. reflexivity.
  - vm_compute. reflexivity.
Defined.

(** C8, the claim as stated fails: two groups of two records and a byte
    each, written from the start of record 0.  [ffpbytoff] fills buffer
    0, loads record 1 into buffer 1 and copies what is left of the
    group, a record and a byte, into that buffer of one record: the copy
    runs past the end of [iobuffer[1]] and the run has no defined
    result.  (In the contiguous array of the source the byte in excess
    lands in [iobuffer[2]], which the load of record 2 that follows
    fills with zeros: the byte is lost before [ffgbytoff] looks for
    it.) *)
Lemma strided_group_longer_than_two_records :
  1 <= 2 * IOBUFLEN + 1 /\ 1 <= 2 /\ 0 <= 0
  /\ Z.of_nat (length (replicate (Z.to_nat (2 * (2 * IOBUFLEN + 1))) "x"%byte))
     = 2 * (2 * IOBUFLEN + 1)
  /\ result (strided_trip nav0 f0 0 (2 * IOBUFLEN + 1) 2 0
               (replicate (Z.to_nat (2 * (2 * IOBUFLEN + 1))) "x"%byte))
            loaded0
     = None.
Proof. vm_compute. repeat split; discriminate. Qed.

(** Six groups of four bytes, three bytes apart, from offset 2870 on:
    the second group straddles the end of record 0. *)
Lemma strided_round_trip_witness :
  exists w',
    strided_trip nav0 f0 2870 4 6 3
      (replicate 12 "p"%byte ++ replicate 12 "q"%byte) loaded0
    = Some ((0, replicate 12 "p"%byte ++ replicate 12 "q"%byte), w').
Proof.
  apply (strided_round_trip nav0 f0 2870 4 6 3
           (replicate 12 "p"%byte ++ replicate 12 "q"%byte) loaded0).
  - exact (ld_inv _ _ _ _ loaded0_loaded).
  - reflexivity.
  - exists 0. split; [vm_compute; reflexivity|].
    intros _. vm_compute. reflexivity.
  - lia.
  - vm_compute. split; discriminate.
  - lia.
  - lia.
  - vm_compute. reflexivity.
Defined.


(** * Counting the open files *)

(** The inner loop of [fits_get_num_files] over the slots [a .. a+n-1]
    decides whether the pointer [p] occurs there. *)
Lemma seen_before_spec (w : world) (p : option nat) (n : nat) :
  forall a : nat,
    (a + n <= length (bufptr w))%nat ->
    seen_before w p (seqZ (Z.of_nat a) (Z.of_nat n))
    = Some (bool_decide (p ∈ take n (drop a (bufptr w)))).
Proof.
  induction n as [|n IH]; intros a Hle.
  - change (Some false = Some (bool_decide (p ∈ @nil (option nat)))).
    rewrite bool_decide_eq_false_2; [reflexivity|].
    intros H. apply elem_of_nil in H. exact H.
  - rewrite seqZ_cons by lia. simpl seen_before.
    destruct (lookup_lt_is_Some_2 (bufptr w) a) as [q Hq]; [lia|].
    assert (Hrd : rd (bufptr w) (Z.of_nat a) = Some q).
    { apply rd_Some. split; [lia|]. rewrite Nat2Z.id. exact Hq. }
    rewrite Hrd.
    rewrite (drop_S _ q a Hq). simpl take.
    replace (Z.succ (Z.of_nat a)) with (Z.of_nat (S a)) by lia.
    replace (Z.pred (Z.of_nat (S n))) with (Z.of_nat n) by lia.
    destruct (decide (p = q)) as [->|Hne].
    + rewrite bool_decide_eq_true_2 by reflexivity.
      rewrite bool_decide_eq_true_2 by (apply elem_of_cons; left; reflexivity).
      reflexivity.
    + rewrite (bool_decide_eq_false_2 (p = q)) by exact Hne.
      rewrite IH by lia. f_equal. apply bool_decide_ext.
      rewrite elem_of_cons. tauto.
Qed.

(** The outer loop from slot [a] on, entered with the count of the
    distinct files that own one of the slots before [a]. *)
Lemma count_files_spec (w : world) (n : nat) :
  forall (a : nat) (l : list nat),
    (a + n <= length (bufptr w))%nat ->
    NoDup l -> (forall F, F ∈ l <-> Some F ∈ take a (bufptr w)) ->
    exists l',
      NoDup l'
      /\ (forall F, F ∈ l' <-> Some F ∈ take (a + n) (bufptr w))
      /\ count_files w (seqZ (Z.of_nat a) (Z.of_nat n)) (Z.of_nat (length l))
         = Some (Z.of_nat (length l')).
Proof.
  induction n as [|n IH]; intros a l Hle Hnd Hl.
  - exists l. rewrite Nat.add_0_r. auto.
  - rewrite seqZ_cons by lia. simpl count_files.
    destruct (lookup_lt_is_Some_2 (bufptr w) a) as [q Hq]; [lia|].
    assert (Hrd : rd (bufptr w) (Z.of_nat a) = Some q).
    { apply rd_Some. split; [lia|]. rewrite Nat2Z.id. exact Hq. }
    rewrite Hrd.
    replace (Z.succ (Z.of_nat a)) with (Z.of_nat (S a)) by lia.
    replace (Z.pred (Z.of_nat (S n))) with (Z.of_nat n) by lia.
    replace (a + S n)%nat with (S a + n)%nat by lia.
    assert (Htake : take (S a) (bufptr w) = take a (bufptr w) ++ [q])
      by (apply take_S_r; exact Hq).
    destruct q as [F|].
    + pose proof (seen_before_spec w (Some F) a 0%nat) as Hseen.
      rewrite drop_0 in Hseen. change (Z.of_nat 0) with 0 in Hseen.
      rewrite Hseen by lia.
      destruct (decide (Some F ∈ take a (bufptr w))) as [Hin|Hnin].
      * rewrite bool_decide_eq_true_2 by exact Hin.
        apply (IH (S a) l); [lia | exact Hnd|].
        intros G. rewrite Htake, elem_of_app, Hl, list_elem_of_singleton.
        split; [tauto|]. intros [H|[= ->]]; [exact H | exact Hin].
      * rewrite bool_decide_eq_false_2 by exact Hnin.
        replace (Z.of_nat (length l) + 1) with (Z.of_nat (length (F :: l)))
          by (simpl length; lia).
        apply (IH (S a) (F :: l)); [lia | |].
        -- apply NoDup_cons. split; [|exact Hnd].
           intros H. apply Hl in H. contradiction.
        -- intros G. rewrite Htake, elem_of_app, elem_of_cons, Hl,
             list_elem_of_singleton.
           split; [intros [->|H]; auto | intros [H|[= ->]]; auto].
    + apply (IH (S a) l); [lia | exact Hnd|].
      intros G. rewrite Htake, elem_of_app, Hl, list_elem_of_singleton.
      split; [tauto|]. intros [H|H]; [exact H | discriminate].
Qed.

(** The whole pool: the count is taken over a duplicate-free list of
    the files that own a buffer. *)
Lemma num_files_run (w : world) :
  Z.of_nat (length (bufptr w)) = NIOBUF ->
  exists l : list nat,
    NoDup l
    /\ (forall F, F ∈ l <-> Some F ∈ bufptr w)
    /\ fits_get_num_files w = Some (Z.of_nat (length l), w).
Proof.
  intros Hlen.
  destruct (count_files_spec w (length (bufptr w)) 0%nat [])
    as (l & Hnd & Hl & Hrun).
  - lia.
  - apply NoDup_nil_2.
  - intros F. simpl. rewrite !elem_of_nil. tauto.
  - exists l. split; [exact Hnd|].
    simpl in Hl. rewrite firstn_all in Hl.
    split; [exact Hl|].
    unfold fits_get_num_files, reads.
    rewrite Hlen in Hrun. change (Z.of_nat 0) with 0 in Hrun.
    change (Z.of_nat (length (@nil nat))) with 0 in Hrun.
    rewrite Hrun. reflexivity.
Qed.

(** There are no more owners than buffers. *)
Lemma owners_bound (w : world) (l : list nat) :
  NoDup l -> (forall F, F ∈ l -> Some F ∈ bufptr w) ->
  (length l <= length (bufptr w))%nat.
Proof.
  intros Hnd Hl. rewrite <- (length_fmap Some l).
  apply submseteq_length, NoDup_submseteq.
  - apply (NoDup_fmap_2 Some). exact Hnd.
  - intros x Hx. apply list_elem_of_fmap in Hx as (F & -> & HF).
    apply Hl. exact HF.
Qed.

(** X1.  On a pool of [NIOBUF] slots [fits_get_num_files] is defined,
    leaves the world alone, and returns the number of distinct files
    that own at least one buffer: there is a duplicate-free list of
    exactly these files whose length is the result.  The result lies
    between [0] and [NIOBUF]. *)
Theorem fits_get_num_files_counts_owners (w : world) :
  Z.of_nat (length (bufptr w)) = NIOBUF ->
  exists l : list nat,
    NoDup l
    /\ (forall F, F ∈ l <-> Some F ∈ bufptr w)
    /\ fits_get_num_files w = Some (Z.of_nat (length l), w)
    /\ 0 <= Z.of_nat (length l) <= NIOBUF.
Proof.
  intros Hlen.
  destruct (num_files_run w Hlen) as (l & Hnd & Hl & Hrun).
  exists l. split; [exact Hnd|]. split; [exact Hl|]. split; [exact Hrun|].
  split; [lia|]. rewrite <- Hlen. apply inj_le.
  apply (owners_bound w l Hnd). intros F HF. apply Hl. exact HF.
Qed.

(** The witness: a fresh process in which file 0 has loaded one record
    counts one file. *)
Lemma fits_get_num_files_counts_owners_witness :
  Z.of_nat (length (bufptr loaded0)) = NIOBUF
  /\ exists l : list nat,
       NoDup l
       /\ (forall F, F ∈ l <-> Some F ∈ bufptr loaded0)
       /\ fits_get_num_files loaded0 = Some (Z.of_nat (length l), loaded0)
       /\ 0 <= Z.of_nat (length l) <= NIOBUF.
Proof.
  assert (H : Z.of_nat (length (bufptr loaded0)) = NIOBUF)
    by (vm_compute; reflexivity).
  split; [exact H|].
  apply (fits_get_num_files_counts_owners loaded0 H).
Defined.


(** * The pool: victims and dropped buffers *)

Lemma ffwhbf_init_pool (w : world) :
  bufptr (ffwhbf_init w) = bufptr w /\ files (ffwhbf_init w) = files w
  /\ bufrecnum (ffwhbf_init w) = bufrecnum w.
Proof. unfold ffwhbf_init. destruct (ageinit w); auto. Qed.

Lemma ffcurbuf_Some (nbuff : Z) (G : nat) (w w' : world) :
  ffcurbuf nbuff w = Some (Some G, w') ->
  rd (bufptr w) nbuff = Some (Some G) /\ curbuf (files w G) = nbuff.
Proof.
  unfold ffcurbuf, bind, rdM, reads, file_of, gets, ret.
  destruct (rd (bufptr w) nbuff) as [[H|]|]; try discriminate.
  destruct (Z.eqb_spec (curbuf (files w H)) nbuff); [|discriminate].
  intros [= -> _]. auto.
Qed.

(** X2.  The buffer that [ffwhbf] hands to a file is never the current
    buffer of another file, as [ffcurbuf] reports it, unless the
    caller's own [curbuf] already names the current buffer of another
    file. *)
Theorem ffwhbf_spares_current_buffers (fptr : fitsfile) (w : world) :
  slots_ok w -> ages_in_range w ->
  (forall G, G <> Fptr fptr ->
     rd (bufptr w) (curbuf (files w (Fptr fptr))) = Some (Some G) ->
     curbuf (files w G) <> curbuf (files w (Fptr fptr))) ->
  exists n,
    ffwhbf fptr w = Some (n, ffwhbf_init w)
    /\ forall G, ffcurbuf n (ffwhbf_init w) = Some (Some G, ffwhbf_init w) ->
                 G = Fptr fptr.
Proof.
  intros Hs Ha Hown. rewrite (ffwhbf_spec fptr w Hs Ha).
  destruct (ffwhbf_init_pool w) as (Ep & Ef & _).
  set (n := match choose_victim (ffwhbf_init w) (Fptr fptr) with
            | Some s => s
            | None => curbuf (files (ffwhbf_init w) (Fptr fptr))
            end).
  assert (Hn : (exists s, find (unpinned (ffwhbf_init w))
                               (ageindex (ffwhbf_init w)) = Some s /\ n = s)
               \/ n = curbuf (files w (Fptr fptr))).
  { unfold n, choose_victim.
    destruct (find (unpinned (ffwhbf_init w)) (ageindex (ffwhbf_init w)))
      as [s|]; [left; exists s; auto|].
    right. rewrite Ef. destruct (Z.ltb _ 0); reflexivity. }
  exists n. split; [reflexivity|].
  intros G HG. apply ffcurbuf_Some in HG as [Hp Hc].
  destruct Hn as [(s & Efind & Es)|En].
  - exfalso. apply find_some in Efind as [_ Hu].
    unfold unpinned in Hu. rewrite <- Es, Hp in Hu.
    rewrite Hc, Z.eqb_refl in Hu. discriminate.
  - rewrite Ep, En in Hp. rewrite Ef, En in Hc.
    destruct (Nat.eq_dec G (Fptr fptr)) as [E|E]; [exact E|].
    exfalso. exact (Hown G E Hp Hc).
Qed.

(** File 0 is the only file with a buffer: the buffer that [ffwhbf]
    gives it is no other file's current buffer. *)
Lemma ffwhbf_spares_current_buffers_witness :
  exists n,
    ffwhbf f0 loaded0 = Some (n, ffwhbf_init loaded0)
    /\ forall G, ffcurbuf n (ffwhbf_init loaded0)
                 = Some (Some G, ffwhbf_init loaded0) ->
                 G = Fptr f0.
Proof.
  apply (ffwhbf_spares_current_buffers f0 loaded0).
  - vm_compute. repeat split; reflexivity.
  - apply perm_in_range, (inv_ages _ _ (ld_inv _ _ _ _ loaded0_loaded)).
  - intros G HG Hp. exfalso. apply HG.
    assert (E : rd (bufptr loaded0) (curbuf (files loaded0 (Fptr f0)))
                = Some (Some 0%nat)) by (vm_compute; reflexivity).
    rewrite E in Hp. injection Hp as <-. reflexivity.
Defined.

(** ** ffbfeof *)

Lemma holds_release (w : world) (ii i : Z) (G : nat) (c : Z) :
  0 <= ii < Z.of_nat (length (bufptr w)) ->
  holds (set_bufptr (<[Z.to_nat ii := None]> (bufptr w)) w) i G c
  <-> i <> ii /\ holds w i G c.
Proof.
  intros Hii. unfold holds. simpl. rewrite rd_insert by exact Hii.
  destruct (Z.eqb_spec ii i) as [->|Hne].
  - split; [intros [[=] _] | intros [H _]; contradiction].
  - split; [intros H; split; [congruence | exact H] | intros [_ H]; exact H].
Qed.

(** X3.  [ffbfeof] is defined on any pool of [NIOBUF] slots and returns
    the status it was given.  Afterwards a buffer holds a record exactly
    if it held it before and the record is not one of the file's
    records that start at or after the end of the file; the buffers'
    contents, record numbers and dirty flags, the file structures, the
    disks and the log of transfers are untouched: what is dropped is
    never written. *)
Theorem ffbfeof_drops_records_past_eof (fptr : fitsfile) (st : Z) (w : world) :
  slots_ok w ->
  exists w',
    ffbfeof fptr st w = Some (st, w')
    /\ (forall i G c,
          holds w' i G c <->
          holds w i G c
          /\ ~ (G = Fptr fptr
                /\ filesize (files w (Fptr fptr)) <= c * IOBUFLEN))
    /\ iobuffer w' = iobuffer w /\ bufrecnum w' = bufrecnum w
    /\ dirty w' = dirty w /\ files w' = files w
    /\ disk w' = disk w /\ wlog w' = wlog w.
Proof.
  intros Hs. pose proof Hs as (Hl1 & Hl2 & Hl3 & Hl4 & Hl5).
  set (F := Fptr fptr).
  assert (Hloop :
    wp (for_status (seqZ 0 NIOBUF) (fun ii st0 =>
          do owner <- rdM bufptr ii;
          match owner with
          | Some G =>
              if Nat.eqb G F then
                do r <- rdM bufrecnum ii;
                do Ff <- file_of F;
                exec (if Z.leb (filesize Ff) (r * IOBUFLEN)
                      then put_bufptr ii None else ret tt);
                ret st0
              else ret st0
          | None => ret st0
          end) st)
       (fun st' w' => st' = st /\ eof_dropped F w NIOBUF w') w).
  { apply (wp_for_status_slots
             (fun ii st' w' => st' = st /\ eof_dropped F w ii w')).
    - split; [reflexivity|]. split; auto.
      intros i G c. split; [|tauto]. intros H. split; [exact H|].
      intros (Hi & _). pose proof (holds_range w i G c Hs H). lia.
    - intros ii st' w1 Hii [-> [E1 E2 E3 E4 E5 E6 E7 E8 E9]].
      destruct (rd_in_range (bufptr w) ii) as [owner Ho]; [lia|].
      destruct (rd_in_range (bufrecnum w) ii) as [r Hr]; [lia|].
      eapply wp_bind, wp_rdM; [rewrite E3 by lia; exact Ho|].
      assert (Hkeep : (forall c, holds w ii F c ->
                                 ~ filesize (files w F) <= c * IOBUFLEN) ->
                      eof_dropped F w (ii + 1) w1).
      { intros Hk. split; auto.
        - intros i G c. rewrite E2. split.
          + intros [H Hn]. split; [exact H|].
            intros (Hi & -> & Hle). apply Hn. split; [|auto].
            destruct (Z.eq_dec i ii) as [->|]; [|lia].
            exfalso. exact (Hk c H Hle).
          + intros [H Hn]. split; [exact H|].
            intros (Hi & HG & Hle). apply Hn. split; [lia | auto].
        - intros i Hi. apply E3. lia. }
      destruct owner as [G|].
      + destruct (Nat.eqb_spec G F) as [->|HG].
        * eapply wp_bind, wp_rdM; [rewrite E5; exact Hr|].
          apply wp_bind, wp_file_of. rewrite E8.
          destruct (Z.leb_spec (filesize (files w F)) (r * IOBUFLEN))
            as [Hle|Hgt].
          -- eapply wp_bind, wp_put_bufptr; [rewrite E1; lia|].
             apply wp_ret. split; [reflexivity|].
             split; simpl; auto.
             ++ rewrite length_insert. exact E1.
             ++ intros i G c.
                rewrite (holds_release w1 ii i G c) by (rewrite E1; lia).
                rewrite E2. split.
                ** intros (Hne & H & Hn). split; [exact H|].
                   intros (Hi & HG & Hle'). apply Hn.
                   split; [lia | auto].
                ** intros (H & Hn). split.
                   --- intros ->. apply Hn. split; [lia|].
                       destruct (holds_fun w ii G F c r H (conj Ho Hr))
                         as [-> ->]. auto.
                   --- split; [exact H|].
                       intros (Hi & HG & Hle'). apply Hn.
                       split; [lia | auto].
             ++ intros i Hi. rewrite rd_insert_ne by lia. apply E3. lia.
          -- apply wp_bind, wp_ret. apply wp_ret.
             split; [reflexivity|]. apply Hkeep.
             intros c Hc.
             destruct (holds_fun w ii F F c r Hc (conj Ho Hr)) as [_ ->].
             lia.
        * apply wp_ret. split; [reflexivity|]. apply Hkeep.
          intros c [Hc _]. congruence.
      + apply wp_ret. split; [reflexivity|]. apply Hkeep.
        intros c [Hc _]. congruence. }
  unfold ffbfeof. fold F.
  apply wp_elim in Hloop as (st' & w' & Hrun & -> & [E1 E2 E3 E4 E5 E6 E7 E8 E9]).
  exists w'. split.
  { unfold bind at 1. rewrite Hrun. reflexivity. }
  split.
  - intros i G c. rewrite E2. split.
    + intros [H Hn]. split; [exact H|]. intros [HG Hle]. apply Hn.
      split; [|auto]. apply (holds_range w i G c Hs H).
    + intros [H Hn]. split; [exact H|]. intros (_ & HG & Hle). apply Hn. auto.
  - destruct E9 as (? & ? & ? & ?). auto 10.
Qed.

(** A fresh process in which file 0, empty on disk, holds its records 3
    and 1: [ffbfeof] drops both. *)
Lemma ffbfeof_drops_records_past_eof_witness :
  slots_ok two_blocks_past_eof
  /\ exists w',
       ffbfeof f0 0 two_blocks_past_eof = Some (0, w')
       /\ (forall i c, ~ holds w' i 0%nat c)
       /\ wlog w' = wlog two_blocks_past_eof.
Proof.
  assert (Hs : slots_ok two_blocks_past_eof)
    by apply (inv_slots _ _ two_blocks_past_eof_inv).
  split; [exact Hs|].
  destruct (ffbfeof_drops_records_past_eof f0 0 two_blocks_past_eof Hs)
    as (w' & Hrun & Hh & _ & _ & _ & _ & _ & Hlog).
  exists w'. split; [exact Hrun|]. split; [|exact Hlog].
  intros i c H. apply Hh in H as [H Hn]. apply Hn. split; [reflexivity|].
  pose proof (inv_owned _ _ two_blocks_past_eof_inv i 0%nat c H) as [Hc _].
  pose proof IOBUFLEN_pos.
  change (filesize (files two_blocks_past_eof (Fptr f0))) with 0. nia.
Defined.

(** ** ffbfwt inside the file *)

(** The branch of [ffbfwt] for a record that starts inside the file or
    right at its end. *)
Lemma ffbfwt_within (w : world) (nbuff : Z) (F : nat) (b : Z)
    (buf : list byte) :
  Inv w -> holds w nbuff F b ->
  b * IOBUFLEN <= filesize (files w F) ->
  rd (iobuffer w) nbuff = Some buf ->
  wp (ffbfwt nbuff 0)
     (fun st w' => st = 0 /\ record_written w nbuff F b buf w') w.
Proof.
  intros HI Hn Hle Hbuf. pose proof IOBUFLEN_pos as HL.
  destruct (file_size_block w F (inv_files _ _ HI F)) as (m0 & Hm0 & Hsz & Hq).
  destruct (inv_owned _ _ HI nbuff F b Hn) as [Hb0 _].
  pose proof (holds_range w nbuff F b (inv_slots _ _ HI) Hn) as Hnr.
  destruct (inv_slots _ _ HI) as (Hl1 & Hl2 & Hl3 & Hl4 & Hl5).
  unfold ffbfwt.
  eapply wp_bind, wp_rdM; [exact (proj1 Hn)|].
  eapply wp_bind, wp_rdM; [exact (proj2 Hn)|].
  apply wp_bind, wp_file_of.
  destruct (Z.leb_spec (b * IOBUFLEN) (filesize (files w F))) as [_|Hgt];
    [|lia].
  destruct (seek_if_needed w F (b * IOBUFLEN) (inv_files _ _ HI F))
    as (w1 & Hseek & [M1 M2 M3 M4 M5 M6 M7 M8]); [nia|].
  pose proof M1 as (Eio & Ebp & Ebr & Eag & Ein).
  eapply wp_bind_run; [exact Hseek|].
  pose proof (inv_bufs _ _ HI nbuff buf Hbuf) as Hbl.
  eapply wp_bind, wp_rdM; [rewrite Eio; exact Hbuf|].
  eapply wp_bind_run.
  { apply ffwrite_run; [rewrite M7; apply (inv_faults _ _ HI) | lia]. }
  rewrite take_ge by lia.
  apply wp_bind, wp_modify. apply wp_bind, wp_file_of.
  set (sz' := Z.max (filesize (files w F)) ((b + 1) * IOBUFLEN)).
  match goal with
  | |- wp (bind _ _) _ ?wx0 => set (wx := wx0)
  end.
  assert (Efs : files wx F
                = with_io_pos (b * IOBUFLEN + IOBUFLEN) (files w F)).
  { unfold wx. simpl. rewrite upd_same, M3. reflexivity. }
  assert (Hsize : exists w2,
            (if Z.eqb (b * IOBUFLEN) (filesize (files wx F))
             then modify (upd_file F (with_filesize
                                        (filesize (files wx F) + IOBUFLEN)))
             else ret tt) wx = Some (tt, w2) /\
            same_pool wx w2 /\ dirty w2 = dirty wx /\
            (forall G, G <> F -> files w2 G = files wx G) /\
            files w2 F = with_filesize sz' (files wx F) /\
            disk w2 = disk wx /\ ospos w2 = ospos wx /\
            io_faults w2 = io_faults wx /\ wlog w2 = wlog wx).
  { rewrite Efs. cbn [filesize with_io_pos].
    destruct (Z.eqb_spec (b * IOBUFLEN) (filesize (files w F))) as [E|E].
    - eexists. split; [reflexivity|].
      split; [apply upd_file_same_pool|].
      split; [reflexivity|]. split.
      + intros G HG. apply upd_file_other. exact HG.
      + rewrite upd_file_at. unfold sz'.
        replace (Z.max (filesize (files w F)) ((b + 1) * IOBUFLEN))
          with (filesize (files w F) + IOBUFLEN) by nia.
        rewrite ?Efs. repeat split; reflexivity.
    - eexists. split; [reflexivity|].
      split; [apply same_pool_refl|].
      split; [reflexivity|]. split; [reflexivity|].
      rewrite ?Efs. unfold sz'.
      assert (Hbm : b + 1 <= m0) by nia.
      rewrite Z.max_l by nia.
      split; [|repeat split; reflexivity]. destruct (files w F); reflexivity. }
  destruct Hsize as (w2 & Hrun2 & S1 & S2 & S3 & S4 & S5 & S6 & S7 & S8).
  eapply wp_bind_run; [exact Hrun2|].
  pose proof S1 as (Fio & Fbp & Fbr & Fag & Fin).
  unfold wx in Fio, Fbp, Fbr, Fag, Fin, S2, S3, S4, S5, S6, S7, S8.
  simpl in Fio, Fbp, Fbr, Fag, Fin, S2, S3, S4, S5, S6, S7, S8.
  rewrite upd_same in S4.
  eapply wp_bind, wp_put_dirty.
  { rewrite S2, M2. lia. }
  apply wp_ret. split; [reflexivity|].
  split.
  + unfold same_pool. simpl. rewrite Fio, Fbp, Fbr, Fag, Fin.
    rewrite Eio, Ebp, Ebr, Eag, Ein. auto.
  + simpl. rewrite length_insert, S2, M2. reflexivity.
  + intros i. simpl. rewrite S2, M2. apply rd_insert. lia.
  + intros G HG. simpl. rewrite S3 by exact HG.
    rewrite upd_other by exact HG. rewrite M3. reflexivity.
  + simpl. rewrite S4, M3. unfold sz'.
    replace (b * IOBUFLEN + IOBUFLEN) with ((b + 1) * IOBUFLEN) by ring.
    reflexivity.
  + intros G HG. simpl. rewrite S5, S6.
    rewrite !upd_other by exact HG. rewrite M4.
    split; [reflexivity | apply M5; exact HG].
  + simpl. rewrite S5. rewrite upd_same, M4, M6. reflexivity.
  + simpl. rewrite S6. rewrite upd_same, M6. ring.
  + simpl. rewrite S7. reflexivity.
  + simpl. rewrite S8, M8, M6. reflexivity.
Qed.

(** X4.  Writing back a buffer whose record lies inside the file is one
    transfer of that record to its place: the log grows by exactly this
    entry, the record on disk becomes the buffer, every other record of
    the file and every other file keep their bytes, the file keeps its
    size, and the buffer, and no other, becomes clean. *)
Theorem ffbfwt_in_file_writes_one_record (w : world) (nbuff : Z) (F : nat)
    (b : Z) (buf : list byte) :
  Inv w -> holds w nbuff F b ->
  (b + 1) * IOBUFLEN <= filesize (files w F) ->
  rd (iobuffer w) nbuff = Some buf ->
  exists w',
    ffbfwt nbuff 0 w = Some (0, w')
    /\ wlog w' = wlog w ++ [(F, b * IOBUFLEN, buf)]
    /\ disk_block (disk w' F) b = buf
    /\ (forall c, 0 <= c -> c <> b ->
          (c + 1) * IOBUFLEN <= filesize (files w F) ->
          disk_block (disk w' F) c = disk_block (disk w F) c)
    /\ (forall G, G <> F -> disk w' G = disk w G)
    /\ filesize (files w' F) = filesize (files w F)
    /\ length (disk w' F) = length (disk w F)
    /\ rd (dirty w') nbuff = Some false
    /\ (forall i, i <> nbuff -> rd (dirty w') i = rd (dirty w) i)
    /\ same_pool w w'.
Proof.
  intros HI Hn Hle Hbuf. pose proof IOBUFLEN_pos as HL.
  destruct (file_size_block w F (inv_files _ _ HI F)) as (m0 & Hm0 & Hsz & Hq).
  pose proof (fo_disk _ _ (inv_files _ _ HI F)) as Hdl. rewrite Hsz in Hdl.
  destruct (inv_owned _ _ HI nbuff F b Hn) as [Hb0 _].
  pose proof (inv_bufs _ _ HI nbuff buf Hbuf) as Hbl.
  assert (Hbm : 0 <= b <= m0) by nia.
  destruct (wp_elim _ _ _ (ffbfwt_within w nbuff F b buf HI Hn ltac:(lia) Hbuf))
    as (st & w' & Hrun & -> & [R1 R2 R3 R4 R5 R6 R7 R8 R9 R10]).
  exists w'. split; [exact Hrun|]. split; [exact R10|].
  split; [rewrite R7; apply (pwrite_record_same _ _ b m0); assumption|].
  split.
  { intros c Hc Hne Hcle. rewrite R7.
    apply (pwrite_record_other _ _ b m0); try assumption. lia. }
  split; [intros G HG; apply (R6 G HG)|].
  split; [rewrite R5; simpl; lia|].
  split.
  { rewrite R7. apply pwrite_inplace_length; [nia|]. nia. }
  split; [rewrite R3, Z.eqb_refl; reflexivity|].
  split; [|exact R1].
  intros i Hi. rewrite R3. destruct (Z.eqb_spec nbuff i); [congruence|].
  reflexivity.
Qed.

(** The one record of the ASCII table sits, clean, in buffer 0: writing
    it back sends it to offset 0 of the disk. *)
Lemma ffbfwt_in_file_writes_one_record_witness :
  exists w',
    ffbfwt 0 0 ascii_table = Some (0, w')
    /\ wlog w' = wlog ascii_table ++ [(0%nat, 0 * IOBUFLEN, block_of "a")]
    /\ disk_block (disk w' 0%nat) 0 = block_of "a"
    /\ rd (dirty w') 0 = Some false.
Proof.
  destruct (ffbfwt_in_file_writes_one_record ascii_table 0 0%nat 0
              (block_of "a"))
    as (w' & H1 & H2 & H3 & _ & _ & _ & _ & H4 & _).
  - exact (ld_inv _ _ _ _ ascii_table_loaded).
  - split; vm_compute; reflexivity.
  - vm_compute. discriminate.
  - vm_compute. reflexivity.
  - exists w'. auto.
Defined.


(** * Flushing: what reaches the disk *)

(** X5.  [ffflsh] on a well-formed pool succeeds and makes the disk of
    the file current: every record of the file that was visible before,
    in a buffer or on disk, is afterwards on the disk with the same
    bytes and inside the file.  No record of any file changes as seen
    through the pool, the buffers that still belong to the file are
    clean, and with a nonzero [clearbuf] none belongs to it any more. *)
Theorem ffflsh_makes_disk_current (fptr : fitsfile) (clearbuf : Z) (w : world) :
  Inv w ->
  exists w',
    ffflsh fptr clearbuf 0 w = Some (0, w')
    /\ Inv w'
    /\ (forall c x, views w (Fptr fptr) c x ->
          (c + 1) * IOBUFLEN <= filesize (files w' (Fptr fptr))
          /\ disk_block (disk w' (Fptr fptr)) c = x)
    /\ (forall G c x, views w G c x -> views w' G c x)
    /\ (forall i c, holds w' i (Fptr fptr) c ->
          clearbuf = 0 /\ rd (dirty w') i = Some false)
    /\ (forall i G c, holds w' i G c -> holds w i G c).
Proof.
  intros HI.
  destruct (wp_elim _ _ _ (ffflsh_spec fptr clearbuf w HI))
    as (st & w' & Hrun & -> & [F1 F2 F3 F4 F5 F6] & Hdone).
  exists w'. split; [exact Hrun|]. split; [exact F1|].
  split; [|split; [exact F2|split; [exact Hdone | exact F3]]].
  intros c x Hv. apply F2 in Hv.
  destruct Hv as [(i & Hi & Hx)|(_ & _ & Hle & ->)]; [|auto].
  destruct (Hdone i c Hi) as [_ Hd].
  destruct (inv_clean _ _ F1 i (Fptr fptr) c (fun f => f) Hi Hd) as [Hle Hb].
  split; [exact Hle|]. congruence.
Qed.

(** File 0, empty on disk, holds its records 3 and 1 in two modified
    buffers: after the flush both are on the disk. *)
Lemma ffflsh_makes_disk_current_witness :
  exists w',
    ffflsh f0 0 0 two_blocks_past_eof = Some (0, w')
    /\ Inv w'
    /\ (forall c x, views two_blocks_past_eof 0%nat c x ->
          (c + 1) * IOBUFLEN <= filesize (files w' 0%nat)
          /\ disk_block (disk w' 0%nat) c = x).
Proof.
  destruct (ffflsh_makes_disk_current f0 0 two_blocks_past_eof
              two_blocks_past_eof_inv) as (w' & H1 & H2 & H3 & _).
  exists w'. auto.
Defined.

(** A flush of a file whose buffers are all clean, and that is not asked
    to give any buffer up, does nothing at all. *)
Lemma ffflsh_clean (fptr : fitsfile) (clearbuf st : Z) (w : world) :
  slots_ok w ->
  (forall i c, holds w i (Fptr fptr) c ->
               clearbuf = 0 /\ rd (dirty w) i = Some false) ->
  ffflsh fptr clearbuf st w = Some (st, w).
Proof.
  intros (Hl1 & Hl2 & Hl3 & Hl4 & Hl5) Hclean.
  assert (Hloop :
    wp (for_status (seqZ 0 NIOBUF) (fun ii st0 =>
          do owner <- rdM bufptr ii;
          match owner with
          | Some G =>
              if Nat.eqb G (Fptr fptr) then
                do d <- rdM dirty ii;
                do st1 <- (if d : bool then ffbfwt ii st0 else ret st0);
                exec (if Z.eqb clearbuf 0 then ret tt else put_bufptr ii None);
                ret st1
              else ret st0
          | None => ret st0
          end) st)
       (fun st' w' => st' = st /\ w' = w) w).
  { apply wp_for_status; [auto|].
    intros ii st' w1 Hin [-> ->].
    apply list_elem_of_In, elem_of_seqZ in Hin.
    destruct (rd_in_range (bufptr w) ii) as [owner Ho]; [lia|].
    destruct (rd_in_range (bufrecnum w) ii) as [r Hr]; [lia|].
    eapply wp_bind, wp_rdM; [exact Ho|].
    destruct owner as [G|]; [|apply wp_ret; auto].
    destruct (Nat.eqb_spec G (Fptr fptr)) as [->|HG]; [|apply wp_ret; auto].
    destruct (Hclean ii r (conj Ho Hr)) as [-> Hd].
    eapply wp_bind, wp_rdM; [exact Hd|].
    apply wp_bind, wp_ret. simpl. apply wp_bind, wp_ret. apply wp_ret. auto. }
  apply wp_elim in Hloop as (st' & w' & Hrun & -> & ->).
  unfold ffflsh. unfold bind at 1. rewrite Hrun. reflexivity.
Qed.

(** X6.  Flushing twice is flushing once: after a successful [ffflsh],
    a second [ffflsh] of the same file succeeds and changes nothing, no
    buffer, no file structure, no disk and no entry of the log, unless
    it is the first to ask for the buffers to be given up. *)
Theorem ffflsh_twice (fptr : fitsfile) (clearbuf clearbuf' : Z) (w : world) :
  Inv w ->
  (clearbuf = 0 -> clearbuf' = 0) ->
  exists w',
    ffflsh fptr clearbuf 0 w = Some (0, w')
    /\ ffflsh fptr clearbuf' 0 w' = Some (0, w').
Proof.
  intros HI Hcb.
  destruct (wp_elim _ _ _ (ffflsh_spec fptr clearbuf w HI))
    as (st & w' & Hrun & -> & [F1 F2 F3 F4 F5 F6] & Hdone).
  exists w'. split; [exact Hrun|].
  apply ffflsh_clean; [apply (inv_slots _ _ F1)|].
  intros i c Hi. destruct (Hdone i c Hi) as [E Hd]. auto.
Qed.

(** Two flushes of file 0 with its two modified buffers. *)
Lemma ffflsh_twice_witness :
  exists w',
    ffflsh f0 0 0 two_blocks_past_eof = Some (0, w')
    /\ ffflsh f0 0 0 w' = Some (0, w').
Proof.
  apply (ffflsh_twice f0 0 0 two_blocks_past_eof two_blocks_past_eof_inv).
  intros _. reflexivity.
Defined.


(** * Loading and seeking *)

(** ** The order of the age index *)

Lemma ffldrc_updatebuf_order (F : nat) (nbuff ibuff st : Z) (w : world) :
  Z.of_nat (length (ageindex w)) = NIOBUF ->
  (0 <= ibuff -> rd (ageindex w) ibuff = Some nbuff) ->
  (ibuff < 0 -> In nbuff (ageindex w)) ->
  wlp (ffldrc_updatebuf F nbuff ibuff st)
      (fun _ w' => made_youngest nbuff (ageindex w) (ageindex w')
                   /\ curbuf (files w' F) = nbuff) w.
Proof.
  intros Hlen Hhit Hmiss.
  assert (Hsplit : exists pre suf,
             ageindex w = pre ++ nbuff :: suf /\
             (if Z.ltb ibuff 0 then age_position (ageindex w) nbuff 0 else ibuff)
             = Z.of_nat (length pre)).
  { destruct (Z.ltb_spec ibuff 0) as [Hneg|Hpos].
    - destruct (age_position_spec (ageindex w) nbuff 0)
        as [(pre & suf & E & Hpos)|[Hn _]].
      + exists pre, suf. split; [exact E | lia].
      + destruct Hn. apply Hmiss; assumption.
    - specialize (Hhit Hpos). apply rd_Some in Hhit as [_ Hl].
      exists (take (Z.to_nat ibuff) (ageindex w)),
             (drop (S (Z.to_nat ibuff)) (ageindex w)).
      split; [symmetry; apply take_drop_middle; exact Hl|].
      rewrite length_take. apply lookup_lt_Some in Hl. lia. }
  destruct Hsplit as (pre & suf & E & Epos).
  destruct (age_move_closed pre suf nbuff nbuff) as (sh & Hsh & Hwr).
  { rewrite <- E. exact Hlen. }
  unfold wlp, ffldrc_updatebuf, bind, modify, gets, lift. simpl.
  rewrite Epos, E, Hsh, Hwr. simpl. split.
  - exists pre, suf. auto.
  - rewrite upd_same. reflexivity.
Qed.

Section LoadOrder.

Variable ffmahd : fitsfile -> Z -> Z -> M Z.

(** Whatever [ffldrc] does before it reaches the label [updatebuf]
    leaves the age index alone; a run that does not stop with
    END_OF_FILE or TOO_MANY_FILES moves the buffer it made current to
    the young end. *)
Lemma ffldrc_order (fptr : fitsfile) (b mode st : Z) (w : world) :
  no_drift fptr w -> slots_ok w -> ageinit w = true ->
  Permutation (ageindex w) (seqZ 0 NIOBUF) ->
  wlp (ffldrc ffmahd fptr b mode st)
      (fun st' w' =>
         st' = END_OF_FILE \/ st' = TOO_MANY_FILES
         \/ made_youngest (curbuf (files w' (Fptr fptr)))
                          (ageindex w) (ageindex w')) w.
Proof.
  intros Hnd Hs Hinit Hperm.
  destruct Hs as (H1 & H2 & H3 & H4 & H5).
  unfold ffldrc. apply wlp_bind.
  unfold wlp at 1. rewrite (sync_hdu_no_drift ffmahd fptr st w Hnd).
  apply wlp_bind, wlp_reads. intros hit Hsearch.
  destruct hit as [[ibuff nbuff]|].
  - apply ffldrc_search_hit in Hsearch as (Hin & Hrd & _).
    eapply wlp_mono.
    + apply ffldrc_updatebuf_order; [exact H5 | intros _; exact Hrd|].
      intros Hneg.
      apply list_elem_of_In, elem_of_reverse, elem_of_seqZ in Hin. lia.
    + cbv beta. intros st' w' [Hm Hc]. right. right. rewrite Hc. exact Hm.
  - apply wlp_bind, wlp_file_of.
    destruct (_ && _)%bool; [left; reflexivity|].
    apply wlp_bind. unfold wlp at 1, ffwhbf.
    assert (Ew : ffwhbf_init w = w)
      by (unfold ffwhbf_init; rewrite Hinit; reflexivity).
    rewrite Ew.
    destruct (ffwhbf_search w (seqZ 0 NIOBUF)) as [found|]; [|exact I].
    set (nbuff := match found with
                  | Some ibuff => ibuff
                  | None => curbuf (files w (Fptr fptr))
                  end).
    assert (Hgoal :
      wlp (if Z.ltb nbuff 0 then ret TOO_MANY_FILES
           else
             do d <- rdM dirty nbuff;
             do status1 <- (if d : bool then ffbfwt nbuff st else ret st);
             do Ff1 <- file_of (Fptr fptr);
             do status2 <-
               (if Z.leb (filesize Ff1) (b * IOBUFLEN) then
                  exec memset_iobuffer nbuff (fill_byte (hdutype Ff1));
                  exec modify (upd_file (Fptr fptr) (with_logfilesize
                                 (Z.max (logfilesize Ff1)
                                        (b * IOBUFLEN + IOBUFLEN))));
                  exec put_dirty nbuff true;
                  ret status1
                else
                  exec (if Z.eqb (io_pos Ff1) (b * IOBUFLEN) then ret tt
                        else ffseek (Fptr fptr) (b * IOBUFLEN));
                  do r <- ffread (Fptr fptr) IOBUFLEN status1;
                  exec (match snd r with
                        | Some bytes => put_iobuffer nbuff bytes
                        | None => ret tt
                        end);
                  exec modify (upd_file (Fptr fptr)
                                 (with_io_pos (b * IOBUFLEN + IOBUFLEN)));
                  ret (fst r));
             exec put_bufptr nbuff (Some (Fptr fptr));
             exec put_bufrecnum nbuff b;
             ffldrc_updatebuf (Fptr fptr) nbuff (-1) status2)
          (fun st' w' =>
             st' = END_OF_FILE \/ st' = TOO_MANY_FILES
             \/ made_youngest (curbuf (files w' (Fptr fptr)))
                              (ageindex w) (ageindex w')) w).
    { destruct (Z.ltb nbuff 0); [right; left; reflexivity|].
      apply wlp_bind, wlp_rdM. intros d Hd.
      assert (Hin : In nbuff (ageindex w)).
      { apply list_elem_of_In. rewrite Hperm. apply elem_of_seqZ.
        apply rd_range in Hd. lia. }
      apply wlp_bind.
      apply (wlp_mono _ (fun _ w' => age_state w' = age_state w)).
      { destruct d; [apply ffbfwt_age | reflexivity]. }
      intros st1 w2 E2.
      assert (Hupd : forall st' w', age_state w' = age_state w ->
                wlp (ffldrc_updatebuf (Fptr fptr) nbuff (-1) st')
                    (fun st'' w'' =>
                       st'' = END_OF_FILE \/ st'' = TOO_MANY_FILES
                       \/ made_youngest (curbuf (files w'' (Fptr fptr)))
                                        (ageindex w) (ageindex w'')) w').
      { intros st' w' E. unfold age_state in E.
        injection E as _ _ _ _ Ea _.
        eapply wlp_mono.
        - apply ffldrc_updatebuf_order; [rewrite Ea; exact H5 | lia|].
          intros _. rewrite Ea. exact Hin.
        - cbv beta. intros st'' w'' [Hm Hc]. right. right.
          rewrite Hc, <- Ea. exact Hm. }
      wlp_steps; apply Hupd; age_done. }
    unfold nbuff in Hgoal. destruct found; exact Hgoal.
Qed.

(** X7.  A load on a well-formed pool succeeds, and afterwards the
    pool is well formed again, the requested record sits in the file's
    current buffer, and every record of every file that was visible
    before, in a buffer or on disk, is visible with the same bytes, also
    when the load had to write a modified buffer back to make room.  A
    buffer holds afterwards what it held before, the one given to the
    record apart; the file position is not moved and the logical size
    of the file does not shrink. *)
Theorem ffldrc_keeps_every_record (fptr : fitsfile) (b mode : Z) (w : world) :
  Inv w -> no_drift fptr w -> 0 <= b -> loadable w (Fptr fptr) ->
  (mode = REPORT_EOF ->
   (exists i, holds w i (Fptr fptr) b)
   \/ b * IOBUFLEN < logfilesize (files w (Fptr fptr))) ->
  exists w',
    ffldrc ffmahd fptr b mode 0 w = Some (0, w')
    /\ Inv w'
    /\ holds w' (curbuf (files w' (Fptr fptr))) (Fptr fptr) b
    /\ (forall G c x, views w G c x -> views w' G c x)
    /\ (forall i G c, holds w' i G c ->
          (i = curbuf (files w' (Fptr fptr)) /\ G = Fptr fptr /\ c = b)
          \/ holds w i G c)
    /\ bytepos (files w' (Fptr fptr)) = bytepos (files w (Fptr fptr))
    /\ logfilesize (files w (Fptr fptr)) <= logfilesize (files w' (Fptr fptr)).
Proof.
  intros HI Hnd Hb Hl Hm.
  destruct (wp_elim _ _ _ (ffldrc_spec ffmahd fptr b mode w HI Hnd Hb Hl Hm))
    as (st & w' & Hrun & -> & [L1 L2 L3 L4 L5 L6 L7] & Hbp).
  exists w'. auto 10.
Qed.

(** X8.  A successful load moves the buffer it gives to the record to
    the young end of the age index and keeps the order of all the
    others, whether the record was resident or not. *)
Theorem ffldrc_makes_buffer_youngest (fptr : fitsfile) (b mode : Z)
    (w : world) :
  Inv w -> no_drift fptr w -> 0 <= b -> loadable w (Fptr fptr) ->
  (mode = REPORT_EOF ->
   (exists i, holds w i (Fptr fptr) b)
   \/ b * IOBUFLEN < logfilesize (files w (Fptr fptr))) ->
  exists w' pre suf,
    ffldrc ffmahd fptr b mode 0 w = Some (0, w')
    /\ ageindex w = pre ++ curbuf (files w' (Fptr fptr)) :: suf
    /\ ageindex w' = pre ++ suf ++ [curbuf (files w' (Fptr fptr))].
Proof.
  intros HI Hnd Hb Hl Hm.
  destruct (wp_elim _ _ _ (ffldrc_spec ffmahd fptr b mode w HI Hnd Hb Hl Hm))
    as (st & w' & Hrun & -> & _).
  pose proof (wlp_elim _ _ _ _ _
                (ffldrc_order fptr b mode 0 w Hnd (inv_slots _ _ HI)
                   (inv_init _ _ HI) (inv_ages _ _ HI)) Hrun) as Ho.
  cbv beta in Ho.
  destruct Ho as [Ho|[Ho|(pre & suf & E1 & E2)]]; [discriminate..|].
  exists w', pre, suf. auto.
Qed.

End LoadOrder.

(** The file of the witnesses: file 0 holds its records 3 and 1, and
    loads its record 2. *)
Lemma two_blocks_loadable : loadable two_blocks_past_eof (Fptr f0).
Proof.
  right.
  assert (E : curbuf (files two_blocks_past_eof (Fptr f0)) = 1)
    by (vm_compute; reflexivity).
  assert (HN : 1 < NIOBUF) by (vm_compute; reflexivity).
  rewrite E. lia.
Qed.

Lemma ffldrc_keeps_every_record_witness :
  exists w',
    ffldrc nav0 f0 2 IGNORE_EOF 0 two_blocks_past_eof = Some (0, w')
    /\ Inv w'
    /\ holds w' (curbuf (files w' (Fptr f0))) (Fptr f0) 2
    /\ (forall G c x, views two_blocks_past_eof G c x -> views w' G c x).
Proof.
  destruct (ffldrc_keeps_every_record nav0 f0 2 IGNORE_EOF two_blocks_past_eof)
    as (w' & H1 & H2 & H3 & H4 & _).
  - exact two_blocks_past_eof_inv.
  - vm_compute. reflexivity.
  - lia.
  - exact two_blocks_loadable.
  - intros H. discriminate H.
  - exists w'. auto.
Defined.

Lemma ffldrc_makes_buffer_youngest_witness :
  exists w' pre suf,
    ffldrc nav0 f0 2 IGNORE_EOF 0 two_blocks_past_eof = Some (0, w')
    /\ ageindex two_blocks_past_eof
       = pre ++ curbuf (files w' (Fptr f0)) :: suf
    /\ ageindex w' = pre ++ suf ++ [curbuf (files w' (Fptr f0))].
Proof.
  apply (ffldrc_makes_buffer_youngest nav0 f0 2 IGNORE_EOF two_blocks_past_eof).
  - exact two_blocks_past_eof_inv.
  - vm_compute. reflexivity.
  - lia.
  - exact two_blocks_loadable.
  - intros H. discriminate H.
Defined.

(** ** Seeking *)

(** The write-back and the load leave every file position alone. *)
Create HintDb bp_frame.

Ltac bp_done :=
  let G := fresh "G" in
  intros G;
  repeat match goal with
         | H : forall _ : nat, bytepos _ = bytepos _ |- _ => specialize (H G)
         end;
  simpl in *; unfold upd in *;
  repeat match goal with
         | |- context [Nat.eqb ?a ?b] => destruct (Nat.eqb_spec a b); subst
         end;
  simpl in *; first [assumption | reflexivity | congruence].

Ltac bp_call :=
  eapply wlp_mono; [solve [auto 1 with bp_frame nocore]|];
  cbv beta; intros.

Ltac bp_auto := repeat first [wlp_step | bp_call]; try bp_done.

Lemma ffbfwt_fill_bp (F : nat) (nloop st : Z) (w : world) :
  wlp (ffbfwt_fill F nloop st)
      (fun _ w' => forall G, bytepos (files w' G) = bytepos (files w G)) w.
Proof.
  unfold ffbfwt_fill.
  apply (wlp_for_status
           (fun _ w' => forall G, bytepos (files w' G) = bytepos (files w G)));
    [reflexivity|].
  intros _ st0 w0 _ H0. bp_auto.
Qed.
#[local] Hint Resolve ffbfwt_fill_bp : bp_frame.

Lemma ffbfwt_append_bp (F : nat) (nbuff st : Z) (w : world) :
  wlp (ffbfwt_append F nbuff st)
      (fun _ w' => forall G, bytepos (files w' G) = bytepos (files w G)) w.
Proof. unfold ffbfwt_append. bp_auto. Qed.
#[local] Hint Resolve ffbfwt_append_bp : bp_frame.

Lemma ffbfwt_extend_bp (fuel : nat) (F : nat) (nbuff ibuff st : Z)
    (w : world) :
  wlp (ffbfwt_extend fuel F nbuff ibuff st)
      (fun _ w' => forall G, bytepos (files w' G) = bytepos (files w G)) w.
Proof.
  revert ibuff st w. induction fuel as [|fuel IH]; intros ibuff st w; simpl.
  - destruct (Z.eqb ibuff nbuff); [apply wlp_ret; reflexivity | exact I].
  - destruct (Z.eqb ibuff nbuff); [apply wlp_ret; reflexivity|].
    apply wlp_bind. bp_call.
    eapply wlp_mono; [apply IH|]. cbv beta. intros r w1 E. bp_done.
Qed.
#[local] Hint Resolve ffbfwt_extend_bp : bp_frame.

Lemma ffbfwt_bp (nbuff st : Z) (w : world) :
  wlp (ffbfwt nbuff st)
      (fun _ w' => forall G, bytepos (files w' G) = bytepos (files w G)) w.
Proof. unfold ffbfwt. bp_auto. Qed.
#[local] Hint Resolve ffbfwt_bp : bp_frame.

Lemma ffwhbf_bp (fptr : fitsfile) (w : world) :
  wlp (ffwhbf fptr)
      (fun _ w' => forall G, bytepos (files w' G) = bytepos (files w G)) w.
Proof.
  unfold wlp, ffwhbf.
  destruct (ffwhbf_init_pool w) as (_ & Ef & _).
  destruct (ffwhbf_search _ _) as [[ibuff|]|]; try exact I;
    rewrite Ef; reflexivity.
Qed.
#[local] Hint Resolve ffwhbf_bp : bp_frame.

Section Seeking.

Variable ffmahd : fitsfile -> Z -> Z -> M Z.

Lemma ffldrc_bp (fptr : fitsfile) (b mode st : Z) (w : world) :
  no_drift fptr w ->
  wlp (ffldrc ffmahd fptr b mode st)
      (fun _ w' => forall G, bytepos (files w' G) = bytepos (files w G)) w.
Proof.
  intros Hnd. unfold ffldrc. apply wlp_bind.
  unfold wlp at 1. rewrite (sync_hdu_no_drift ffmahd fptr st w Hnd).
  unfold ffldrc_updatebuf. bp_auto.
Qed.

Lemma ffmbyt_failure_bp (fptr : fitsfile) (pos mode st : Z) (w : world) :
  no_drift fptr w ->
  wlp (ffmbyt ffmahd fptr pos mode st)
      (fun st' w' => 0 < st' ->
                     forall G, bytepos (files w' G) = bytepos (files w G))
      w.
Proof.
  intros Hnd. unfold ffmbyt.
  destruct (Z.ltb 0 st); [apply wlp_ret; intros _; reflexivity|].
  destruct (Z.ltb pos 0); [apply wlp_ret; intros _; reflexivity|].
  apply wlp_bind.
  unfold wlp at 1. rewrite (sync_hdu_no_drift ffmahd fptr st w Hnd).
  apply wlp_bind, wlp_file_of. apply wlp_bind, wlp_rdM. intros cur Hcur.
  destruct (Z.eqb _ cur).
  - apply wlp_bind, wlp_ret.
    destruct (Z.ltb_spec 0 st) as [Hst|Hst].
    + apply wlp_bind, wlp_ret. apply wlp_ret. intros _. reflexivity.
    + apply wlp_bind, wlp_modify. apply wlp_ret. intros H. lia.
  - apply wlp_bind.
    eapply wlp_mono; [apply ffldrc_bp; exact Hnd|]. cbv beta.
    intros st1 w1 E.
    destruct (Z.ltb_spec 0 st1) as [Hst|Hst].
    + apply wlp_bind, wlp_ret. apply wlp_ret. intros _. exact E.
    + apply wlp_bind, wlp_modify. apply wlp_ret. intros H. lia.
Qed.

(** X9.  A seek that fails does not move: for a caller whose HDU is
    the current one of the file, whenever [ffmbyt] returns an error
    status, the position of every file is what it was.  Entered with a
    clean status, a negative offset is refused with NEG_FILE_POS; and
    with REPORT_EOF a seek of a file that has a current buffer to a
    record that is in no buffer, starts at or after the logical end of
    the file and is not the record whose number that current buffer
    carries is refused with END_OF_FILE ([ffmbyt] compares with that
    number only: a current buffer that carries the number of the target
    makes the seek succeed without a load).  Both refusals leave the world exactly as it
    was. *)
Theorem ffmbyt_failure_leaves_position (fptr : fitsfile) (pos mode st : Z)
    (w : world) :
  no_drift fptr w ->
  (forall st' w',
     ffmbyt ffmahd fptr pos mode st w = Some (st', w') -> 0 < st' ->
     forall G, bytepos (files w' G) = bytepos (files w G))
  /\ (st <= 0 -> pos < 0 ->
      ffmbyt ffmahd fptr pos mode st w = Some (NEG_FILE_POS, w))
  /\ (st <= 0 -> 0 <= pos -> slots_ok w -> ages_in_range w ->
      (exists cur, rd (bufrecnum w) (curbuf (files w (Fptr fptr))) = Some cur
                   /\ cur <> Z.quot pos IOBUFLEN) ->
      (forall i, ~ holds w i (Fptr fptr) (Z.quot pos IOBUFLEN)) ->
      logfilesize (files w (Fptr fptr)) <= Z.quot pos IOBUFLEN * IOBUFLEN ->
      ffmbyt ffmahd fptr pos REPORT_EOF st w = Some (END_OF_FILE, w)).
Proof.
  intros Hnd. split; [|split].
  - intros st' w' Hrun Hst G.
    exact (wlp_elim _ _ _ _ _ (ffmbyt_failure_bp fptr pos mode st w Hnd)
             Hrun Hst G).
  - intros Hst Hpos. unfold ffmbyt.
    destruct (Z.ltb_spec 0 st); [lia|].
    destruct (Z.ltb_spec pos 0); [reflexivity | lia].
  - intros Hst Hpos Hs Ha (cur & Hcur & Hne) Hno Hlog. unfold ffmbyt.
    destruct (Z.ltb_spec 0 st); [lia|].
    destruct (Z.ltb_spec pos 0); [lia|].
    unfold bind at 1. rewrite (sync_hdu_no_drift ffmahd fptr st w Hnd).
    unfold bind at 1, file_of, gets.
    unfold bind at 1, rdM, reads. rewrite Hcur.
    destruct (Z.eqb_spec (Z.quot pos IOBUFLEN) cur) as [E|_]; [congruence|].
    assert (Hld : ffldrc ffmahd fptr (Z.quot pos IOBUFLEN) REPORT_EOF st w
                  = Some (END_OF_FILE, w)).
    { unfold ffldrc.
      unfold bind at 1. rewrite (sync_hdu_no_drift ffmahd fptr st w Hnd).
      unfold bind at 1, reads.
      rewrite (ffldrc_search_none w (Fptr fptr) _ Hs Ha Hno).
      unfold bind at 1, file_of, gets.
      change (Z.eqb REPORT_EOF 0) with true.
      destruct (Z.leb_spec (logfilesize (files w (Fptr fptr)))
                           (Z.quot pos IOBUFLEN * IOBUFLEN)); [|lia].
      reflexivity. }
    unfold bind at 1. rewrite Hld.
    reflexivity.
Qed.

(** X10.  In a consistent pool, for a caller whose HDU is the current
    one of the file, a seek to an offset that is not negative succeeds
    when the file has a current buffer that is its own or carries
    another record number than that of the target, and when REPORT_EOF
    does not refuse the target (its record is in a buffer or starts
    before [logfilesize]): the position is the requested one, the
    file's current buffer holds the record that the position lies in,
    the pool is consistent, and no record of any file has changed as
    seen through the pool. *)
Theorem ffmbyt_reaches_position (fptr : fitsfile) (pos mode : Z) (w : world) :
  Inv w -> no_drift fptr w -> 0 <= pos ->
  cur_ok w (Fptr fptr) (Z.quot pos IOBUFLEN) ->
  (mode = REPORT_EOF ->
   (exists i, holds w i (Fptr fptr) (Z.quot pos IOBUFLEN))
   \/ Z.quot pos IOBUFLEN * IOBUFLEN < logfilesize (files w (Fptr fptr))) ->
  exists w',
    ffmbyt ffmahd fptr pos mode 0 w = Some (0, w')
    /\ bytepos (files w' (Fptr fptr)) = pos
    /\ holds w' (curbuf (files w' (Fptr fptr))) (Fptr fptr)
              (Z.quot pos IOBUFLEN)
    /\ Inv w' /\ no_drift fptr w'
    /\ (forall G c x, views w G c x -> views w' G c x).
Proof.
  intros HI Hnd Hpos Hcur Hm.
  destruct (wp_elim _ _ _ (ffmbyt_spec ffmahd fptr pos mode w HI Hnd Hpos Hcur Hm))
    as (st & w' & Hrun & -> & HL & Hbp).
  exists w'. split; [exact Hrun|]. split; [exact Hbp|].
  split; [exact (ld_cur _ _ _ _ HL)|].
  split; [exact (ld_inv _ _ _ _ HL)|].
  split; [exact (loaded_no_drift fptr w w' _ Hnd HL)|].
  exact (ld_views _ _ _ _ HL).
Qed.

End Seeking.

(** Record 0 of file 0 is loaded, past the end of the empty file:
    offset -1 and, with REPORT_EOF, record 5 are refused. *)
Lemma ffmbyt_failure_leaves_position_witness :
  ffmbyt nav0 f0 (-1) REPORT_EOF 0 loaded0 = Some (NEG_FILE_POS, loaded0)
  /\ ffmbyt nav0 f0 (5 * IOBUFLEN) REPORT_EOF 0 loaded0
     = Some (END_OF_FILE, loaded0).
Proof.
  assert (Hnd : no_drift f0 loaded0) by (vm_compute; reflexivity).
  pose proof (ld_inv _ _ _ _ loaded0_loaded) as HI.
  split.
  - destruct (ffmbyt_failure_leaves_position nav0 f0 (-1) REPORT_EOF 0
                loaded0 Hnd) as (_ & H & _).
    apply H; lia.
  - destruct (ffmbyt_failure_leaves_position nav0 f0 (5 * IOBUFLEN)
                REPORT_EOF 0 loaded0 Hnd) as (_ & _ & H).
    assert (Hq : Z.quot (5 * IOBUFLEN) IOBUFLEN = 5)
      by (vm_compute; reflexivity).
    apply H.
    + lia.
    + vm_compute. discriminate.
    + exact (inv_slots _ _ HI).
    + apply perm_in_range, (inv_ages _ _ HI).
    + exists 0. split; [vm_compute; reflexivity|]. rewrite Hq. lia.
    + rewrite Hq. intros i Hi.
      pose proof (ld_holds _ _ _ _ loaded0_loaded i 0%nat 5 Hi) as [(_ & _ & E)|Hr];
        [discriminate|].
      destruct Hr as [Hr _]. apply rd_replicate in Hr. discriminate.
    + rewrite Hq. vm_compute. discriminate.
Defined.

Lemma ffmbyt_reaches_position_witness :
  exists w',
    ffmbyt nav0 f0 (IOBUFLEN + 7) IGNORE_EOF 0 loaded0 = Some (0, w')
    /\ bytepos (files w' (Fptr f0)) = IOBUFLEN + 7
    /\ holds w' (curbuf (files w' (Fptr f0))) (Fptr f0)
              (Z.quot (IOBUFLEN + 7) IOBUFLEN).
Proof.
  destruct (ffmbyt_reaches_position nav0 f0 (IOBUFLEN + 7) IGNORE_EOF loaded0)
    as (w' & H1 & H2 & H3 & _).
  - exact (ld_inv _ _ _ _ loaded0_loaded).
  - vm_compute. reflexivity.
  - vm_compute. discriminate.
  - exists 0. split; [vm_compute; reflexivity|].
    intros E. vm_compute in E. discriminate E.
  - intros E. discriminate E.
  - exists w'. auto.
Defined.


(** * Contiguous transfers through the buffers *)

Lemma bytes_kept_refl (w : world) : bytes_kept w w.
Proof. intros G q v H. exact H. Qed.

Lemma bytes_kept_trans (w1 w2 w3 : world) :
  bytes_kept w1 w2 -> bytes_kept w2 w3 -> bytes_kept w1 w3.
Proof. intros H1 H2 G q v H. apply H2, H1, H. Qed.

Lemma views_bytes_kept (w w' : world) : views_kept w w' -> bytes_kept w w'.
Proof. intros H G q v. apply views_kept_byte_at. exact H. Qed.

Lemma same_contents_bytes_kept (w w' : world) :
  same_contents w w' -> bytes_kept w w'.
Proof. intros H G q v. apply (same_contents_byte_at w w' G q v H). Qed.

Lemma kept_outside_bytes (w w' w'' : world) (F : nat) (lo hi : Z) :
  kept_outside w w' F lo hi -> bytes_kept w' w'' -> kept_outside w w'' F lo hi.
Proof. intros H1 H2 G q v Hq H. apply H2, (H1 G q v Hq), H. Qed.

Lemma range_at_kept (w w' : world) (F : nat) (pos : Z) (src : list byte) :
  bytes_kept w w' -> range_at w F pos src -> range_at w' F pos src.
Proof. intros Hk H t v Hv. apply Hk, H, Hv. Qed.

(** A byte that is visible determines the buffer position that holds
    it. *)
Lemma byte_at_cached (skip : Z -> Prop) (w : world) (i : Z) (F : nat)
    (r o : Z) (buf : list byte) (v : byte) :
  InvX skip w -> holds w i F r -> rd (iobuffer w) i = Some buf ->
  0 <= o < IOBUFLEN ->
  byte_at w F (r * IOBUFLEN + o) v -> buf !! Z.to_nat o = Some v.
Proof.
  intros HX Hi Hbuf Ho (x & Hx & Hv).
  destruct (offset_split r o Ho) as [Ed Em]. rewrite Ed in Hx. rewrite Em in Hv.
  pose proof (views_cached _ w i F r x HX Hi Hx) as Hxb.
  rewrite Hbuf in Hxb. injection Hxb as <-. exact Hv.
Qed.

Section Steps.

Variable ffmahd : fitsfile -> Z -> Z -> M Z.
Variable fptr : fitsfile.

(** One turn of the buffered loop of [ffpbyt] up to the test that ends
    it: the bytes go into the current buffer, the position moves, the
    buffer is marked. *)
Lemma write_step {B : Type} (w : world) (r bufpos n : Z) (src : list byte)
    (k : M B) (Q : B -> world -> Prop) :
  Inv w -> no_drift fptr w ->
  holds w (curbuf (files w (Fptr fptr))) (Fptr fptr) r ->
  0 <= bufpos -> 0 <= n -> bufpos + n <= IOBUFLEN ->
  n <= Z.of_nat (length src) ->
  (forall w3,
      Inv w3 -> no_drift fptr w3 ->
      curbuf (files w3 (Fptr fptr)) = curbuf (files w (Fptr fptr)) ->
      holds w3 (curbuf (files w3 (Fptr fptr))) (Fptr fptr) r ->
      bytepos (files w3 (Fptr fptr)) = bytepos (files w (Fptr fptr)) + n ->
      (forall t v, 0 <= t < n -> src !! Z.to_nat t = Some v ->
                   byte_at w3 (Fptr fptr) (r * IOBUFLEN + bufpos + t) v) ->
      kept_outside w w3 (Fptr fptr) (r * IOBUFLEN + bufpos)
                   (r * IOBUFLEN + bufpos + n) ->
      wp k Q w3) ->
  wp (do buf <- rdM iobuffer (curbuf (files w (Fptr fptr)));
      do buf' <- lift (memcpy_to buf bufpos src n);
      exec put_iobuffer (curbuf (files w (Fptr fptr))) buf';
      exec modify (upd_file (Fptr fptr)
                     (with_bytepos (bytepos (files w (Fptr fptr)) + n)));
      exec put_dirty (curbuf (files w (Fptr fptr))) true;
      k) Q w.
Proof.
  intros HI Hnd Hh Hoff Hn Hfit Hsrc Hk. pose proof IOBUFLEN_pos as HL.
  set (F := Fptr fptr) in *. set (i := curbuf (files w F)) in *.
  assert (HX : InvX (eq i) w) by (apply (InvX_weaken (fun _ => False)); tauto).
  destruct (inv_slots _ _ HI) as (L1 & L2 & L3 & L4 & L5).
  pose proof (holds_range w i F r (inv_slots _ _ HI) Hh) as Hr.
  destruct (rd_in_range (iobuffer w) i) as [buf Hbuf]; [lia|].
  pose proof (inv_bufs _ _ HI _ buf Hbuf) as Hbl.
  eapply wp_bind, wp_rdM; [exact Hbuf|].
  eapply wp_bind, wp_lift; [apply memcpy_to_Some; lia|].
  set (buf' := take (Z.to_nat bufpos) buf ++ take (Z.to_nat n) src
               ++ drop (Z.to_nat (bufpos + n)) buf).
  assert (Hbl' : Z.of_nat (length buf') = IOBUFLEN).
  { unfold buf'. rewrite memcpy_to_length by lia. exact Hbl. }
  apply wp_bind. apply wp_put_iobuffer; [lia|].
  set (w1 := set_iobuffer (<[Z.to_nat i := buf']> (iobuffer w)) w).
  pose proof (poke_view w i F r buf' HX Hh) as Hview. fold w1 in Hview.
  pose proof (poke_inv w i F r buf' HX Hh Hbl') as HX1. fold w1 in HX1.
  apply wp_bind, wp_modify.
  set (w2 := upd_file F (with_bytepos (bytepos (files w F) + n)) w1).
  assert (Hsc2 : same_cache w1 w2).
  { apply upd_file_same_cache. intros f. simpl. auto. }
  pose proof (same_cache_inv _ w1 w2 Hsc2 HX1) as HX2.
  assert (Hcur2 : curbuf (files w2 F) = i).
  { unfold w2. rewrite upd_file_at. reflexivity. }
  assert (Hh2 : holds w2 i F r).
  { apply (same_cache_holds w1 w2 i F r Hsc2). exact Hh. }
  apply wp_bind. apply wp_put_dirty; [exact (mark_range w2 i F r HX2 Hh2)|].
  set (w3 := set_dirty (<[Z.to_nat i := true]> (dirty w2)) w2).
  pose proof (mark_inv w2 i F r HX2 Hh2) as HI3. fold w3 in HI3.
  pose proof (mark_contents w2 i) as Hsc3. fold w3 in Hsc3.
  assert (Hk13 : bytes_kept w1 w3).
  { eapply bytes_kept_trans; [|apply same_contents_bytes_kept; exact Hsc3].
    apply same_contents_bytes_kept, same_cache_contents. exact Hsc2. }
  apply Hk.
  - exact HI3.
  - unfold no_drift, w3, w2. simpl. rewrite upd_same. exact Hnd.
  - exact Hcur2.
  - change (curbuf (files w3 F)) with (curbuf (files w2 F)). rewrite Hcur2.
    apply (same_contents_holds w2 w3 i F r Hsc3). exact Hh2.
  - unfold w3, w2. simpl. rewrite upd_same. reflexivity.
  - intros t v Ht Hv. apply Hk13.
    destruct (offset_split r (bufpos + t)) as [Ed Em]; [lia|].
    exists buf'.
    replace (r * IOBUFLEN + bufpos + t) with (r * IOBUFLEN + (bufpos + t))
      by lia.
    rewrite Ed, Em. split; [exact Hview|].
    unfold buf'. rewrite memcpy_to_inside by lia. exact Hv.
  - intros G q v Hq Hb. apply Hk13.
    destruct Hb as (x & Hx & Hv).
    destruct (Nat.eq_dec G F) as [->|HG].
    + destruct (Z.eq_dec (q / IOBUFLEN) r) as [E|E].
      * unfold byte_at. rewrite E in Hx |- *.
        pose proof (views_cached _ w i F r x HX Hh Hx) as Hxb.
        rewrite Hbuf in Hxb. injection Hxb as <-.
        exists buf'. split; [exact Hview|].
        pose proof (Z.mod_pos_bound q IOBUFLEN HL) as Hm.
        pose proof (Z.div_mod q IOBUFLEN ltac:(lia)) as Hdm.
        unfold buf'. rewrite memcpy_to_outside; [exact Hv | lia.. |].
        rewrite E in Hdm. destruct Hq as [Hq|Hq]; [congruence | lia].
      * exists x. split; [|exact Hv].
        apply (poke_views w i F r buf' HX Hh); [right; exact E | exact Hx].
    + exists x. split; [|exact Hv].
      apply (poke_views w i F r buf' HX Hh); [left; exact HG | exact Hx].
Qed.

(** The load between two turns of a buffered loop. *)
Lemma load_next (w : world) (r mode : Z) :
  Inv w -> no_drift fptr w ->
  holds w (curbuf (files w (Fptr fptr))) (Fptr fptr) r ->
  (mode = REPORT_EOF -> exists v, byte_at w (Fptr fptr) ((r + 1) * IOBUFLEN) v) ->
  wp (ffldrc ffmahd fptr (r + 1) mode 0)
     (fun st w' =>
        st = 0 /\ Inv w' /\ no_drift fptr w'
        /\ holds w' (curbuf (files w' (Fptr fptr))) (Fptr fptr) (r + 1)
        /\ bytepos (files w' (Fptr fptr)) = bytepos (files w (Fptr fptr))
        /\ bytes_kept w w') w.
Proof.
  intros HI Hnd Hh Hm. pose proof IOBUFLEN_pos as HL.
  destruct (inv_owned _ _ HI _ _ _ Hh) as [Hr0 _].
  pose proof (holds_range w _ _ _ (inv_slots _ _ HI) Hh) as Hr.
  eapply wp_mono.
  { apply (ffldrc_spec ffmahd fptr (r + 1) mode w HI Hnd); [lia | |].
    - right. exact Hr.
    - intros E. destruct (Hm E) as (v & x & Hx & _).
      destruct (offset_split (r + 1) 0) as [Ed _]; [lia|].
      replace ((r + 1) * IOBUFLEN + 0) with ((r + 1) * IOBUFLEN) in Ed by lia.
      rewrite Ed in Hx.
      destruct Hx as [(i & Hi & _)|(_ & _ & Hsz & _)].
      + left. exists i. exact Hi.
      + right. pose proof (fo_log _ _ (inv_files _ _ HI (Fptr fptr))). lia. }
  cbv beta. intros st w' (-> & Hl & Hbp).
  split; [reflexivity|]. split; [exact (ld_inv _ _ _ _ Hl)|].
  split; [eapply loaded_no_drift; eassumption|].
  split; [exact (ld_cur _ _ _ _ Hl)|]. split; [exact Hbp|].
  apply views_bytes_kept. exact (ld_views _ _ _ _ Hl).
Qed.


(** ** The buffered loop of ffpbyt *)

Section PutLoop.

Variables (pos : Z) (src : list byte) (w0 : world).

Lemma ffpbyt_loop_spec (fuel : nat) :
  forall (N bufpos : Z) (w : world),
    putting fptr pos src w0 N bufpos w ->
    0 <= N <= Z.of_nat (length src) ->
    ((Z.to_nat (Z.of_nat (length src) - N) < fuel)%nat
     \/ ((Z.to_nat (Z.of_nat (length src) - N) <= fuel)%nat
         /\ bufpos < IOBUFLEN)) ->
    wp (ffpbyt_loop ffmahd fuel fptr (Z.of_nat (length src) - N)
                    (drop (Z.to_nat N) src) bufpos (IOBUFLEN - bufpos) 0)
       (fun st w' =>
          st = 0 /\ exists bufpos',
            putting fptr pos src w0 (Z.of_nat (length src)) bufpos' w') w.
Proof.
  pose proof IOBUFLEN_pos as HL.
  induction fuel as [|fuel IH]; intros N bufpos w HP HN Hfuel.
  - assert (E : Z.of_nat (length src) - N = 0) by lia.
    simpl. rewrite E. simpl. split; [reflexivity|].
    exists bufpos. replace (Z.of_nat (length src)) with N by lia. exact HP.
  - rewrite ffpbyt_loop_S.
    destruct (Z.eqb_spec (Z.of_nat (length src) - N) 0) as [E|E].
    { apply wp_ret. split; [reflexivity|].
      exists bufpos. replace (Z.of_nat (length src)) with N by lia. exact HP. }
    cbv zeta.
    destruct HP as [P1 P2 (r & Ph & Ppos) P4 P5 P6 P7].
    set (ntodo := Z.of_nat (length src) - N) in *.
    set (nwrite := Z.min ntodo (IOBUFLEN - bufpos)).
    assert (Hnw : 0 <= nwrite <= ntodo /\ nwrite <= IOBUFLEN - bufpos)
      by (unfold nwrite; lia).
    apply wp_bind, wp_file_of.
    apply (write_step w r bufpos nwrite (drop (Z.to_nat N) src)); try lia;
      try assumption.
    { rewrite length_drop. unfold ntodo in Hnw. lia. }
    intros w3 HI3 Hnd3 Hcur3 Hh3 Hbp3 Hnew Hkept.
    assert (Hdone3 : range_at w3 (Fptr fptr) pos
                              (take (Z.to_nat (N + nwrite)) src)).
    { intros t v Hv.
      apply lookup_take_Some in Hv as [Hv Ht].
      destruct (decide (t < Z.to_nat N)%nat) as [Hlt|Hge].
      - apply (Hkept (Fptr fptr)); [right; left; lia|].
        apply P6. apply lookup_take_Some. split; [exact Hv | exact Hlt].
      - replace (pos + Z.of_nat t)
          with (r * IOBUFLEN + bufpos + (Z.of_nat t - N)) by lia.
        apply Hnew; [lia|].
        rewrite lookup_drop. rewrite <- Hv. f_equal. lia. }
    assert (Hkept3 : kept_outside w0 w3 (Fptr fptr) pos
                                  (pos + Z.of_nat (length src))).
    { intros G q v Hq Hb. apply (Hkept G q v).
      - unfold ntodo in Hnw. destruct Hq as [Hq|[Hq|Hq]]; [auto | right; left; lia
                                                           | right; right; lia].
      - apply (P7 G q v Hq Hb). }
    destruct (Z.eqb_spec (ntodo - nwrite) 0) as [Efin|Emore].
    + apply wp_ret. split; [reflexivity|].
      exists (bufpos + nwrite).
      replace (Z.of_nat (length src)) with (N + nwrite) at 1
        by (unfold ntodo in Efin; lia).
      split; try assumption.
      * exists r. split; [exact Hh3 | lia].
      * lia.
      * lia.
    + assert (Enw : nwrite = IOBUFLEN - bufpos) by (unfold nwrite; lia).
      apply wp_bind, wp_file_of. rewrite Hbp3, P5.
      replace (Z.quot (pos + N + nwrite) IOBUFLEN) with (r + 1).
      2:{ replace (pos + N + nwrite) with ((r + 1) * IOBUFLEN) by lia.
          symmetry. apply quot_block.
          destruct (inv_owned _ _ P1 _ _ _ Ph). lia. }
      eapply wp_bind_wp.
      { apply (load_next w3 r IGNORE_EOF HI3 Hnd3 Hh3). discriminate. }
      cbv beta. intros st w4 (-> & HI4 & Hnd4 & Hh4 & Hbp4 & Hk4).
      replace (ntodo - nwrite) with (Z.of_nat (length src) - (N + nwrite))
        by (unfold ntodo; lia).
      unfold advance. rewrite drop_drop.
      replace (Z.to_nat N + Z.to_nat nwrite)%nat with (Z.to_nat (N + nwrite))
        by lia.
      replace IOBUFLEN with (IOBUFLEN - 0) at 2 by lia.
      apply IH.
      * split; try assumption.
        -- exists (r + 1). split; [exact Hh4 | lia].
        -- lia.
        -- lia.
        -- apply (range_at_kept w3 w4); assumption.
        -- apply (kept_outside_bytes w0 w3 w4); assumption.
      * unfold ntodo in Hnw. lia.
      * right. unfold ntodo in *. lia.
Qed.

End PutLoop.

(** The buffered branch of [ffpbyt]. *)
Lemma ffpbyt_buffered (src : list byte) (w : world) :
  Inv w -> no_drift fptr w -> positioned fptr w ->
  Z.of_nat (length src) < MINDIRECT ->
  wp (ffpbyt ffmahd fptr (Z.of_nat (length src)) src 0)
     (fun st w' =>
        st = 0 /\ Inv w' /\ no_drift fptr w' /\ positioned fptr w'
        /\ bytepos (files w' (Fptr fptr))
           = bytepos (files w (Fptr fptr)) + Z.of_nat (length src)
        /\ range_at w' (Fptr fptr) (bytepos (files w (Fptr fptr))) src
        /\ kept_outside w w' (Fptr fptr) (bytepos (files w (Fptr fptr)))
              (bytepos (files w (Fptr fptr)) + Z.of_nat (length src))) w.
Proof.
  intros HI Hnd (r & Hh & Hpos) Hlen. pose proof IOBUFLEN_pos as HL.
  set (pos := bytepos (files w (Fptr fptr))) in *.
  assert (Hrun : wp (ffpbyt ffmahd fptr (Z.of_nat (length src)) src 0)
                    (fun st w' => st = 0 /\ exists bufpos',
                       putting fptr pos src w (Z.of_nat (length src))
                               bufpos' w') w).
  { unfold ffpbyt. change (Z.ltb 0 0) with false. cbv iota.
    eapply wp_bind_run; [apply sync_hdu_no_drift; exact Hnd|].
    destruct (Z.leb_spec MINDIRECT (Z.of_nat (length src))); [lia|].
    apply wp_bind, wp_file_of.
    eapply wp_bind, wp_rdM; [exact (proj2 Hh)|].
    fold pos.
    pose proof (ffpbyt_loop_spec pos src w (S (Z.to_nat (Z.of_nat (length src))))
                  0 (pos - r * IOBUFLEN) w) as Hloop.
    replace (Z.of_nat (length src) - 0) with (Z.of_nat (length src))
      in Hloop by lia.
    change (Z.to_nat 0) with 0%nat in Hloop. rewrite drop_0 in Hloop.
    apply Hloop; [|lia | left; lia].
    split; try assumption.
    - exists r. split; [exact Hh | lia].
    - lia.
    - fold pos. lia.
    - intros t v Hv. apply lookup_take_Some in Hv as [_ Ht]. lia.
    - intros G q v _ Hb. exact Hb. }
  eapply wp_mono; [exact Hrun|]. cbv beta.
  intros st w' (-> & bufpos' & [P1 P2 (r' & Ph & Ppos) P4 P5 P6 P7]).
  split; [reflexivity|]. split; [exact P1|]. split; [exact P2|].
  split; [exists r'; split; [exact Ph | lia]|].
  split; [exact P5|]. split; [|exact P7].
  rewrite take_ge in P6 by lia. exact P6.
Qed.

(** ** The buffered loop of ffgbyt *)

Lemma ffgbyt_loop_S (fuel : nat) (ntodo : Z) (out : list byte)
    (bufpos nspace status : Z) :
  ffgbyt_loop ffmahd (S fuel) fptr ntodo out bufpos nspace status
  = (if Z.eqb ntodo 0 then ret (status, out)
     else
       let nread := Z.min ntodo nspace in
       do Ff <- file_of (Fptr fptr);
       do buf <- rdM iobuffer (curbuf Ff);
       do chunk <- lift (memcpy_from buf bufpos nread);
       exec modify (upd_file (Fptr fptr) (with_bytepos (bytepos Ff + nread)));
       if Z.eqb (ntodo - nread) 0 then ret (status, out ++ chunk)
       else
         do Ff1 <- file_of (Fptr fptr);
         do status1 <- ffldrc ffmahd fptr (Z.quot (bytepos Ff1) IOBUFLEN)
                              REPORT_EOF status;
         ffgbyt_loop ffmahd fuel fptr (ntodo - nread) (out ++ chunk)
                     0 IOBUFLEN status1).
Proof. reflexivity. Qed.

Section GetLoop.

Variables (pos : Z) (src : list byte) (w0 : world).

Lemma ffgbyt_loop_spec (fuel : nat) :
  forall (N bufpos : Z) (w : world),
    getting fptr pos src w0 N bufpos w ->
    0 <= N <= Z.of_nat (length src) ->
    ((Z.to_nat (Z.of_nat (length src) - N) < fuel)%nat
     \/ ((Z.to_nat (Z.of_nat (length src) - N) <= fuel)%nat
         /\ bufpos < IOBUFLEN)) ->
    wp (ffgbyt_loop ffmahd fuel fptr (Z.of_nat (length src) - N)
                    (take (Z.to_nat N) src) bufpos (IOBUFLEN - bufpos) 0)
       (fun res w' =>
          res = (0, src) /\ exists bufpos',
            getting fptr pos src w0 (Z.of_nat (length src)) bufpos' w') w.
Proof.
  pose proof IOBUFLEN_pos as HL.
  induction fuel as [|fuel IH]; intros N bufpos w HP HN Hfuel.
  - assert (E : Z.of_nat (length src) - N = 0) by lia.
    simpl. rewrite E. simpl. split.
    + rewrite take_ge by lia. reflexivity.
    + exists bufpos. replace (Z.of_nat (length src)) with N by lia. exact HP.
  - rewrite ffgbyt_loop_S.
    destruct (Z.eqb_spec (Z.of_nat (length src) - N) 0) as [E|E].
    { apply wp_ret. split.
      - rewrite take_ge by lia. reflexivity.
      - exists bufpos. replace (Z.of_nat (length src)) with N by lia.
        exact HP. }
    cbv zeta.
    destruct HP as [P1 P2 (r & Ph & Ppos) P4 P5 P6 P7].
    set (F := Fptr fptr) in *.
    set (ntodo := Z.of_nat (length src) - N) in *.
    set (nread := Z.min ntodo (IOBUFLEN - bufpos)).
    assert (Hnw : 0 <= nread <= ntodo /\ nread <= IOBUFLEN - bufpos)
      by (unfold nread; lia).
    destruct (inv_slots _ _ P1) as (L1 & L2 & L3 & L4 & L5).
    pose proof (holds_range w _ F r (inv_slots _ _ P1) Ph) as Hr.
    destruct (rd_in_range (iobuffer w) (curbuf (files w F))) as [buf Hbuf];
      [lia|].
    pose proof (inv_bufs _ _ P1 _ buf Hbuf) as Hbl.
    apply wp_bind, wp_file_of.
    eapply wp_bind, wp_rdM; [exact Hbuf|].
    eapply wp_bind, wp_lift; [apply memcpy_from_Some; lia|].
    assert (Hchunk : take (Z.to_nat N) src
                     ++ take (Z.to_nat nread) (drop (Z.to_nat bufpos) buf)
                     = take (Z.to_nat (N + nread)) src).
    { replace (Z.to_nat (N + nread)) with (Z.to_nat N + Z.to_nat nread)%nat
        by lia.
      rewrite <- take_take_drop. f_equal. apply list_eq. intros t.
      destruct (decide (t < Z.to_nat nread)%nat) as [Ht|Ht].
      - rewrite !lookup_take_lt, !lookup_drop by exact Ht.
        destruct (lookup_lt_is_Some_2 src (Z.to_nat N + t)) as [v Hv];
          [unfold ntodo in Hnw; lia|].
        rewrite Hv.
        pose proof (P6 _ _ Hv) as Hb.
        replace (pos + Z.of_nat (Z.to_nat N + t))
          with (r * IOBUFLEN + (bufpos + Z.of_nat t)) in Hb by lia.
        pose proof (byte_at_cached _ w _ F r (bufpos + Z.of_nat t) buf v
                      P1 Ph Hbuf ltac:(lia) Hb) as Hbv.
        rewrite <- Hbv. f_equal. lia.
      - rewrite !lookup_take_ge by lia. reflexivity. }
    rewrite Hchunk.
    apply wp_bind, wp_modify.
    set (w2 := upd_file F (with_bytepos (bytepos (files w F) + nread)) w).
    assert (Hsc2 : same_cache w w2).
    { apply upd_file_same_cache. intros f. simpl. auto. }
    pose proof (same_cache_inv _ w w2 Hsc2 P1) as HI2.
    assert (Hcur2 : curbuf (files w2 F) = curbuf (files w F)).
    { unfold w2. rewrite upd_file_at. reflexivity. }
    assert (Hh2 : holds w2 (curbuf (files w2 F)) F r).
    { rewrite Hcur2. apply (same_cache_holds w w2 _ F r Hsc2). exact Ph. }
    assert (Hnd2 : no_drift fptr w2).
    { unfold no_drift, w2. simpl. fold F. rewrite upd_same. exact P2. }
    assert (Hbp2 : bytepos (files w2 F) = pos + (N + nread)).
    { unfold w2. rewrite upd_file_at. simpl. lia. }
    assert (Hk2 : bytes_kept w w2).
    { apply same_contents_bytes_kept, same_cache_contents. exact Hsc2. }
    destruct (Z.eqb_spec (ntodo - nread) 0) as [Efin|Emore].
    + apply wp_ret.
      assert (EN : N + nread = Z.of_nat (length src))
        by (unfold ntodo in Efin; lia).
      rewrite EN. split; [rewrite take_ge by lia; reflexivity|].
      exists (bufpos + nread). split; try assumption.
      * exists r. split; [exact Hh2 | lia].
      * lia.
      * rewrite <- EN. exact Hbp2.
      * apply (range_at_kept w w2); assumption.
      * apply (bytes_kept_trans w0 w w2); assumption.
    + assert (Enw : nread = IOBUFLEN - bufpos) by (unfold nread; lia).
      apply wp_bind, wp_file_of. fold w2. rewrite Hbp2.
      replace (Z.quot (pos + (N + nread)) IOBUFLEN) with (r + 1).
      2:{ replace (pos + (N + nread)) with ((r + 1) * IOBUFLEN) by lia.
          symmetry. apply quot_block.
          destruct (inv_owned _ _ P1 _ _ _ Ph). lia. }
      eapply wp_bind_wp.
      { apply (load_next w2 r REPORT_EOF HI2 Hnd2 Hh2). intros _.
        destruct (lookup_lt_is_Some_2 src (Z.to_nat (N + nread))) as [v Hv];
          [unfold ntodo in *; lia|].
        exists v. apply Hk2.
        replace ((r + 1) * IOBUFLEN)
          with (pos + Z.of_nat (Z.to_nat (N + nread))) by lia.
        apply P6. exact Hv. }
      cbv beta. intros st w4 (-> & HI4 & Hnd4 & Hh4 & Hbp4 & Hk4).
      replace (ntodo - nread) with (Z.of_nat (length src) - (N + nread))
        by (unfold ntodo; lia).
      replace IOBUFLEN with (IOBUFLEN - 0) at 2 by lia.
      apply IH.
      * split; try assumption.
        -- exists (r + 1). split; [exact Hh4 | lia].
        -- lia.
        -- fold F. fold F in Hbp4. lia.
        -- apply (range_at_kept w2 w4); [assumption|].
           apply (range_at_kept w w2); assumption.
        -- apply (bytes_kept_trans w0 w2 w4); [|assumption].
           apply (bytes_kept_trans w0 w w2); assumption.
      * unfold ntodo in Hnw. lia.
      * right. unfold ntodo in *. lia.
Qed.

End GetLoop.

(** The buffered branch of [ffgbyt]. *)
Lemma ffgbyt_buffered (src : list byte) (w : world) :
  Inv w -> no_drift fptr w -> positioned fptr w ->
  Z.of_nat (length src) < MINDIRECT ->
  range_at w (Fptr fptr) (bytepos (files w (Fptr fptr))) src ->
  wp (ffgbyt ffmahd fptr (Z.of_nat (length src)) 0)
     (fun res w' =>
        res = (0, src) /\ Inv w' /\ no_drift fptr w' /\ positioned fptr w'
        /\ bytepos (files w' (Fptr fptr))
           = bytepos (files w (Fptr fptr)) + Z.of_nat (length src)
        /\ bytes_kept w w') w.
Proof.
  intros HI Hnd (r & Hh & Hpos) Hlen Hsrc. pose proof IOBUFLEN_pos as HL.
  set (pos := bytepos (files w (Fptr fptr))) in *.
  assert (Hrun : wp (ffgbyt ffmahd fptr (Z.of_nat (length src)) 0)
                    (fun res w' => res = (0, src) /\ exists bufpos',
                       getting fptr pos src w (Z.of_nat (length src))
                               bufpos' w') w).
  { unfold ffgbyt. change (Z.ltb 0 0) with false. cbv iota.
    eapply wp_bind_run; [apply sync_hdu_no_drift; exact Hnd|].
    destruct (Z.leb_spec MINDIRECT (Z.of_nat (length src))); [lia|].
    apply wp_bind, wp_file_of.
    eapply wp_bind, wp_rdM; [exact (proj2 Hh)|].
    fold pos.
    pose proof (ffgbyt_loop_spec pos src w (S (Z.to_nat (Z.of_nat (length src))))
                  0 (pos - r * IOBUFLEN) w) as Hloop.
    replace (Z.of_nat (length src) - 0) with (Z.of_nat (length src))
      in Hloop by lia.
    change (Z.to_nat 0) with 0%nat in Hloop. rewrite take_0 in Hloop.
    apply Hloop; [|lia | left; lia].
    split; try assumption.
    - exists r. split; [exact Hh | lia].
    - lia.
    - fold pos. lia.
    - apply bytes_kept_refl. }
  eapply wp_mono; [exact Hrun|]. cbv beta.
  intros res w' (-> & bufpos' & [P1 P2 (r' & Ph & Ppos) P4 P5 P6 P7]).
  split; [reflexivity|]. split; [exact P1|]. split; [exact P2|].
  split; [exists r'; split; [exact Ph | lia]|].
  split; [exact P5 | exact P7].
Qed.

(** X11.  A buffered read ([nbytes < MINDIRECT]) on a well-formed pool,
    from a position that lies in the record of the current buffer,
    delivers the bytes that the file holds from that position on, in a
    buffer or on disk; it advances the position by their number and
    changes no byte of any file as seen through the pool. *)
Theorem ffgbyt_buffered_reads_range (src : list byte) (w : world) :
  Inv w -> no_drift fptr w -> positioned fptr w ->
  Z.of_nat (length src) < MINDIRECT ->
  range_at w (Fptr fptr) (bytepos (files w (Fptr fptr))) src ->
  exists w',
    ffgbyt ffmahd fptr (Z.of_nat (length src)) 0 w = Some ((0, src), w')
    /\ Inv w' /\ no_drift fptr w' /\ positioned fptr w'
    /\ bytepos (files w' (Fptr fptr))
       = bytepos (files w (Fptr fptr)) + Z.of_nat (length src)
    /\ bytes_kept w w'.
Proof.
  intros HI Hnd Hp Hlen Hsrc.
  destruct (wp_elim _ _ _ (ffgbyt_buffered src w HI Hnd Hp Hlen Hsrc))
    as (res & w' & Hrun & -> & H).
  exists w'. split; [exact Hrun | exact H].
Qed.

(** ** Seek, write, read *)

(** The record of an offset. *)
Lemma quot_bounds (pos : Z) :
  0 <= pos ->
  Z.quot pos IOBUFLEN * IOBUFLEN <= pos
  /\ pos < (Z.quot pos IOBUFLEN + 1) * IOBUFLEN
  /\ 0 <= Z.quot pos IOBUFLEN
  /\ pos / IOBUFLEN = Z.quot pos IOBUFLEN.
Proof.
  intros Hpos. pose proof IOBUFLEN_pos as HL.
  pose proof (Z.quot_rem' pos IOBUFLEN) as E.
  pose proof (Z.rem_bound_pos pos IOBUFLEN Hpos HL) as Hr.
  pose proof (Z.quot_pos pos IOBUFLEN Hpos ltac:(lia)) as Hq.
  split; [lia|]. split; [lia|]. split; [exact Hq|].
  symmetry. apply Z.quot_div_nonneg; lia.
Qed.

(** A seek on a well-formed pool, in the terms of the transfers. *)
Lemma ffmbyt_positions (pos mode : Z) (w : world) :
  Inv w -> no_drift fptr w -> 0 <= pos ->
  cur_ok w (Fptr fptr) (Z.quot pos IOBUFLEN) ->
  (mode = REPORT_EOF -> exists v, byte_at w (Fptr fptr) pos v) ->
  wp (ffmbyt ffmahd fptr pos mode 0)
     (fun st w' =>
        st = 0 /\ Inv w' /\ no_drift fptr w' /\ positioned fptr w'
        /\ bytepos (files w' (Fptr fptr)) = pos
        /\ bytes_kept w w'
        /\ exists v, byte_at w' (Fptr fptr) pos v) w.
Proof.
  intros HI Hnd Hpos Hcur Hm. pose proof IOBUFLEN_pos as HL.
  destruct (quot_bounds pos Hpos) as (Q1 & Q2 & Q3 & Q4).
  eapply wp_mono.
  { apply (ffmbyt_spec ffmahd fptr pos mode w HI Hnd Hpos Hcur).
    intros E. destruct (Hm E) as (v & x & Hx & _). rewrite Q4 in Hx.
    destruct Hx as [(i & Hi & _)|(_ & _ & Hsz & _)].
    - left. exists i. exact Hi.
    - right. pose proof (fo_log _ _ (inv_files _ _ HI (Fptr fptr))).
      pose proof IOBUFLEN_pos. lia. }
  cbv beta. intros st w' (-> & Hl & Hbp).
  split; [reflexivity|]. split; [exact (ld_inv _ _ _ _ Hl)|].
  split; [eapply loaded_no_drift; eassumption|].
  split.
  { exists (Z.quot pos IOBUFLEN). split; [exact (ld_cur _ _ _ _ Hl)|].
    rewrite Hbp. lia. }
  split; [exact Hbp|].
  split; [apply views_bytes_kept; exact (ld_views _ _ _ _ Hl)|].
  pose proof (ld_inv _ _ _ _ Hl) as HI'. pose proof (ld_cur _ _ _ _ Hl) as Hh.
  pose proof (holds_range w' _ _ _ (inv_slots _ _ HI') Hh) as Hrg.
  destruct (inv_slots _ _ HI') as (L1 & _).
  destruct (rd_in_range (iobuffer w') (curbuf (files w' (Fptr fptr))))
    as [buf Hbuf]; [lia|].
  pose proof (inv_bufs _ _ HI' _ buf Hbuf) as Hbl.
  pose proof (Z.mod_pos_bound pos IOBUFLEN HL) as Hmod.
  destruct (lookup_lt_is_Some_2 buf (Z.to_nat (pos mod IOBUFLEN))) as [v Hv];
    [lia|].
  exists v, buf. split; [|exact Hv].
  rewrite Q4. left. eexists. split; [exact Hh | exact Hbuf].
Qed.

Lemma positioned_cur_ok (w : world) (b : Z) :
  positioned fptr w -> cur_ok w (Fptr fptr) b.
Proof.
  intros (r & [Hp Hr] & _). exists r. split; [exact Hr|]. intros _. exact Hp.
Qed.

(** Seek, write, seek back, read. *)
Lemma buffered_trip_spec (pos : Z) (src : list byte) (w : world) :
  Inv w -> no_drift fptr w ->
  cur_ok w (Fptr fptr) (Z.quot pos IOBUFLEN) ->
  0 <= pos -> Z.of_nat (length src) < MINDIRECT ->
  wp (write_read_trip ffmahd fptr pos src)
     (fun res w' => res = (0, src) /\ Inv w' /\ no_drift fptr w'
                    /\ range_at w' (Fptr fptr) pos src) w.
Proof.
  intros HI Hnd Hcur Hpos Hlen.
  unfold write_read_trip.
  eapply wp_bind_wp.
  { apply (ffmbyt_positions pos IGNORE_EOF w HI Hnd Hpos Hcur). discriminate. }
  cbv beta. intros st w1 (-> & HI1 & Hnd1 & Hp1 & Hbp1 & Hk1 & Hv1).
  eapply wp_bind_wp; [apply (ffpbyt_buffered src w1 HI1 Hnd1 Hp1 Hlen)|].
  cbv beta. rewrite Hbp1.
  intros st w2 (-> & HI2 & Hnd2 & Hp2 & Hbp2 & Hr2 & Hk2).
  eapply wp_bind_wp.
  { apply (ffmbyt_positions pos REPORT_EOF w2 HI2 Hnd2 Hpos).
    - apply positioned_cur_ok. exact Hp2.
    - intros _. destruct Hv1 as (v & Hv1).
      destruct src as [|v' src'].
      + exists v. apply (Hk2 (Fptr fptr)); [right; right; simpl; lia|].
        exact Hv1.
      + exists v'. replace pos with (pos + Z.of_nat 0) by lia.
        apply Hr2. reflexivity. }
  cbv beta. intros st w3 (-> & HI3 & Hnd3 & Hp3 & Hbp3 & Hk3 & _).
  eapply wp_mono.
  { apply (ffgbyt_buffered src w3 HI3 Hnd3 Hp3 Hlen).
    rewrite Hbp3. apply (range_at_kept w2 w3); assumption. }
  cbv beta. intros res w4 (-> & HI4 & Hnd4 & _ & _ & Hk4).
  split; [reflexivity|]. split; [exact HI4|]. split; [exact Hnd4|].
  apply (range_at_kept w3 w4); [exact Hk4|].
  apply (range_at_kept w2 w3); assumption.
Qed.

(** ** Seek, write, flush *)

(** A byte of a file whose buffers are all clean is on the disk. *)
Lemma clean_byte_on_disk (w : world) (F : nat) (p : Z) (v : byte) :
  Inv w -> 0 <= p ->
  (forall i c, holds w i F c -> rd (dirty w) i = Some false) ->
  byte_at w F p v ->
  disk w F !! Z.to_nat p = Some v /\ p < filesize (files w F).
Proof.
  intros HI Hp Hclean (x & Hx & Hv). pose proof IOBUFLEN_pos as HL.
  pose proof (Z.mod_pos_bound p IOBUFLEN HL) as Hm.
  pose proof (Z.div_mod p IOBUFLEN ltac:(lia)) as Hdm.
  pose proof (Z.div_pos p IOBUFLEN Hp HL) as Hd.
  assert (Hblk : (p / IOBUFLEN + 1) * IOBUFLEN <= filesize (files w F)
                 /\ x = disk_block (disk w F) (p / IOBUFLEN)).
  { destruct Hx as [(i & Hi & Hb)|(_ & _ & Hle & ->)]; [|auto].
    destruct (inv_clean _ _ HI i F _ (fun f => f) Hi (Hclean i _ Hi))
      as [Hle Hb'].
    split; [exact Hle | congruence]. }
  destruct Hblk as [Hle ->]. split; [|lia].
  rewrite lookup_disk_block in Hv.
  destruct (decide (Z.to_nat (p mod IOBUFLEN) < Z.to_nat IOBUFLEN)%nat);
    [|lia].
  rewrite <- Hv. f_equal. lia.
Qed.

End Steps.

(** ** Witnesses *)

Lemma loaded0_no_drift : no_drift f0 loaded0.
Proof. vm_compute. reflexivity. Qed.

Lemma loaded0_positioned : positioned f0 loaded0.
Proof.
  exists 0. split; [exact (ld_cur _ _ _ _ loaded0_loaded)|].
  vm_compute. split; discriminate.
Qed.

Lemma loaded0_cur_ok : cur_ok loaded0 (Fptr f0) 0.
Proof.
  exists 0. split; [vm_compute; reflexivity|].
  intros _. vm_compute. reflexivity.
Qed.

(** Three bytes read from the start of the ASCII table, whose record
    holds the letter a throughout. *)
Lemma ffgbyt_buffered_reads_range_witness :
  exists w',
    ffgbyt nav0 f0 3 0 ascii_table
    = Some ((0, ["a"%byte; "a"%byte; "a"%byte]), w').
Proof.
  pose proof (ld_inv _ _ _ _ ascii_table_loaded) as HI.
  pose proof (ld_cur _ _ _ _ ascii_table_loaded) as Hh.
  destruct (ffgbyt_buffered_reads_range nav0 f0
              ["a"%byte; "a"%byte; "a"%byte] ascii_table)
    as (w' & H1 & _).
  - exact HI.
  - vm_compute. reflexivity.
  - exists 0. split; [exact Hh|]. vm_compute. split; discriminate.
  - vm_compute. reflexivity.
  - intros t v Hv.
    assert (Ht : (t < 3)%nat) by (apply lookup_lt_Some in Hv; exact Hv).
    assert (Ev : v = "a"%byte).
    { destruct t as [|[|[|t]]]; simpl in Hv; try lia; congruence. }
    subst v. exists (block_of "a"). split.
    + left. exists (curbuf (files ascii_table (Fptr f0))).
      assert (E : (bytepos (files ascii_table (Fptr f0)) + Z.of_nat t)
                  / IOBUFLEN = 0).
      { change (bytepos (files ascii_table (Fptr f0))) with 0.
        apply Z.div_small. pose proof IOBUFLEN_pos.
        assert (3 < IOBUFLEN) by (vm_compute; reflexivity). lia. }
      rewrite E. split; [exact Hh | vm_compute; reflexivity].
    + unfold block_of. apply lookup_replicate. split; [reflexivity|].
      change (bytepos (files ascii_table (Fptr f0))) with 0.
      assert (3 < IOBUFLEN) by (vm_compute; reflexivity).
      rewrite Z.mod_small by lia. lia.
  - exists w'. exact H1.
Defined.


(** * The pixel and table helpers *)

Section Pixels.

Variable ffmahd : fitsfile -> Z -> Z -> M Z.
Variable fptr : fitsfile.

(** Seek, write the groups, seek back, read the groups. *)
Lemma strided_trip_spec (pos gsize ngroups gap : Z) (src : list byte)
    (w : world) :
  Inv w -> no_drift fptr w ->
  cur_ok w (Fptr fptr) (Z.quot pos IOBUFLEN) ->
  0 <= pos -> 1 <= gsize <= IOBUFLEN -> 1 <= ngroups -> 0 <= gap ->
  Z.of_nat (length src) = ngroups * gsize ->
  wp (strided_trip ffmahd fptr pos gsize ngroups gap src)
     (fun r _ => r = (0, src)) w.
Proof.
  intros HI Hnd Hcur Hpos Hgs Hng Hgap Hlen. pose proof IOBUFLEN_pos as HL.
  set (F := Fptr fptr) in *. set (b := Z.quot pos IOBUFLEN) in *.
  unfold strided_trip.
  eapply wp_bind_wp.
  { apply (ffmbyt_spec ffmahd fptr pos IGNORE_EOF w HI Hnd Hpos Hcur).
    discriminate. }
  cbv beta. fold F b. intros st w1 (-> & Hl1 & Hbp1).
  eapply wp_bind_wp.
  { apply (ffpbytoff_spec ffmahd fptr pos gsize gap src pos Hgs Hgap
             ngroups w1 (ld_inv _ _ _ _ Hl1)); try assumption.
    - eapply loaded_no_drift; eassumption.
    - exact (ld_cur _ _ _ _ Hl1).
    - reflexivity. }
  cbv beta. fold F. intros st w2 (-> & HI2 & Hnd2 & (r & Hr) & Hsw).
  eapply wp_bind_wp.
  { apply (ffmbyt_spec ffmahd fptr pos REPORT_EOF w2 HI2 Hnd2 Hpos).
    - exists r. fold F. split; [exact (proj2 Hr)|].
      intros _. exact (proj1 Hr).
    - intros _. fold F b.
      destruct (Hsw 0 ltac:(nia)) as (v & _ & x & Hx & _).
      unfold stream_off in Hx. rewrite Z.div_0_l in Hx by lia.
      replace (pos + 0 + 0 * gap) with pos in Hx by lia.
      rewrite <- Z.quot_div_nonneg in Hx by lia. fold b in Hx.
      destruct Hx as [(i & Hi & _)|(_ & _ & Hsz & _)].
      + left. exists i. exact Hi.
      + right. pose proof (fo_log _ _ (inv_files _ _ HI2 F)). lia. }
  cbv beta. fold F b. intros st w3 (-> & Hl3 & Hbp3).
  apply (ffgbytoff_spec ffmahd fptr pos gsize gap src pos Hgs Hgap
           ngroups w3 (ld_inv _ _ _ _ Hl3)); try assumption.
  - eapply loaded_no_drift; eassumption.
  - exact (ld_cur _ _ _ _ Hl3).
  - reflexivity.
  - rewrite Hlen.
    apply (stream_written_kept fptr pos gsize gap src w2 w3); [|exact Hsw].
    intros q v. apply views_kept_byte_at. exact (ld_views _ _ _ _ Hl3).
Qed.

End Pixels.

Create HintDb hd_frame.

Ltac hd_done :=
  let G := fresh "G" in
  intros G;
  repeat match goal with
         | H : same_hdus _ _ |- _ => specialize (H G)
         end;
  unfold same_hdu in *; simpl in *; unfold upd in *;
  repeat match goal with
         | |- context [Nat.eqb ?a ?b] => destruct (Nat.eqb_spec a b); subst
         end;
  simpl in *; intuition congruence.

Ltac hd_call :=
  eapply wlp_mono; [solve [auto 1 with hd_frame nocore]|];
  cbv beta; intros.

Ltac hd_auto := repeat first [wlp_step | hd_call]; try hd_done.

Lemma same_hdus_refl (w : world) : same_hdus w w.
Proof. intros G. apply same_hdu_refl. Qed.

Lemma same_hdus_trans (w1 w2 w3 : world) :
  same_hdus w1 w2 -> same_hdus w2 w3 -> same_hdus w1 w3.
Proof. intros H1 H2 G. eapply same_hdu_trans; [apply H1 | apply H2]. Qed.

Lemma same_hdus_no_drift (fptr : fitsfile) (w w' : world) :
  same_hdus w w' -> no_drift fptr w -> no_drift fptr w'.
Proof.
  intros H Hnd. unfold no_drift in *.
  destruct (H (Fptr fptr)) as (E & _). congruence.
Qed.

Lemma ffbfwt_fill_hd (F : nat) (nloop st : Z) (w : world) :
  wlp (ffbfwt_fill F nloop st) (fun _ w' => same_hdus w w') w.
Proof.
  unfold ffbfwt_fill.
  apply (wlp_for_status (fun _ w' => same_hdus w w'));
    [apply same_hdus_refl|].
  intros _ st0 w0 _ H0. hd_auto.
Qed.
#[local] Hint Resolve ffbfwt_fill_hd : hd_frame.

Lemma ffbfwt_append_hd (F : nat) (nbuff st : Z) (w : world) :
  wlp (ffbfwt_append F nbuff st) (fun _ w' => same_hdus w w') w.
Proof. unfold ffbfwt_append. hd_auto. Qed.
#[local] Hint Resolve ffbfwt_append_hd : hd_frame.

Lemma ffbfwt_extend_hd (fuel : nat) (F : nat) (nbuff ibuff st : Z)
    (w : world) :
  wlp (ffbfwt_extend fuel F nbuff ibuff st) (fun _ w' => same_hdus w w') w.
Proof.
  revert ibuff st w. induction fuel as [|fuel IH]; intros ibuff st w; simpl.
  - destruct (Z.eqb ibuff nbuff); [apply wlp_ret, same_hdus_refl | exact I].
  - destruct (Z.eqb ibuff nbuff); [apply wlp_ret, same_hdus_refl|].
    apply wlp_bind. hd_call.
    eapply wlp_mono; [apply IH|]. cbv beta. intros r w1 E.
    eapply same_hdus_trans; eassumption.
Qed.
#[local] Hint Resolve ffbfwt_extend_hd : hd_frame.

Lemma ffbfwt_hd (nbuff st : Z) (w : world) :
  wlp (ffbfwt nbuff st) (fun _ w' => same_hdus w w') w.
Proof. unfold ffbfwt. hd_auto. Qed.
#[local] Hint Resolve ffbfwt_hd : hd_frame.

Lemma ffwhbf_hd (fptr : fitsfile) (w : world) :
  wlp (ffwhbf fptr) (fun _ w' => same_hdus w w') w.
Proof.
  unfold wlp, ffwhbf.
  destruct (ffwhbf_init_pool w) as (_ & Ef & _).
  destruct (ffwhbf_search _ _) as [[ibuff|]|]; try exact I;
    intros G; rewrite Ef; apply same_hdu_refl.
Qed.
#[local] Hint Resolve ffwhbf_hd : hd_frame.

Section Tables.

Variable ffmahd : fitsfile -> Z -> Z -> M Z.
Variable ffrdef : fitsfile -> Z -> M Z.
Variable fptr : fitsfile.

Lemma ffldrc_hd (b mode st : Z) (w : world) :
  no_drift fptr w ->
  wlp (ffldrc ffmahd fptr b mode st) (fun _ w' => same_hdus w w') w.
Proof.
  intros Hnd. unfold ffldrc. apply wlp_bind.
  unfold wlp at 1. rewrite (sync_hdu_no_drift ffmahd fptr st w Hnd).
  unfold ffldrc_updatebuf. hd_auto.
Qed.

Lemma ffmbyt_hd (pos mode st : Z) (w : world) :
  no_drift fptr w ->
  wlp (ffmbyt ffmahd fptr pos mode st) (fun _ w' => same_hdus w w') w.
Proof.
  intros Hnd. unfold ffmbyt.
  destruct (Z.ltb 0 st); [apply wlp_ret, same_hdus_refl|].
  destruct (Z.ltb pos 0); [apply wlp_ret, same_hdus_refl|].
  apply wlp_bind.
  unfold wlp at 1. rewrite (sync_hdu_no_drift ffmahd fptr st w Hnd).
  apply wlp_bind, wlp_file_of. apply wlp_bind, wlp_rdM. intros cur Hcur.
  apply wlp_bind.
  apply (wlp_mono _ (fun _ w' => same_hdus w w')).
  { destruct (Z.eqb _ cur); [apply wlp_ret, same_hdus_refl|].
    apply ffldrc_hd. exact Hnd. }
  intros st1 w1 E. hd_auto.
Qed.

Lemma ffpbyt_loop_hd (fuel : nat) :
  forall (ntodo : Z) (cptr : list byte) (bufpos nspace st : Z) (w : world),
    no_drift fptr w ->
    wlp (ffpbyt_loop ffmahd fuel fptr ntodo cptr bufpos nspace st)
        (fun _ w' => same_hdus w w') w.
Proof.
  induction fuel as [|fuel IH]; intros ntodo cptr bufpos nspace st w Hnd.
  - simpl. destruct (Z.eqb ntodo 0); [apply wlp_ret, same_hdus_refl | exact I].
  - rewrite ffpbyt_loop_S.
    destruct (Z.eqb ntodo 0); [apply wlp_ret, same_hdus_refl|].
    cbv zeta. apply wlp_bind, wlp_file_of.
    apply wlp_bind, wlp_rdM. intros buf Hbuf.
    apply wlp_bind, wlp_lift. intros buf' Hbuf'.
    apply wlp_bind, wlp_put_iobuffer. intros Hr.
    apply wlp_bind, wlp_modify.
    apply wlp_bind, wlp_put_dirty. intros Hr'.
    match goal with |- wlp _ _ ?wx => set (w3 := wx) end.
    assert (H3 : same_hdus w w3) by (unfold w3; hd_done).
    destruct (Z.eqb _ 0); [apply wlp_ret; exact H3|].
    apply wlp_bind, wlp_file_of. apply wlp_bind.
    eapply wlp_mono; [apply ffldrc_hd; eapply same_hdus_no_drift; eassumption|].
    cbv beta. intros st1 w4 H4.
    eapply wlp_mono.
    { apply IH. eapply same_hdus_no_drift; [|exact Hnd].
      eapply same_hdus_trans; eassumption. }
    cbv beta. intros st2 w5 H5.
    eapply same_hdus_trans; [|exact H5].
    eapply same_hdus_trans; eassumption.
Qed.

Lemma ffpbyt_hd (nbytes : Z) (buffer : list byte) (st : Z) (w : world) :
  no_drift fptr w -> nbytes < MINDIRECT ->
  wlp (ffpbyt ffmahd fptr nbytes buffer st) (fun _ w' => same_hdus w w') w.
Proof.
  intros Hnd Hlt. unfold ffpbyt.
  destruct (Z.ltb 0 st); [apply wlp_ret, same_hdus_refl|].
  apply wlp_bind.
  unfold wlp at 1. rewrite (sync_hdu_no_drift ffmahd fptr st w Hnd).
  destruct (Z.leb_spec MINDIRECT nbytes); [lia|].
  apply wlp_bind, wlp_file_of. apply wlp_bind, wlp_rdM. intros cur Hcur.
  apply ffpbyt_loop_hd. exact Hnd.
Qed.

(** The row test of [ffgtbb] in terms of the last byte of the request. *)
Lemma endrow_bound (numrows firstrow firstchar nchars rl : Z) :
  0 < rl -> 1 <= firstchar -> 1 <= nchars ->
  (numrows < Z.quot (firstchar + nchars - 2) rl + firstrow
   <-> numrows * rl <= (firstrow - 1) * rl + (firstchar - 1) + (nchars - 1)).
Proof.
  intros Hrl Hfc Hn.
  rewrite Z.quot_div_nonneg by lia.
  pose proof (Z.div_mod (firstchar + nchars - 2) rl ltac:(lia)) as Hdm.
  pose proof (Z.mod_pos_bound (firstchar + nchars - 2) rl Hrl) as Hm.
  split; intros H; nia.
Qed.

(** ** Arithmetic in [long] *)

Lemma wrap_long_exact (z : Z) :
  LONG_MIN <= z <= LONG_MAX -> wrap_long z = z.
Proof.
  unfold LONG_MIN, LONG_MAX, wrap_long. intros H.
  rewrite Z.mod_small by lia. lia.
Qed.

(** The row of the last byte of a request, when the row, the byte
    number and the count add up within the range of [long]. *)
Lemma long_endrow_exact (firstrow firstchar nchars rl : Z) :
  0 < rl -> 1 <= firstrow -> 1 <= firstchar -> 1 <= nchars ->
  firstrow + firstchar + nchars <= LONG_MAX ->
  ldiv_defined (lsub (ladd firstchar nchars) 2) rl = true
  /\ ladd (Z.quot (lsub (ladd firstchar nchars) 2) rl) firstrow
     = Z.quot (firstchar + nchars - 2) rl + firstrow.
Proof.
  intros Hrl Hfr Hfc Hn Hsum.
  assert (HM : LONG_MIN < 0 /\ 0 < LONG_MAX) by (split; reflexivity).
  unfold ldiv_defined, ladd, lsub.
  rewrite (wrap_long_exact (firstchar + nchars)) by lia.
  rewrite (wrap_long_exact (firstchar + nchars - 2)) by lia.
  destruct (Z.eqb_spec rl 0); [lia|].
  destruct (Z.eqb_spec rl (-1)); [lia|].
  split; [reflexivity|].
  apply wrap_long_exact.
  assert (Hq : 0 <= Z.quot (firstchar + nchars - 2) rl
               <= firstchar + nchars - 2).
  { rewrite Z.quot_div_nonneg by lia. split.
    - apply Z.div_pos; lia.
    - apply Z.div_le_upper_bound; nia. }
  lia.
Qed.

(** The offset of the first byte of a request, when it fits in a
    [long]. *)
Lemma long_offset_exact (f : FITSfile) (firstrow firstchar : Z) :
  0 <= datastart f -> 0 < rowlength f -> 1 <= firstrow -> 1 <= firstchar ->
  datastart f + (firstrow - 1) * rowlength f + firstchar <= LONG_MAX ->
  lsub (ladd (ladd (datastart f) (lmul (lsub firstrow 1) (rowlength f)))
             firstchar) 1
  = table_offset f firstrow firstchar.
Proof.
  intros Hds Hrl Hfr Hfc Hsum.
  assert (HM : LONG_MIN < 0 /\ 0 < LONG_MAX) by (split; reflexivity).
  assert (Hp : 0 <= (firstrow - 1) * rowlength f) by nia.
  unfold ladd, lsub, lmul, table_offset.
  assert (Hr : firstrow - 1 <= LONG_MAX) by nia.
  rewrite (wrap_long_exact (firstrow - 1)) by lia.
  rewrite (wrap_long_exact ((firstrow - 1) * rowlength f)) by lia.
  rewrite (wrap_long_exact (datastart f + (firstrow - 1) * rowlength f))
    by lia.
  rewrite (wrap_long_exact
             (datastart f + (firstrow - 1) * rowlength f + firstchar)) by lia.
  apply wrap_long_exact. lia.
Qed.

(** [ffgtbb] once its arguments have passed the first tests. *)
Lemma ffgtbb_unfold (numrows firstrow firstchar nchars st : Z) (w : world) :
  st <= 0 -> no_drift fptr w -> 0 < rowlength (files w (Fptr fptr)) ->
  0 < nchars -> 1 <= firstrow -> 1 <= firstchar ->
  firstrow + firstchar + nchars <= LONG_MAX ->
  ffgtbb ffmahd fptr numrows firstrow firstchar nchars st w
  = (if Z.ltb numrows
             (Z.quot (firstchar + nchars - 2)
                     (rowlength (files w (Fptr fptr))) + firstrow)
     then ret (BAD_ROW_NUM, [])
     else
       do status1 <- ffmbyt ffmahd fptr
                       (lsub (ladd (ladd (datastart (files w (Fptr fptr)))
                                         (lmul (lsub firstrow 1)
                                               (rowlength (files w (Fptr fptr)))))
                                   firstchar) 1)
                       REPORT_EOF st;
       ffgbyt ffmahd fptr nchars status1) w.
Proof.
  intros Hst Hnd Hrl Hn Hfr Hfc Hsum. unfold ffgtbb.
  destruct (Z.ltb_spec 0 st) as [?|_]; [lia|]. simpl orb.
  destruct (Z.leb_spec nchars 0); [lia|].
  destruct (Z.ltb_spec firstrow 1); [lia|].
  destruct (Z.ltb_spec firstchar 1); [lia|].
  cbn [orb]. cbv iota. unfold bind at 1.
  rewrite (sync_hdu_no_drift ffmahd fptr st w Hnd).
  unfold bind at 1, file_of, gets.
  destruct (long_endrow_exact firstrow firstchar nchars
              (rowlength (files w (Fptr fptr)))) as [Hd He]; try lia.
  cbv zeta. rewrite Hd, He. reflexivity.
Qed.

(** X12.  [ffgtbb] reads inside the table only.  A request of no bytes
    returns the status it was given; a row or a byte number below 1 is
    refused with BAD_ROW_NUM or BAD_ELEM_NUM.  For a request whose row,
    byte number and count add up within the range of [long] (the type
    in which the function computes): it is refused with BAD_ROW_NUM
    exactly when its last byte lies beyond the [numrows] rows of the
    table; a refused request delivers nothing and leaves the world as
    it was; any other request, in a table that starts at an offset that
    is not negative and ends at an offset within the range of [long],
    is a seek to the offset of the first byte followed by a read. *)
Theorem ffgtbb_reads_inside_the_table (numrows firstrow firstchar nchars st : Z)
    (w : world) :
  st <= 0 -> no_drift fptr w -> 0 < rowlength (files w (Fptr fptr)) ->
  (nchars <= 0 ->
   ffgtbb ffmahd fptr numrows firstrow firstchar nchars st w
   = Some ((st, []), w))
  /\ (0 < nchars -> firstrow < 1 ->
      ffgtbb ffmahd fptr numrows firstrow firstchar nchars st w
      = Some ((BAD_ROW_NUM, []), w))
  /\ (0 < nchars -> 1 <= firstrow -> firstchar < 1 ->
      ffgtbb ffmahd fptr numrows firstrow firstchar nchars st w
      = Some ((BAD_ELEM_NUM, []), w))
  /\ (0 < nchars -> 1 <= firstrow -> 1 <= firstchar ->
      firstrow + firstchar + nchars <= LONG_MAX ->
      numrows * rowlength (files w (Fptr fptr))
      <= (firstrow - 1) * rowlength (files w (Fptr fptr))
         + (firstchar - 1) + (nchars - 1) ->
      ffgtbb ffmahd fptr numrows firstrow firstchar nchars st w
      = Some ((BAD_ROW_NUM, []), w))
  /\ (0 < nchars -> 1 <= firstrow -> 1 <= firstchar ->
      firstrow + firstchar + nchars <= LONG_MAX ->
      0 <= datastart (files w (Fptr fptr)) ->
      datastart (files w (Fptr fptr))
      + numrows * rowlength (files w (Fptr fptr)) <= LONG_MAX ->
      (firstrow - 1) * rowlength (files w (Fptr fptr))
      + (firstchar - 1) + (nchars - 1)
      < numrows * rowlength (files w (Fptr fptr)) ->
      ffgtbb ffmahd fptr numrows firstrow firstchar nchars st w
      = (do st1 <- ffmbyt ffmahd fptr
                     (table_offset (files w (Fptr fptr)) firstrow firstchar)
                     REPORT_EOF st;
         ffgbyt ffmahd fptr nchars st1) w).
Proof.
  intros Hst Hnd Hrl.
  split; [|split; [|split; [|split]]].
  - intros Hn. unfold ffgtbb.
    destruct (Z.ltb_spec 0 st) as [?|_]; [lia|]. simpl orb.
    destruct (Z.leb_spec nchars 0); [reflexivity | lia].
  - intros Hn Hfr. unfold ffgtbb.
    destruct (Z.ltb_spec 0 st) as [?|_]; [lia|]. simpl orb.
    destruct (Z.leb_spec nchars 0); [lia|].
    destruct (Z.ltb_spec firstrow 1); [reflexivity | lia].
  - intros Hn Hfr Hfc. unfold ffgtbb.
    destruct (Z.ltb_spec 0 st) as [?|_]; [lia|]. simpl orb.
    destruct (Z.leb_spec nchars 0); [lia|].
    destruct (Z.ltb_spec firstrow 1); [lia|].
    destruct (Z.ltb_spec firstchar 1); [reflexivity | lia].
  - intros Hn Hfr Hfc Hsum Hlast.
    rewrite ffgtbb_unfold by assumption.
    destruct (Z.ltb_spec numrows
                (Z.quot (firstchar + nchars - 2)
                        (rowlength (files w (Fptr fptr))) + firstrow))
      as [_|Hge]; [reflexivity|].
    exfalso. apply endrow_bound in Hlast; lia.
  - intros Hn Hfr Hfc Hsum Hds Hend Hlast.
    rewrite ffgtbb_unfold by assumption.
    destruct (Z.ltb_spec numrows
                (Z.quot (firstchar + nchars - 2)
                        (rowlength (files w (Fptr fptr))) + firstrow))
      as [Hlt|_].
    + exfalso. apply endrow_bound in Hlt; lia.
    + rewrite long_offset_exact by lia. reflexivity.
Qed.

End Tables.

(** ** Witnesses: a table of rows of 80 bytes *)

Lemma table0_loaded :
  loaded (ready (fun _ => table_file) (fun _ => [])) 0%nat 0 table0.
Proof.
  unfold table0.
  assert (HI : Inv (ready (fun _ => table_file) (fun _ => []))).
  { apply ready_inv. intros F. split; simpl.
    - exists 0. split; [lia | reflexivity].
    - reflexivity.
    - reflexivity.
    - lia. }
  destruct (wp_after _ _ _ (ffldrc_spec nav0 f0 0 IGNORE_EOF _
              HI eq_refl ltac:(lia) (ready_loadable _ _ _)
              ltac:(discriminate))) as (st & _ & _ & H & _).
  exact H.
Qed.

Lemma table0_no_drift : no_drift f0 table0.
Proof. vm_compute. reflexivity. Qed.

Lemma table0_rowlength : rowlength (files table0 (Fptr f0)) = 80.
Proof. vm_compute. reflexivity. Qed.

(** A row number so large that the offset does not fit in a [long]:
    the product wraps around, and row [2 ^ 60] of a table said to have
    as many rows is read at offset 2800 of the file, with status 0. *)
Example ffgtbb_row_offset_wraps :
  lsub (ladd (ladd 2880 (lmul (lsub (2 ^ 60) 1) 80)) 1) 1 = 2800
  /\ result (ffgtbb nav0 f0 (2 ^ 60) (2 ^ 60) 1 3 0) table0
     = Some (0, [x00; x00; x00])
  /\ bytepos (files (after (ffgtbb nav0 f0 (2 ^ 60) (2 ^ 60) 1 3 0) table0)
                    0%nat) = 2803.
Proof. vm_compute. repeat split; reflexivity. Qed.

(** Three bytes of row 5 of a table of 4 rows are refused. *)
Lemma ffgtbb_reads_inside_the_table_witness :
  ffgtbb nav0 f0 4 5 1 3 0 table0 = Some ((BAD_ROW_NUM, []), table0).
Proof.
  destruct (ffgtbb_reads_inside_the_table nav0 f0 4 5 1 3 0 table0)
    as (_ & _ & _ & H & _).
  - lia.
  - exact table0_no_drift.
  - rewrite table0_rowlength. lia.
  - apply H; try lia. vm_compute. discriminate.
Defined.


(** * Strided transfers: the bytes between the groups *)

Lemma wp_conj {A : Type} (m : M A) (Q1 Q2 : A -> world -> Prop) (w : world) :
  wp m Q1 w -> wp m Q2 w -> wp m (fun a w' => Q1 a w' /\ Q2 a w') w.
Proof. unfold wp. destruct (m w) as [[a w']|]; auto. Qed.

Lemma kept_outside_trans (w1 w2 w3 : world) (F : nat) (lo hi : Z) :
  kept_outside w1 w2 F lo hi -> kept_outside w2 w3 F lo hi ->
  kept_outside w1 w3 F lo hi.
Proof. intros H1 H2 G q v Hq H. apply (H2 G q v Hq), (H1 G q v Hq), H. Qed.

Lemma bytes_kept_outside (w w' : world) (F : nat) (lo hi : Z) :
  bytes_kept w w' -> kept_outside w w' F lo hi.
Proof. intros H G q v _. apply H. Qed.

Lemma kept_outside_wider (w w' : world) (F : nat) (lo hi lo' hi' : Z) :
  lo' <= lo -> hi <= hi' ->
  kept_outside w w' F lo hi -> kept_outside w w' F lo' hi'.
Proof. intros Hlo Hhi H G q v Hq. apply H. lia. Qed.

Section Frames.

Variable ffmahd : fitsfile -> Z -> Z -> M Z.
Variable fptr : fitsfile.

(** The bytes that [put_group_bytes] leaves alone. *)
Lemma put_group_bytes_frame (p : Z) (c : cursor) (n : Z) (w : world) :
  cursor_at fptr p c w -> InvX (eq (bcurrent c)) w ->
  0 <= n -> ioptr c + n <= IOBUFLEN -> n <= Z.of_nat (length (cptr c)) ->
  wp (put_group_bytes c n)
     (fun _ w1 => kept_outside w w1 (Fptr fptr) p (p + n)) w.
Proof.
  intros Hc HX Hn Hfit Hsrc. pose proof IOBUFLEN_pos as HL.
  pose proof Hc as [C1 C2 C3 C4 C5 C6].
  destruct (inv_slots _ _ HX) as (L1 & L2 & L3 & L4 & L5).
  pose proof (holds_range w _ (Fptr fptr) _ (inv_slots _ _ HX) C5) as Hr.
  destruct (rd_in_range (iobuffer w) (bcurrent c)) as [buf Hbuf]; [lia|].
  pose proof (inv_bufs _ _ HX _ buf Hbuf) as Hbl.
  unfold put_group_bytes.
  eapply wp_bind, wp_rdM; [exact Hbuf|].
  eapply wp_bind, wp_lift; [apply memcpy_to_Some; lia|].
  set (buf' := take (Z.to_nat (ioptr c)) buf ++ take (Z.to_nat n) (cptr c)
               ++ drop (Z.to_nat (ioptr c + n)) buf).
  apply wp_bind. apply wp_put_iobuffer; [lia|]. apply wp_ret.
  set (w1 := set_iobuffer (<[Z.to_nat (bcurrent c) := buf']> (iobuffer w)) w).
  pose proof (poke_view w _ (Fptr fptr) _ buf' HX C5) as Hview. fold w1 in Hview.
  intros G q v Hq (x & Hx & Hv).
  destruct (Nat.eq_dec G (Fptr fptr)) as [->|HG].
  - destruct (Z.eq_dec (q / IOBUFLEN) (record c)) as [E|E].
    + unfold byte_at. rewrite E in Hx |- *.
      pose proof (views_cached _ w _ (Fptr fptr) _ x HX C5 Hx) as Hxb.
      rewrite Hbuf in Hxb. injection Hxb as <-.
      exists buf'. split; [exact Hview|].
      pose proof (Z.mod_pos_bound q IOBUFLEN HL) as Hm.
      pose proof (Z.div_mod q IOBUFLEN ltac:(lia)) as Hdm.
      unfold buf'. rewrite memcpy_to_outside; [exact Hv | lia.. |].
      rewrite E in Hdm. destruct Hq as [Hq|Hq]; [congruence | lia].
    + exists x. split; [|exact Hv].
      apply (poke_views w _ (Fptr fptr) _ buf' HX C5); [right; exact E | exact Hx].
  - exists x. split; [|exact Hv].
    apply (poke_views w _ (Fptr fptr) _ buf' HX C5); [left; exact HG | exact Hx].
Qed.

(** Marking the current buffer and loading another record changes no
    byte of any file. *)
Lemma mark_load_frame (p : Z) (c : cursor) (rec off sp : Z) (w : world) :
  cursor_at fptr p c w -> InvX (eq (bcurrent c)) w -> 0 <= rec -> 0 <= off ->
  wp (exec put_dirty (bcurrent c) true;
      next_record ffmahd fptr IGNORE_EOF c rec off sp)
     (fun _ w' => bytes_kept w w') w.
Proof.
  intros Hc HX Hrec Hoff. pose proof Hc as [C1 C2 C3 C4 C5 C6].
  apply wp_bind. apply wp_put_dirty; [exact (mark_range w _ _ _ HX C5)|].
  set (wm := set_dirty (<[Z.to_nat (bcurrent c) := true]> (dirty w)) w).
  pose proof (mark_contents w (bcurrent c)) as Hsc. fold wm in Hsc.
  pose proof (mark_inv w _ _ _ HX C5) as HIm. fold wm in HIm.
  pose proof (holds_range w _ _ _ (inv_slots _ _ HX) C5) as Hr.
  unfold next_record. rewrite C1.
  eapply wp_bind_wp.
  { apply (ffldrc_spec ffmahd fptr rec IGNORE_EOF wm HIm); try assumption.
    - right. change (curbuf (files wm (Fptr fptr)))
        with (curbuf (files w (Fptr fptr))). rewrite C4. exact Hr.
    - discriminate. }
  cbv beta. intros st w' (-> & Hl & Hbp).
  apply wp_bind, wp_file_of. apply wp_ret.
  eapply bytes_kept_trans; [apply same_contents_bytes_kept; exact Hsc|].
  apply views_bytes_kept. exact (ld_views _ _ _ _ Hl).
Qed.

Section GroupFrames.

Variables (pos gsize gap : Z) (src : list byte) (bp : Z).
Hypothesis Hgsize : 1 <= gsize <= IOBUFLEN.
Hypothesis Hgap : 0 <= gap.

(** One group leaves alone what lies outside the group. *)
Lemma group_frame (k : Z) (c : cursor) (w : world) :
  0 <= k -> (k + 1) * gsize <= Z.of_nat (length src) ->
  writing fptr pos gsize gap src bp (pos + k * (gsize + gap)) (k * gsize) c w ->
  nspace c = IOBUFLEN - ioptr c -> ioptr c < IOBUFLEN ->
  wp (do c1 <- put_group_bytes c (Z.min gsize (nspace c));
      if Z.ltb (Z.min gsize (nspace c)) gsize then
        exec put_dirty (bcurrent c1) true;
        do c' <- next_record ffmahd fptr IGNORE_EOF c1 (record c1 + 1) 0
                             (nspace c1);
        do c'' <- put_group_bytes c' (gsize - Z.min gsize (nspace c));
        ret (mkCursor (bcurrent c'') (record c'')
                      (IOBUFLEN - gap - (gsize - Z.min gsize (nspace c)))
                      (ioptr c'' + (gap + (gsize - Z.min gsize (nspace c))))
                      (cptr c'') (cstatus c''))
      else
        ret (mkCursor (bcurrent c1) (record c1)
                      (nspace c1 - (gap + Z.min gsize (nspace c)))
                      (ioptr c1 + (gap + Z.min gsize (nspace c)))
                      (cptr c1) (cstatus c1)))
     (fun _ w2 =>
        kept_outside w w2 (Fptr fptr) (pos + k * (gsize + gap))
                     (pos + k * (gsize + gap) + gsize)) w.
Proof.
  intros Hk Hlen W Hsp Hio. pose proof IOBUFLEN_pos as HL.
  pose proof W as [W1 W2 W3 W4 W5].
  pose proof (cu_ioptr _ _ _ _ W1) as Hio0.
  pose proof (cu_pos _ _ _ _ W1) as Hpos.
  pose proof (cursor_record_pos _ _ _ _ _ W1 W2) as Hrec.
  set (pk := pos + k * (gsize + gap)) in *.
  set (nwrite := Z.min gsize (nspace c)).
  assert (Hnw : 0 < nwrite <= gsize /\ nwrite <= nspace c) by (unfold nwrite; lia).
  assert (Hcp : nwrite <= Z.of_nat (length (cptr c))).
  { rewrite W3, length_drop. nia. }
  eapply wp_bind_wp.
  { apply wp_conj.
    - apply (write_chunk fptr pos gsize gap src bp Hgsize Hgap k 0 nwrite c w);
        try lia.
      fold pk. replace (pk + 0) with pk by lia.
      replace (k * gsize + 0) with (k * gsize) by lia. exact W.
    - apply (put_group_bytes_frame pk c nwrite w W1 W2); lia. }
  cbv beta. intros c1 w1 ((-> & V) & K1).
  cbn [bcurrent record nspace ioptr cptr cstatus].
  fold pk in V. replace (pk + 0) with pk in V by lia.
  replace (k * gsize + 0 + nwrite) with (k * gsize + nwrite) in V by lia.
  destruct (Z.ltb_spec nwrite gsize) as [Hcross|Hfits].
  - apply wp_bind_assoc. eapply wp_bind_wp.
    { apply wp_conj.
      - apply (mark_load_spec ffmahd fptr _ _ (record c + 1) 0 (nspace c) w1
                 (wr_at _ _ _ _ _ _ _ _ _ _ V) (wr_inv _ _ _ _ _ _ _ _ _ _ V));
          lia.
      - apply (mark_load_frame _ _ (record c + 1) 0 (nspace c) w1
                 (wr_at _ _ _ _ _ _ _ _ _ _ V) (wr_inv _ _ _ _ _ _ _ _ _ _ V));
          lia. }
    cbv beta. intros c' w' ((E & Hc & HI & Hbp & Hkeep) & K2).
    assert (Hp' : (record c + 1) * IOBUFLEN + 0 = pk + nwrite) by lia.
    pose proof (writing_loaded fptr pos gsize gap src bp _ _ _ c' w1 w' _ _ _
                  V E Hc HI Hbp Hkeep) as V'.
    rewrite Hp' in V'.
    eapply wp_bind_wp.
    { apply (put_group_bytes_frame (pk + nwrite) c' (gsize - nwrite) w'
               (wr_at _ _ _ _ _ _ _ _ _ _ V') (wr_inv _ _ _ _ _ _ _ _ _ _ V'));
        try lia.
      - rewrite E. simpl. lia.
      - rewrite (wr_cptr _ _ _ _ _ _ _ _ _ _ V'), length_drop. nia. }
    cbv beta. intros c'' w'' K3. apply wp_ret.
    apply (kept_outside_trans w w1 w'').
    + apply (kept_outside_wider _ _ _ pk (pk + nwrite)); [lia | lia | exact K1].
    + apply (kept_outside_trans w1 w' w'').
      * apply bytes_kept_outside. exact K2.
      * apply (kept_outside_wider _ _ _ (pk + nwrite) (pk + nwrite + (gsize - nwrite)));
          [lia | lia | exact K3].
  - apply wp_ret.
    apply (kept_outside_wider _ _ _ pk (pk + nwrite)); [lia | lia | exact K1].
Qed.

(** The reload at the end of a group changes no byte. *)
Lemma tail_frame (p N : Z) (c : cursor) (w : world) :
  writing fptr pos gsize gap src bp p N c w ->
  nspace c = IOBUFLEN - ioptr c ->
  wp (if Z.leb (nspace c) 0 then
        exec put_dirty (bcurrent c) true;
        let rec := record c + Z.quot (IOBUFLEN - nspace c) IOBUFLEN in
        let bufpos := Z.rem (- nspace c) IOBUFLEN in
        next_record ffmahd fptr IGNORE_EOF c rec bufpos (IOBUFLEN - bufpos)
      else ret c)
     (fun _ w' => bytes_kept w w') w.
Proof.
  intros W Hsp. pose proof W as [W1 W2 W3 W4 W5].
  pose proof (cursor_record_pos _ _ _ _ _ W1 W2) as Hrec.
  destruct (Z.leb_spec (nspace c) 0) as [Hout|Hin].
  - cbv zeta.
    replace (IOBUFLEN - nspace c) with (ioptr c) by lia.
    replace (- nspace c) with (ioptr c - IOBUFLEN) by lia.
    destruct (reload_pos (ioptr c)) as (Hp & Hb & Hq); [lia|].
    apply (mark_load_frame p c _ _ _ w W1 W2); lia.
  - apply wp_ret. apply bytes_kept_refl.
Qed.

Lemma ffpbytoff_group_frame (k : Z) (c : cursor) (w : world) :
  0 <= k -> (k + 1) * gsize <= Z.of_nat (length src) ->
  writing fptr pos gsize gap src bp (pos + k * (gsize + gap)) (k * gsize) c w ->
  nspace c = IOBUFLEN - ioptr c -> ioptr c < IOBUFLEN ->
  wp (ffpbytoff_group ffmahd fptr gsize gap c)
     (fun _ w' =>
        kept_outside w w' (Fptr fptr) (pos + k * (gsize + gap))
                     (pos + k * (gsize + gap) + gsize)) w.
Proof.
  intros Hk Hlen W Hsp Hio. unfold ffpbytoff_group. cbv zeta.
  apply wp_bind_assoc. eapply wp_bind_wp.
  { apply wp_conj.
    - apply (write_group ffmahd fptr pos gsize gap src bp Hgsize Hgap k c w);
        assumption.
    - apply (group_frame k c w); assumption. }
  cbv beta. intros c2 w2 ((V & Hsp2) & K).
  eapply wp_mono; [apply (tail_frame _ _ c2 w2 V Hsp2)|].
  cbv beta. intros c3 w3 K'.
  apply (kept_outside_trans w w2 w3); [exact K|].
  apply bytes_kept_outside. exact K'.
Qed.

Lemma groups_kept_step (w0 w1 w2 : world) (k : Z) :
  0 <= k ->
  groups_kept w0 w1 (Fptr fptr) pos gsize gap k ->
  kept_outside w1 w2 (Fptr fptr) (pos + k * (gsize + gap))
               (pos + k * (gsize + gap) + gsize) ->
  groups_kept w0 w2 (Fptr fptr) pos gsize gap (k + 1).
Proof.
  intros Hk H1 H2 G q v Hq Hb.
  apply (H2 G q v).
  - destruct Hq as [Hq|Hq]; [left; exact Hq|].
    destruct (Nat.eq_dec G (Fptr fptr)) as [_|HG]; [|left; exact HG].
    right. specialize (Hq k ltac:(lia)). unfold in_group in Hq. lia.
  - apply (H1 G q v); [|exact Hb].
    destruct Hq as [Hq|Hq]; [left; exact Hq|].
    right. intros j Hj. apply Hq. lia.
Qed.

(** [ffpbytoff] with all that it leaves behind. *)
Lemma ffpbytoff_full (ngroups : Z) (w : world) :
  Inv w -> no_drift fptr w -> 0 <= pos ->
  holds w (curbuf (files w (Fptr fptr))) (Fptr fptr) (Z.quot pos IOBUFLEN) ->
  bytepos (files w (Fptr fptr)) = pos -> bp = pos ->
  1 <= ngroups -> Z.of_nat (length src) = ngroups * gsize ->
  wp (ffpbytoff ffmahd fptr gsize ngroups gap src 0)
     (fun st w' =>
        st = 0 /\ Inv w' /\ no_drift fptr w'
        /\ stream_written w' (Fptr fptr) pos gsize gap src (ngroups * gsize)
        /\ groups_kept w w' (Fptr fptr) pos gsize gap ngroups
        /\ bytepos (files w' (Fptr fptr))
           = pos + ngroups * gsize + (ngroups - 1) * gap)
     w.
Proof.
  intros HI Hnd Hpos Hh Hbp Ebp Hng Hlen. pose proof IOBUFLEN_pos as HL.
  destruct (group_start_spec fptr pos src w HI Hnd Hpos Hh Hbp)
    as (c0 & Hstart & Hcp & Hc0 & Hsp0 & Hio0).
  unfold ffpbytoff. change (Z.ltb 0 0) with false. cbv iota.
  eapply wp_bind_run; [apply sync_hdu_no_drift; exact Hnd|].
  eapply wp_bind_run; [exact Hstart|].
  eapply wp_bind_wp.
  { pose proof (wp_group_loop
      (fun k c w1 =>
         (writing fptr pos gsize gap src bp (pos + k * (gsize + gap))
                  (k * gsize) c w1
          /\ nspace c = IOBUFLEN - ioptr c /\ ioptr c < IOBUFLEN)
         /\ groups_kept w w1 (Fptr fptr) pos gsize gap k)
      (ffpbytoff_group ffmahd fptr gsize gap) (Z.to_nat (ngroups - 1))
      0 c0 w) as Hloop.
    apply Hloop; clear Hloop.
    - split.
      + split; [|split; assumption].
        replace (pos + 0 * (gsize + gap)) with pos by lia.
        split.
        * exact Hc0.
        * eapply InvX_weaken; [|exact HI]. intros j [].
        * rewrite Hcp. reflexivity.
        * intros n Hn. lia.
        * congruence.
      + intros G q v _ Hb. exact Hb.
    - intros k c w1 Hk ((W & Hsp & Hio) & K).
      eapply wp_mono.
      { apply wp_conj.
        - apply (ffpbytoff_group_spec ffmahd fptr pos gsize gap src bp
                   Hgsize Hgap k c w1); try assumption; nia.
        - apply (ffpbytoff_group_frame k c w1); try assumption; nia. }
      cbv beta. intros c' w' (HW & K'). split; [exact HW|].
      apply (groups_kept_step w w1 w'); [lia | assumption | assumption]. }
  cbv beta. intros c w1 ((W & Hsp & Hio) & K).
  replace (0 + Z.of_nat (Z.to_nat (ngroups - 1))) with (ngroups - 1) in W, K
    by lia.
  set (k := ngroups - 1) in *.
  pose proof (cu_ioptr _ _ _ _ (wr_at _ _ _ _ _ _ _ _ _ _ W)) as Hio1.
  pose proof (cu_pos _ _ _ _ (wr_at _ _ _ _ _ _ _ _ _ _ W)) as Hpos1.
  set (pk := pos + k * (gsize + gap)) in *.
  set (nwrite := Z.min gsize (nspace c)).
  assert (Hnw : 0 < nwrite <= gsize /\ nwrite <= nspace c) by (unfold nwrite; lia).
  assert (Hcp1 : nwrite <= Z.of_nat (length (cptr c))).
  { rewrite (wr_cptr _ _ _ _ _ _ _ _ _ _ W), length_drop. unfold k. nia. }
  eapply wp_bind_wp.
  { apply wp_conj.
    - apply (write_chunk fptr pos gsize gap src bp Hgsize Hgap k 0 nwrite c w1);
        try lia; try (unfold k; nia).
      fold pk. replace (pk + 0) with pk by lia.
      replace (k * gsize + 0) with (k * gsize) by lia. exact W.
    - apply (put_group_bytes_frame pk c nwrite w1
               (wr_at _ _ _ _ _ _ _ _ _ _ W) (wr_inv _ _ _ _ _ _ _ _ _ _ W));
        lia. }
  cbv beta. intros c1 w2 ((-> & V) & K1).
  fold pk in V. replace (pk + 0) with pk in V by lia.
  replace (k * gsize + 0 + nwrite) with (k * gsize + nwrite) in V by lia.
  assert (Hlast : wp
    (if Z.ltb nwrite gsize then
       exec put_dirty (bcurrent c) true;
       do c' <- next_record ffmahd fptr IGNORE_EOF
                  (mkCursor (bcurrent c) (record c) (nspace c) (ioptr c)
                            (drop (Z.to_nat nwrite) (cptr c)) (cstatus c))
                  (record c + 1) 0 (nspace c);
       put_group_bytes c' (gsize - nwrite)
     else ret (mkCursor (bcurrent c) (record c) (nspace c) (ioptr c)
                        (drop (Z.to_nat nwrite) (cptr c)) (cstatus c)))
    (fun c2 w3 =>
       (exists p, writing fptr pos gsize gap src bp p (ngroups * gsize) c2 w3)
       /\ kept_outside w2 w3 (Fptr fptr) pk (pk + gsize)) w2).
  { destruct (Z.ltb_spec nwrite gsize) as [Hcross|Hfits].
    - pose proof (cursor_record_pos _ _ _ _ _
                    (wr_at _ _ _ _ _ _ _ _ _ _ V)
                    (wr_inv _ _ _ _ _ _ _ _ _ _ V)) as Hrec. simpl in Hrec.
      apply wp_bind_assoc. eapply wp_bind_wp.
      { apply wp_conj.
        - apply (mark_load_spec ffmahd fptr _ _ (record c + 1) 0 (nspace c) w2
                   (wr_at _ _ _ _ _ _ _ _ _ _ V)
                   (wr_inv _ _ _ _ _ _ _ _ _ _ V)); lia.
        - apply (mark_load_frame _ _ (record c + 1) 0 (nspace c) w2
                   (wr_at _ _ _ _ _ _ _ _ _ _ V)
                   (wr_inv _ _ _ _ _ _ _ _ _ _ V)); lia. }
      cbv beta. intros c' w' ((E & Hc & HI' & Hbp' & Hkeep) & K2).
      assert (Hp' : (record c + 1) * IOBUFLEN + 0 = pk + nwrite) by lia.
      pose proof (writing_loaded fptr pos gsize gap src bp _ _ _ c' w2 w' _ _ _
                    V E Hc HI' Hbp' Hkeep) as V'.
      rewrite Hp' in V'.
      eapply wp_mono.
      { apply wp_conj.
        - apply (write_chunk fptr pos gsize gap src bp Hgsize Hgap
                   k nwrite (gsize - nwrite) c' w'); try lia.
          + rewrite E. simpl. lia.
          + exact V'.
        - apply (put_group_bytes_frame (pk + nwrite) c' (gsize - nwrite) w'
                   (wr_at _ _ _ _ _ _ _ _ _ _ V')
                   (wr_inv _ _ _ _ _ _ _ _ _ _ V')); try lia.
          + rewrite E. simpl. lia.
          + rewrite (wr_cptr _ _ _ _ _ _ _ _ _ _ V'), length_drop.
            unfold k. nia. }
      cbv beta. intros c'' w'' ((_ & V'') & K3).
      replace (k * gsize + nwrite + (gsize - nwrite)) with (ngroups * gsize)
        in V'' by (unfold k; lia).
      split; [eexists; exact V''|].
      apply (kept_outside_trans w2 w' w'').
      + apply bytes_kept_outside. exact K2.
      + apply (kept_outside_wider _ _ _ (pk + nwrite)
                 (pk + nwrite + (gsize - nwrite))); [lia | lia | exact K3].
    - apply wp_ret. assert (nwrite = gsize) by lia.
      replace (k * gsize + nwrite) with (ngroups * gsize) in V
        by (unfold k; lia).
      split; [eexists; exact V|].
      apply bytes_kept_outside, bytes_kept_refl. }
  cbn [bcurrent record nspace ioptr cptr cstatus].
  eapply wp_bind_wp; [exact Hlast|]. cbv beta.
  intros c2 w3 ((p & [U1 U2 U3 U4 U5]) & K3).
  pose proof U1 as [C1 C2 C3 C4 C5 C6].
  apply wp_bind. apply wp_put_dirty; [exact (mark_range w3 _ _ _ U2 C5)|].
  apply wp_bind, wp_file_of. apply wp_bind, wp_modify. apply wp_ret.
  split; [exact C1|].
  set (wm := set_dirty (<[Z.to_nat (bcurrent c2) := true]> (dirty w3)) w3).
  match goal with |- Inv ?wx /\ _ => set (wf := wx) end.
  pose proof (mark_inv w3 _ _ _ U2 C5) as HIm. fold wm in HIm.
  pose proof (mark_contents w3 (bcurrent c2)) as Hsm. fold wm in Hsm.
  assert (Hsc : same_cache wm wf).
  { apply upd_file_same_cache. intros f. simpl. auto. }
  pose proof (same_cache_contents _ _ Hsc) as Hsf.
  assert (Hk3f : bytes_kept w3 wf).
  { apply (bytes_kept_trans w3 wm wf); apply same_contents_bytes_kept;
      assumption. }
  split; [eapply same_cache_inv; eassumption|].
  split; [|split; [|split]].
  - unfold no_drift, wf. rewrite upd_file_at. exact C6.
  - apply (stream_written_kept fptr pos gsize gap src w3 wf); [|exact U4].
    intros q v. apply Hk3f.
  - replace ngroups with (k + 1) by (unfold k; lia).
    apply (groups_kept_step w w1 wf); [unfold k; lia | exact K|]. fold pk.
    apply (kept_outside_trans w1 w2 wf).
    + apply (kept_outside_wider _ _ _ pk (pk + nwrite)); [lia | lia | exact K1].
    + apply (kept_outside_trans w2 w3 wf); [exact K3|].
      apply bytes_kept_outside. exact Hk3f.
  - unfold wf. rewrite upd_file_at. simpl.
    change (bytepos (files wm (Fptr fptr)))
      with (bytepos (files w3 (Fptr fptr))).
    rewrite U5, Ebp. reflexivity.
Qed.

End GroupFrames.

(** X13.  A strided write ([ffpbytoff]) of [ngroups] groups, at least
    one, of [gsize] bytes, at least 1 and at most [IOBUFLEN], that lie
    [gap] bytes apart, from the position [pos] of the file, succeeds in
    a consistent pool when the caller's HDU is the current one and the
    current buffer of the file is its own and holds the record that
    [pos] lies in: every byte of the caller's buffer is at its place in
    the file, no byte outside the groups has changed in this or any
    other file (the gaps keep their bytes), and the position is left
    right behind the last group. *)
Theorem ffpbytoff_writes_the_groups_only (pos gsize ngroups gap : Z)
    (src : list byte) (w : world) :
  Inv w -> no_drift fptr w -> 0 <= pos ->
  holds w (curbuf (files w (Fptr fptr))) (Fptr fptr) (Z.quot pos IOBUFLEN) ->
  bytepos (files w (Fptr fptr)) = pos ->
  1 <= gsize <= IOBUFLEN -> 0 <= gap -> 1 <= ngroups ->
  Z.of_nat (length src) = ngroups * gsize ->
  exists w',
    ffpbytoff ffmahd fptr gsize ngroups gap src 0 w = Some (0, w')
    /\ Inv w'
    /\ stream_written w' (Fptr fptr) pos gsize gap src (ngroups * gsize)
    /\ groups_kept w w' (Fptr fptr) pos gsize gap ngroups
    /\ bytepos (files w' (Fptr fptr))
       = pos + ngroups * gsize + (ngroups - 1) * gap.
Proof.
  intros HI Hnd Hpos Hh Hbp Hgs Hgap Hng Hlen.
  destruct (wp_elim _ _ _
              (ffpbytoff_full pos gsize gap src pos Hgs Hgap ngroups w
                 HI Hnd Hpos Hh Hbp eq_refl Hng Hlen))
    as (st & w' & Hrun & -> & H1 & _ & H2 & H3 & H4).
  exists w'. auto.
Qed.

(** X14.  A strided read ([ffgbytoff]) of [ngroups] groups, at least
    one, of [gsize] bytes, at least 1 and at most [IOBUFLEN], that lie
    [gap] bytes apart, from the position [pos] of the file, in a
    consistent pool in which the caller's HDU is the current one and
    the current buffer of the file is its own and holds the record that
    [pos] lies in, returns exactly the bytes that the file holds at the
    places of the groups, in a buffer or on disk, in the order of the
    groups, with status 0. *)
Theorem ffgbytoff_reads_the_groups (pos gsize ngroups gap : Z)
    (src : list byte) (w : world) :
  Inv w -> no_drift fptr w -> 0 <= pos ->
  holds w (curbuf (files w (Fptr fptr))) (Fptr fptr) (Z.quot pos IOBUFLEN) ->
  bytepos (files w (Fptr fptr)) = pos ->
  1 <= gsize <= IOBUFLEN -> 0 <= gap -> 1 <= ngroups ->
  Z.of_nat (length src) = ngroups * gsize ->
  stream_written w (Fptr fptr) pos gsize gap src (Z.of_nat (length src)) ->
  exists w', ffgbytoff ffmahd fptr gsize ngroups gap 0 w = Some ((0, src), w').
Proof.
  intros HI Hnd Hpos Hh Hbp Hgs Hgap Hng Hlen Hsrc.
  destruct (wp_elim _ _ _
              (ffgbytoff_spec ffmahd fptr pos gsize gap src pos Hgs Hgap
                 ngroups w HI Hnd Hpos Hh Hbp eq_refl Hng Hlen Hsrc))
    as (res & w' & Hrun & ->).
  exists w'. exact Hrun.
Qed.

End Frames.

(** ** Witnesses *)

Lemma loaded0_holds_start :
  holds loaded0 (curbuf (files loaded0 (Fptr f0))) (Fptr f0)
        (Z.quot 0 IOBUFLEN).
Proof. exact (ld_cur _ _ _ _ loaded0_loaded). Qed.

(** Two groups of four bytes, three bytes apart, written from offset
    2878 of the new file 0: the first group straddles the end of
    record 0, and the position ends at 2889. *)
Lemma ffpbytoff_writes_the_groups_only_witness :
  exists w',
    ffpbytoff nav0 f0 4 2 3
      ["a"%byte; "b"%byte; "c"%byte; "d"%byte;
       "e"%byte; "f"%byte; "g"%byte; "h"%byte] 0
      (upd_file 0%nat (with_bytepos 2878) loaded0)
    = Some (0, w')
    /\ groups_kept (upd_file 0%nat (with_bytepos 2878) loaded0) w' (Fptr f0)
                   2878 4 3 2
    /\ bytepos (files w' (Fptr f0)) = 2889.
Proof.
  destruct (ffpbytoff_writes_the_groups_only nav0 f0 2878 4 2 3
              ["a"%byte; "b"%byte; "c"%byte; "d"%byte;
               "e"%byte; "f"%byte; "g"%byte; "h"%byte]
              (upd_file 0%nat (with_bytepos 2878) loaded0))
    as (w' & H1 & _ & _ & H2 & H3).
  - apply (same_cache_inv _ loaded0); [|exact (ld_inv _ _ _ _ loaded0_loaded)].
    unfold same_cache. simpl.
    repeat (split; [reflexivity|]). split; [|repeat split].
    intros G. unfold upd.
    destruct (Nat.eqb_spec G 0) as [->|_]; repeat split.
  - vm_compute. reflexivity.
  - lia.
  - split; vm_compute; reflexivity.
  - reflexivity.
  - vm_compute. split; discriminate.
  - lia.
  - lia.
  - reflexivity.
  - exists w'. split; [exact H1|]. split; [exact H2 | exact H3].
Defined.

(** The new record 0 of file 0 holds zeros. *)
Lemma loaded0_zeros :
  stream_written loaded0 (Fptr f0) 0 2 3
    ["000"%byte; "000"%byte; "000"%byte; "000"%byte]
    (Z.of_nat (length ["000"%byte; "000"%byte; "000"%byte; "000"%byte])).
Proof.
  intros n Hn. simpl in Hn.
  assert (Hc : n = 0 \/ n = 1 \/ n = 2 \/ n = 3) by lia.
  exists "000"%byte.
  assert (Hh : holds loaded0 0 (Fptr f0) 0) by exact loaded0_holds_start.
  destruct Hc as [Hc|[Hc|[Hc|Hc]]]; subst n;
    (split; [reflexivity|]; eexists; split;
     [left; exists 0; split; [exact Hh | vm_compute; reflexivity]
     | vm_compute; reflexivity]).
Qed.

Lemma ffgbytoff_reads_the_groups_witness :
  exists w',
    ffgbytoff nav0 f0 2 2 3 0 loaded0
    = Some ((0, ["000"%byte; "000"%byte; "000"%byte; "000"%byte]), w').
Proof.
  apply (ffgbytoff_reads_the_groups nav0 f0 0 2 2 3
           ["000"%byte; "000"%byte; "000"%byte; "000"%byte] loaded0).
  - exact (ld_inv _ _ _ _ loaded0_loaded).
  - vm_compute. reflexivity.
  - lia.
  - exact loaded0_holds_start.
  - vm_compute. reflexivity.
  - vm_compute. split; discriminate.
  - lia.
  - lia.
  - reflexivity.
  - exact loaded0_zeros.
Defined.


(** * New records and the size of a transfer *)

Section NewRecord.

Variable ffmahd : fitsfile -> Z -> Z -> M Z.

(** X15.  In a consistent pool, take a file none of whose buffers holds
    a record at or beyond the end of the file.  Loading with
    [IGNORE_EOF] a record [b] that starts at or beyond the end of the
    file succeeds: the current buffer of the file then holds record [b], every byte of it
    is the fill byte of the HDU (0x20 for an ASCII table, 0x00
    otherwise), the buffer is dirty, the logical size of the file covers
    the record, and the physical size of the file is what it was. *)
Theorem ffldrc_new_record_is_fill (fptr : fitsfile) (b : Z) (w : world) :
  Inv w -> no_drift fptr w -> 0 <= b -> loadable w (Fptr fptr) ->
  (forall i c, holds w i (Fptr fptr) c ->
               (c + 1) * IOBUFLEN <= filesize (files w (Fptr fptr))) ->
  filesize (files w (Fptr fptr)) <= b * IOBUFLEN ->
  exists w',
    ffldrc ffmahd fptr b IGNORE_EOF 0 w = Some (0, w')
    /\ Inv w'
    /\ holds w' (curbuf (files w' (Fptr fptr))) (Fptr fptr) b
    /\ rd (iobuffer w') (curbuf (files w' (Fptr fptr)))
       = Some (replicate (Z.to_nat IOBUFLEN)
                         (fill_byte (hdutype (files w (Fptr fptr)))))
    /\ rd (dirty w') (curbuf (files w' (Fptr fptr))) = Some true
    /\ logfilesize (files w' (Fptr fptr))
       = Z.max (logfilesize (files w (Fptr fptr))) ((b + 1) * IOBUFLEN)
    /\ filesize (files w' (Fptr fptr)) = filesize (files w (Fptr fptr)).
Proof.
  intros HI Hnd Hb Hload Hwithin Hpast0. pose proof IOBUFLEN_pos as HL.
  set (F := Fptr fptr) in *.
  pose proof (inv_slots _ _ HI) as Hs.
  pose proof (perm_in_range w (inv_ages _ _ HI)) as Har.
  pose proof (perm_cover w (inv_ages _ _ HI)) as Hcov.
  destruct Hs as (L1 & L2 & L3 & L4 & L5).
  assert (Hno : forall i, ~ holds w i F b).
  { intros i Hi. specialize (Hwithin i b Hi). lia. }
  assert (Hwp : wp (ffldrc ffmahd fptr b IGNORE_EOF 0)
    (fun st w' =>
       st = 0 /\ Inv w'
       /\ holds w' (curbuf (files w' F)) F b
       /\ rd (iobuffer w') (curbuf (files w' F))
          = Some (replicate (Z.to_nat IOBUFLEN)
                            (fill_byte (hdutype (files w F))))
       /\ rd (dirty w') (curbuf (files w' F)) = Some true
       /\ logfilesize (files w' F)
          = Z.max (logfilesize (files w F)) ((b + 1) * IOBUFLEN)
       /\ filesize (files w' F) = filesize (files w F)) w).
  2:{ destruct (wp_elim _ _ _ Hwp) as (st & w' & Hrun & -> & H).
      exists w'. split; [exact Hrun | exact H]. }
  unfold wp.
  rewrite (ffldrc_miss_unfold ffmahd fptr b IGNORE_EOF 0 w (inv_slots _ _ HI)
             Har Hnd Hno) by discriminate.
  fold F.
  assert (Hinit : ffwhbf_init w = w).
  { unfold ffwhbf_init. rewrite (inv_init _ _ HI). reflexivity. }
  destruct (choose_victim_range w F Har Hload) as (n & Hcv & Hn).
  eapply wp_bind_run.
  { rewrite (ffwhbf_spec fptr w (inv_slots _ _ HI) Har), Hinit.
    fold F. rewrite Hcv. reflexivity. }
  destruct (Z.ltb_spec n 0) as [?|_]; [lia|].
  destruct (victim_cleaned w n HI Hn) as (d & Hd & Hvc).
  eapply wp_bind, wp_rdM; [exact Hd|].
  eapply wp_bind_wp; [exact Hvc|]. cbv beta.
  intros st w1 (-> & HI1 & Hsp & Hcl & Hv & Hm & Hge & Hsz).
  pose proof Hsp as (Eio & Ebp & Ebr & Eag & Ein).
  destruct (inv_slots _ _ HI1) as (M1 & M2 & M3 & M4 & M5).
  apply wp_bind, wp_file_of.
  assert (Hagein : In n (ageindex w1)).
  { apply list_elem_of_In. rewrite (inv_ages _ _ HI1).
    apply elem_of_seqZ. lia. }
  pose proof (Hsz F Hwithin) as Hsame.
  destruct (Hm F) as (Hlog & _ & _ & _ & Hty & _).
  destruct (Z.leb_spec (filesize (files w1 F)) (b * IOBUFLEN)) as [Hpast|Hin];
    [|lia].
  apply wp_bind. apply wp_bind.
  apply wp_put_iobuffer; [lia|].
  apply wp_bind, wp_modify.
  apply wp_bind. apply wp_put_dirty; [simpl; lia|].
  apply wp_ret.
  apply wp_bind. apply wp_put_bufptr; [simpl; lia|].
  apply wp_bind. apply wp_put_bufrecnum; [simpl; lia|].
  match goal with |- wp _ _ ?wx => set (wE := wx) end.
  destruct (ffldrc_updatebuf_run F n (-1) 0 wE) as (ages' & Hrun & Hperm).
  { unfold wE. simpl. exact M5. }
  { intros ?. lia. }
  { intros _. unfold wE. simpl. exact Hagein. }
  unfold wp. rewrite Hrun. split; [reflexivity|].
  match goal with |- Inv ?wx /\ _ => set (w2 := wx) end.
  assert (Hinst : installed w1 n F b
            (replicate (Z.to_nat IOBUFLEN) (fill_byte (hdutype (files w1 F))))
            true w2).
  { unfold w2, wE in *. simpl in Hperm. split; simpl; rewrite ?upd_same;
      try reflexivity; try assumption.
    - intros G HG. rewrite !upd_other by exact HG. reflexivity.
    - simpl. f_equal. ring.
    - unfold same_hdu. simpl. auto.
    - simpl. apply (fo_pos _ _ (inv_files _ _ HI1 F)).
    - apply (inv_faults _ _ HI1). }
  destruct (installed_loaded w w1 w2 n F b _ true HI1 Hn Hcl Hno Hb
              ltac:(rewrite length_replicate; apply IOBUFLEN_nat)
              ltac:(discriminate) ltac:(intros _; exact Hpast)
              Hinst Hsp Hv Hm Hsz) as (Hld & _).
  destruct Hinst as [J1 J2 J3 J4 J5 J6 J7 J8 J9 J10 J11 J12 J13 J14 J15 J16].
  split; [exact (ld_inv _ _ _ _ Hld)|].
  split; [exact (ld_cur _ _ _ _ Hld)|].
  rewrite J10.
  split; [rewrite J1, rd_insert_eq, Hty by lia; reflexivity|].
  split; [rewrite J4, rd_insert_eq by lia; reflexivity|].
  split; [rewrite J9, Hlog; reflexivity|].
  rewrite J8. exact Hsame.
Qed.

End NewRecord.

(** An ASCII table of one record loads its record 1: blanks. *)
Lemma ffldrc_new_record_is_fill_witness :
  exists w',
    ffldrc nav0 f0 1 IGNORE_EOF 0 ascii_table = Some (0, w')
    /\ rd (iobuffer w') (curbuf (files w' (Fptr f0)))
       = Some (replicate (Z.to_nat IOBUFLEN) x20)
    /\ rd (dirty w') (curbuf (files w' (Fptr f0))) = Some true.
Proof.
  destruct (ffldrc_new_record_is_fill nav0 f0 1 ascii_table)
    as (w' & H1 & _ & _ & H2 & H3 & _).
  - exact (ld_inv _ _ _ _ ascii_table_loaded).
  - vm_compute. reflexivity.
  - lia.
  - right. vm_compute. split; [discriminate | reflexivity].
  - intros i c Hi.
    destruct (ld_holds _ _ _ _ ascii_table_loaded i _ c Hi)
      as [(_ & _ & ->)|[Hp _]].
    + vm_compute. discriminate.
    + exfalso. apply rd_Some in Hp as [_ Hp].
      unfold ready, ffwhbf_init, boot in Hp. simpl in Hp.
      apply lookup_replicate in Hp as [Hp _]. discriminate Hp.
  - vm_compute. discriminate.
  - exists w'. split; [exact H1|]. split; [exact H2 | exact H3].
Defined.

Section Rows.

Variable ffmahd : fitsfile -> Z -> Z -> M Z.
Variable ffrdef : fitsfile -> Z -> M Z.
Variable ffgtcl : fitsfile -> Z -> Z -> M (Z * Z).

(** X16.  For a table whose HDU is current and defined, on a pool of
    [NIOBUF] slots, [ffgrsz] leaves the status and the world alone and
    stores a number of rows [n] that is at least 1.  With [l] the files
    that own a buffer, [n] rows fit in the [NIOBUF - length l] buffers
    that are left, unless [n] is 1, and [n + 1] rows do not fit. *)
Theorem ffgrsz_table_rows_fit (fptr : fitsfile) (st : Z) (w : world) :
  Z.of_nat (length (bufptr w)) = NIOBUF ->
  no_drift fptr w ->
  datastart (files w (Fptr fptr)) <> DATA_UNDEFINED ->
  hdutype (files w (Fptr fptr)) <> IMAGE_HDU ->
  exists (l : list nat) (n : Z),
    NoDup l
    /\ (forall G, G ∈ l <-> Some G ∈ bufptr w)
    /\ ffgrsz ffmahd ffrdef ffgtcl fptr st w = Some ((st, Some n), w)
    /\ 1 <= n
    /\ (n = 1
        \/ n * rowlength (files w (Fptr fptr))
           <= (NIOBUF - Z.of_nat (length l)) * IOBUFLEN)
    /\ (1 <= rowlength (files w (Fptr fptr)) ->
        (NIOBUF - Z.of_nat (length l)) * IOBUFLEN
        < (n + 1) * rowlength (files w (Fptr fptr))).
Proof.
  intros Hlen Hnd Hds Hty. pose proof IOBUFLEN_pos as HL.
  destruct (num_files_run w Hlen) as (l & Hl1 & Hl2 & Hrun).
  assert (Hl3 : 0 <= Z.of_nat (length l) <= NIOBUF).
  { split; [lia|]. rewrite <- Hlen. apply inj_le.
    apply (owners_bound w l Hl1). intros G HG. apply Hl2. exact HG. }
  set (F := Fptr fptr) in *.
  set (free := (NIOBUF - Z.of_nat (length l)) * IOBUFLEN).
  set (r := Z.max 1 (rowlength (files w F))).
  exists l, (Z.max 1 (Z.quot free r)).
  split; [exact Hl1|]. split; [exact Hl2|].
  assert (Hfree : 0 <= free) by (unfold free; nia).
  assert (Hr : 1 <= r) by (unfold r; lia).
  pose proof (Z.quot_div_nonneg free r Hfree ltac:(lia)) as Hq.
  pose proof (Z.mul_div_le free r ltac:(lia)) as Hq1.
  pose proof (Z.mul_succ_div_gt free r ltac:(lia)) as Hq2.
  split.
  - unfold ffgrsz. cbv zeta. fold F.
    unfold bind at 1. unfold file_of, gets. cbv beta iota.
    rewrite Hnd, Z.eqb_refl. simpl negb. cbv iota.
    destruct (Z.eqb_spec (datastart (files w F)) DATA_UNDEFINED);
      [contradiction|].
    unfold bind at 1. unfold ret at 1. cbn [fst snd].
    unfold bind at 1. rewrite Hrun.
    unfold bind at 1. cbv beta iota.
    destruct (Z.eqb_spec (hdutype (files w F)) IMAGE_HDU); [contradiction|].
    reflexivity.
  - split; [lia|]. rewrite Hq. split.
    + destruct (Z.le_gt_cases (free / r) 1) as [Hle|Hgt]; [left; lia|].
      right. rewrite Z.max_r by lia.
      assert (rowlength (files w F) <= r) by (unfold r; lia). nia.
    + intros Hrow. assert (r = rowlength (files w F)) as <- by (unfold r; lia).
      nia.
Qed.

End Rows.

Lemma table0_slots : Z.of_nat (length (bufptr table0)) = NIOBUF.
Proof. vm_compute. reflexivity. Qed.

(** A table with rows of 80 bytes, alone in the pool: 39 buffers are
    left, which hold 1404 rows. *)
Lemma ffgrsz_table_rows_fit_witness :
  exists (l : list nat) (n : Z),
    ffgrsz nav0 rdef0 gtcl_byte f0 0 table0 = Some ((0, Some n), table0)
    /\ 1 <= n
    /\ (n = 1 \/ n * 80 <= (NIOBUF - Z.of_nat (length l)) * IOBUFLEN).
Proof.
  destruct (ffgrsz_table_rows_fit nav0 rdef0 gtcl_byte f0 0 table0)
    as (l & n & _ & _ & H1 & H2 & H3 & _).
  - exact table0_slots.
  - vm_compute. reflexivity.
  - vm_compute. discriminate.
  - vm_compute. discriminate.
  - exists l, n. split; [exact H1|]. split; [exact H2 | exact H3].
Defined.


(** * Reading straight from the disk *)

(** The invariant does not depend on where the driver stands. *)
Lemma io_moved_inv (skip : Z -> Prop) (w w' : world) :
  InvX skip w -> same_pool w w' -> dirty w' = dirty w ->
  (forall G, filesize (files w' G) = filesize (files w G)
             /\ logfilesize (files w' G) = logfilesize (files w G)) ->
  (forall G, disk w' G = disk w G) ->
  (forall G, ospos w' G = io_pos (files w' G)) ->
  io_faults w' = [] ->
  InvX skip w'.
Proof.
  intros HI Hsp Ed Ef Edk Ep Efl.
  pose proof Hsp as (E0 & E1 & E2 & E4 & E5).
  assert (Hh : forall i F b, holds w' i F b -> holds w i F b).
  { intros i F b [H1 H2]. split; congruence. }
  destruct HI as [[L1 [L2 [L3 [L4 L5]]]] I2 I3 I4 I5 I6 I7 I8 I9 I10].
  split.
  - unfold slots_ok. rewrite E0, E1, E2, Ed, E4. auto.
  - rewrite E0. exact I2.
  - rewrite E5. exact I3.
  - rewrite E4. exact I4.
  - intros i j F b Hi Hj. apply Hh in Hi, Hj. eapply I5; eassumption.
  - intros i F b Hi. apply Hh in Hi.
    destruct (Ef F) as (_ & ->). eapply I6; eassumption.
  - intros i F b Hs Hi Hd. apply Hh in Hi.
    rewrite Ed in Hd. destruct (Ef F) as (-> & _). rewrite E0, Edk.
    eapply I7; eassumption.
  - intros i Hd. rewrite Ed in Hd. rewrite E1. apply I8. exact Hd.
  - intros F. destruct (Ef F) as (Es & El).
    destruct (I9 F) as [F1 F2 F3 F4]. split.
    + rewrite Es. exact F1.
    + rewrite Es, Edk. exact F2.
    + apply Ep.
    + rewrite Es, El. exact F4.
  - exact Efl.
Qed.

(** A byte of a record that no dirty buffer holds is on the disk. *)
Lemma clean_record_on_disk (w : world) (F : nat) (p : Z) (v : byte) :
  Inv w -> 0 <= p ->
  (forall i, holds w i F (p / IOBUFLEN) -> rd (dirty w) i = Some false) ->
  byte_at w F p v ->
  disk w F !! Z.to_nat p = Some v /\ p < filesize (files w F).
Proof.
  intros HI Hp Hclean (x & Hx & Hv). pose proof IOBUFLEN_pos as HL.
  pose proof (Z.mod_pos_bound p IOBUFLEN HL) as Hm.
  pose proof (Z.div_mod p IOBUFLEN ltac:(lia)) as Hdm.
  pose proof (Z.div_pos p IOBUFLEN Hp HL) as Hd.
  assert (Hblk : (p / IOBUFLEN + 1) * IOBUFLEN <= filesize (files w F)
                 /\ x = disk_block (disk w F) (p / IOBUFLEN)).
  { destruct Hx as [(i & Hi & Hb)|(_ & _ & Hle & ->)]; [|auto].
    destruct (inv_clean _ _ HI i F _ (fun f => f) Hi (Hclean i Hi))
      as [Hle Hb'].
    split; [exact Hle | congruence]. }
  destruct Hblk as [Hle ->]. split; [|lia].
  rewrite lookup_disk_block in Hv.
  destruct (decide (Z.to_nat (p mod IOBUFLEN) < Z.to_nat IOBUFLEN)%nat);
    [|lia].
  rewrite <- Hv. f_equal. lia.
Qed.

(** A stretch of the disk that holds the bytes [src]. *)
Lemma disk_stretch (d src : list byte) (pos : Z) :
  0 <= pos ->
  pos + Z.of_nat (length src) <= Z.of_nat (length d) ->
  (forall t v, src !! t = Some v -> d !! Z.to_nat (pos + Z.of_nat t) = Some v) ->
  take (Z.to_nat (Z.of_nat (length src))) (drop (Z.to_nat pos) d) = src.
Proof.
  intros Hpos Hlen Hsrc. rewrite Nat2Z.id.
  apply list_eq. intros t.
  destruct (decide (t < length src)%nat) as [Hlt|Hge].
  - rewrite lookup_take_lt by exact Hlt. rewrite lookup_drop.
    destruct (lookup_lt_is_Some_2 src t Hlt) as [v Hv].
    rewrite Hv. rewrite <- (Hsrc t v Hv). f_equal. lia.
  - rewrite lookup_take_ge by lia.
    symmetry. apply lookup_ge_None. lia.
Qed.

Section DirectRead.

Variable ffmahd : fitsfile -> Z -> Z -> M Z.
Variable fptr : fitsfile.

(** The loop of the direct branch of [ffgbyt]: the dirty buffers of the
    file with a record from [recstart] to [recend] are written. *)
Lemma direct_flush_spec (recstart recend : Z) (w : world) :
  Inv w ->
  wp (for_status (seqZ 0 NIOBUF) (fun ii st =>
        do d <- rdM dirty ii;
        if d : bool then
          do owner <- rdM bufptr ii;
          match owner with
          | Some G =>
              if Nat.eqb G (Fptr fptr) then
                do r <- rdM bufrecnum ii;
                if (Z.leb recstart r && Z.leb r recend)%bool
                then ffbfwt ii st
                else ret st
              else ret st
          | None => ret st
          end
        else ret st) 0)
     (fun st w1 =>
        st = 0 /\ flushing (Fptr fptr) w w1 /\ same_pool w w1
        /\ (forall G, same_meta (files w G) (files w1 G))
        /\ (forall i, rd (dirty w) i = Some false ->
                      rd (dirty w1) i = Some false)
        /\ (forall i c, holds w1 i (Fptr fptr) c -> recstart <= c <= recend ->
                        rd (dirty w1) i = Some false)) w.
Proof.
  intros HI. set (F := Fptr fptr).
  eapply wp_mono.
  { apply (wp_for_status_slots
             (fun ii st wj =>
                st = 0 /\ flushing F w wj /\ same_pool w wj
                /\ (forall G, same_meta (files w G) (files wj G))
                /\ (forall i, rd (dirty w) i = Some false ->
                              rd (dirty wj) i = Some false)
                /\ (forall i c, 0 <= i < ii -> holds wj i F c ->
                                recstart <= c <= recend ->
                                rd (dirty wj) i = Some false))).
    - split; [reflexivity|]. split; [apply flushing_refl; exact HI|].
      split; [apply same_pool_refl|].
      split; [intros G; unfold same_meta; tauto|].
      split; [auto|].
      intros i c Hi. lia.
    - intros ii st wj Hii (-> & HJ & Hsp & Hmeta & Hcl0 & Hdone).
      pose proof (fl_inv _ _ _ HJ) as HIj.
      destruct (inv_slots _ _ HIj) as (L1 & L2 & L3 & L4 & L5).
      destruct (rd_in_range (dirty wj) ii) as [d Hd]; [lia|].
      eapply wp_bind, wp_rdM; [exact Hd|].
      assert (Hskip : (forall c, holds wj ii F c -> recstart <= c <= recend ->
                                 d = false) ->
                      0 = 0 /\ flushing F w wj /\ same_pool w wj
                      /\ (forall G, same_meta (files w G) (files wj G))
                      /\ (forall i, rd (dirty w) i = Some false ->
                                    rd (dirty wj) i = Some false)
                      /\ (forall i c, 0 <= i < ii + 1 -> holds wj i F c ->
                            recstart <= c <= recend ->
                            rd (dirty wj) i = Some false)).
      { intros Hno. split; [reflexivity|]. split; [exact HJ|].
        split; [exact Hsp|]. split; [exact Hmeta|]. split; [exact Hcl0|].
        intros i c Hi Hh Hc. destruct (Z.eq_dec i ii) as [->|Hne].
        - rewrite Hd. f_equal. apply (Hno c Hh Hc).
        - apply (Hdone i c); [lia | exact Hh | exact Hc]. }
      destruct d; [|apply wp_ret, Hskip; reflexivity].
      destruct (rd_in_range (bufptr wj) ii) as [owner Ho]; [lia|].
      eapply wp_bind, wp_rdM; [exact Ho|].
      destruct owner as [G|].
      + destruct (Nat.eqb_spec G F) as [->|HG].
        * destruct (rd_in_range (bufrecnum wj) ii) as [c Hc]; [lia|].
          assert (Hh : holds wj ii F c) by (split; assumption).
          eapply wp_bind, wp_rdM; [exact Hc|].
          destruct (Z.leb_spec recstart c) as [H1|H1];
            [destruct (Z.leb_spec c recend) as [H2|H2]|]; cbn [andb].
          -- eapply wp_mono; [apply (ffbfwt_spec wj ii F c HIj Hh)|].
             cbv beta. intros st w1 [-> W]. split; [reflexivity|].
             split; [eapply flushing_written; eassumption|].
             pose proof (wb_pool _ _ _ _ _ W) as Hsp1.
             split; [eapply same_pool_trans; eassumption|].
             split.
             { intros G. destruct (Hmeta G) as (A1 & A2 & A3 & A4 & A5 & A6 & A7).
               destruct (Nat.eq_dec G F) as [->|HG].
               - destruct (wb_meta _ _ _ _ _ W)
                   as (B1 & B2 & B3 & B4 & B5 & B6 & B7).
                 unfold same_meta.
                 rewrite B1, B2, B3, B4, B5, B6, B7. tauto.
               - destruct (wb_others _ _ _ _ _ W G HG) as [-> _].
                 unfold same_meta. tauto. }
             split.
             { intros i Hi0.
               destruct (wb_dirty _ _ _ _ _ W i) as [E|[E _]]; [|exact E].
               rewrite E. apply Hcl0. exact Hi0. }
             intros i d' Hi Hh' Hd'.
             destruct (Z.eq_dec i ii) as [->|Hne];
               [exact (wb_clean _ _ _ _ _ W)|].
             destruct (wb_dirty _ _ _ _ _ W i) as [E|[E _]]; [|exact E].
             rewrite E.
             apply (holds_same_pool wj w1 i F d' Hsp1) in Hh'.
             apply (Hdone i d'); [lia | exact Hh' | exact Hd'].
          -- apply wp_ret, Hskip. intros c' Hh' Hc'.
             destruct Hh as [_ Hr], Hh' as [_ Hr']. exfalso.
             assert (c' = c) by congruence. lia.
          -- apply wp_ret, Hskip. intros c' Hh' Hc'.
             destruct Hh as [_ Hr], Hh' as [_ Hr']. exfalso.
             assert (c' = c) by congruence. lia.
        * apply wp_ret, Hskip. intros c [Hp _]. congruence.
      + apply wp_ret, Hskip. intros c [Hp _]. congruence. }
  cbv beta. intros st w1 (-> & HJ & Hsp & Hmeta & Hcl0 & Hdone).
  split; [reflexivity|]. split; [exact HJ|]. split; [exact Hsp|].
  split; [exact Hmeta|]. split; [exact Hcl0|].
  intros i c Hh Hc. apply (Hdone i c); [|exact Hh | exact Hc].
  apply (holds_range w1 i F c (inv_slots _ _ (fl_inv _ _ _ HJ)) Hh).
Qed.

(** The direct branch of [ffgbyt]. *)
Lemma ffgbyt_direct_spec (src : list byte) (r : Z) (w : world) :
  Inv w -> no_drift fptr w ->
  rd (bufrecnum w) (curbuf (files w (Fptr fptr))) = Some r ->
  (forall i c, holds w i (Fptr fptr) c -> rd (dirty w) i = Some true ->
               bytepos (files w (Fptr fptr)) < (c + 1) * IOBUFLEN ->
               c * IOBUFLEN
               < bytepos (files w (Fptr fptr)) + Z.of_nat (length src) ->
               r <= c) ->
  0 <= bytepos (files w (Fptr fptr)) ->
  MINDIRECT <= Z.of_nat (length src) ->
  range_at w (Fptr fptr) (bytepos (files w (Fptr fptr))) src ->
  wp (ffgbyt ffmahd fptr (Z.of_nat (length src)) 0)
     (fun r w' =>
        r = (0, src) /\ Inv w' /\ bytes_kept w w'
        /\ bytepos (files w' (Fptr fptr)) = bytepos (files w (Fptr fptr))
        /\ io_pos (files w' (Fptr fptr))
           = bytepos (files w (Fptr fptr)) + Z.of_nat (length src)
        /\ (forall t, (t < length src)%nat ->
              disk w' (Fptr fptr)
                !! Z.to_nat (bytepos (files w (Fptr fptr)) + Z.of_nat t)
              = src !! t)) w.
Proof.
  intros HI Hnd Hr Hpos Hpos0 Hn Hsrc. pose proof IOBUFLEN_pos as HL.
  pose proof MINDIRECT_eq as HM.
  set (F := Fptr fptr) in *. set (pos := bytepos (files w F)) in *.
  set (n := Z.of_nat (length src)) in *.
  unfold ffgbyt. change (Z.ltb 0 0) with false. cbv iota.
  eapply wp_bind_run; [apply sync_hdu_no_drift; exact Hnd|].
  destruct (Z.leb_spec MINDIRECT n) as [_|?]; [|lia].
  unfold ffgbyt_direct. cbv zeta. fold F.
  apply wp_bind, wp_file_of. fold pos.
  eapply wp_bind, wp_rdM; [exact Hr|].
  set (recend := Z.quot (pos + n - 1) IOBUFLEN).
  eapply wp_bind_wp; [apply (direct_flush_spec r recend w HI)|].
  cbv beta. fold F. intros st w1 (-> & HJ & Hsp & Hmeta & Hcl0 & Hclean).
  pose proof (fl_inv _ _ _ HJ) as HI1.
  pose proof (fl_views _ _ _ HJ) as Hv1.
  apply wp_bind, wp_file_of.
  destruct (seek_if_needed w1 F pos (inv_files _ _ HI1 F) Hpos0)
    as (w2 & Hseek & [S1 S2 S3 S4 S5 S6 S7 S8]).
  eapply wp_bind_run; [exact Hseek|].
  (* every byte of the range is on the disk *)
  assert (Hdisk : forall t v, src !! t = Some v ->
            disk w1 F !! Z.to_nat (pos + Z.of_nat t) = Some v
            /\ pos + Z.of_nat t < filesize (files w1 F)).
  { intros t v Ht.
    assert (Hlt : (t < length src)%nat)
      by (apply lookup_lt_is_Some; eexists; exact Ht).
    apply (clean_record_on_disk w1 F (pos + Z.of_nat t) v HI1); [lia| |].
    - intros i Hi.
      set (c := (pos + Z.of_nat t) / IOBUFLEN) in *.
      pose proof (Z.mul_div_le (pos + Z.of_nat t) IOBUFLEN HL) as Hc1.
      pose proof (Z.mul_succ_div_gt (pos + Z.of_nat t) IOBUFLEN HL) as Hc2.
      fold c in Hc1, Hc2.
      assert (Hce : c <= recend).
      { unfold recend, c. rewrite Z.quot_div_nonneg by lia.
        apply Z.div_le_mono; lia. }
      destruct (Z.le_gt_cases r c) as [Hrc|Hrc].
      + apply (Hclean i _ Hi). lia.
      + pose proof (fl_holds _ _ _ HJ _ _ _ Hi) as Hi0.
        destruct (rd_in_range (dirty w) i) as [d Hd].
        { destruct (inv_slots _ _ HI) as (_ & _ & _ & L4 & _).
          pose proof (holds_range w i F c (inv_slots _ _ HI) Hi0). lia. }
        destruct d; [|apply Hcl0; exact Hd].
        exfalso. pose proof (Hpos i c Hi0 Hd ltac:(lia) ltac:(fold n; lia)).
        lia.
    - apply (views_kept_byte_at w w1 F _ v Hv1). apply Hsrc. exact Ht. }
  assert (Hfit : pos + n <= filesize (files w1 F)).
  { destruct (lookup_lt_is_Some_2 src (length src - 1)) as [v Hv]; [lia|].
    destruct (Hdisk _ v Hv) as [_ Hlt]. lia. }
  eapply wp_bind_run.
  { apply ffread_run.
    - rewrite S7. apply (inv_faults _ _ HI1).
    - lia.
    - rewrite S6, S4, (fo_disk _ _ (inv_files _ _ HI1 F)). exact Hfit. }
  cbn [fst snd].
  apply wp_bind, wp_modify. apply wp_ret.
  rewrite S6, S4.
  match goal with |- _ /\ Inv ?wx /\ _ => set (w' := wx) end.
  assert (Hfiles : files w' F = with_io_pos (pos + n) (files w1 F)).
  { unfold w', upd_file. simpl. rewrite upd_same, S3. reflexivity. }
  assert (Hother : forall G, G <> F -> files w' G = files w1 G).
  { intros G HG. unfold w', upd_file. simpl.
    rewrite upd_other by exact HG. rewrite S3. reflexivity. }
  assert (Hsz : forall G, filesize (files w' G) = filesize (files w1 G)
                          /\ logfilesize (files w' G) = logfilesize (files w1 G)).
  { intros G. destruct (Nat.eq_dec G F) as [->|HG].
    - rewrite Hfiles. simpl. auto.
    - rewrite (Hother G HG). auto. }
  pose proof S1 as (Fio & Fbp & Fbr & Fag & Fin).
  assert (Hsp' : same_pool w1 w').
  { unfold same_pool, w'. simpl. auto. }
  split.
  { f_equal. apply disk_stretch.
    - exact Hpos0.
    - rewrite (fo_disk _ _ (inv_files _ _ HI1 F)). exact Hfit.
    - intros t v Ht. apply (Hdisk t v Ht). }
  split.
  { apply (io_moved_inv _ w1 w' HI1 Hsp').
    - unfold w'. simpl. exact S2.
    - exact Hsz.
    - intros G. unfold w'. simpl. reflexivity.
    - intros G. destruct (Nat.eq_dec G F) as [->|HG].
      + rewrite Hfiles. unfold w'. simpl. rewrite upd_same. reflexivity.
      + rewrite (Hother G HG). unfold w'. simpl.
        rewrite upd_other by exact HG. rewrite (S5 G HG).
        apply (fo_pos _ _ (inv_files _ _ HI1 G)).
    - reflexivity. }
  split.
  { apply (bytes_kept_trans w w1 w'); [apply views_bytes_kept; exact Hv1|].
    apply same_contents_bytes_kept. unfold same_contents.
    destruct Hsp' as (A0 & A1 & A2 & _).
    split; [exact A0|]. split; [exact A1|]. split; [exact A2|].
    split; [intros G; apply Hsz|].
    intros G. unfold w'. simpl. reflexivity. }
  split.
  { rewrite Hfiles. simpl. destruct (Hmeta F) as (_ & B & _). exact B. }
  split.
  { rewrite Hfiles. reflexivity. }
  intros t Ht. destruct (lookup_lt_is_Some_2 src t Ht) as [v Hv].
  rewrite Hv. unfold w'. simpl. apply (Hdisk t v Hv).
Qed.

(** X17.  A read of at least [MINDIRECT] bytes ([ffgbyt]) goes to the
    disk.  In a consistent pool, when the record number of the current
    buffer of the file is not beyond the position of the file and the
    file holds the bytes [src] from that position on, in its buffers or
    on the disk, the read returns status 0 and exactly [src]; the dirty
    buffers of the range were written first, so that the disk holds
    these bytes afterwards; no byte of any file has changed; and the
    position of the file is where it was, since only the position of the
    driver is moved behind the bytes read. *)
Theorem ffgbyt_direct_reads_range (src : list byte) (r : Z) (w : world) :
  Inv w -> no_drift fptr w ->
  rd (bufrecnum w) (curbuf (files w (Fptr fptr))) = Some r ->
  r * IOBUFLEN <= bytepos (files w (Fptr fptr)) ->
  0 <= bytepos (files w (Fptr fptr)) ->
  MINDIRECT <= Z.of_nat (length src) ->
  range_at w (Fptr fptr) (bytepos (files w (Fptr fptr))) src ->
  exists w',
    ffgbyt ffmahd fptr (Z.of_nat (length src)) 0 w = Some ((0, src), w')
    /\ Inv w' /\ bytes_kept w w'
    /\ bytepos (files w' (Fptr fptr)) = bytepos (files w (Fptr fptr))
    /\ io_pos (files w' (Fptr fptr))
       = bytepos (files w (Fptr fptr)) + Z.of_nat (length src)
    /\ (forall t, (t < length src)%nat ->
          disk w' (Fptr fptr)
            !! Z.to_nat (bytepos (files w (Fptr fptr)) + Z.of_nat t)
          = src !! t).
Proof.
  intros HI Hnd Hr Hpos Hpos0 Hn Hsrc. pose proof IOBUFLEN_pos as HL.
  destruct (wp_elim _ _ _ (ffgbyt_direct_spec src r w HI Hnd Hr
                             ltac:(intros i c _ _ Hc _; nia) Hpos0
                             Hn Hsrc)) as (res & w' & Hrun & -> & H).
  exists w'. split; [exact Hrun | exact H].
Qed.

(** The direct branch of [ffgi1b]. *)
Lemma ffgi1b_direct_spec (byteloc : Z) (src : list byte) (r : Z)
    (w : world) :
  Inv w -> no_drift fptr w ->
  rd (bufrecnum w) (curbuf (files w (Fptr fptr))) = Some r ->
  (forall i c, holds w i (Fptr fptr) c -> rd (dirty w) i = Some true ->
               byteloc < (c + 1) * IOBUFLEN ->
               c * IOBUFLEN < byteloc + Z.of_nat (length src) ->
               r <= c) ->
  0 <= byteloc ->
  MINDIRECT <= Z.of_nat (length src) ->
  range_at w (Fptr fptr) byteloc src ->
  wp (ffgi1b ffmahd fptr byteloc (Z.of_nat (length src)) 1 0)
     (fun res w' =>
        res = (0, src) /\ Inv w' /\ bytes_kept w w'
        /\ bytepos (files w' (Fptr fptr)) = bytepos (files w (Fptr fptr))) w.
Proof.
  intros HI Hnd Hr Hpos Hpos0 Hn Hsrc. set (F := Fptr fptr) in *.
  set (wa := upd_file F (with_bytepos byteloc) w).
  assert (Hsa : same_cache w wa).
  { apply upd_file_same_cache. intros f. simpl. auto. }
  assert (Hfa : files wa F = with_bytepos byteloc (files w F)).
  { unfold wa. apply upd_file_at. }
  unfold ffgi1b. change (Z.eqb 1 1) with true. cbv iota.
  destruct (Z.ltb_spec (Z.of_nat (length src)) MINDIRECT) as [?|_]; [lia|].
  fold F. apply wp_bind, wp_file_of.
  apply wp_bind, wp_modify. fold wa.
  eapply wp_bind_wp.
  { apply (ffgbyt_direct_spec src r wa).
    - eapply same_cache_inv; eassumption.
    - unfold no_drift. fold F. rewrite Hfa. exact Hnd.
    - fold F. rewrite Hfa. exact Hr.
    - fold F. rewrite Hfa. cbn [bytepos with_bytepos].
      intros i c Hi Hd. apply (Hpos i c); [|exact Hd].
      apply (same_cache_holds w wa _ _ _ Hsa). exact Hi.
    - fold F. rewrite Hfa. exact Hpos0.
    - exact Hn.
    - fold F. rewrite Hfa. simpl. intros t v Ht.
      apply (same_contents_byte_at w wa F _ v
               (same_cache_contents _ _ Hsa)).
      apply Hsrc. exact Ht. }
  cbv beta. intros res w1 (-> & HI1 & Hk1 & _).
  apply wp_bind, wp_modify. apply wp_ret.
  set (w' := upd_file F (with_bytepos (bytepos (files w F))) w1).
  assert (Hs1 : same_cache w1 w').
  { apply upd_file_same_cache. intros f. simpl. auto. }
  split; [reflexivity|].
  split; [eapply same_cache_inv; eassumption|].
  split.
  - apply (bytes_kept_trans w wa w').
    + apply same_contents_bytes_kept, same_cache_contents. exact Hsa.
    + apply (bytes_kept_trans wa w1 w'); [exact Hk1|].
      apply same_contents_bytes_kept, same_cache_contents. exact Hs1.
  - unfold w'. rewrite upd_file_at. reflexivity.
Qed.

(** X18.  [ffgi1b] with an increment of 1 and at least [MINDIRECT]
    values reads straight from the disk at [byteloc] without moving the
    current buffer.  When the record number of the current buffer is
    not beyond [byteloc] and the file holds the bytes [src] from
    [byteloc] on, it returns status 0 and exactly [src], changes no byte
    of any file, and leaves the position of the file where it was. *)
Theorem ffgi1b_direct_reads_range (byteloc : Z) (src : list byte) (r : Z)
    (w : world) :
  Inv w -> no_drift fptr w ->
  rd (bufrecnum w) (curbuf (files w (Fptr fptr))) = Some r ->
  r * IOBUFLEN <= byteloc -> 0 <= byteloc ->
  MINDIRECT <= Z.of_nat (length src) ->
  range_at w (Fptr fptr) byteloc src ->
  exists w',
    ffgi1b ffmahd fptr byteloc (Z.of_nat (length src)) 1 0 w
    = Some ((0, src), w')
    /\ Inv w' /\ bytes_kept w w'
    /\ bytepos (files w' (Fptr fptr)) = bytepos (files w (Fptr fptr)).
Proof.
  intros HI Hnd Hr Hpos Hpos0 Hn Hsrc. pose proof IOBUFLEN_pos as HL.
  destruct (wp_elim _ _ _
              (ffgi1b_direct_spec byteloc src r w HI Hnd Hr
                 ltac:(intros i c _ _ Hc _; nia) Hpos0 Hn Hsrc))
    as (res & w' & Hrun & -> & H).
  exists w'. split; [exact Hrun | exact H].
Qed.

End DirectRead.

(** ** Witnesses *)

Lemma three_ready_inv : Inv three_ready.
Proof.
  apply ready_inv. intros F. pose proof IOBUFLEN_pos as HL. split; simpl.
  - exists 3. split; [lia | reflexivity].
  - rewrite length_replicate. lia.
  - reflexivity.
  - lia.
Qed.

Lemma three_blocks_loaded : loaded three_ready 0%nat 0 three_blocks.
Proof.
  unfold three_blocks.
  destruct (wp_after _ _ _ (ffldrc_spec nav0 f0 0 REPORT_EOF _
              three_ready_inv eq_refl ltac:(lia) (ready_loadable _ _ _)
              ltac:(intros _; right; vm_compute; reflexivity)))
    as (st & _ & _ & H & _).
  exact H.
Qed.

(** The three records hold ["a"] throughout. *)
Lemma three_blocks_range (pos : Z) (n : nat) :
  0 <= pos -> pos + Z.of_nat n <= 3 * IOBUFLEN ->
  range_at three_blocks (Fptr f0) pos (replicate n "a"%byte).
Proof.
  intros Hpos Hn t v Ht. pose proof IOBUFLEN_pos as HL.
  apply lookup_replicate in Ht as [-> Hlt].
  apply (views_kept_byte_at three_ready three_blocks _ _ _
           (ld_views _ _ _ _ three_blocks_loaded)).
  set (p := pos + Z.of_nat t).
  pose proof (Z.mod_pos_bound p IOBUFLEN HL) as Hm.
  pose proof (Z.div_mod p IOBUFLEN ltac:(lia)) as Hdm.
  assert (Hd : 0 <= p / IOBUFLEN) by (apply Z.div_pos; lia).
  assert (Hc : (p / IOBUFLEN + 1) * IOBUFLEN <= 3 * IOBUFLEN).
  { assert (p / IOBUFLEN < 3) by (apply Z.div_lt_upper_bound; lia). nia. }
  exists (disk_block (replicate (Z.to_nat (3 * IOBUFLEN)) "a"%byte)
                     (p / IOBUFLEN)).
  split.
  - right. split.
    + intros i [H _]. apply rd_replicate in H. discriminate.
    + split; [exact Hd|]. split; [exact Hc | reflexivity].
  - rewrite lookup_disk_block.
    destruct (decide (Z.to_nat (p mod IOBUFLEN) < Z.to_nat IOBUFLEN)%nat);
      [|lia].
    apply lookup_replicate. split; [reflexivity | nia].
Qed.

(** Two records are read from the start of the image. *)
Lemma ffgbyt_direct_reads_range_witness :
  exists w',
    ffgbyt nav0 f0
      (Z.of_nat (length (replicate (Z.to_nat (2 * IOBUFLEN)) "a"%byte))) 0
      three_blocks
    = Some ((0, replicate (Z.to_nat (2 * IOBUFLEN)) "a"%byte), w')
    /\ bytepos (files w' (Fptr f0)) = bytepos (files three_blocks (Fptr f0)).
Proof.
  destruct (ffgbyt_direct_reads_range nav0 f0
              (replicate (Z.to_nat (2 * IOBUFLEN)) "a"%byte) 0 three_blocks)
    as (w' & H1 & _ & _ & H2 & _).
  - exact (ld_inv _ _ _ _ three_blocks_loaded).
  - vm_compute. reflexivity.
  - vm_compute. reflexivity.
  - vm_compute. discriminate.
  - vm_compute. discriminate.
  - vm_compute. discriminate.
  - replace (bytepos (files three_blocks (Fptr f0))) with 0
      by (vm_compute; reflexivity).
    apply three_blocks_range; [lia|]. pose proof IOBUFLEN_pos. lia.
  - exists w'. split; [exact H1 | exact H2].
Defined.

(** The last two records of the image are read while the current buffer
    holds the first. *)
Lemma ffgi1b_direct_reads_range_witness :
  exists w',
    ffgi1b nav0 f0 IOBUFLEN
      (Z.of_nat (length (replicate (Z.to_nat (2 * IOBUFLEN)) "a"%byte))) 1 0
      three_blocks
    = Some ((0, replicate (Z.to_nat (2 * IOBUFLEN)) "a"%byte), w')
    /\ bytepos (files w' (Fptr f0)) = bytepos (files three_blocks (Fptr f0)).
Proof.
  destruct (ffgi1b_direct_reads_range nav0 f0 IOBUFLEN
              (replicate (Z.to_nat (2 * IOBUFLEN)) "a"%byte) 0 three_blocks)
    as (w' & H1 & _ & _ & H2).
  - exact (ld_inv _ _ _ _ three_blocks_loaded).
  - vm_compute. reflexivity.
  - vm_compute. reflexivity.
  - vm_compute. discriminate.
  - vm_compute. discriminate.
  - vm_compute. discriminate.
  - apply three_blocks_range; pose proof IOBUFLEN_pos; lia.
  - exists w'. split; [exact H1 | exact H2].
Defined.


(** * Writing straight to the disk *)

(** ** The disk image after a write inside it or at its end *)

Lemma pwrite_lookup (d data : list byte) (p : Z) (q : nat) :
  0 <= p <= Z.of_nat (length d) ->
  pwrite d p data !! q
  = if decide (q < Z.to_nat p)%nat then d !! q
    else if decide (q < Z.to_nat p + length data)%nat
         then data !! (q - Z.to_nat p)%nat
         else d !! q.
Proof.
  intros Hp. unfold pwrite. destruct data as [|x data].
  - simpl length. destruct (decide _); [reflexivity|].
    destruct (decide _); [lia | reflexivity].
  - set (dd := x :: data).
    replace (Z.to_nat p - length d)%nat with 0%nat by lia. simpl replicate.
    rewrite app_nil_l.
    destruct (decide (q < Z.to_nat p)%nat) as [H1|H1].
    + rewrite lookup_app_l by (rewrite length_take; lia).
      apply lookup_take_lt. exact H1.
    + rewrite lookup_app_r by (rewrite length_take; lia).
      rewrite length_take.
      replace (q - Z.to_nat p `min` length d)%nat with (q - Z.to_nat p)%nat
        by lia.
      destruct (decide (q < Z.to_nat p + length dd)%nat) as [H2|H2].
      * apply lookup_app_l. lia.
      * rewrite lookup_app_r by lia. rewrite lookup_drop. f_equal. lia.
Qed.

Lemma pwrite_length (d data : list byte) (p : Z) :
  0 <= p <= Z.of_nat (length d) ->
  Z.of_nat (length (pwrite d p data))
  = Z.max (Z.of_nat (length d)) (p + Z.of_nat (length data)).
Proof.
  intros Hp. unfold pwrite. destruct data as [|x data].
  - simpl length. lia.
  - set (dd := x :: data).
    rewrite !length_app, length_take, length_replicate, length_drop. lia.
Qed.

(** A write of whole records leaves the other records alone. *)
Lemma disk_block_pwrite_outside (d data : list byte) (ra k c : Z) :
  0 <= ra -> 0 <= k -> 0 <= c ->
  ra * IOBUFLEN <= Z.of_nat (length d) ->
  Z.of_nat (length data) = k * IOBUFLEN ->
  c < ra \/ ra + k <= c ->
  disk_block (pwrite d (ra * IOBUFLEN) data) c = disk_block d c.
Proof.
  intros Hra Hk Hc Hd Hdata Hout. pose proof IOBUFLEN_pos as HL.
  apply list_eq. intros i. rewrite !lookup_disk_block.
  destruct (decide (i < Z.to_nat IOBUFLEN)%nat) as [Hi|Hi]; [|reflexivity].
  rewrite pwrite_lookup by lia.
  destruct (decide _) as [H1|H1]; [reflexivity|].
  destruct (decide _) as [H2|H2]; [|reflexivity].
  exfalso. destruct Hout as [Hlt|Hge]; nia.
Qed.

(** ** Bytes in a buffer and bytes on the disk *)

Lemma byte_at_disk (w : world) (F : nat) (q : Z) (v : byte) :
  0 <= q -> (forall i, ~ holds w i F (q / IOBUFLEN)) ->
  (q / IOBUFLEN + 1) * IOBUFLEN <= filesize (files w F) ->
  disk w F !! Z.to_nat q = Some v ->
  byte_at w F q v.
Proof.
  intros Hq Hno Hsz Hv. pose proof IOBUFLEN_pos as HL.
  pose proof (Z.mod_pos_bound q IOBUFLEN HL) as Hm.
  pose proof (Z.div_mod q IOBUFLEN ltac:(lia)) as Hdm.
  pose proof (Z.div_pos q IOBUFLEN Hq HL) as Hd.
  exists (disk_block (disk w F) (q / IOBUFLEN)). split.
  - right. split; [exact Hno|]. split; [exact Hd|].
    split; [exact Hsz | reflexivity].
  - rewrite lookup_disk_block.
    destruct (decide (Z.to_nat (q mod IOBUFLEN) < Z.to_nat IOBUFLEN)%nat);
      [|lia].
    rewrite <- Hv. f_equal. lia.
Qed.

Lemma byte_at_buffer (w : world) (i : Z) (F : nat) (c o : Z)
    (buf : list byte) (v : byte) :
  holds w i F c -> rd (iobuffer w) i = Some buf -> 0 <= o < IOBUFLEN ->
  buf !! Z.to_nat o = Some v ->
  byte_at w F (c * IOBUFLEN + o) v.
Proof.
  intros Hi Hbuf Ho Hv.
  destruct (offset_split c o Ho) as [Ed Em].
  exists buf. rewrite Ed, Em. split; [|exact Hv].
  left. exists i. split; assumption.
Qed.

Lemma byte_at_cases (w : world) (F : nat) (q : Z) (v : byte) :
  0 <= q -> byte_at w F q v ->
  (exists i buf, holds w i F (q / IOBUFLEN)
                 /\ rd (iobuffer w) i = Some buf
                 /\ buf !! Z.to_nat (q mod IOBUFLEN) = Some v)
  \/ ((forall i, ~ holds w i F (q / IOBUFLEN))
      /\ (q / IOBUFLEN + 1) * IOBUFLEN <= filesize (files w F)
      /\ disk w F !! Z.to_nat q = Some v).
Proof.
  intros Hq (x & Hx & Hv). pose proof IOBUFLEN_pos as HL.
  pose proof (Z.mod_pos_bound q IOBUFLEN HL) as Hm.
  pose proof (Z.div_mod q IOBUFLEN ltac:(lia)) as Hdm.
  pose proof (Z.div_pos q IOBUFLEN Hq HL) as Hd.
  destruct Hx as [(i & Hi & Hb)|(Hno & _ & Hle & ->)].
  - left. exists i, x. auto.
  - right. split; [exact Hno|]. split; [exact Hle|].
    rewrite lookup_disk_block in Hv.
    destruct (decide (Z.to_nat (q mod IOBUFLEN) < Z.to_nat IOBUFLEN)%nat);
      [|lia].
    rewrite <- Hv. f_equal. lia.
Qed.

(** ** A free buffer is given to a record and marked as modified *)

Lemma adopted_holds (w1 w2 : world) (n : Z) (F : nat) (b : Z) :
  Inv w1 -> 0 <= n < NIOBUF ->
  bufptr w2 = <[Z.to_nat n := Some F]> (bufptr w1) ->
  bufrecnum w2 = <[Z.to_nat n := b]> (bufrecnum w1) ->
  forall (i : Z) (G : nat) (c : Z),
    holds w2 i G c <->
    (i = n /\ G = F /\ c = b) \/ (i <> n /\ holds w1 i G c).
Proof.
  intros HI Hn E2 E3 i G c.
  destruct (inv_slots _ _ HI) as (L1 & L2 & L3 & L4 & L5).
  unfold holds. rewrite E2, E3.
  rewrite !rd_insert by lia.
  destruct (Z.eqb_spec n i) as [E|E].
  - split.
    + intros [H1 H2]. left. split; [auto|]. split; congruence.
    + intros [(_ & -> & ->)|[Hne _]]; [auto | congruence].
  - split.
    + intros H. right. split; [congruence | exact H].
    + intros [(Hi & _)|[_ H]]; [congruence | exact H].
Qed.

Section Adopt.

Variables (w1 w2 : world) (n : Z) (F : nat) (b : Z) (buf : list byte).
Hypothesis HI : Inv w1.
Hypothesis Hn : 0 <= n < NIOBUF.
Hypothesis Hnew : forall i, ~ holds w1 i F b.
Hypothesis Hb : 0 <= b.
Hypothesis Hlen : Z.of_nat (length buf) = IOBUFLEN.
Hypothesis E1 : iobuffer w2 = <[Z.to_nat n := buf]> (iobuffer w1).
Hypothesis E2 : bufptr w2 = <[Z.to_nat n := Some F]> (bufptr w1).
Hypothesis E3 : bufrecnum w2 = <[Z.to_nat n := b]> (bufrecnum w1).
Hypothesis E4 : dirty w2 = <[Z.to_nat n := true]> (dirty w1).
Hypothesis E5 : ageindex w2 = ageindex w1.
Hypothesis E6 : ageinit w2 = ageinit w1.
Hypothesis E7 : forall G, G <> F ->
  files w2 G = files w1 G /\ disk w2 G = disk w1 G /\ ospos w2 G = ospos w1 G.
Hypothesis E8 : file_ok w2 F.
Hypothesis E9 : (b + 1) * IOBUFLEN <= logfilesize (files w2 F).
Hypothesis E10 : logfilesize (files w1 F) <= logfilesize (files w2 F).
Hypothesis E11 : filesize (files w1 F) <= filesize (files w2 F).
Hypothesis E12 : forall i c, holds w1 i F c ->
  (c + 1) * IOBUFLEN <= filesize (files w1 F) ->
  disk_block (disk w2 F) c = disk_block (disk w1 F) c.
Hypothesis E13 : io_faults w2 = [].

Lemma adopted_inv : Inv w2.
Proof.
  pose proof HI as [[L1 [L2 [L3 [L4 L5]]]] I2 I3 I4 I5 I6 I7 I8 I9 I10].
  split.
  - unfold slots_ok. rewrite E1, E2, E3, E4, E5, !length_insert. auto.
  - intros i x. rewrite E1, rd_insert by lia.
    destruct (Z.eqb n i); [intros [= <-]; exact Hlen | apply I2].
  - rewrite E6. exact I3.
  - rewrite E5. exact I4.
  - intros i j G c Hi Hj.
    apply (adopted_holds w1 w2 n F b HI Hn E2 E3) in Hi, Hj.
    destruct Hi as [(-> & Hi)|[Hi1 Hi2]], Hj as [(-> & Hj)|[Hj1 Hj2]];
      try reflexivity.
    + destruct Hi as [-> ->]. exfalso. eapply Hnew. exact Hj2.
    + destruct Hj as [-> ->]. exfalso. eapply Hnew. exact Hi2.
    + eapply I5; eassumption.
  - intros i G c Hi. apply (adopted_holds w1 w2 n F b HI Hn E2 E3) in Hi.
    destruct Hi as [(-> & -> & ->)|[Hi1 Hi2]].
    + split; [exact Hb | exact E9].
    + destruct (I6 i G c Hi2) as [Hc Hlg]. split; [exact Hc|].
      destruct (Nat.eq_dec G F) as [->|HG]; [lia|].
      destruct (E7 G HG) as (-> & _). exact Hlg.
  - intros i G c _ Hi Hd. apply (adopted_holds w1 w2 n F b HI Hn E2 E3) in Hi.
    rewrite E4, rd_insert in Hd by lia. rewrite E1, rd_insert by lia.
    destruct Hi as [(-> & -> & ->)|[Hi1 Hi2]].
    + rewrite Z.eqb_refl in Hd. discriminate Hd.
    + destruct (Z.eqb_spec n i); [congruence|].
      destruct (I7 i G c (fun H => H) Hi2 Hd) as [Hsz Hbuf].
      destruct (Nat.eq_dec G F) as [->|HG].
      * split; [lia|]. rewrite Hbuf. f_equal. symmetry.
        apply (E12 i c Hi2 Hsz).
      * destruct (E7 G HG) as (-> & -> & _). auto.
  - intros i Hd. rewrite E4, rd_insert in Hd by lia.
    rewrite E2, rd_insert by lia.
    destruct (Z.eqb n i); [eexists; reflexivity | apply I8; exact Hd].
  - intros G. destruct (Nat.eq_dec G F) as [->|HG]; [exact E8|].
    destruct (I9 G) as [F1 F2 F3 F4].
    destruct (E7 G HG) as (Ef & Ed & Eo).
    split; rewrite ?Ef, ?Ed, ?Eo; assumption.
  - exact E13.
Qed.

End Adopt.

Lemma byte_at_nonneg (skip : Z -> Prop) (w : world) (F : nat) (q : Z)
    (v : byte) :
  InvX skip w -> byte_at w F q v -> 0 <= q.
Proof.
  intros HI (x & Hx & _). pose proof IOBUFLEN_pos as HL.
  assert (Hb : 0 <= q / IOBUFLEN).
  { destruct Hx as [(i & Hi & _)|(_ & Hb & _)]; [|exact Hb].
    apply (inv_owned _ _ HI i F _ Hi). }
  destruct (Z.neg_nonneg_cases q) as [Hneg|Hq]; [|exact Hq].
  pose proof (Z.div_lt_upper_bound q IOBUFLEN 0 HL ltac:(lia)). lia.
Qed.

(** ** The state that a direct write leaves *)

Section Done.

Variables (F : nat) (w1 w' : world) (nbuff r k pos : Z)
          (src base buf' : list byte).

Let n := Z.of_nat (length src).
Let nspace := (r + 1) * IOBUFLEN - pos.
Let recend := r + 1 + k.
Let cptr := drop (Z.to_nat nspace) src.
Let data := take (Z.to_nat (k * IOBUFLEN)) cptr.
Let ntodo' := n - nspace - k * IOBUFLEN.

Hypothesis HI1 : Inv w1.
Hypothesis Hn : 0 <= nbuff < NIOBUF.
Hypothesis Hr : 0 <= r.
Hypothesis Hpos : r * IOBUFLEN <= pos <= (r + 1) * IOBUFLEN.
Hypothesis Hk : 0 <= k.
Hypothesis Hlast : 1 <= ntodo' <= IOBUFLEN.
Hypothesis Hrel : forall i c, holds w1 i F c -> ~ r <= c <= recend.
Hypothesis Hfree : forall G c, ~ holds w1 nbuff G c.
Hypothesis Hfp : (r + 1) * IOBUFLEN <= filesize (files w1 F).
Hypothesis Hbase : Z.of_nat (length base) = IOBUFLEN.
Hypothesis Hread : (recend + 1) * IOBUFLEN <= filesize (files w1 F) ->
                   base = disk_block (disk w1 F) recend.
Hypothesis Hbuf : buf' = take (Z.to_nat ntodo') (drop (Z.to_nat (k * IOBUFLEN)) cptr)
                         ++ drop (Z.to_nat ntodo') base.
Hypothesis E1 : iobuffer w' = <[Z.to_nat nbuff := buf']> (iobuffer w1).
Hypothesis E2 : bufptr w' = <[Z.to_nat nbuff := Some F]> (bufptr w1).
Hypothesis E3 : bufrecnum w' = <[Z.to_nat nbuff := recend]> (bufrecnum w1).
Hypothesis E4 : dirty w' = <[Z.to_nat nbuff := true]> (dirty w1).
Hypothesis E5 : ageindex w' = ageindex w1.
Hypothesis E6 : ageinit w' = ageinit w1.
Hypothesis E7 : forall G, G <> F ->
  files w' G = files w1 G /\ disk w' G = disk w1 G /\ ospos w' G = ospos w1 G.
Hypothesis Edisk : disk w' F = pwrite (disk w1 F) ((r + 1) * IOBUFLEN) data.
Hypothesis Esize : filesize (files w' F)
                   = Z.max (filesize (files w1 F)) (recend * IOBUFLEN).
Hypothesis Elog : logfilesize (files w' F)
                  = Z.max (logfilesize (files w1 F)) ((recend + 1) * IOBUFLEN).
Hypothesis Epos : ospos w' F = io_pos (files w' F).
Hypothesis Efaults : io_faults w' = [].

Lemma done_lengths :
  Z.of_nat (length cptr) = n - nspace
  /\ Z.of_nat (length data) = k * IOBUFLEN
  /\ Z.of_nat (length buf') = IOBUFLEN.
Proof.
  pose proof IOBUFLEN_pos as HL.
  assert (H1 : Z.of_nat (length cptr) = n - nspace).
  { unfold cptr. rewrite length_drop. unfold n, nspace, ntodo' in *. nia. }
  assert (H2 : Z.of_nat (length data) = k * IOBUFLEN).
  { unfold data. rewrite length_take. unfold ntodo' in *. nia. }
  split; [exact H1|]. split; [exact H2|].
  rewrite Hbuf, length_app, length_take, !length_drop.
  unfold ntodo' in *. nia.
Qed.

Lemma done_disk_length :
  Z.of_nat (length (disk w' F)) = filesize (files w' F).
Proof.
  pose proof IOBUFLEN_pos as HL.
  destruct done_lengths as (_ & Hd & _).
  pose proof (fo_disk _ _ (inv_files _ _ HI1 F)) as Hlen.
  rewrite Edisk, pwrite_length by lia.
  rewrite Esize, Hd, Hlen. unfold recend. lia.
Qed.

Lemma done_block (c : Z) :
  0 <= c -> c <= r \/ recend <= c ->
  disk_block (disk w' F) c = disk_block (disk w1 F) c.
Proof.
  intros Hc Hout. pose proof IOBUFLEN_pos as HL.
  destruct done_lengths as (_ & Hd & _).
  pose proof (fo_disk _ _ (inv_files _ _ HI1 F)) as Hlen.
  rewrite Edisk.
  unfold recend in Hout.
  apply (disk_block_pwrite_outside _ _ (r + 1) k c); lia.
Qed.

Lemma done_file_ok : file_ok w' F.
Proof.
  pose proof IOBUFLEN_pos as HL.
  destruct (inv_files _ _ HI1 F) as [(m & Hm & Hs) F2 F3 F4].
  split.
  - rewrite Esize, Hs. exists (Z.max m recend). split; [lia|].
    destruct (Z.max_spec m recend) as [[? ->]|[? ->]];
      destruct (Z.max_spec (m * IOBUFLEN) (recend * IOBUFLEN))
        as [[? ->]|[? ->]]; nia.
  - exact done_disk_length.
  - exact Epos.
  - rewrite Esize, Elog. unfold recend. lia.
Qed.

Lemma done_holds (i : Z) (G : nat) (c : Z) :
  holds w' i G c <->
  (i = nbuff /\ G = F /\ c = recend) \/ (i <> nbuff /\ holds w1 i G c).
Proof. apply (adopted_holds w1 w' nbuff F recend HI1 Hn E2 E3). Qed.

Lemma done_new (i : Z) : ~ holds w1 i F recend.
Proof. intros Hi. apply (Hrel i recend Hi). unfold recend. lia. Qed.

Lemma done_inv : Inv w'.
Proof.
  pose proof IOBUFLEN_pos as HL.
  destruct done_lengths as (_ & _ & Hb').
  apply (adopted_inv w1 w' nbuff F recend buf' HI1 Hn done_new
           ltac:(unfold recend; lia) Hb' E1 E2 E3 E4 E5 E6 E7 done_file_ok).
  - rewrite Elog. lia.
  - rewrite Elog. lia.
  - rewrite Esize. lia.
  - intros i c Hi Hsz. apply done_block.
    + apply (inv_owned _ _ HI1 i F c Hi).
    + pose proof (Hrel i c Hi). lia.
  - exact Efaults.
Qed.

(** What was visible outside the records of the write is kept, and so
    is the end of the last record. *)
Lemma done_kept (G : nat) (q : Z) (v : byte) :
  G <> F \/ q < (r + 1) * IOBUFLEN \/ pos + n <= q ->
  byte_at w1 G q v -> byte_at w' G q v.
Proof.
  intros Hout Hb. pose proof IOBUFLEN_pos as HL.
  pose proof (byte_at_nonneg _ _ _ _ _ HI1 Hb) as Hq.
  pose proof (Z.mod_pos_bound q IOBUFLEN HL) as Hm.
  pose proof (Z.div_mod q IOBUFLEN ltac:(lia)) as Hdm.
  pose proof (Z.div_pos q IOBUFLEN Hq HL) as Hd.
  destruct (inv_slots _ _ HI1) as (L1 & L2 & L3 & L4 & L5).
  destruct done_lengths as (Hl1 & Hl2 & Hl3).
  set (c := q / IOBUFLEN) in *.
  destruct (byte_at_cases w1 G q v Hq Hb)
    as [(i & buf & Hi & Hbuf' & Hv)|(Hno & Hsz & Hv)]; fold c in Hi || fold c in Hno, Hsz.
  - (* in a buffer that the write has not touched *)
    assert (Hne : i <> nbuff).
    { intros ->. exact (Hfree G c Hi). }
    replace q with (c * IOBUFLEN + q mod IOBUFLEN) by lia.
    apply (byte_at_buffer w' i G c _ buf v); [| |lia|exact Hv].
    + apply done_holds. right. split; assumption.
    + rewrite E1, rd_insert_ne by lia. exact Hbuf'.
  - destruct (decide (G = F /\ c = recend)) as [[-> Hc]|Hother].
    + (* the end of the last record, read from the disk *)
      assert (Hge : pos + n <= q).
      { destruct Hout as [Hout|[Hout|Hout]]; [congruence| |exact Hout].
        exfalso. unfold recend in Hc. nia. }
      set (o := q mod IOBUFLEN) in *.
      assert (Ho : ntodo' <= o).
      { unfold ntodo', nspace, recend in *. nia. }
      replace q with (recend * IOBUFLEN + o) by lia.
      apply (byte_at_buffer w' nbuff F recend _ buf' v); [| |lia|].
      * apply done_holds. left. auto.
      * rewrite E1. apply rd_insert_eq. lia.
      * rewrite Hbuf.
        rewrite lookup_app_r by (rewrite length_take, length_drop; lia).
        rewrite length_take, length_drop, lookup_drop.
        replace (Z.to_nat ntodo'
                 + (Z.to_nat o
                    - Z.to_nat ntodo'
                      `min` (length cptr - Z.to_nat (k * IOBUFLEN))))%nat
          with (Z.to_nat o) by lia.
        rewrite Hread by (rewrite <- Hc; exact Hsz).
        rewrite lookup_disk_block.
        destruct (decide (Z.to_nat o < Z.to_nat IOBUFLEN)%nat); [|lia].
        rewrite <- Hv. f_equal. lia.
    + (* on the disk, where the write has not been *)
      apply byte_at_disk; [exact Hq| | |].
      * fold c. intros i Hi. apply done_holds in Hi.
        destruct Hi as [(_ & -> & Hc)|[_ Hi]]; [tauto | exact (Hno i Hi)].
      * fold c. destruct (Nat.eq_dec G F) as [->|HG].
        -- rewrite Esize. lia.
        -- destruct (E7 G HG) as (-> & _). exact Hsz.
      * destruct (Nat.eq_dec G F) as [->|HG].
        -- rewrite Edisk, pwrite_lookup
             by (pose proof (fo_disk _ _ (inv_files _ _ HI1 F)); lia).
           destruct (decide _) as [H1|H1]; [exact Hv|].
           destruct (decide _) as [H2|H2]; [|exact Hv].
           exfalso.
           destruct Hout as [Hout|[Hout|Hout]]; [congruence | lia|].
           assert (c <> recend) by tauto.
           unfold ntodo', nspace, recend in *. nia.
        -- destruct (E7 G HG) as (_ & -> & _). exact Hv.
Qed.

(** The bytes behind the first record of the write are in the file. *)
Lemma done_written (t : nat) (v : byte) :
  src !! t = Some v -> nspace <= Z.of_nat t ->
  byte_at w' F (pos + Z.of_nat t) v.
Proof.
  intros Hv Ht. pose proof IOBUFLEN_pos as HL.
  destruct (inv_slots _ _ HI1) as (L1 & L2 & L3 & L4 & L5).
  destruct done_lengths as (Hl1 & Hl2 & Hl3).
  assert (Hlt : (t < length src)%nat)
    by (apply lookup_lt_is_Some; eexists; exact Hv).
  set (j := Z.of_nat t - nspace).
  destruct (Z.lt_ge_cases j (k * IOBUFLEN)) as [Hdisk|Hbufc].
  - (* written to the disk *)
    set (q := pos + Z.of_nat t).
    assert (Eq : q = (r + 1) * IOBUFLEN + j) by (unfold q, j, nspace; lia).
    assert (Hc : r + 1 <= q / IOBUFLEN < recend).
    { split.
      - apply Z.div_le_lower_bound; lia.
      - apply Z.div_lt_upper_bound; [lia|]. unfold recend. nia. }
    apply byte_at_disk; [lia| | |].
    + intros i Hi. apply done_holds in Hi.
      destruct Hi as [(_ & _ & Hc')|[_ Hi]]; [lia|].
      apply (Hrel i _ Hi). lia.
    + rewrite Esize. nia.
    + rewrite Edisk, pwrite_lookup
        by (pose proof (fo_disk _ _ (inv_files _ _ HI1 F)); lia).
      destruct (decide _) as [H1|H1]; [lia|].
      destruct (decide _) as [H2|H2]; [|lia].
      unfold data. rewrite lookup_take_lt by lia.
      unfold cptr. rewrite lookup_drop. rewrite <- Hv. f_equal.
      unfold nspace in *. lia.
  - (* copied into the buffer *)
    set (o := j - k * IOBUFLEN).
    assert (Ho : 0 <= o < ntodo').
    { unfold o, j, ntodo', n in *. lia. }
    replace (pos + Z.of_nat t) with (recend * IOBUFLEN + o)
      by (unfold o, j, recend, nspace; lia).
    apply (byte_at_buffer w' nbuff F recend _ buf' v); [| |lia|].
    + apply done_holds. left. auto.
    + rewrite E1. apply rd_insert_eq. lia.
    + rewrite Hbuf.
      rewrite lookup_app_l by (rewrite length_take, length_drop; lia).
      rewrite lookup_take_lt by lia.
      rewrite lookup_drop. unfold cptr. rewrite lookup_drop.
      rewrite <- Hv. f_equal. unfold o, j, nspace in *. lia.
Qed.

End Done.

Section DirectWrite.

Variable ffmahd : fitsfile -> Z -> Z -> M Z.
Variable fptr : fitsfile.

(** The head of the direct branch of [ffpbyt]: the current buffer is
    filled up. *)
Lemma direct_head_spec (nbytes : Z) (src : list byte) (r : Z) (w : world) :
  Inv w -> no_drift fptr w ->
  holds w (curbuf (files w (Fptr fptr))) (Fptr fptr) r ->
  r * IOBUFLEN <= bytepos (files w (Fptr fptr)) <= (r + 1) * IOBUFLEN ->
  (r + 1) * IOBUFLEN - bytepos (files w (Fptr fptr))
  <= Z.of_nat (length src) ->
  wp (let nbuff := curbuf (files w (Fptr fptr)) in
      let filepos0 := bytepos (files w (Fptr fptr)) in
      let bufpos := filepos0 - r * IOBUFLEN in
      let nspace := IOBUFLEN - bufpos in
      if Z.eqb nspace 0 then ret (nbytes, src, filepos0)
      else
        do buf <- rdM iobuffer nbuff;
        do buf' <- lift (memcpy_to buf bufpos src nspace);
        exec put_iobuffer nbuff buf';
        exec put_dirty nbuff true;
        ret (nbytes - nspace, advance src nspace, filepos0 + nspace))
     (fun h wa =>
        h = (nbytes - ((r + 1) * IOBUFLEN - bytepos (files w (Fptr fptr))),
             drop (Z.to_nat ((r + 1) * IOBUFLEN
                             - bytepos (files w (Fptr fptr)))) src,
             (r + 1) * IOBUFLEN)
        /\ Inv wa /\ files wa = files w
        /\ bufptr wa = bufptr w /\ bufrecnum wa = bufrecnum w
        /\ kept_outside w wa (Fptr fptr) (bytepos (files w (Fptr fptr)))
                        ((r + 1) * IOBUFLEN)
        /\ (forall t v,
              Z.of_nat t < (r + 1) * IOBUFLEN - bytepos (files w (Fptr fptr)) ->
              src !! t = Some v ->
              byte_at wa (Fptr fptr)
                      (bytepos (files w (Fptr fptr)) + Z.of_nat t) v)) w.
Proof.
  intros HI Hnd Hr Hpos Hsrc. pose proof IOBUFLEN_pos as HL.
  set (F := Fptr fptr) in *. set (pos := bytepos (files w F)) in *.
  set (nbuff := curbuf (files w F)) in *.
  cbv zeta.
  replace (IOBUFLEN - (pos - r * IOBUFLEN)) with ((r + 1) * IOBUFLEN - pos)
    by lia.
  set (nspace := (r + 1) * IOBUFLEN - pos) in *.
  destruct (Z.eqb_spec nspace 0) as [E0|E0].
  - apply wp_ret. rewrite E0. change (Z.to_nat 0) with 0%nat. rewrite drop_0.
    split; [f_equal; [f_equal; lia | lia]|].
    split; [exact HI|]. repeat (split; [reflexivity|]).
    split; [intros G q v _ H; exact H|].
    intros t v Ht. lia.
  - set (c := mkCursor nbuff r nspace (pos - r * IOBUFLEN) src 0).
    assert (Hc : cursor_at fptr pos c w).
    { split; simpl; try reflexivity; try assumption; lia. }
    assert (HX : InvX (eq (bcurrent c)) w).
    { eapply InvX_weaken; [|exact HI]. intros j []. }
    destruct (wp_elim _ _ _
                (wp_conj _ _ _ _
                   (put_group_bytes_spec fptr pos c nspace w Hc HX
                      ltac:(lia) ltac:(simpl; lia) ltac:(simpl; lia))
                   (put_group_bytes_frame fptr pos c nspace w Hc HX
                      ltac:(lia) ltac:(simpl; lia) ltac:(simpl; lia))))
      as (c1 & wq & Hrun & (_ & Hc1 & HX1 & _ & Hnew & _) & Hkept).
    unfold put_group_bytes, c in Hrun. cbn [bcurrent ioptr cptr] in Hrun.
    unfold wp. unfold bind in Hrun |- *.
    destruct (rdM iobuffer nbuff w) as [[buf w0]|] eqn:Erd;
      [|discriminate Hrun].
    destruct (lift (memcpy_to buf (pos - r * IOBUFLEN) src nspace) w0)
      as [[buf' w00]|] eqn:Elift; [|discriminate Hrun].
    destruct (put_iobuffer nbuff buf' w00) as [[u wq']|] eqn:Eput;
      [|discriminate Hrun].
    assert (wq' = wq) as -> by (unfold ret in Hrun; congruence).
    clear Hrun.
    assert (w0 = w) as ->.
    { unfold rdM, reads in Erd. destruct (rd (iobuffer w) nbuff); congruence. }
    assert (w00 = w) as ->.
    { unfold lift in Elift. destruct (memcpy_to _ _ _ _); congruence. }
    assert (Hq : files wq = files w /\ bufptr wq = bufptr w
                 /\ bufrecnum wq = bufrecnum w).
    { unfold put_iobuffer in Eput. destruct (wr (iobuffer w) nbuff buf');
        [|discriminate Eput].
      injection Eput as _ <-. simpl. auto. }
    destruct Hq as (Hq1 & Hq2 & Hq3).
    destruct (inv_slots _ _ HX1) as (L1 & L2 & L3 & L4 & L5).
    pose proof (holds_range wq _ F _ (inv_slots _ _ HX1)
                  (cu_holds _ _ _ _ Hc1)) as Hrange.
    simpl in Hrange. unfold put_dirty. rewrite wr_in_range by lia.
    unfold ret.
    pose proof (mark_inv wq nbuff F r HX1 (cu_holds _ _ _ _ Hc1)) as HIa.
    pose proof (mark_contents wq nbuff) as Hsm.
    set (wa := set_dirty (<[Z.to_nat nbuff := true]> (dirty wq)) wq) in *.
    split; [unfold advance; f_equal; unfold nspace; lia|].
    split; [exact HIa|].
    split; [exact Hq1|]. split; [exact Hq2|]. split; [exact Hq3|].
    split.
    + replace ((r + 1) * IOBUFLEN) with (pos + nspace) by (unfold nspace; lia).
      apply (kept_outside_bytes w wq wa); [exact Hkept|].
      apply same_contents_bytes_kept. exact Hsm.
    + intros t v Ht Hv.
      apply (same_contents_byte_at wq wa F _ v Hsm).
      apply Hnew; [lia|]. simpl. rewrite Nat2Z.id. exact Hv.
Qed.

(** The loop of the direct branch of [ffpbyt]: the buffers of the file
    with a record from [recstart] to [recend] are written, where they
    are modified, and given up. *)
Lemma direct_release_spec (recstart recend : Z) (w : world) :
  Inv w ->
  wp (for_status (seqZ 0 NIOBUF) (fun ii st =>
        do owner <- rdM bufptr ii;
        match owner with
        | Some G =>
            if Nat.eqb G (Fptr fptr) then
              do r <- rdM bufrecnum ii;
              if (Z.leb recstart r && Z.leb r recend)%bool then
                do d <- rdM dirty ii;
                do st1 <- (if d : bool then ffbfwt ii st else ret st);
                exec put_bufptr ii None;
                ret st1
              else ret st
            else ret st
        | None => ret st
        end) 0)
     (fun st w1 =>
        st = 0 /\ flushing (Fptr fptr) w w1
        /\ (forall G, same_meta (files w G) (files w1 G))
        /\ (forall i c, holds w1 i (Fptr fptr) c ->
                        ~ recstart <= c <= recend)) w.
Proof.
  intros HI. set (F := Fptr fptr).
  eapply wp_mono.
  { apply (wp_for_status_slots
             (fun ii st wj =>
                st = 0 /\ flushing F w wj
                /\ (forall G, same_meta (files w G) (files wj G))
                /\ (forall i c, 0 <= i < ii -> holds wj i F c ->
                                ~ recstart <= c <= recend))).
    - split; [reflexivity|]. split; [apply flushing_refl; exact HI|].
      split; [intros G; unfold same_meta; tauto|].
      intros i c Hi. lia.
    - intros ii st wj Hii (-> & HJ & Hmeta & Hdone).
      pose proof (fl_inv _ _ _ HJ) as HIj.
      destruct (inv_slots _ _ HIj) as (L1 & L2 & L3 & L4 & L5).
      destruct (rd_in_range (bufptr wj) ii) as [owner Ho]; [lia|].
      eapply wp_bind, wp_rdM; [exact Ho|].
      assert (Hskip : (forall c, holds wj ii F c ->
                                 ~ recstart <= c <= recend) ->
                      0 = 0 /\ flushing F w wj
                      /\ (forall G, same_meta (files w G) (files wj G))
                      /\ (forall i c, 0 <= i < ii + 1 -> holds wj i F c ->
                            ~ recstart <= c <= recend)).
      { intros Hno. split; [reflexivity|]. split; [exact HJ|].
        split; [exact Hmeta|].
        intros i c Hi Hh. destruct (Z.eq_dec i ii) as [->|Hne].
        - apply (Hno c Hh).
        - apply (Hdone i c); [lia | exact Hh]. }
      destruct owner as [G|].
      + destruct (Nat.eqb_spec G F) as [->|HG].
        * destruct (rd_in_range (bufrecnum wj) ii) as [c Hc]; [lia|].
          assert (Hh : holds wj ii F c) by (split; assumption).
          eapply wp_bind, wp_rdM; [exact Hc|].
          assert (Hout : ~ recstart <= c <= recend ->
                         forall c', holds wj ii F c' ->
                                    ~ recstart <= c' <= recend).
          { intros Hc' c' [_ Hr']. assert (c' = c) by congruence.
            subst c'. exact Hc'. }
          destruct (Z.leb_spec recstart c) as [H1|H1];
            [destruct (Z.leb_spec c recend) as [H2|H2]|]; cbn [andb];
            [|apply wp_ret, Hskip, Hout; lia
             |apply wp_ret, Hskip, Hout; lia].
          destruct (rd_in_range (dirty wj) ii) as [d Hd]; [lia|].
          eapply wp_bind, wp_rdM; [exact Hd|].
          assert (Hw : wp (if d then ffbfwt ii 0 else ret 0)
                          (fun st w1 =>
                             st = 0 /\ flushing F w w1 /\ same_pool wj w1
                             /\ rd (dirty w1) ii = Some false
                             /\ (forall G, same_meta (files w G)
                                                     (files w1 G))) wj).
          { destruct d.
            - eapply wp_mono; [apply (ffbfwt_spec wj ii F c HIj Hh)|].
              cbv beta. intros st w1 [-> W]. split; [reflexivity|].
              split; [eapply flushing_written; eassumption|].
              split; [apply (wb_pool _ _ _ _ _ W)|].
              split; [apply (wb_clean _ _ _ _ _ W)|].
              intros G. destruct (Hmeta G) as (A1 & A2 & A3 & A4 & A5 & A6 & A7).
              destruct (Nat.eq_dec G F) as [->|HG].
              + destruct (wb_meta _ _ _ _ _ W)
                  as (B1 & B2 & B3 & B4 & B5 & B6 & B7).
                unfold same_meta.
                rewrite B1, B2, B3, B4, B5, B6, B7. tauto.
              + destruct (wb_others _ _ _ _ _ W G HG) as [-> _].
                unfold same_meta. tauto.
            - apply wp_ret. split; [reflexivity|]. split; [exact HJ|].
              split; [apply same_pool_refl|]. split; [exact Hd | exact Hmeta]. }
          eapply wp_bind_wp; [exact Hw|]. cbv beta.
          intros st w1 (-> & HJ1 & Hsp & Hcl & Hmeta1).
          pose proof (fl_inv _ _ _ HJ1) as HI1.
          destruct (inv_slots _ _ HI1) as (M1 & M2 & M3 & M4 & M5).
          apply wp_bind. apply wp_put_bufptr; [lia|]. apply wp_ret.
          split; [reflexivity|].
          split; [apply flushing_release; assumption|].
          split; [exact Hmeta1|].
          intros i d' Hi Hh'.
          apply (release_holds w1 ii HI1 Hii) in Hh' as [Hne Hh'].
          apply (holds_same_pool wj w1 i F d' Hsp) in Hh'.
          apply (Hdone i d'); [lia | exact Hh'].
        * apply wp_ret, Hskip. intros c [Hp _]. congruence.
      + apply wp_ret, Hskip. intros c [Hp _]. congruence. }
  cbv beta. intros st w1 (-> & HJ & Hmeta & Hdone).
  split; [reflexivity|]. split; [exact HJ|]. split; [exact Hmeta|].
  intros i c Hh. apply (Hdone i c); [|exact Hh].
  apply (holds_range w1 i F c (inv_slots _ _ (fl_inv _ _ _ HJ)) Hh).
Qed.

(** The middle of the direct branch of [ffpbyt]: [k] records go to the
    disk from record [ra] on, and buffer [nbuff] is prepared for the
    record behind them. *)
Lemma direct_mid (ra k nbuff : Z) (cptr : list byte) (w1 : world)
    (K : Z -> M Z) (Q : Z -> world -> Prop) :
  Inv w1 -> 0 <= nbuff < NIOBUF -> 0 <= ra -> 0 <= k ->
  k * IOBUFLEN <= Z.of_nat (length cptr) ->
  ra * IOBUFLEN <= filesize (files w1 (Fptr fptr)) ->
  (forall base w4,
     direct_written w1 nbuff (Fptr fptr) (ra * IOBUFLEN)
                    (take (Z.to_nat (k * IOBUFLEN)) cptr) base w4 ->
     ((ra + k + 1) * IOBUFLEN <= filesize (files w1 (Fptr fptr)) ->
      base = disk_block (disk w1 (Fptr fptr)) (ra + k)) ->
     wp (K 0) Q w4) ->
  wp (do Ff1 <- file_of (Fptr fptr);
      exec (if Z.eqb (io_pos Ff1) (ra * IOBUFLEN) then ret tt
            else ffseek (Fptr fptr) (ra * IOBUFLEN));
      do status2 <- ffwrite (Fptr fptr) (k * IOBUFLEN) cptr 0;
      exec modify (upd_file (Fptr fptr)
                     (with_io_pos (ra * IOBUFLEN + k * IOBUFLEN)));
      do Ff2 <- file_of (Fptr fptr);
      do status3 <-
        (if Z.leb (filesize Ff2) (io_pos Ff2) then
           exec modify (upd_file (Fptr fptr) (with_filesize (io_pos Ff2)));
           exec memset_iobuffer nbuff (fill_byte (hdutype Ff2));
           ret status2
         else
           do r <- ffread (Fptr fptr) IOBUFLEN status2;
           exec (match snd r with
                 | Some bytes => put_iobuffer nbuff bytes
                 | None => ret tt
                 end);
           exec modify (upd_file (Fptr fptr)
                          (with_io_pos (io_pos Ff2 + IOBUFLEN)));
           ret (fst r));
      K status3) Q w1.
Proof.
  intros HI1 Hn Hra Hk Hcp Hfp HK. pose proof IOBUFLEN_pos as HL.
  set (F := Fptr fptr) in *. set (p := ra * IOBUFLEN) in *.
  set (data := take (Z.to_nat (k * IOBUFLEN)) cptr) in *.
  assert (Hdl : Z.of_nat (length data) = k * IOBUFLEN).
  { unfold data. rewrite length_take. nia. }
  destruct (inv_slots _ _ HI1) as (L1 & L2 & L3 & L4 & L5).
  destruct (inv_files _ _ HI1 F) as [(m & Hm & Hs) F2 F3 F4].
  apply wp_bind, wp_file_of.
  destruct (seek_if_needed w1 F p (inv_files _ _ HI1 F) ltac:(unfold p; nia))
    as (w2 & Hseek & [S1 S2 S3 S4 S5 S6 S7 S8]).
  pose proof S1 as (Fio & Fbp & Fbr & Fag & Fin).
  eapply wp_bind_run; [exact Hseek|].
  eapply wp_bind_run.
  { apply ffwrite_run; [rewrite S7; apply (inv_faults _ _ HI1) | nia]. }
  apply wp_bind, wp_modify. apply wp_bind, wp_file_of.
  fold data. rewrite S6, S4.
  match goal with |- wp _ _ ?wx => set (w3 := wx) end.
  assert (Hf3 : files w3 F = with_io_pos (p + k * IOBUFLEN) (files w1 F)).
  { unfold w3, upd_file. simpl. rewrite upd_same, S3. reflexivity. }
  assert (Ho3 : forall G, G <> F -> files w3 G = files w1 G).
  { intros G HG. unfold w3, upd_file. simpl.
    rewrite upd_other by exact HG. rewrite S3. reflexivity. }
  assert (Hd3 : disk w3 F = pwrite (disk w1 F) p data).
  { unfold w3. simpl. rewrite upd_same. reflexivity. }
  assert (Hlen3 : Z.of_nat (length (disk w3 F))
                  = Z.max (filesize (files w1 F)) (p + k * IOBUFLEN)).
  { rewrite Hd3, pwrite_length by (unfold p; nia). rewrite Hdl, F2.
    reflexivity. }
  rewrite Hf3. cbn [filesize io_pos hdutype with_io_pos].
  destruct (Z.leb_spec (filesize (files w1 F)) (p + k * IOBUFLEN))
    as [Hext|Hin].
  - (* the write has reached the end of the file *)
    apply wp_bind. apply wp_bind, wp_modify.
    apply wp_bind. unfold memset_iobuffer.
    apply wp_put_iobuffer; [simpl; rewrite Fio; lia|]. apply wp_ret.
    apply (HK (replicate (Z.to_nat IOBUFLEN)
                         (fill_byte (hdutype (files w1 F))))).
    + split; simpl; rewrite ?upd_same; simpl; rewrite ?upd_same; simpl;
        rewrite ?S3, ?upd_same; simpl;
        try reflexivity; try assumption.
      * rewrite Fio. reflexivity.
      * intros G HG. rewrite !upd_other by exact HG.
        rewrite (S5 G HG). auto.
      * rewrite Hdl. lia.
      * unfold same_meta. simpl. tauto.
    + intros Hsz. exfalso. unfold p in *. nia.
  - (* the record behind the write is read *)
    assert (Hfit : p + k * IOBUFLEN + IOBUFLEN <= filesize (files w1 F)).
    { rewrite Hs in *. unfold p in *. assert (ra + k < m) by nia. nia. }
    assert (Hos : ospos w3 F = p + k * IOBUFLEN).
    { unfold w3. simpl. apply upd_same. }
    apply wp_bind. eapply wp_bind_run.
    { apply ffread_run; [reflexivity | lia|]. rewrite Hos, Hlen3. lia. }
    cbn [fst snd].
    apply wp_bind. apply wp_put_iobuffer; [simpl; rewrite Fio; lia|].
    apply wp_bind, wp_modify. apply wp_ret.
    rewrite Hos, Hd3.
    assert (Hblk : take (Z.to_nat IOBUFLEN)
                     (drop (Z.to_nat (p + k * IOBUFLEN))
                           (pwrite (disk w1 F) p data))
                   = disk_block (disk w1 F) (ra + k)).
    { rewrite <- (disk_block_pwrite_outside (disk w1 F) data ra k (ra + k));
        try lia.
      unfold disk_block, p. do 3 f_equal. lia. }
    rewrite Hblk.
    apply (HK (disk_block (disk w1 F) (ra + k))); [|reflexivity].
    split; simpl; rewrite ?upd_same; simpl; rewrite ?upd_same; simpl;
      rewrite ?S3, ?upd_same; simpl;
      try reflexivity; try assumption.
    + rewrite Fio. reflexivity.
    + intros G HG. rewrite !upd_other by exact HG.
      rewrite (S5 G HG). auto.
    + rewrite Hdl. lia.
    + unfold same_meta. simpl. tauto.
    + apply disk_block_length; [lia|]. rewrite F2. lia.
Qed.

(** The end of the direct branch of [ffpbyt]: the last bytes go to the
    buffer, which is given to the last record. *)
Lemma direct_tail_run (nbuff recend bp ntodo : Z) (cptr base : list byte)
    (w4 : world) :
  slots_ok w4 -> 0 <= nbuff < NIOBUF ->
  rd (iobuffer w4) nbuff = Some base ->
  Z.of_nat (length base) = IOBUFLEN ->
  0 <= ntodo <= IOBUFLEN -> ntodo <= Z.of_nat (length cptr) ->
  wp (do buf <- rdM iobuffer nbuff;
      do buf' <- lift (memcpy_to buf 0 cptr ntodo);
      exec put_iobuffer nbuff buf';
      exec put_dirty nbuff true;
      exec put_bufrecnum nbuff recend;
      exec put_bufptr nbuff (Some (Fptr fptr));
      do Ff3 <- file_of (Fptr fptr);
      exec modify (upd_file (Fptr fptr)
                     (with_logfilesize
                        (Z.max (logfilesize Ff3) ((recend + 1) * IOBUFLEN))));
      exec modify (upd_file (Fptr fptr) (with_bytepos bp));
      ret 0)
     (fun st w' =>
        st = 0
        /\ adopted w4 nbuff (Fptr fptr) recend
                   (take (Z.to_nat ntodo) cptr ++ drop (Z.to_nat ntodo) base)
                   bp w') w4.
Proof.
  intros (L1 & L2 & L3 & L4 & L5) Hn Hbase Hbl Hnt Hcp.
  set (F := Fptr fptr).
  set (buf' := take (Z.to_nat ntodo) cptr ++ drop (Z.to_nat ntodo) base).
  assert (Hm : memcpy_to base 0 cptr ntodo = Some buf').
  { rewrite memcpy_to_Some by lia. change (Z.to_nat 0) with 0%nat.
    rewrite take_0, Z.add_0_l. reflexivity. }
  eapply wp_bind, wp_rdM; [exact Hbase|].
  eapply wp_bind, wp_lift; [exact Hm|].
  apply wp_bind. apply wp_put_iobuffer; [lia|].
  apply wp_bind. apply wp_put_dirty; [simpl; lia|].
  apply wp_bind. apply wp_put_bufrecnum; [simpl; lia|].
  apply wp_bind. apply wp_put_bufptr; [simpl; lia|].
  apply wp_bind, wp_file_of.
  apply wp_bind, wp_modify. apply wp_bind, wp_modify. apply wp_ret.
  split; [reflexivity|].
  split; simpl; rewrite ?upd_same; simpl; rewrite ?upd_same; simpl;
    try reflexivity.
  - intros G HG. rewrite !upd_other by exact HG. reflexivity.
  - unfold same_hdu. simpl. auto.
Qed.

(** The direct branch of [ffpbyt]. *)
Lemma ffpbyt_direct_spec (src : list byte) (w : world) :
  Inv w -> no_drift fptr w -> positioned fptr w ->
  MINDIRECT <= Z.of_nat (length src) ->
  wp (ffpbyt ffmahd fptr (Z.of_nat (length src)) src 0)
     (fun st w' =>
        st = 0 /\ Inv w' /\ no_drift fptr w' /\ positioned fptr w'
        /\ bytepos (files w' (Fptr fptr))
           = bytepos (files w (Fptr fptr)) + Z.of_nat (length src)
        /\ range_at w' (Fptr fptr) (bytepos (files w (Fptr fptr))) src
        /\ kept_outside w w' (Fptr fptr) (bytepos (files w (Fptr fptr)))
                        (bytepos (files w (Fptr fptr))
                         + Z.of_nat (length src))
        /\ same_hdus w w'
        /\ holds w' (curbuf (files w' (Fptr fptr))) (Fptr fptr)
                 ((bytepos (files w (Fptr fptr)) + Z.of_nat (length src) - 1)
                  / IOBUFLEN)
        /\ (forall i c, holds w' i (Fptr fptr) c ->
              bytepos (files w (Fptr fptr)) < (c + 1) * IOBUFLEN ->
              c * IOBUFLEN
              < bytepos (files w (Fptr fptr)) + Z.of_nat (length src) ->
              bytepos (files w (Fptr fptr)) + Z.of_nat (length src)
              <= (c + 1) * IOBUFLEN)) w.
Proof.
  intros HI Hnd (r & Hr & Hpos) Hn. pose proof IOBUFLEN_pos as HL.
  pose proof MINDIRECT_eq as HM.
  set (F := Fptr fptr) in *. set (pos := bytepos (files w F)) in *.
  set (n := Z.of_nat (length src)) in *.
  set (nbuff := curbuf (files w F)) in *.
  destruct (inv_owned _ _ HI _ _ _ Hr) as [Hr0 _].
  pose proof (holds_range w _ F _ (inv_slots _ _ HI) Hr) as Hnb.
  set (nspace := (r + 1) * IOBUFLEN - pos).
  set (k := (n - nspace - 1) / IOBUFLEN).
  assert (Hk : 0 <= k) by (apply Z.div_pos; unfold nspace; lia).
  assert (Hkq : Z.quot (n - nspace - 1) IOBUFLEN = k).
  { apply Z.quot_div_nonneg; unfold nspace; lia. }
  pose proof (Z.mul_div_le (n - nspace - 1) IOBUFLEN HL) as Hk1.
  pose proof (Z.mul_succ_div_gt (n - nspace - 1) IOBUFLEN HL) as Hk2.
  fold k in Hk1, Hk2.
  set (recend := r + 1 + k).
  assert (Hrecend : Z.quot (pos + n - 1) IOBUFLEN = recend).
  { rewrite Z.quot_div_nonneg by lia.
    replace (pos + n - 1) with ((r + 1) * IOBUFLEN + (n - nspace - 1))
      by (unfold nspace; lia).
    rewrite Z.div_add_l by lia. reflexivity. }
  unfold ffpbyt. change (Z.ltb 0 0) with false. cbv iota.
  eapply wp_bind_run; [apply sync_hdu_no_drift; exact Hnd|].
  destruct (Z.leb_spec MINDIRECT n) as [_|?]; [|lia].
  unfold ffpbyt_direct. cbv zeta. fold F.
  apply wp_bind, wp_file_of. fold pos nbuff.
  eapply wp_bind, wp_rdM; [exact (proj2 Hr)|].
  rewrite Hrecend.
  eapply wp_bind_wp.
  { apply (direct_head_spec n src r w HI Hnd Hr Hpos).
    fold F pos. lia. }
  cbv beta. fold F pos nbuff nspace.
  intros h wa (-> & HIa & Hfa & Hbpa & Hbra & Hka & Hna).
  cbv beta iota.
  eapply wp_bind_wp; [apply (direct_release_spec r recend wa HIa)|].
  cbv beta. fold F. intros st w1 (-> & HJ & Hmeta & Hrel).
  pose proof (fl_inv _ _ _ HJ) as HI1.
  pose proof (fl_views _ _ _ HJ) as Hv1.
  rewrite Hkq.
  assert (Hha : holds wa nbuff F r).
  { destruct Hr as [H1 H2]. split; [rewrite Hbpa | rewrite Hbra]; assumption. }
  assert (Hfree : forall G c, ~ holds w1 nbuff G c).
  { intros G c Hh. pose proof (fl_holds _ _ _ HJ _ _ _ Hh) as Hh'.
    destruct Hha as [A1 A2], Hh' as [B1 B2].
    assert (G = F) by congruence. assert (c = r) by congruence. subst G c.
    apply (Hrel nbuff r Hh). unfold recend. lia. }
  assert (Hfp : (r + 1) * IOBUFLEN <= filesize (files w1 F)).
  { destruct (rd_in_range (iobuffer wa) nbuff) as [x Hx].
    { destruct (inv_slots _ _ HIa) as (L1 & _). lia. }
    assert (Hv : views wa F r x) by (left; exists nbuff; auto).
    apply Hv1 in Hv. destruct Hv as [(i & Hi & _)|(_ & _ & Hsz & _)];
      [|exact Hsz].
    exfalso. apply (Hrel i r Hi). unfold recend. lia. }
  assert (Hlast : 1 <= n - nspace - k * IOBUFLEN <= IOBUFLEN) by lia.
  assert (Hcl : Z.of_nat (length (drop (Z.to_nat nspace) src)) = n - nspace).
  { rewrite length_drop. unfold n, nspace in *. lia. }
  apply (direct_mid (r + 1) k nbuff (drop (Z.to_nat nspace) src) w1);
    [exact HI1 | exact Hnb | lia | exact Hk | lia | exact Hfp|].
  intros base w4 D Hread.
  destruct D as [D1 D2 D3 D4 D5 D6 D7 D8 D9 D10 D11 D12 D13].
  destruct (inv_slots _ _ HI1) as (L1 & L2 & L3 & L4 & L5).
  eapply wp_mono.
  { apply (direct_tail_run nbuff recend
             ((r + 1) * IOBUFLEN + k * IOBUFLEN
              + (n - nspace - k * IOBUFLEN))
             (n - nspace - k * IOBUFLEN)
             (advance (drop (Z.to_nat nspace) src) (k * IOBUFLEN)) base w4).
    - unfold slots_ok. rewrite D1, D2, D3, D4, D5, length_insert. auto.
    - exact Hnb.
    - rewrite D1. apply rd_insert_eq. lia.
    - exact D13.
    - lia.
    - unfold advance. rewrite length_drop. lia. }
  cbv beta. fold F.
  intros st w' (-> & [A1 A2 A3 A4 A5 A6 A7 A8 A9 A10 A11 A12 A13 A14 A15 A16]).
  fold F in A2, A7, A8, A9, A10, A11, A12, A13, D7, D8, D9, D10, D11, Hread.
  set (buf' := take (Z.to_nat (n - nspace - k * IOBUFLEN))
                    (advance (drop (Z.to_nat nspace) src) (k * IOBUFLEN))
               ++ drop (Z.to_nat (n - nspace - k * IOBUFLEN)) base) in *.
  set (data := take (Z.to_nat (k * IOBUFLEN)) (drop (Z.to_nat nspace) src))
    in *.
  assert (Hdl : Z.of_nat (length data) = k * IOBUFLEN).
  { unfold data. rewrite length_take. lia. }
  destruct (Hmeta F) as (M1 & M2 & M3 & M4 & M5 & M6 & M7).
  destruct D10 as (N1 & N2 & N3 & N4 & N5 & N6 & N7).
  rewrite Hfa in M1, M2, M3, M4, M5, M6, M7.
  assert (E1 : iobuffer w' = <[Z.to_nat nbuff := buf']> (iobuffer w1)).
  { rewrite A1, D1. apply list_insert_insert_eq. }
  assert (E2 : bufptr w' = <[Z.to_nat nbuff := Some F]> (bufptr w1))
    by (rewrite A2, D2; reflexivity).
  assert (E3 : bufrecnum w' = <[Z.to_nat nbuff := recend]> (bufrecnum w1))
    by (rewrite A3, D3; reflexivity).
  assert (E4 : dirty w' = <[Z.to_nat nbuff := true]> (dirty w1))
    by (rewrite A4, D4; reflexivity).
  assert (E5 : ageindex w' = ageindex w1) by congruence.
  assert (E6 : ageinit w' = ageinit w1) by congruence.
  assert (E7 : forall G, G <> F ->
            files w' G = files w1 G /\ disk w' G = disk w1 G
            /\ ospos w' G = ospos w1 G).
  { intros G HG. rewrite (A7 G HG), A14, A15. apply (D7 G HG). }
  assert (Edisk : disk w' F = pwrite (disk w1 F) ((r + 1) * IOBUFLEN) data)
    by (rewrite A14; exact D8).
  assert (Esize : filesize (files w' F)
                  = Z.max (filesize (files w1 F)) (recend * IOBUFLEN)).
  { rewrite A8, D9, Hdl. f_equal. unfold recend. lia. }
  assert (Elog : logfilesize (files w' F)
                 = Z.max (logfilesize (files w1 F))
                         ((recend + 1) * IOBUFLEN))
    by (rewrite A9, N1; reflexivity).
  assert (Epos : ospos w' F = io_pos (files w' F))
    by (rewrite A15, A11; exact D11).
  assert (Efaults : io_faults w' = []) by (rewrite A16; exact D12).
  assert (Hi' : Inv w').
  { exact (done_inv F w1 w' nbuff r k pos src base buf' HI1 Hnb Hr0 Hpos Hk
             Hlast Hrel Hfp D13 eq_refl E1 E2 E3 E4 E5 E6 E7 Edisk Esize
             Elog Epos Efaults). }
  assert (Hh' : holds w' nbuff F recend).
  { apply (done_holds F w1 w' nbuff r k HI1 Hnb E2 E3). left. auto. }
  split; [reflexivity|]. split; [exact Hi'|].
  split.
  { unfold no_drift. fold F. destruct A13 as (-> & _). rewrite N4, M4.
    exact Hnd. }
  split.
  { exists recend. fold F. rewrite A12, N3, M3. fold nbuff.
    split; [exact Hh'|]. rewrite A10. unfold recend. lia. }
  split; [rewrite A10; unfold nspace; lia|].
  split; [|split].
  - intros t v Hv.
    destruct (Z.lt_ge_cases (Z.of_nat t) nspace) as [Hhead|Htail].
    + apply (done_kept F w1 w' nbuff r k pos src base buf' HI1 Hnb Hr0 Hpos
               Hk Hlast Hfree Hfp D13 Hread eq_refl E1 E2 E3 E7 Edisk Esize
               Elog).
      * right. left. unfold nspace in Hhead. lia.
      * apply (views_kept_byte_at wa w1 F _ v Hv1).
        apply (Hna t v Hhead Hv).
    + exact (done_written F w1 w' nbuff r k pos src base buf' HI1 Hnb Hr0
               Hpos Hk Hlast Hrel Hfp D13 eq_refl E1 E2 E3 Edisk Esize Elog
               t v Hv Htail).
  - intros G q v Hout Hb.
    apply (done_kept F w1 w' nbuff r k pos src base buf' HI1 Hnb Hr0 Hpos
             Hk Hlast Hfree Hfp D13 Hread eq_refl E1 E2 E3 E7 Edisk Esize
             Elog).
    + destruct Hout as [Hout|[Hout|Hout]]; [left; exact Hout | |].
      * right. left. lia.
      * right. right. exact Hout.
    + apply (views_kept_byte_at wa w1 G _ v Hv1).
      apply (Hka G q v); [|exact Hb].
      destruct Hout as [Hout|[Hout|Hout]]; [left; exact Hout | |].
      * right. left. exact Hout.
      * right. right. lia.
  - split.
    + intros G. destruct (Nat.eq_dec G F) as [->|HG].
      * destruct A13 as (B1 & B2 & B3 & B4). unfold same_hdu.
        rewrite B1, B2, B3, B4, N4, N5, N6, N7, M4, M5, M6, M7. auto.
      * destruct (E7 G HG) as (-> & _).
        destruct (Hmeta G) as (_ & _ & _ & B4 & B5 & B6 & B7).
        rewrite Hfa in B4, B5, B6, B7. unfold same_hdu. auto.
    + split.
      { fold F pos n. rewrite A12, N3, M3. fold nbuff.
        rewrite <- Z.quot_div_nonneg, Hrecend by lia. exact Hh'. }
      intros i c Hi Hc1 Hc2.
      apply (done_holds F w1 w' nbuff r k HI1 Hnb E2 E3) in Hi.
      destruct Hi as [(_ & _ & ->)|[_ Hi]]; [unfold recend; lia|].
      exfalso. apply (Hrel i c Hi). unfold recend. split; nia.
Qed.

End DirectWrite.


(** * Transfers of any size *)

Section Any.

Variable ffmahd : fitsfile -> Z -> Z -> M Z.
Variable fptr : fitsfile.

(** [ffpbyt], through the buffers or straight to the disk. *)
Lemma ffpbyt_any (src : list byte) (w : world) :
  Inv w -> no_drift fptr w -> positioned fptr w ->
  wp (ffpbyt ffmahd fptr (Z.of_nat (length src)) src 0)
     (fun st w' =>
        st = 0 /\ Inv w' /\ no_drift fptr w' /\ positioned fptr w'
        /\ bytepos (files w' (Fptr fptr))
           = bytepos (files w (Fptr fptr)) + Z.of_nat (length src)
        /\ range_at w' (Fptr fptr) (bytepos (files w (Fptr fptr))) src
        /\ kept_outside w w' (Fptr fptr) (bytepos (files w (Fptr fptr)))
                        (bytepos (files w (Fptr fptr))
                         + Z.of_nat (length src))
        /\ same_hdus w w') w.
Proof.
  intros HI Hnd Hp.
  destruct (Z.lt_ge_cases (Z.of_nat (length src)) MINDIRECT) as [Hlt|Hge].
  - destruct (wp_elim _ _ _ (ffpbyt_buffered ffmahd fptr src w HI Hnd Hp Hlt))
      as (st & w' & Hrun & -> & H1 & H2 & H3 & H4 & H5 & H6).
    pose proof (wlp_elim _ _ _ _ _
                  (ffpbyt_hd ffmahd (fun _ st => ret st) fptr _ src 0 w Hnd
                             Hlt) Hrun)
      as Hhd.
    apply (wp_intro _ _ _ 0 w' Hrun). cbv beta.
    split; [reflexivity|]. repeat (split; [assumption|]).
    exact Hhd.
  - eapply wp_mono; [apply (ffpbyt_direct_spec ffmahd fptr src w HI Hnd Hp Hge)|].
    cbv beta. intros st w' (-> & H1 & H2 & H3 & H4 & H5 & H6 & H7 & _).
    repeat (split; [assumption || reflexivity|]). exact H7.
Qed.

(** [ffgbyt], through the buffers or straight from the disk. *)
Lemma ffgbyt_any (src : list byte) (w : world) :
  Inv w -> no_drift fptr w -> positioned fptr w ->
  range_at w (Fptr fptr) (bytepos (files w (Fptr fptr))) src ->
  wp (ffgbyt ffmahd fptr (Z.of_nat (length src)) 0)
     (fun res w' => res = (0, src) /\ Inv w' /\ bytes_kept w w') w.
Proof.
  intros HI Hnd Hp Hsrc. pose proof IOBUFLEN_pos as HL.
  destruct (Z.lt_ge_cases (Z.of_nat (length src)) MINDIRECT) as [Hlt|Hge].
  - eapply wp_mono;
      [apply (ffgbyt_buffered ffmahd fptr src w HI Hnd Hp Hlt Hsrc)|].
    cbv beta. intros res w' (-> & H1 & _ & _ & _ & H2). auto.
  - destruct Hp as (r & Hr & Hpos).
    destruct (inv_owned _ _ HI _ _ _ Hr) as [Hr0 _].
    eapply wp_mono.
    { apply (ffgbyt_direct_spec ffmahd fptr src r w HI Hnd (proj2 Hr));
        [|nia | exact Hge | exact Hsrc].
      intros i c _ _ Hc _. nia. }
    cbv beta. intros res w' (-> & H1 & H2 & _). auto.
Qed.

(** X19.  A write ([ffpbyt]) of any number of bytes on a well-formed
    pool, from a position that lies in the record of the current buffer,
    succeeds, whether it goes through the buffers or, from [MINDIRECT]
    bytes on, straight to the disk: afterwards the bytes are in the file
    from the old position on, the position has advanced by their number
    and lies in the record of the current buffer again, and no other
    byte of this or of any other file has changed as seen through the
    pool. *)
Theorem ffpbyt_writes_range (src : list byte) (w : world) :
  Inv w -> no_drift fptr w -> positioned fptr w ->
  exists w',
    ffpbyt ffmahd fptr (Z.of_nat (length src)) src 0 w = Some (0, w')
    /\ Inv w' /\ no_drift fptr w' /\ positioned fptr w'
    /\ bytepos (files w' (Fptr fptr))
       = bytepos (files w (Fptr fptr)) + Z.of_nat (length src)
    /\ range_at w' (Fptr fptr) (bytepos (files w (Fptr fptr))) src
    /\ kept_outside w w' (Fptr fptr) (bytepos (files w (Fptr fptr)))
                    (bytepos (files w (Fptr fptr)) + Z.of_nat (length src)).
Proof.
  intros HI Hnd Hp.
  destruct (wp_elim _ _ _ (ffpbyt_any src w HI Hnd Hp))
    as (st & w' & Hrun & -> & H1 & H2 & H3 & H4 & H5 & H6 & _).
  exists w'. auto 10.
Qed.

(** Seek, write, seek back, read: any number of bytes. *)
Lemma trip_any (pos : Z) (src : list byte) (w : world) :
  Inv w -> no_drift fptr w ->
  cur_ok w (Fptr fptr) (Z.quot pos IOBUFLEN) -> 0 <= pos ->
  wp (write_read_trip ffmahd fptr pos src)
     (fun res w' => res = (0, src) /\ Inv w') w.
Proof.
  intros HI Hnd Hcur Hpos.
  unfold write_read_trip.
  eapply wp_bind_wp.
  { apply (ffmbyt_positions ffmahd fptr pos IGNORE_EOF w HI Hnd Hpos Hcur).
    discriminate. }
  cbv beta. intros st w1 (-> & HI1 & Hnd1 & Hp1 & Hbp1 & Hk1 & Hv1).
  eapply wp_bind_wp; [apply (ffpbyt_any src w1 HI1 Hnd1 Hp1)|].
  cbv beta. rewrite Hbp1.
  intros st w2 (-> & HI2 & Hnd2 & Hp2 & Hbp2 & Hr2 & Hk2 & _).
  eapply wp_bind_wp.
  { apply (ffmbyt_positions ffmahd fptr pos REPORT_EOF w2 HI2 Hnd2 Hpos).
    - apply positioned_cur_ok. exact Hp2.
    - intros _. destruct Hv1 as (v & Hv1).
      destruct src as [|v' src'].
      + exists v. apply (Hk2 (Fptr fptr)); [right; right; simpl; lia|].
        exact Hv1.
      + exists v'. replace pos with (pos + Z.of_nat 0) by lia.
        apply Hr2. reflexivity. }
  cbv beta. intros st w3 (-> & HI3 & Hnd3 & Hp3 & Hbp3 & Hk3 & _).
  eapply wp_mono.
  { apply (ffgbyt_any src w3 HI3 Hnd3 Hp3).
    rewrite Hbp3. apply (range_at_kept w2 w3); assumption. }
  cbv beta. intros res w4 (-> & HI4 & _). auto.
Qed.

(** X20.  On a well-formed pool in which the current buffer of the file
    is its own, writing any number of bytes at an offset and reading as
    many bytes back from that offset returns the bytes written, with
    status 0, whether the transfers go through the buffers or straight
    to the disk. *)
Theorem write_read_round_trip (pos : Z) (src : list byte) (w : world) :
  Inv w -> no_drift fptr w ->
  cur_ok w (Fptr fptr) (Z.quot pos IOBUFLEN) -> 0 <= pos ->
  exists w', write_read_trip ffmahd fptr pos src w = Some ((0, src), w').
Proof.
  intros HI Hnd Hcur Hpos.
  destruct (wp_elim _ _ _ (trip_any pos src w HI Hnd Hcur Hpos))
    as (res & w' & Hruns & -> & _).
  exists w'. exact Hruns.
Qed.

(** X21.  Bytes written are on the disk after the flush: on a
    consistent pool in which the current buffer of the file is its own,
    for a caller whose HDU is the current one, seek to an offset that
    is not negative, write any number of bytes, flush, and every byte
    written is at its offset of the disk image, inside the file. *)
Theorem written_bytes_reach_disk (pos : Z) (src : list byte) (clearbuf : Z)
    (w : world) :
  Inv w -> no_drift fptr w ->
  cur_ok w (Fptr fptr) (Z.quot pos IOBUFLEN) -> 0 <= pos ->
  exists w',
    write_and_flush ffmahd fptr pos src clearbuf w = Some (0, w')
    /\ Inv w'
    /\ forall t v, src !! t = Some v ->
         disk w' (Fptr fptr) !! Z.to_nat (pos + Z.of_nat t) = Some v
         /\ pos + Z.of_nat t < filesize (files w' (Fptr fptr)).
Proof.
  intros HI Hnd Hcur Hpos.
  assert (Hrun : wp (write_and_flush ffmahd fptr pos src clearbuf)
                    (fun st w' =>
                       st = 0 /\ Inv w'
                       /\ forall t v, src !! t = Some v ->
                            disk w' (Fptr fptr) !! Z.to_nat (pos + Z.of_nat t)
                            = Some v
                            /\ pos + Z.of_nat t
                               < filesize (files w' (Fptr fptr))) w).
  { unfold write_and_flush.
    eapply wp_bind_wp.
    { apply (ffmbyt_positions ffmahd fptr pos IGNORE_EOF w HI Hnd Hpos Hcur).
      discriminate. }
    cbv beta. intros st w1 (-> & HI1 & Hnd1 & Hp1 & Hbp1 & Hk1 & Hv1).
    eapply wp_bind_wp; [apply (ffpbyt_any src w1 HI1 Hnd1 Hp1)|].
    cbv beta. rewrite Hbp1.
    intros st w2 (-> & HI2 & Hnd2 & Hp2 & Hbp2 & Hr2 & Hk2 & _).
    eapply wp_mono; [apply (ffflsh_spec fptr clearbuf w2 HI2)|].
    cbv beta. intros st w3 (-> & [F1 F2 F3 F4 F5 F6] & Hdone).
    split; [reflexivity|]. split; [exact F1|].
    intros t v Hv.
    apply (clean_byte_on_disk w3 (Fptr fptr)); [exact F1 | lia | |].
    - intros i c Hi. exact (proj2 (Hdone i c Hi)).
    - apply (views_bytes_kept w2 w3 F2). apply Hr2. exact Hv. }
  destruct (wp_elim _ _ _ Hrun) as (st & w' & Hruns & -> & H).
  exists w'. split; [exact Hruns | exact H].
Qed.

(** Contiguous pixels, [MINDIRECT] of them or more: the write and the
    read both go straight to the disk. *)
Lemma pixel_trip_direct (pos : Z) (src : list byte) (w : world) :
  Inv w -> no_drift fptr w ->
  cur_ok w (Fptr fptr) (Z.quot pos IOBUFLEN) -> 0 <= pos ->
  MINDIRECT <= Z.of_nat (length src) ->
  wp (pixel_trip ffmahd fptr pos 1 src)
     (fun res _ => res = (0, src)) w.
Proof.
  intros HI Hnd Hcur Hpos Hge. pose proof IOBUFLEN_pos as HL.
  pose proof MINDIRECT_eq as HM.
  unfold pixel_trip, ffpi1b. change (Z.eqb 1 1) with true. cbv iota.
  eapply wp_bind_wp.
  { apply (ffmbyt_positions ffmahd fptr pos IGNORE_EOF w HI Hnd Hpos Hcur).
    discriminate. }
  cbv beta. intros st w1 (-> & HI1 & Hnd1 & Hp1 & Hbp1 & Hk1 & Hv1).
  eapply wp_bind_wp;
    [apply (ffpbyt_direct_spec ffmahd fptr src w1 HI1 Hnd1 Hp1 Hge)|].
  cbv beta. rewrite Hbp1.
  intros st w2 (-> & HI2 & Hnd2 & Hp2 & Hbp2 & Hr2 & Hk2 & _ & Hcur2 & Hh2).
  set (n := Z.of_nat (length src)) in *.
  pose proof (Z.mul_div_le (pos + n - 1) IOBUFLEN HL) as Hc1.
  pose proof (Z.mul_succ_div_gt (pos + n - 1) IOBUFLEN HL) as Hc2.
  eapply wp_mono.
  { apply (ffgi1b_direct_spec ffmahd fptr pos src _ w2 HI2 Hnd2 (proj2 Hcur2));
      [|exact Hpos | exact Hge | exact Hr2].
    intros i c Hi _ Hlo Hhi. fold n in Hhi.
    pose proof (Hh2 i c Hi Hlo Hhi) as Hend.
    pose proof (Z.div_lt_upper_bound (pos + n - 1) IOBUFLEN (c + 1) HL
                  ltac:(lia)).
    lia. }
  cbv beta. intros res w3 (-> & _). reflexivity.
Qed.

(** X22.  Pixels of one byte written with [ffpi1b] are read back by
    [ffgi1b]: on a consistent pool in which the current buffer of the
    file is its own, for a caller whose HDU is the current one, after a
    seek to an offset [pos] that is not negative, writing the bytes
    [incre] apart ([incre = 1] for contiguous bytes, of which there may
    be any number, so that from [MINDIRECT] on both transfers go
    straight to the disk; at least one byte for a larger increment) and
    reading as many from [pos] with the same increment returns the
    bytes written, with status 0. *)
Theorem pixel_round_trip (pos incre : Z) (src : list byte) (w : world) :
  Inv w -> no_drift fptr w ->
  cur_ok w (Fptr fptr) (Z.quot pos IOBUFLEN) ->
  0 <= pos -> 1 <= incre ->
  (incre <> 1 -> 1 <= Z.of_nat (length src)) ->
  exists w', pixel_trip ffmahd fptr pos incre src w = Some ((0, src), w').
Proof.
  intros HI Hnd Hcur Hpos Hinc Hmany.
  assert (Hrun : wp (pixel_trip ffmahd fptr pos incre src)
                    (fun res _ => res = (0, src)) w).
  { destruct (Z.eq_dec incre 1) as [->|E].
    - destruct (Z.lt_ge_cases (Z.of_nat (length src)) MINDIRECT) as [Hlt|Hge].
      + unfold pixel_trip, ffpi1b, ffgi1b. change (Z.eqb 1 1) with true.
        cbv iota.
        destruct (Z.ltb_spec (Z.of_nat (length src)) MINDIRECT) as [_|?];
          [|lia].
        eapply wp_mono.
        * exact (buffered_trip_spec ffmahd fptr pos src w HI Hnd Hcur Hpos
                   Hlt).
        * cbv beta. intros res w' (-> & _). reflexivity.
      + apply pixel_trip_direct; assumption.
    - pose proof IOBUFLEN_pos as HL. specialize (Hmany E).
      unfold pixel_trip, ffpi1b, ffgi1b.
      destruct (Z.eqb_spec incre 1) as [?|_]; [contradiction|].
      apply (strided_trip_spec ffmahd fptr pos 1 (Z.of_nat (length src))
               (incre - 1) src w); try assumption; lia. }
  destruct (wp_elim _ _ _ Hrun) as (res & w' & Hruns & ->).
  exists w'. exact Hruns.
Qed.

Section AnyTable.

Variable ffrdef : fitsfile -> Z -> M Z.

(** X23.  Bytes written into a table with [ffptbb] are read back by
    [ffgtbb].  In a consistent pool, for a caller whose HDU is the
    current one of the file, a table whose data start is known and
    whose rows are not empty, and a current buffer of the file that is
    the file's own or carries another record number than the one
    written to first: writing any number of bytes, at least one, at a
    row and a byte number, both at least 1, that stay within the range
    of [long] (the row, the byte number and the count add up to at most
    [LONG_MAX], and so does the offset of the first byte with the
    count) succeeds, leaves [numrows] at the larger of its old value
    and the last row written, and a read of as many bytes at the same
    place returns them with status 0. *)
Theorem table_round_trip (numrows firstrow firstchar : Z) (src : list byte)
    (w : world) :
  Inv w -> no_drift fptr w ->
  cur_ok w (Fptr fptr)
         (Z.quot (table_offset (files w (Fptr fptr)) firstrow firstchar)
                 IOBUFLEN) ->
  0 <= datastart (files w (Fptr fptr)) ->
  0 < rowlength (files w (Fptr fptr)) ->
  1 <= firstrow -> 1 <= firstchar ->
  1 <= Z.of_nat (length src) ->
  firstrow + firstchar + Z.of_nat (length src) <= LONG_MAX ->
  table_offset (files w (Fptr fptr)) firstrow firstchar
  + Z.of_nat (length src) <= LONG_MAX ->
  exists w',
    table_trip ffmahd ffrdef fptr numrows firstrow firstchar src w
    = Some (((0, src),
             Z.max numrows
                   (Z.quot (firstchar + Z.of_nat (length src) - 2)
                           (rowlength (files w (Fptr fptr))) + firstrow)),
            w').
Proof.
  intros HI Hnd Hcur Hds Hrl Hfr Hfc Hlen Hsum Hlast.
  pose proof IOBUFLEN_pos as HL.
  set (F := Fptr fptr) in *.
  set (n := Z.of_nat (length src)) in *.
  set (rl := rowlength (files w F)) in *.
  set (off := table_offset (files w F) firstrow firstchar) in *.
  set (endrow := Z.quot (firstchar + n - 2) rl + firstrow).
  assert (Hoff : 0 <= off) by (unfold off, table_offset; fold rl; nia).
  assert (Hlong : lsub (ladd (ladd (datastart (files w F))
                                   (lmul (lsub firstrow 1) rl)) firstchar) 1
                  = off).
  { apply long_offset_exact; try assumption.
    unfold off, table_offset in Hlast. fold rl in Hlast. fold rl. lia. }
  destruct (long_endrow_exact firstrow firstchar n rl Hrl Hfr Hfc Hlen Hsum)
    as [Hdiv Hend].
  (* the write *)
  destruct (wp_elim _ _ _ (ffmbyt_positions ffmahd fptr off IGNORE_EOF w
                             HI Hnd Hoff Hcur ltac:(discriminate)))
    as (st1 & w1 & Hrun1 & -> & HI1 & Hnd1 & Hp1 & Hbp1 & Hk1 & Hv1).
  pose proof (wlp_elim _ _ _ _ _
                (ffmbyt_hd ffmahd ffrdef fptr off IGNORE_EOF 0 w Hnd) Hrun1)
    as Hhd1.
  destruct (wp_elim _ _ _ (ffpbyt_any src w1 HI1 Hnd1 Hp1))
    as (st2 & w2 & Hrun2 & -> & HI2 & Hnd2 & Hp2 & Hbp2 & Hr2 & Hk2 & Hhd2).
  fold n in Hrun2.
  pose proof (same_hdus_trans _ _ _ Hhd1 Hhd2 F) as (_ & _ & Eds & Erl).
  fold F in Hbp1, Hr2. rewrite Hbp1 in Hr2.
  assert (Hput : ffptbb ffmahd ffrdef fptr numrows firstrow firstchar n src 0 w
                 = Some ((0, Z.max numrows endrow), w2)).
  { unfold ffptbb. change (Z.ltb 0 0) with false. simpl orb.
    destruct (Z.leb_spec n 0); [lia|].
    destruct (Z.ltb_spec firstrow 1); [lia|].
    destruct (Z.ltb_spec firstchar 1); [lia|].
    cbn [orb]. cbv iota. unfold bind at 1, file_of, gets. fold F.
    unfold no_drift in Hnd. fold F in Hnd. rewrite Hnd, Z.eqb_refl.
    simpl negb. cbv iota.
    destruct (Z.ltb_spec (datastart (files w F)) 0); [lia|].
    unfold bind at 1, ret. unfold bind at 1, gets.
    cbv zeta. fold rl. rewrite Hlong.
    unfold bind at 1. rewrite Hrun1.
    unfold bind at 1. rewrite Hrun2.
    unfold bind at 1, gets. rewrite Erl. fold rl.
    rewrite Hdiv, Hend. change (negb true) with false. cbv iota.
    fold endrow. unfold ret. do 3 f_equal.
    destruct (Z.ltb_spec numrows endrow); lia. }
  (* the read *)
  assert (Eoff2 : table_offset (files w2 F) firstrow firstchar = off).
  { unfold off, table_offset. rewrite Eds, Erl. reflexivity. }
  assert (Hfirst : exists v, byte_at w2 F off v).
  { destruct (lookup_lt_is_Some_2 src 0) as [v Hv]; [unfold n in Hlen; lia|].
    exists v. replace off with (off + Z.of_nat 0) by lia.
    apply Hr2. exact Hv. }
  destruct (wp_elim _ _ _ (ffmbyt_positions ffmahd fptr off REPORT_EOF w2
                             HI2 Hnd2 Hoff
                             (positioned_cur_ok fptr w2 _ Hp2)
                             (fun _ => Hfirst)))
    as (st3 & w3 & Hrun3 & -> & HI3 & Hnd3 & Hp3 & Hbp3 & Hk3 & _).
  assert (Hr3 : range_at w3 (Fptr fptr) (bytepos (files w3 (Fptr fptr))) src).
  { rewrite Hbp3. apply (range_at_kept w2 w3); assumption. }
  destruct (wp_elim _ _ _ (ffgbyt_any src w3 HI3 Hnd3 Hp3 Hr3))
    as (res & w4 & Hrun4 & -> & _).
  fold n in Hrun4.
  assert (Hget : ffgtbb ffmahd fptr (Z.max numrows endrow) firstrow firstchar
                        n 0 w2
                 = Some ((0, src), w4)).
  { rewrite ffgtbb_unfold; try lia; try assumption;
      [|fold F; rewrite Erl; exact Hrl].
    fold F. rewrite Erl, Eds. fold rl. rewrite Hlong. fold endrow.
    destruct (Z.ltb_spec (Z.max numrows endrow) endrow); [lia|].
    unfold bind at 1. rewrite Hrun3. exact Hrun4. }
  exists w4. unfold table_trip. fold n.
  unfold bind at 1. rewrite Hput. simpl fst. simpl snd.
  unfold bind at 1. rewrite Hget. reflexivity.
Qed.

End AnyTable.

End Any.

(** ** Witnesses *)

(** Two records of data written straight to the disk from the start of
    the new file 0. *)
Lemma ffpbyt_writes_range_witness :
  exists w',
    ffpbyt nav0 f0
      (Z.of_nat (length (replicate (Z.to_nat (2 * IOBUFLEN)) "x"%byte)))
      (replicate (Z.to_nat (2 * IOBUFLEN)) "x"%byte) 0 loaded0
    = Some (0, w')
    /\ range_at w' (Fptr f0) (bytepos (files loaded0 (Fptr f0)))
                (replicate (Z.to_nat (2 * IOBUFLEN)) "x"%byte).
Proof.
  destruct (ffpbyt_writes_range nav0 f0
              (replicate (Z.to_nat (2 * IOBUFLEN)) "x"%byte) loaded0)
    as (w' & H1 & _ & _ & _ & _ & H2 & _).
  - exact (ld_inv _ _ _ _ loaded0_loaded).
  - exact loaded0_no_drift.
  - exact loaded0_positioned.
  - exists w'. split; [exact H1 | exact H2].
Defined.

(** Two records of data across the boundaries of the records 0, 1 and 2,
    written and read straight to and from the disk. *)
Lemma write_read_round_trip_witness :
  exists w',
    write_read_trip nav0 f0 2879
      (replicate (Z.to_nat (2 * IOBUFLEN)) "x"%byte) loaded0
    = Some ((0, replicate (Z.to_nat (2 * IOBUFLEN)) "x"%byte), w').
Proof.
  apply (write_read_round_trip nav0 f0 2879
           (replicate (Z.to_nat (2 * IOBUFLEN)) "x"%byte) loaded0).
  - exact (ld_inv _ _ _ _ loaded0_loaded).
  - exact loaded0_no_drift.
  - exact loaded0_cur_ok.
  - lia.
Defined.

(** Two bytes across the boundary of the records 0 and 1. *)
Lemma written_bytes_reach_disk_witness :
  exists w',
    write_and_flush nav0 f0 2879 ["X"%byte; "Y"%byte] 1 loaded0
    = Some (0, w')
    /\ disk w' (Fptr f0) !! Z.to_nat 2879 = Some "X"%byte
    /\ disk w' (Fptr f0) !! Z.to_nat 2880 = Some "Y"%byte.
Proof.
  destruct (written_bytes_reach_disk nav0 f0 2879
              ["X"%byte; "Y"%byte] 1 loaded0) as (w' & H1 & _ & H2).
  - exact (ld_inv _ _ _ _ loaded0_loaded).
  - exact loaded0_no_drift.
  - exact loaded0_cur_ok.
  - lia.
  - exists w'. split; [exact H1|]. split.
    + exact (proj1 (H2 0%nat "X"%byte eq_refl)).
    + exact (proj1 (H2 1%nat "Y"%byte eq_refl)).
Defined.

(** Three pixels, seven bytes apart, across the boundary of the records
    0 and 1 of file 0. *)
Lemma pixel_round_trip_witness :
  exists w',
    pixel_trip nav0 f0 2875 7 ["X"%byte; "Y"%byte; "Z"%byte] loaded0
    = Some ((0, ["X"%byte; "Y"%byte; "Z"%byte]), w').
Proof.
  apply (pixel_round_trip nav0 f0 2875 7 ["X"%byte; "Y"%byte; "Z"%byte]
           loaded0).
  - exact (ld_inv _ _ _ _ loaded0_loaded).
  - exact loaded0_no_drift.
  - exact loaded0_cur_ok.
  - lia.
  - lia.
  - intros _. simpl. lia.
Defined.

(** Three bytes written at the start of row 5 of the empty table and
    read back: the table has 5 rows afterwards. *)
Lemma table_round_trip_witness :
  exists w',
    table_trip nav0 rdef0 f0 0 5 1 ["F"%byte; "I"%byte; "T"%byte] table0
    = Some (((0, ["F"%byte; "I"%byte; "T"%byte]), 5), w').
Proof.
  destruct (table_round_trip nav0 f0 rdef0 0 5 1
              ["F"%byte; "I"%byte; "T"%byte] table0) as (w' & H).
  - exact (ld_inv _ _ _ _ table0_loaded).
  - exact table0_no_drift.
  - exists 0. split; [vm_compute; reflexivity|].
    intros E. vm_compute in E. discriminate E.
  - vm_compute. discriminate.
  - rewrite table0_rowlength. lia.
  - lia.
  - lia.
  - simpl. lia.
  - vm_compute. discriminate.
  - vm_compute. discriminate.
  - exists w'. rewrite H. rewrite table0_rowlength. reflexivity.
Defined.


(** * Reading past the end of the file *)

(** ** Worlds that differ in one position *)

Lemma only_moved_set (w w1 : world) (F : nat) (p q : Z) :
  only_moved w w1 F p ->
  only_moved w (upd_file F (with_bytepos q) w1) F q.
Proof.
  intros [H1 H2 H3 H4 H5 H6 H7 H8].
  split; try assumption.
  - intros G HG. unfold upd_file, upd. simpl.
    destruct (Nat.eqb_spec G F) as [E|_]; [contradiction|]. apply H7, HG.
  - unfold upd_file, upd. simpl. rewrite Nat.eqb_refl, H8. reflexivity.
Qed.

Lemma only_moved_start (w : world) (F : nat) :
  only_moved w w F (bytepos (files w F)).
Proof.
  split; try reflexivity.
  - repeat split.
  - destruct (files w F). reflexivity.
Qed.

Lemma only_moved_holds (w w1 : world) (F : nat) (p : Z) (i : Z) (G : nat)
    (c : Z) :
  only_moved w w1 F p -> holds w1 i G c <-> holds w i G c.
Proof.
  intros [(_ & E1 & E2 & _) _ _ _ _ _ _ _]. unfold holds.
  rewrite E1, E2. reflexivity.
Qed.

Lemma only_moved_slots (w w1 : world) (F : nat) (p : Z) :
  only_moved w w1 F p -> slots_ok w -> slots_ok w1.
Proof.
  intros [(E0 & E1 & E2 & E3 & _) E4 _ _ _ _ _ _]. unfold slots_ok.
  rewrite E0, E1, E2, E3, E4. tauto.
Qed.

Lemma only_moved_same_cache (w w1 : world) (F : nat) (p : Z) :
  only_moved w w1 F p -> same_cache w w1.
Proof.
  intros [(E0 & E1 & E2 & E3 & E4) E5 E6 E7 E8 _ E9 E10].
  unfold same_cache. rewrite E0, E1, E2, E3, E4, E5, E6, E7, E8.
  repeat (split; [reflexivity|]). split; [|repeat split].
  intros G. destruct (decide (G = F)) as [->|HG].
  - rewrite E10. repeat split.
  - rewrite (E9 G HG). repeat split.
Qed.

Section PastEof.

Variable ffmahd : fitsfile -> Z -> Z -> M Z.
Variable fptr : fitsfile.

(** ** The refused load *)

(** With REPORT_EOF, [ffldrc] refuses a record that is in no buffer and
    starts at or after the logical end of the file, whatever the status
    on entry; it changes nothing. *)
Lemma ffldrc_refuses (b st : Z) (w : world) :
  no_drift fptr w -> slots_ok w -> ages_in_range w ->
  (forall i, ~ holds w i (Fptr fptr) b) ->
  logfilesize (files w (Fptr fptr)) <= b * IOBUFLEN ->
  ffldrc ffmahd fptr b REPORT_EOF st w = Some (END_OF_FILE, w).
Proof.
  intros Hnd Hs Ha Hno Hlog. unfold ffldrc.
  unfold bind at 1. rewrite (sync_hdu_no_drift ffmahd fptr st w Hnd).
  unfold bind at 1, reads.
  rewrite (ffldrc_search_none w (Fptr fptr) _ Hs Ha Hno).
  unfold bind at 1, file_of, gets.
  change (Z.eqb REPORT_EOF 0) with true.
  destruct (Z.leb_spec (logfilesize (files w (Fptr fptr))) (b * IOBUFLEN));
    [|lia].
  reflexivity.
Qed.

Variables (w : world) (r : Z).

Let F := Fptr fptr.

Hypothesis HI : Inv w.
Hypothesis Hnd : no_drift fptr w.
Hypothesis Hr : 0 <= r.
Hypothesis Hlast : forall i c, holds w i F c -> c <= r.
Hypothesis Hlog : logfilesize (files w F) <= (r + 1) * IOBUFLEN.

(** The load that the loop asks for once the position has reached the
    end of record [r]. *)
Lemma ffldrc_past_last (w1 : world) (p st : Z) :
  only_moved w w1 F p -> (r + 1) * IOBUFLEN <= p ->
  ffldrc ffmahd fptr (Z.quot p IOBUFLEN) REPORT_EOF st w1
  = Some (END_OF_FILE, w1).
Proof.
  intros HM Hp. pose proof IOBUFLEN_pos as HL.
  assert (Hq : r + 1 <= Z.quot p IOBUFLEN).
  { rewrite Z.quot_div_nonneg by nia.
    apply Z.div_le_lower_bound; lia. }
  pose proof HM as [(E0 & E1 & E2 & E3 & E4) E5 E6 E7 E8 E9 E10 E11].
  apply ffldrc_refuses.
  - unfold no_drift. fold F. rewrite E11. exact Hnd.
  - exact (only_moved_slots _ _ _ _ HM (inv_slots _ _ HI)).
  - unfold ages_in_range. rewrite E3.
    exact (perm_in_range w (inv_ages _ _ HI)).
  - intros i Hi. apply (only_moved_holds _ _ _ _ _ _ _ HM) in Hi.
    specialize (Hlast _ _ Hi). lia.
  - fold F. rewrite E11. simpl. nia.
Qed.

(** ** The loop after the refusal *)

(** Once the position stands at or after the end of the last record,
    every further turn copies from the start of the buffer that is
    still current, moves the position, and is refused the next
    record. *)
Lemma ffgbyt_loop_past_eof (fuel : nat) :
  forall (ntodo : Z) (out : list byte) (w1 : world) (p : Z),
    0 <= ntodo -> (Z.to_nat ntodo <= fuel)%nat ->
    only_moved w w1 F p -> (r + 1) * IOBUFLEN <= p ->
    0 <= curbuf (files w F) < NIOBUF ->
    wp (ffgbyt_loop ffmahd fuel fptr ntodo out 0 IOBUFLEN END_OF_FILE)
       (fun res w2 =>
          fst res = END_OF_FILE
          /\ Z.of_nat (length (snd res)) = Z.of_nat (length out) + ntodo
          /\ take (length out) (snd res) = out
          /\ only_moved w w2 F (p + ntodo)) w1.
Proof.
  pose proof IOBUFLEN_pos as HL.
  induction fuel as [|fuel IH]; intros ntodo out w1 p H0 Hf HM Hp Hcur.
  - assert (ntodo = 0) as -> by lia.
    apply wp_ret. simpl. rewrite take_ge by lia.
    replace (p + 0) with p by lia.
    split; [reflexivity|]. split; [lia|]. split; [reflexivity | exact HM].
  - rewrite ffgbyt_loop_S.
    destruct (Z.eqb_spec ntodo 0) as [E|E].
    { subst ntodo. apply wp_ret. simpl. rewrite take_ge by lia.
      replace (p + 0) with p by lia.
    split; [reflexivity|]. split; [lia|]. split; [reflexivity | exact HM]. }
    cbv zeta. fold F.
    set (nread := Z.min ntodo IOBUFLEN).
    assert (Hn : 1 <= nread <= ntodo /\ nread <= IOBUFLEN)
      by (unfold nread; lia).
    pose proof HM as [(E0 & E1 & E2 & E3 & E4) E5 E6 E7 E8 E9 E10 E11].
    destruct (inv_slots _ _ HI) as (L1 & L2 & L3 & L4 & L5).
    destruct (rd_in_range (iobuffer w) (curbuf (files w F))) as [buf Hbuf];
      [lia|].
    pose proof (inv_bufs _ _ HI _ buf Hbuf) as Hbl.
    apply wp_bind, wp_file_of.
    rewrite E11. simpl curbuf. simpl bytepos.
    eapply wp_bind, wp_rdM; [rewrite E0; exact Hbuf|].
    eapply wp_bind, wp_lift; [apply memcpy_from_Some; lia|].
    set (chunk := take (Z.to_nat nread) (drop (Z.to_nat 0) buf)).
    assert (Hcl : Z.of_nat (length chunk) = nread).
    { unfold chunk. rewrite length_take, length_drop. lia. }
    apply wp_bind, wp_modify.
    pose proof (only_moved_set w w1 F p (p + nread) HM) as HM2.
    destruct (Z.eqb_spec (ntodo - nread) 0) as [Ez|Ez].
    { apply wp_ret. simpl. rewrite length_app, take_app_length.
      replace (p + ntodo) with (p + nread) by lia.
      split; [reflexivity|]. split; [lia|]. split; [reflexivity | exact HM2]. }
    apply wp_bind, wp_file_of.
    assert (Hbp : bytepos (files (upd_file F (with_bytepos (p + nread)) w1) F)
                  = p + nread).
    { rewrite (om_file _ _ _ _ HM2). reflexivity. }
    rewrite Hbp.
    eapply wp_bind_run;
      [apply (ffldrc_past_last _ (p + nread) _ HM2); lia|].
    eapply wp_mono.
    + apply (IH (ntodo - nread) (out ++ chunk) _ (p + nread));
        [lia | lia | exact HM2 | lia | exact Hcur].
    + intros [st res] w2 (R1 & R2 & R3 & R4). simpl in *.
      split; [exact R1|]. split; [rewrite length_app in R2; lia|].
      split.
      * rewrite <- (take_app_length out chunk) at 2. rewrite <- R3.
        rewrite take_take. f_equal. rewrite length_app. lia.
      * replace (p + ntodo) with (p + nread + (ntodo - nread)) by lia.
        exact R4.
Qed.

(** ** The whole read *)

(** A buffered read that starts in the last record [r] of the file and
    asks for more than is left of it. *)
Lemma ffgbyt_past_eof_spec (n : Z) :
  holds w (curbuf (files w F)) F r ->
  r * IOBUFLEN <= bytepos (files w F) <= (r + 1) * IOBUFLEN ->
  n < MINDIRECT ->
  (r + 1) * IOBUFLEN < bytepos (files w F) + n ->
  wp (ffgbyt ffmahd fptr n 0)
     (fun res w' =>
        fst res = END_OF_FILE
        /\ Z.of_nat (length (snd res)) = n
        /\ only_moved w w' F (bytepos (files w F) + n)
        /\ (forall (t : nat) v,
              bytepos (files w F) + Z.of_nat t < (r + 1) * IOBUFLEN ->
              byte_at w F (bytepos (files w F) + Z.of_nat t) v ->
              snd res !! t = Some v)) w.
Proof.
  intros Hh Hpos Hn Hover. pose proof IOBUFLEN_pos as HL.
  set (pos := bytepos (files w F)) in *.
  set (bufpos := pos - r * IOBUFLEN).
  set (ns := IOBUFLEN - bufpos).
  destruct (inv_slots _ _ HI) as (L1 & L2 & L3 & L4 & L5).
  pose proof (holds_range w _ F r (inv_slots _ _ HI) Hh) as Hcur.
  destruct (rd_in_range (iobuffer w) (curbuf (files w F))) as [buf Hbuf];
    [lia|].
  pose proof (inv_bufs _ _ HI _ buf Hbuf) as Hbl.
  unfold ffgbyt. change (Z.ltb 0 0) with false. cbv iota.
  eapply wp_bind_run; [apply (sync_hdu_no_drift ffmahd fptr 0 w Hnd)|].
  destruct (Z.leb_spec MINDIRECT n) as [Hge|_]; [lia|].
  apply wp_bind, wp_file_of.
  eapply wp_bind, wp_rdM; [exact (proj2 Hh)|].
  cbv zeta. fold F. fold pos. fold bufpos. fold ns.
  rewrite ffgbyt_loop_S.
  destruct (Z.eqb_spec n 0) as [E|_]; [unfold ns, bufpos in *; lia|].
  cbv zeta. fold F.
  replace (Z.min n ns) with ns by (unfold ns, bufpos; lia).
  apply wp_bind, wp_file_of.
  eapply wp_bind, wp_rdM; [exact Hbuf|].
  eapply wp_bind, wp_lift;
    [apply memcpy_from_Some; unfold ns, bufpos; lia|].
  set (chunk := take (Z.to_nat ns) (drop (Z.to_nat bufpos) buf)).
  assert (Hcl : Z.of_nat (length chunk) = ns).
  { unfold chunk. rewrite length_take, length_drop. unfold ns, bufpos. lia. }
  apply wp_bind, wp_modify. fold pos.
  pose proof (only_moved_set w w F pos (pos + ns) (only_moved_start w F))
    as HM.
  destruct (Z.eqb_spec (n - ns) 0) as [Ez|_];
    [unfold ns, bufpos in *; lia|].
  apply wp_bind, wp_file_of.
  assert (Hbp : bytepos (files (upd_file F (with_bytepos (pos + ns)) w) F)
                = pos + ns).
  { rewrite (om_file _ _ _ _ HM). reflexivity. }
  rewrite Hbp.
  eapply wp_bind_run;
    [apply (ffldrc_past_last _ (pos + ns) _ HM); unfold ns, bufpos; lia|].
  eapply wp_mono.
  - apply (ffgbyt_loop_past_eof (Z.to_nat n) (n - ns) ([] ++ chunk) _
             (pos + ns));
      [unfold ns, bufpos; lia | unfold ns, bufpos; lia | exact HM
       | unfold ns, bufpos; lia | exact Hcur].
  - intros [st res] w2 (R1 & R2 & R3 & R4). simpl in *.
    split; [exact R1|]. split; [lia|]. split.
    + replace (pos + n) with (pos + ns + (n - ns)) by lia. exact R4.
    + intros t v Ht Hv.
      assert (Htn : (t < length chunk)%nat) by (unfold ns, bufpos in *; lia).
      rewrite <- (lookup_take_lt res (length chunk) t Htn), R3.
      unfold chunk. rewrite lookup_take_lt by lia. rewrite lookup_drop.
      replace (Z.to_nat bufpos + t)%nat
        with (Z.to_nat (bufpos + Z.of_nat t)) by (unfold bufpos; lia).
      apply (byte_at_cached (fun _ => False) w (curbuf (files w F)) F r
               (bufpos + Z.of_nat t) buf v HI Hh Hbuf);
        [unfold bufpos; lia|].
      replace (r * IOBUFLEN + (bufpos + Z.of_nat t))
        with (pos + Z.of_nat t) by (unfold bufpos; lia).
      exact Hv.
Qed.

End PastEof.

(** X24.  A buffered read ([nbytes < MINDIRECT]) that starts in the
    last record [r] of a file and asks for more bytes than are left of
    that record ends with END_OF_FILE, not with a failure to run: it
    returns [nbytes] bytes, of which those before the end of record [r]
    are the bytes of the file; the file's position has moved on by
    [nbytes], beyond the end of the file, and nothing else in the pool,
    the files or on disk has changed. *)
Theorem ffgbyt_past_eof_reports_end_of_file
    (ffmahd : fitsfile -> Z -> Z -> M Z) (fptr : fitsfile) (n r : Z)
    (w : world) :
  Inv w -> no_drift fptr w ->
  holds w (curbuf (files w (Fptr fptr))) (Fptr fptr) r ->
  r * IOBUFLEN <= bytepos (files w (Fptr fptr)) <= (r + 1) * IOBUFLEN ->
  n < MINDIRECT ->
  (r + 1) * IOBUFLEN < bytepos (files w (Fptr fptr)) + n ->
  (forall i c, holds w i (Fptr fptr) c -> c <= r) ->
  logfilesize (files w (Fptr fptr)) <= (r + 1) * IOBUFLEN ->
  exists out w',
    ffgbyt ffmahd fptr n 0 w = Some ((END_OF_FILE, out), w')
    /\ Z.of_nat (length out) = n
    /\ only_moved w w' (Fptr fptr) (bytepos (files w (Fptr fptr)) + n)
    /\ (forall (t : nat) v,
          bytepos (files w (Fptr fptr)) + Z.of_nat t < (r + 1) * IOBUFLEN ->
          byte_at w (Fptr fptr) (bytepos (files w (Fptr fptr)) + Z.of_nat t) v ->
          out !! t = Some v).
Proof.
  intros HI Hnd Hh Hpos Hn Hover Hlast Hlog.
  pose proof (proj1 (inv_owned _ _ HI _ _ _ Hh)) as Hr.
  destruct (wp_elim _ _ _
              (ffgbyt_past_eof_spec ffmahd fptr w r HI Hnd Hr Hlast Hlog n
                 Hh Hpos Hn Hover))
    as ([st out] & w' & Hrun & Hst & Hlen & HM & Hout).
  simpl in Hst, Hlen, Hout. subst st.
  exists out, w'. split; [exact Hrun|]. split; [exact Hlen|].
  split; [exact HM | exact Hout].
Qed.

(** The witness: the new file 0, whose only record is in its buffer, is
    read from its start for five bytes more than the record has. *)
Lemma ffgbyt_past_eof_reports_end_of_file_witness :
  exists out w',
    ffgbyt nav0 f0 (IOBUFLEN + 5) 0 loaded0 = Some ((END_OF_FILE, out), w')
    /\ Z.of_nat (length out) = IOBUFLEN + 5
    /\ only_moved loaded0 w' (Fptr f0)
                  (bytepos (files loaded0 (Fptr f0)) + (IOBUFLEN + 5))
    /\ (forall (t : nat) v,
          bytepos (files loaded0 (Fptr f0)) + Z.of_nat t
          < (0 + 1) * IOBUFLEN ->
          byte_at loaded0 (Fptr f0)
                  (bytepos (files loaded0 (Fptr f0)) + Z.of_nat t) v ->
          out !! t = Some v).
Proof.
  apply (ffgbyt_past_eof_reports_end_of_file nav0 f0 (IOBUFLEN + 5) 0 loaded0).
  - exact (ld_inv _ _ _ _ loaded0_loaded).
  - exact loaded0_no_drift.
  - exact (ld_cur _ _ _ _ loaded0_loaded).
  - vm_compute. split; discriminate.
  - vm_compute. reflexivity.
  - vm_compute. reflexivity.
  - intros i c [_ Hc].
    assert (Hall : Forall (fun x => x <= 0) (bufrecnum loaded0))
      by (apply (bool_decide_unpack _); vm_compute; exact I).
    unfold rd in Hc. destruct (i <? 0); [discriminate|].
    exact (proj1 (Forall_lookup _ _) Hall _ _ Hc).
  - vm_compute. discriminate.
Defined.
